(* ===== verification/_CoqProject ===== *)
-Q . S2P
Prelude.v
Layer1.v
ServiceApi.v
Hex.v
Auth.v
Kv.v
DaemonRna.v
ExternalTypes.v
ExternalStore.v
ExternalEngine.v
ExternalSafety.v
ExternalCarrier.v
ExternalDemo.v
ExternalTheorems.v
ExternalLiveness.v
MpcMerkle.v
MpcBlock.v
MpcTree.v
MpcMerge.v
MpcDemo.v
AluReg.v
AluNumber.v
AluCursor.v
AluInstr.v
AluBytecode.v
AluLib.v
AluRegs.v
AluExec.v
AluShift.v
AluFrame.v
AluProgress.v
AluVm.v
RgbTypes.v
RgbOrder.v
RgbSchema.v
RgbIsa.v
RgbLogic.v
RgbScripts.v
RgbValidator.v
RgbLedger.v
RgbAnchor.v
RgbSchemata.v
OpsState.v
OpsHistory.v
OpsIndex.v
OpsStash.v
OpsStock.v
OpsInvalid.v
OpsWitness.v
OpsConsign.v
OpsComplete.v
RgbDemo.v
InvoiceAmount.v
LnTx.v
LnSession.v
LnMachine.v
LnAgree.v
LnSign.v
LnRun.v
LnSound.v
LnKept.v
LnFunding.v
LnDemo.v
LnSecrets.v
