(* ===== verification/Prelude.v ===== *)
(** * rgb-service: verification library

    rgb-service is a daemon that holds RGB assets for its users, and the crates it is
    built from.  RGB is a smart-contract system over Bitcoin: the state of a contract is
    a set of assignments, each bound to a transaction output (a single-use seal); an
    operation spends assignments and makes new ones, and is committed to by the
    transaction that spends the outputs.  The state is validated by clients, with the
    scripts of the contract's schema run on a register machine (AluVM).

    This library translates the parts below into executable definitions and proves
    what makes them correct.  Paths are under src/crates.

    ** The daemon

    - ServiceApi: the authorization types and the dispatch of the external endpoints
      (rgb-service-api/src/auth.rs, error.rs, external.rs, axum_service.rs).
      [external_dispatch_gate]: what reaches the service is authorized.
    - Auth and Hex: request signatures and hexadecimal text (rgb-service-daemon/src/main.rs,
      [ConfiguredAuthVerifier], [hex_encode], [hex_decode]).  Requests are accepted only
      fresh and signed for their permission, and signatures cannot change permission.
    - Kv: the key-value store as the daemon uses it: a transaction is a function on the
      database, and each write takes its outcome from a list of outcomes, so that
      theorems cover failing writes and crashes.
    - DaemonRna: the metering ledger of main.rs: profiles, charges, refunds and idempotent
      credits; exactness, exactly-once credits and 64-bit bounds.
    - ExternalTypes, ExternalStore, ExternalEngine: the external-operation engine
      (rgb-service-daemon/src/external.rs) with all its requests ([execute_locked]), its
      recovery worker ([scan_operations]) and its store.  A method with a mutable
      record is a state transformer on database and record, so what was changed before
      an early return stays changed.  The chain, the proxy and the RGB stock are the
      record [Env], whose answers are arbitrary at each call; the bitcoin and RGB crates
      are the record [Lib].
    - ExternalSafety, ExternalCarrier, ExternalTheorems: the invariant of the engine and
      its consequences in every state that requests, worker rounds, other writers and
      crashes can reach: no outpoint is held twice, inputs of sends stay locked,
      operations persist, settled operations are confirmed; carriers and signed
      transactions that are accepted are safe; replays, pages and balances.
    - ExternalLiveness: no due operation waits for ever, and a signed send settles in a
      world that cooperates.
    - ExternalDemo: a concrete world on which the witnesses run the engine.

    ** AluVM (rgb-aluvm/src)

    - AluReg, AluNumber: registers, flags, numbers and their arithmetic.
    - AluCursor, AluInstr, AluBytecode, AluLib: code segments, the instruction set, its
      encoding and the assembler; a disassembled library is the program that was
      assembled.
    - AluRegs, AluExec, AluShift, AluFrame: the register file and the effect of each
      instruction, panics included; the byte-wise shifts are integer shifts, and an
      instruction changes the registers it reports.
    - AluProgress, AluVm: runs.  [Lib_loop] and [Vm_exec] take fuel and answer [None] when
      it runs out; [vm_terminates] gives a bound of the fuel, from the complexity limit
      or from the absence of the waiting [Nop].

    ** RGB consensus (rgb-consensus/src) and schemata (rgb-schemas/src)

    - MpcMerkle, MpcBlock, MpcTree, MpcMerge: multi-protocol commitments (commit_verify/merkle.rs
      and mpc): the tree that commits one message for each protocol, its partially
      concealed blocks, the proofs of one message.  [tree_proofs]: a tree commits to
      exactly its messages; [merge_reveal_spec]: blocks of one commitment merge past
      every assertion of the source and reveal what either did.  MpcDemo has injective
      identifiers on which the witnesses run.
    - Layer1, RgbTypes, RgbOrder: chains, operations, seals, assignments and the order of
      operations by the position of their witnesses.
    - RgbSchema: occurrence rules, schemata, failures, [Schema::verify].
    - RgbIsa: the contract instructions that scripts read an operation with; an instance
      of the extension interface of AluVM, so its theorems apply to scripts.
    - RgbLogic: the validation of one operation (validation/logic.rs).
      [validate_state_refines]: the code implements the declarative [state_valid].
    - RgbScripts, RgbSchemata: the scripts and schemata of the library.  The bytecode is
      assembled by the assembler of AluLib and run by validation: what the scripts of
      the non-inflatable, collectible and permissioned assets decide.
    - RgbValidator: the validation of a consignment (validation/validator.rs), with the
      closing of seals, anchors, witness resolution and the DAG of outputs.
    - RgbLedger: [validation_is_ledger_run], a refinement of the validator to a ledger of
      single-use seals, and [supply_bounded], no inflation.
    - RgbAnchor: the merkle proofs of MpcBlock as the commitments of the validator;
      [one_bundle_per_witness], a witness commits to one bundle of a contract.
    - RgbDemo: a contract and a consignment on which the witnesses run validation.

    ** The stock of a client (rgb-ops/src)

    - OpsState: the contract state in memory (persistence/memory.rs, state.rs, contract/mod.rs,
      assignments.rs): how operations are added and read, witnesses, invalid bundles; the
      instance of the state interface that the validator runs with.
    - OpsHistory: [validation_panics_in_script]: with this state, validation reaches no
      panic but those of scripts; [history_read_back]: what is read at an output is what
      the history assigned there; [contract_view_complete]; [global_newest_first].
    - OpsIndex: the index (persistence/index.rs, memory.rs); [index_exact]: it holds what
      the indexed bundles say, no more and no less.
    - OpsStash: the stash (persistence/stash.rs, memory.rs, contract/merge_reveal.rs,
      containers/anchors.rs): storing and merging what consignments bring.
    - OpsStock: the stock (persistence/stock.rs), made of the three: taking in consignments
      and fascias, and following the chain.  OpsInvalid: [invalidation_exact], which
      bundles are marked as invalid; OpsWitness: [witness_statuses_updated], the statuses
      after an update.
    - OpsConsign, OpsComplete: making a consignment from the history or a fascia;
      [consignment_complete]: it is closed under the inputs of its transitions, ordered,
      and the walk ends.  [fascia_consignment_complete] is the same for a fascia, and
      [sort_bundles_sorts] shows that bundles without a cycle are sorted.

    - InvoiceAmount: amounts, precisions, coins and allocations of invoices
      (rgb-ops/invoice/src/amount.rs, data.rs).  [coin_text_exact]: which amounts survive
      their text; [coin_text_grouped], [amount_text_roundtrip] and
      [allocation_text_roundtrip] for the other texts, [amount_round_nearest].

    ** Lightning (ln-rgb-lightning/src)

    - LnTx: the data of interactive transaction construction (ln/interactivetxs.rs,
      ln/msgs.rs) and [NegotiationContext], what the two peers have added so far, with the
      handlers of sent and received messages.
    - LnSession: the transaction that is constructed from it and the signing session.
    - LnMachine: the state machine of a negotiation and the constructor that answers the
      messages of the peer.
    - LnAgree: [peers_agree]: the sessions of two peers hold one transaction.  LnSign:
      [signing_completes]: their exchange of signatures ends with it signed on both sides.
    - LnRun, LnSound, LnKept: a constructor against an arbitrary peer, as a step relation
      with an invariant: [negotiation_ends], [constructed_sound] (what is signed is
      admissible) and [contributions_kept] (the holder's part is what it offered).
    - LnFunding: the inputs and the change of the holder (ln/funding.rs, ln/channel.rs);
      [change_exact] and [funding_check_sufficient].
    - LnDemo: two peers on which the witnesses run a negotiation, and its limits.
    - LnSecrets: the storage of revocation secrets (ln/chan_utils.rs);
      [secrets_recovered] for any peer, [honest_secrets_recovered] for one that follows
      the protocol.

    ** Interfaces

    Third-party code is a record or a class of operations that the definitions take:
    [Crypto] (Auth), [Lib] and [Env] (engine), [Wide] and [Floats] (integers and floats
    of the amplify and apfloat crates), [Digests] and [Secp] (AluVM), [TypeLibrary]
    (strict-types), [OperationIds] and [ContainerIds] (tagged hashes), [Ecdsa],
    [BitcoinTx], [DbcProofs] and [Daggy] (validator), [MerkleIds] (tagged hashes of
    merkle nodes), [SealHash] and [TypeSystemExtend] (stash), [Base32] (invoices),
    [Bitcoin] and [Signatures] (Lightning), [HashOrder] (the order in which a hash map is
    iterated); the hash of LnSecrets is an argument.  What a theorem needs of them is a
    hypothesis or a law of the class, with a witness that satisfies it.
    [Mpc] is what the validator asks of merkle proofs; RgbAnchor implements
    it.  The traits of the source are classes: [AuthVerifier], [Bytecode] with
    [BytecodeLaws], [InstructionSet], [ContractStateAccess], [ContractStateEvolve],
    [ExposedSeal], [TxoSeal], [ResolveWitness].

    ** Widths and fuel

    Integers are [Z] with the checked, saturating or wrapping operation of the source
    written out (this file).  Fuel occurs in these places: [Lib_loop] and [Vm_exec], where
    [vm_terminates] shows how much is enough; [disassemble], where the length of the
    program is; [validate_state], which hands it to the script, where the script
    theorems name the fuel that suffices; the loops of MpcBlock and MpcMerge, which
    get the lengths of the cross-sections they shorten, shown to be enough by
    [tree_proofs] and [merge_reveal_spec]; the recursions of the stock:
    [invalidation_exact] and [consignment_complete] give the fuel of the descendants and
    of the walk of the history, while [witness_statuses_updated] holds with any.  The
    decimal digits of InvoiceAmount take 20, as a 64-bit number has no more.

    ** Not modelled

    Serialization derives and text formats of consensus data; the bitcoin commitments
    behind [DbcProofs]; the other routes and services of the daemon (wallets, swaps,
    imports) and the local service, which orchestrate I/O; the builders, the URIs of
    invoices and the text and file formats of rgb-ops, and its composition of
    transactions; the coloring of PSBTs; the command line and console front ends; of the
    lightning fork all but the construction of funding transactions and the revocation
    secrets: channels, commitment and closing transactions, the monitor, routing and
    onions are a system of their own, and its serialization is not modelled.

    This file holds what all parts share: results of fallible code, the state and error
    monad [SE] with its rules, machine integers, and lemmas on lists and strings. *)

From stdpp Require Export base gmap strings list fin_maps sorting.
From Stdlib Require Export ZArith Lia.

(** ** Results of fallible Rust code *)

Declare Scope rust_scope.
Delimit Scope rust_scope with rust.

(** Rust's [Result<A, E>]. *)
Inductive result (E A : Type) : Type :=
| Ok (a : A)
| Err (e : E).
Arguments Ok {E A} a.
Arguments Err {E A} e.

#[export] Instance result_ret {E} : MRet (result E) := fun A a => Ok a.
#[export] Instance result_bind {E} : MBind (result E) := fun A B f m =>
  match m with Ok a => f a | Err e => Err e end.
#[export] Instance result_fmap {E} : FMap (result E) := fun A B f m =>
  match m with Ok a => Ok (f a) | Err e => Err e end.

Definition is_ok {E A} (r : result E A) : bool :=
  match r with Ok _ => true | Err _ => false end.

(** [Option::ok_or]. *)
Definition ok_or {E A} (o : option A) (e : E) : result E A :=
  match o with Some a => Ok a | None => Err e end.

(** [Result::map_err]. *)
Definition map_err {E F A} (f : E -> F) (r : result E A) : result F A :=
  match r with Ok a => Ok a | Err e => Err (f e) end.

(** The early return [if b { return Err(e) }]. *)
Definition ensure {E} (b : bool) (e : E) : result E unit :=
  if b then Ok tt else Err e.

Lemma ensure_Ok {E} (b : bool) (e : E) u : ensure b e = Ok u <-> b = true.
Proof. destruct b, u; naive_solver. Qed.

Lemma ensure_Err {E} (b : bool) (e e' : E) : ensure b e = Err e' <-> b = false /\ e' = e.
Proof. destruct b; naive_solver. Qed.

Lemma result_bind_Ok {E A B} (m : result E A) (f : A -> result E B) b :
  (m ≫= f) = Ok b <-> exists a, m = Ok a /\ f a = Ok b.
Proof. destruct m; cbn; naive_solver. Qed.

Lemma result_seq_Ok {E B} (m : result E unit) (n : result E B) b :
  (m ;; n) = Ok b <-> m = Ok tt /\ n = Ok b.
Proof. destruct m as [[]|e]; cbn; naive_solver. Qed.

Lemma ok_or_Ok {E A} (o : option A) (e : E) a : ok_or o e = Ok a <-> o = Some a.
Proof. destruct o; naive_solver. Qed.

Lemma map_err_Ok {E F A} (f : E -> F) (r : result E A) a :
  map_err f r = Ok a <-> r = Ok a.
Proof. destruct r; naive_solver. Qed.

(** An error of the type [E], or a panic *)
Inductive Fault (E : Type) : Type :=
| Panics (why : string)
| Fails (e : E).
Arguments Panics {E}.
Arguments Fails {E}.

(** [?] on a result whose error converts by [f] *)
Definition fault_map {E F A} (f : E -> F) (r : result (Fault E) A) : result (Fault F) A :=
  map_err (fun e => match e with Panics why => Panics why | Fails e => Fails (f e) end) r.

(** [for x in l { f(x)?; }] without state, and [Iterator::try_for_each] *)
Fixpoint try_each {E A} (l : list A) (f : A -> result E unit) : result E unit :=
  match l with
  | [] => Ok tt
  | x :: l' => f x ;; try_each l' f
  end.

Lemma try_each_Ok {E A} (l : list A) (f : A -> result E unit) :
  try_each l f = Ok tt <-> forall x, x ∈ l -> f x = Ok tt.
Proof.
  induction l as [|x l IH]; cbn; [split; [set_solver|done]|]. rewrite result_bind_Ok. split.
  - intros ([] & Hx & Hl) y [->|Hy]%elem_of_cons; [done|]. by apply IH.
  - intros Hf. exists tt. split; [by apply Hf; left|]. apply IH. intros y Hy. by apply Hf; right.
Qed.

(** A loop that ends with an error fails in some round. *)
Lemma try_each_Err {E A} (l : list A) (f : A -> result E unit) e :
  try_each l f = Err e -> exists x, x ∈ l /\ f x = Err e.
Proof.
  induction l as [|x l IH]; cbn; [done|]. destruct (f x) as [[]|e'] eqn:Ex; cbn.
  - intros (y & Hy & He)%IH. exists y. split; [by right|done].
  - intros [= ->]. exists x. split; [by left|done].
Qed.

(** ** Stateful fallible code

    A Rust method that mutates state [S] and returns [Result<A, E>].  The
    state survives an early return: what was written before a [?] stays
    written. *)

Definition SE (S E A : Type) : Type := S -> S * result E A.

#[export] Instance SE_ret {S E} : MRet (SE S E) := fun A a s => (s, Ok a).
#[export] Instance SE_bind {S E} : MBind (SE S E) := fun A B f m s =>
  match m s with
  | (s', Ok a) => f a s'
  | (s', Err e) => (s', Err e)
  end.

Definition lift {S E A} (r : result E A) : SE S E A := fun s => (s, r).
Definition get {S E} : SE S E S := fun s => (s, Ok s).
Definition gets {S E A} (f : S -> A) : SE S E A := fun s => (s, Ok (f s)).
Definition put {S E} (s' : S) : SE S E unit := fun _ => (s', Ok tt).
Definition modify {S E} (f : S -> S) : SE S E unit := fun s => (f s, Ok tt).
Definition fail {S E A} (e : E) : SE S E A := fun s => (s, Err e).

(** Runs [m] and hands its outcome to the caller as a value, as a [match] on
    the call does. *)
Definition attempt {S E A} (m : SE S E A) : SE S E (result E A) := fun s =>
  let '(s', r) := m s in (s', Ok r).

(** [for x in l { f(x)?; }] *)
Fixpoint for_each {S E A} (l : list A) (f : A -> SE S E unit) : SE S E unit :=
  match l with
  | [] => mret tt
  | x :: l' => f x ;; for_each l' f
  end.

(** Weakest precondition of a stateful computation: [Q] holds of the final
    state and outcome, on success and on failure alike. *)
Definition wp {S E A} (m : SE S E A) (Q : S -> result E A -> Prop) (s : S) : Prop :=
  Q (m s).1 (m s).2.

Section wp_rules.
Context {S E : Type}.

Lemma wp_mono {A} (m : SE S E A) (P Q : S -> result E A -> Prop) s :
  wp m P s -> (forall s' r, P s' r -> Q s' r) -> wp m Q s.
Proof. unfold wp. auto. Qed.

Lemma wp_ret {A} (a : A) (Q : S -> result E A -> Prop) s :
  Q s (Ok a) -> wp (mret a) Q s.
Proof. done. Qed.

Lemma wp_bind {A B} (m : SE S E A) (f : A -> SE S E B) Q s :
  wp m (fun s' r => match r with
                    | Ok a => wp (f a) Q s'
                    | Err e => Q s' (Err e) end) s ->
  wp (m ≫= f) Q s.
Proof.
  unfold wp, mbind, SE_bind. destruct (m s) as [s' [a|e]]; done.
Qed.

Lemma wp_lift {A} (r : result E A) (Q : S -> result E A -> Prop) s :
  Q s r -> wp (lift r) Q s.
Proof. done. Qed.

Lemma wp_gets {A} (f : S -> A) (Q : S -> result E A -> Prop) s :
  Q s (Ok (f s)) -> wp (gets f) Q s.
Proof. done. Qed.

Lemma wp_get (Q : S -> result E S -> Prop) s : Q s (Ok s) -> wp get Q s.
Proof. done. Qed.

Lemma wp_put s' (Q : S -> result E unit -> Prop) s :
  Q s' (Ok tt) -> wp (put s') Q s.
Proof. done. Qed.

Lemma wp_modify (f : S -> S) (Q : S -> result E unit -> Prop) s :
  Q (f s) (Ok tt) -> wp (modify f) Q s.
Proof. done. Qed.

Lemma wp_fail {A} (e : E) (Q : S -> result E A -> Prop) s :
  Q s (Err e) -> wp (fail e) Q s.
Proof. done. Qed.

Lemma wp_attempt {A} (m : SE S E A) (Q : S -> result E (result E A) -> Prop) s :
  wp m (fun s' r => Q s' (Ok r)) s -> wp (attempt m) Q s.
Proof. unfold wp, attempt. destruct (m s); done. Qed.

(** A loop keeps what each round keeps. *)
Lemma wp_for_each {A} (l : list A) (f : A -> SE S E unit) (I : S -> Prop) s :
  (forall x s, x ∈ l -> I s -> wp (f x) (fun s' _ => I s') s) ->
  I s -> wp (for_each l f) (fun s' _ => I s') s.
Proof.
  revert s. induction l as [|x l IH]; intros s Hf Hs; cbn; [done|].
  apply wp_bind. eapply wp_mono; [apply Hf; [by left|done]|].
  intros s' [[]|e] Hs'; cbn in *; [|done].
  apply IH; [|done]. intros y t Hy. apply Hf. by right.
Qed.

End wp_rules.

(** A computation that succeeds is made of steps that succeed. *)
Lemma SE_bind_Ok {S E A B} (m : SE S E A) (f : A -> SE S E B) s s' b :
  (m ≫= f) s = (s', Ok b) <-> exists s1 a, m s = (s1, Ok a) /\ f a s1 = (s', Ok b).
Proof.
  unfold mbind, SE_bind. destruct (m s) as [s1 [a|e]]; split.
  - eauto.
  - by intros (? & ? & [= <- <-] & ?).
  - done.
  - by intros (? & ? & ? & ?).
Qed.

Lemma lift_Ok {S E A} (r : result E A) (s s' : S) a : lift r s = (s', Ok a) <-> s' = s /\ r = Ok a.
Proof. unfold lift. split; [by intros [= -> ->]|by intros [-> ->]]. Qed.

Lemma modify_Ok {S E} (f : S -> S) s s' a : modify (E := E) f s = (s', Ok a) <-> s' = f s.
Proof. unfold modify. destruct a. split; [by intros [= ->]|by intros ->]. Qed.

Lemma gets_Ok {S E A} (f : S -> A) s s' a : gets (E := E) f s = (s', Ok a) <-> s' = s /\ a = f s.
Proof. unfold gets. split; [by intros [= -> ->]|by intros [-> ->]]. Qed.

(** A loop that succeeds takes a relation along its rounds. *)
Lemma for_each_Ok {S E A} (f : A -> SE S E unit) (R : list A -> S -> Prop) l s s' :
  R [] s -> for_each l f s = (s', Ok tt) ->
  (forall done x s1 s2, x ∈ l -> R done s1 -> f x s1 = (s2, Ok tt) -> R (done ++ [x]) s2) -> R l s'.
Proof.
  assert (forall pre s, R pre s -> for_each l f s = (s', Ok tt) ->
    (forall done x s1 s2, x ∈ l -> R done s1 -> f x s1 = (s2, Ok tt) -> R (done ++ [x]) s2) -> R (pre ++ l) s') as Hgen;
    [|by apply (Hgen [])].
  clear s. induction l as [|x l IH]; intros pre s H0 Hl Hf; cbn in Hl.
  - rewrite app_nil_r. by injection Hl as <-.
  - apply SE_bind_Ok in Hl as (s1 & [] & Hx & Hl). rewrite cons_middle, (assoc_L (++)).
    apply (IH _ s1); [eapply Hf; [by left|done..]|done|]. intros pre' y t1 t2 Hy. apply Hf. by right.
Qed.

(** Symbolic execution of a stateful computation: applies the [wp] rules until
    a call that has a specification of its own, or a branch, is met. *)
Ltac wp_step :=
  lazymatch goal with
  | |- wp (_ ≫= _) _ _ => apply wp_bind
  | |- wp (mret _) _ _ => apply wp_ret
  | |- wp (lift _) _ _ => apply wp_lift
  | |- wp (gets _) _ _ => apply wp_gets
  | |- wp get _ _ => apply wp_get
  | |- wp (put _) _ _ => apply wp_put
  | |- wp (modify _) _ _ => apply wp_modify
  | |- wp (fail _) _ _ => apply wp_fail
  | |- wp (attempt _) _ _ => apply wp_attempt
  end.

Ltac wp_steps := repeat (wp_step; cbn beta iota).

(** ** Machine integers

    A [w]-bit unsigned integer is a [Z] in [0, 2^w); the operations write out
    what the Rust ones do at the edge of the range. *)

Local Open Scope Z_scope.

Definition umax (w : Z) : Z := 2 ^ w - 1.
Definition is_uint (w n : Z) : bool := (0 <=? n) && (n <=? umax w).

Definition checked_add (w a b : Z) : option Z :=
  if a + b <=? umax w then Some (a + b) else None.
Definition checked_sub (a b : Z) : option Z :=
  if b <=? a then Some (a - b) else None.
Definition saturating_add (w a b : Z) : Z := Z.min (a + b) (umax w).
Definition saturating_sub (a b : Z) : Z := Z.max 0 (a - b).
Definition saturating_mul (w a b : Z) : Z := Z.min (a * b) (umax w).

Lemma checked_add_Some w a b c :
  checked_add w a b = Some c <-> c = a + b /\ a + b <= umax w.
Proof. unfold checked_add. case_match; split; intros; simplify_eq; lia || naive_solver lia. Qed.

Lemma checked_sub_Some a b c : checked_sub a b = Some c <-> c = a - b /\ b <= a.
Proof. unfold checked_sub. case_match; split; intros; simplify_eq; lia || naive_solver lia. Qed.

(** [Iterator::try_fold] with [checked_add] over [w]-bit addends. *)
Fixpoint checked_sum (w : Z) (acc : Z) (l : list Z) : option Z :=
  match l with
  | [] => Some acc
  | x :: l' => checked_add w acc x ≫= fun acc' => checked_sum w acc' l'
  end.

Definition sumZ (l : list Z) : Z := foldr Z.add 0 l.

Lemma sumZ_app l k : sumZ (l ++ k) = sumZ l + sumZ k.
Proof. unfold sumZ. induction l; cbn; lia. Qed.

Lemma sumZ_nonneg l : Forall (fun n => 0 <= n) l -> 0 <= sumZ l.
Proof. unfold sumZ. induction 1; cbn; lia. Qed.

(** A checked sum that returns is the mathematical sum, and it is in range. *)
Lemma checked_sum_sound w acc l s : checked_sum w acc l = Some s -> s = acc + sumZ l.
Proof.
  revert acc. induction l as [|x l IH]; intros acc; cbn; [intros [= <-]; lia|].
  intros (a & [-> _]%checked_add_Some & ->%IH)%bind_Some. unfold sumZ. cbn. lia.
Qed.

Lemma checked_sum_Some w acc l s :
  Forall (fun x => 0 <= x) l -> acc <= umax w ->
  checked_sum w acc l = Some s <-> s = acc + sumZ l /\ s <= umax w.
Proof.
  revert acc. induction l as [|x l IH]; intros acc Hl Hacc; cbn.
  - split; [intros [= <-]; lia|intros [-> ?]; f_equal; lia].
  - inversion Hl; subst.
    assert (0 <= sumZ l) by (clear -H2; unfold sumZ; induction H2; cbn; lia).
    unfold checked_add. destruct (Z.leb_spec (acc + x) (umax w)); cbn.
    + rewrite IH by done. unfold sumZ. split; intros [-> ?]; lia.
    + unfold sumZ in *. split; [done|intros [-> ?]; lia].
Qed.

(** *** Filtered lists *)

Lemma NoDup_map_filter {A B} (f : A -> B) (P : A -> Prop) `{forall x, Decision (P x)} l :
  NoDup (map f l) -> NoDup (map f (filter P l)).
Proof. intros Hd. eapply sublist_NoDup; [exact Hd|]. apply fmap_sublist, sublist_filter. Qed.

Lemma filter_ext_in {A} (P Q : A -> Prop) `{forall x, Decision (P x)} `{forall x, Decision (Q x)} (l : list A) :
  (forall x, x ∈ l -> P x <-> Q x) -> filter P l = filter Q l.
Proof.
  induction l as [|x l IH]; intros HPQ; [done|]. rewrite !filter_cons, IH by (intros y Hy; apply HPQ; by right).
  pose proof (HPQ x (list_elem_of_here x l)). do 2 case_decide; naive_solver.
Qed.

Lemma filter_map {A B} (f : A -> B) (P : B -> Prop) `{forall x, Decision (P x)} (l : list A) :
  filter P (map f l) = map f (filter (fun a => P (f a)) l).
Proof. induction l as [|x l IH]; [done|]. cbn [map]. rewrite !filter_cons, IH. by case_decide. Qed.

(** A chain of guards: the branch taken. *)
Lemma bool_if_true {A} (b : bool) (x y : A) : b = true -> (if b then x else y) = x.
Proof. by intros ->. Qed.
Lemma bool_if_false {A} (b : bool) (x y : A) : b = false -> (if b then x else y) = y.
Proof. by intros ->. Qed.

(** ** Byte strings *)

(** [&str] and [&[u8]] are both strings of 8-bit characters. *)

Definition byte_val (c : Ascii.ascii) : Z := Z.of_N (Ascii.N_of_ascii c).
Definition byte_of (n : Z) : Ascii.ascii := Ascii.ascii_of_N (Z.to_N (n mod 256)).

(** [uN::to_be_bytes] for an integer of [k] bytes. *)
Fixpoint be_bytes (k : nat) (n : Z) : string :=
  match k with
  | O => ""
  | S k' => String (byte_of (n / 2 ^ (8 * Z.of_nat k'))) (be_bytes k' n)
  end.

Lemma append_cons c (s t : string) : String c s +:+ t = String c (s +:+ t).
Proof. done. Qed.

Lemma append_nil_r (s : string) : s +:+ "" = s.
Proof. induction s as [|c s IH]; [done|]. by rewrite append_cons, IH. Qed.

Lemma append_assoc (s t u : string) : (s +:+ t) +:+ u = s +:+ (t +:+ u).
Proof. induction s as [|c s IH]; [done|]. by rewrite !append_cons, IH. Qed.

Definition str_len (s : string) : Z := Z.of_nat (String.length s).
Definition str_is_empty (s : string) : bool :=
  match s with EmptyString => true | _ => false end.

(** Rust orders strings and key-value stores order keys bytewise. *)
Definition str_leb (a b : string) : bool := String.leb a b.
Definition str_ltb (a b : string) : bool := String.ltb a b.

(** Removes one leading character of Unicode [White_Space] (UTF-8 encoded). *)
Definition strip_space (s : string) : option string :=
  match s with
  | EmptyString => None
  | String c1 s1 =>
    let b1 := byte_val c1 in
    if (b1 =? 32) || ((9 <=? b1) && (b1 <=? 13)) then Some s1 else
    match s1 with
    | EmptyString => None
    | String c2 s2 =>
      let b2 := byte_val c2 in
      if (b1 =? 194) && ((b2 =? 133) || (b2 =? 160)) then Some s2 else
      match s2 with
      | EmptyString => None
      | String c3 s3 =>
        let b3 := byte_val c3 in
        if ((b1 =? 225) && (b2 =? 154) && (b3 =? 128)) ||
           ((b1 =? 226) && (b2 =? 128) &&
              (((128 <=? b3) && (b3 <=? 138)) || (b3 =? 168) || (b3 =? 169) || (b3 =? 175))) ||
           ((b1 =? 226) && (b2 =? 129) && (b3 =? 159)) ||
           ((b1 =? 227) && (b2 =? 128) && (b3 =? 128))
        then Some s3 else None
      end
    end
  end.

Fixpoint blank_fuel (fuel : nat) (s : string) : bool :=
  match fuel with
  | O => str_is_empty s
  | S f => if str_is_empty s then true else
           match strip_space s with None => false | Some s' => blank_fuel f s' end
  end.

(** [s.trim().is_empty()]: nothing but white space; a string has at most as
    many characters as bytes. *)
Definition blank (s : string) : bool := blank_fuel (String.length s) s.

Example blank_ex : blank (String (byte_of 226) (String (byte_of 128) (String (byte_of 168) " "))) = true
                   /\ blank " x" = false /\ blank "" = true.
Proof. vm_compute. auto. Qed.

(** ** JSON values ([serde_json::Value]) *)

#[warnings="-register-all"]
Inductive Value :=
| VNull
| VBool (b : bool)
| VNum (n : Z)
| VFloat (text : string)
| VStr (s : string)
| VArr (l : list Value)
| VObj (fields : list (string * Value)).

(** [Value::get]: the member of an object. *)
Definition vget (v : Value) (key : string) : option Value :=
  match v with
  | VObj fields => snd <$> head (filter (fun kv => kv.1 = key) fields)
  | _ => None
  end.

(** [value["key"]]: [Null] when there is no such member. *)
Definition vindex (v : Value) (key : string) : Value := default VNull (vget v key).

Definition v_is_null (v : Value) : bool := match v with VNull => true | _ => false end.
Definition v_as_bool (v : Value) : option bool := match v with VBool b => Some b | _ => None end.
Definition v_as_str (v : Value) : option string := match v with VStr s => Some s | _ => None end.
Definition v_as_i64 (v : Value) : option Z :=
  match v with
  | VNum n => if (- 2 ^ 63 <=? n) && (n <? 2 ^ 63) then Some n else None
  | _ => None
  end.
Definition v_as_u64 (v : Value) : option Z :=
  match v with VNum n => if is_uint 64 n then Some n else None | _ => None end.
