(* ===== verification/Layer1.v ===== *)
(** * Layer-1 chains (crates/rgb-consensus/src/operation/layer1.rs) *)

From S2P Require Import Prelude.

Inductive Layer1 := L1_Bitcoin | L1_Liquid.

#[export] Instance Layer1_eq_dec : EqDecision Layer1.
Proof. solve_decision. Defined.

Inductive ChainNet :=
| BitcoinMainnet | BitcoinTestnet3 | BitcoinTestnet4 | BitcoinSignet
| BitcoinRegtest | LiquidMainnet | LiquidTestnet | BitcoinSignetCustom (chain_hash : string).

#[export] Instance ChainNet_eq_dec : EqDecision ChainNet.
Proof. solve_decision. Defined.

Definition layer1 (c : ChainNet) : Layer1 :=
  match c with LiquidMainnet | LiquidTestnet => L1_Liquid | _ => L1_Bitcoin end.
