(* ===== verification/ServiceApi.v ===== *)
(** * The service boundary (crates/rgb-service-api)

    The errors, the authorization data, the external-operation requests and
    the HTTP dispatch that stands between a request and the service:
    [authorize], [authorize_asset_spend] and [external_dispatch] of
    axum_service.rs.  The verifier is an interface ([AuthVerifier]); the file
    Auth.v implements it. *)

From S2P Require Import Prelude.
Local Open Scope Z_scope.

(** ** Errors (error.rs) *)

Inductive RgbServiceError :=
| Unauthorized (msg : string)
| Forbidden (msg : string)
| InvalidRequest (msg : string)
| SignatureRequired (msg : string)
| AssetSpendAuthorizationRequired (msg : string)
| NotFound (msg : string)
| Conflict (msg : string)
| NotImplemented (msg : string)
| Backend (msg : string).

#[export] Instance RgbServiceError_eq_dec : EqDecision RgbServiceError.
Proof. solve_decision. Defined.

(** Status code of an error response ([HttpError::into_response]). *)
Definition http_status (e : RgbServiceError) : Z :=
  match e with
  | Unauthorized _ | SignatureRequired _ => 401
  | Forbidden _ | AssetSpendAuthorizationRequired _ => 403
  | InvalidRequest _ => 400
  | NotFound _ => 404
  | Conflict _ => 409
  | NotImplemented _ => 501
  | Backend _ => 500
  end.

(** ** Authorization data (auth.rs) *)

Inductive Permission :=
| ExternalRgb | ReadRnaBalance | ReadAssets | IssueAsset | PrepareTransfer
| CommitTransfer | LnChannelOpenPrepare | LnChannelFundingRef
| LnCommitmentCompose | LnClosingCompose | LnOnchainClaimCompose
| LnPaymentClaim | LnRecover | CancelTransfer | ManagePending | Recover
| RunTest | L2Reserve | L2Settle | Admin.

#[export] Instance Permission_eq_dec : EqDecision Permission.
Proof. solve_decision. Defined.

Inductive SignatureScheme := Schnorr | Ecdsa | Ed25519.

#[export] Instance SignatureScheme_eq_dec : EqDecision SignatureScheme.
Proof. solve_decision. Defined.

Record RequestSignature := {
  signer_id : string;
  public_key : string;
  scheme : SignatureScheme;
  nonce : string;
  timestamp_ms : Z;
  signature : string;
}.

Record SignedRequest (T : Type) := { payload : T; req_signature : RequestSignature }.
Arguments payload {T}.
Arguments req_signature {T}.

Record AuthSubject := {
  subject_account_id : string;
  subject_signer_id : string;
  permissions : list Permission;
}.

Record Authorized (T : Type) := { subject : AuthSubject; authorized_payload : T }.
Arguments subject {T}.
Arguments authorized_payload {T}.

Inductive AssetSpendPurpose :=
| L1Transfer | SpendL2Reserve | SpendL2Settle | ChannelDeposit | ChannelWithdraw.

#[export] Instance AssetSpendPurpose_eq_dec : EqDecision AssetSpendPurpose.
Proof. solve_decision. Defined.

Record AssetSpendAuthorization := {
  auth_asset_id : string;
  auth_amount : Z;
  purpose : AssetSpendPurpose;
  auth_recipient : option string;
  auth_anchor_psbt : option string;
  expires_at_ms : Z;
  auth_signature : RequestSignature;
}.

(** ** External operations (external.rs) *)

Inductive ExternalRgbAction :=
| Receive (request_id asset_id : string) (amount expires_at : Z)
    (blind_outpoint : option string)
| Prepare (request_id invoice unsigned_anchor_psbt : string)
    (recipient_vout : option Z) (change_vout : Z)
    (asset_authorization : AssetSpendAuthorization)
| Finalize (request_id operation_id signed_anchor_psbt : string)
    (asset_authorization : AssetSpendAuthorization)
| Get (operation_id : string)
| List (after : option string) (limit : Z)
| Refresh (operation_id : string)
| Cancel (request_id operation_id : string).

Record ExternalRgbRequest := { req_account_id : string; action : ExternalRgbAction }.

Definition kind (a : ExternalRgbAction) : string :=
  match a with
  | Receive _ _ _ _ _ => "receive"
  | Prepare _ _ _ _ _ _ => "prepare"
  | Finalize _ _ _ _ => "finalize"
  | Get _ => "get"
  | List _ _ => "list"
  | Refresh _ => "refresh"
  | Cancel _ _ => "cancel"
  end.

(** [AssetSpendAuthorized for ExternalRgbRequest] *)
Definition asset_spend_authorization (r : ExternalRgbRequest) : option AssetSpendAuthorization :=
  match action r with
  | Prepare _ _ _ _ _ asset_authorization
  | Finalize _ _ _ asset_authorization => Some asset_authorization
  | _ => None
  end.

Record ExternalRgbOperation := mkOperation {
  operation_id : string;
  direction : string;
  status : string;
  asset_id : string;
  amount : Z;
  op_invoice : string;
  recipient_id : string;
  txid : option string;
  anchor_psbt : option string;
  delivery_status : string;
  broadcast_status : string;
  acknowledged : option bool;
  confirmations : Z;
  required_confirmations : Z;
  retryable : bool;
  last_error : option string;
  created_at : Z;
  updated_at : Z;
}.

Record ExternalRgbResponse := {
  operations : list ExternalRgbOperation;
  next_cursor : option string;
}.

(** ** Verification interface (auth.rs, [trait AuthVerifier]) *)

Record AuthVerifier := {
  verify_account_key : string -> string -> result RgbServiceError unit;
  verify_request :
    Permission -> string -> string -> RequestSignature -> result RgbServiceError AuthSubject;
  verify_asset_spend :
    string -> AssetSpendAuthorization -> result RgbServiceError unit;
}.

(** The trait's default [verify_account_key]: without a backend that proves
    ownership every external operation is refused. *)
Definition default_verify_account_key (account_id public_key : string)
    : result RgbServiceError unit :=
  Err (Forbidden "external account ownership verification unavailable").

(** ** HTTP dispatch (axum_service.rs) *)

Section dispatch.
Context (auth : AuthVerifier).
(** [serde_json::to_vec] of the payload. *)
Context {T : Type} (to_vec : T -> result string string).
Context (account_id : T -> string).
Context (spend : T -> option AssetSpendAuthorization).

Definition authorize (permission : Permission) (signed : SignedRequest T)
    : result RgbServiceError (Authorized T) :=
  body ← map_err InvalidRequest (to_vec (payload signed));
  subject ← verify_request auth permission (account_id (payload signed)) body
              (req_signature signed);
  mret {| subject := subject; authorized_payload := payload signed |}.

Definition authorize_asset_spend (permission : Permission) (signed : SignedRequest T)
    : result RgbServiceError (Authorized T) :=
  authorization ← ok_or (spend (payload signed))
    (AssetSpendAuthorizationRequired "missing asset spend authorization");
  authorized ← authorize permission signed;
  verify_asset_spend auth (account_id (payload signed)) authorization ;;
  mret authorized.
End dispatch.

Section external_dispatch.
Context (auth : AuthVerifier).
Context (to_vec : ExternalRgbRequest -> result string string).
(** The state of the service and its [external_rgb] entry point. *)
Context {S : Type}.
Context (external_rgb : Authorized ExternalRgbRequest -> SE S RgbServiceError ExternalRgbResponse).

(** [external_dispatch]: the handler behind every /v1/external route. *)
Definition external_dispatch (signed : SignedRequest ExternalRgbRequest) (kind_ : string)
    : SE S RgbServiceError ExternalRgbResponse :=
  req ← lift (
    ensure (String.eqb (kind (action (payload signed))) kind_)
      (InvalidRequest "action does not match endpoint") ;;
    verify_account_key auth (req_account_id (payload signed))
      (public_key (req_signature signed)) ;;
    match asset_spend_authorization (payload signed) with
    | Some spend =>
        verify_account_key auth (req_account_id (payload signed))
          (public_key (auth_signature spend)) ;;
        authorize_asset_spend auth to_vec req_account_id asset_spend_authorization
          ExternalRgb signed
    | None => authorize auth to_vec req_account_id ExternalRgb signed
    end);
  external_rgb req.

(** Every check that a request to an external endpoint must pass before the
    service sees it. *)
Definition admitted (signed : SignedRequest ExternalRgbRequest) (kind_ : string) : Prop :=
  kind (action (payload signed)) = kind_ /\
  verify_account_key auth (req_account_id (payload signed))
    (public_key (req_signature signed)) = Ok tt /\
  (exists body s, to_vec (payload signed) = Ok body /\
     verify_request auth ExternalRgb (req_account_id (payload signed)) body
       (req_signature signed) = Ok s) /\
  (forall spend, asset_spend_authorization (payload signed) = Some spend ->
     verify_account_key auth (req_account_id (payload signed))
       (public_key (auth_signature spend)) = Ok tt /\
     verify_asset_spend auth (req_account_id (payload signed)) spend = Ok tt).

End external_dispatch.

(** ** The gate in front of the service *)

(** The refusing side of the gate: the failed check contradicts [admitted]. *)
Local Ltac refused :=
  right; split; [|by eauto];
  intros (? & ? & (? & ? & ? & ?) & Hspend);
  try (match goal with _ : asset_spend_authorization _ = Some ?sp |- _ =>
         destruct (Hspend sp eq_refl) end);
  congruence.

(** C3.  An external request reaches the service exactly when its action is the
    endpoint's, the key that signed it owns the account, the request signature
    verifies for the [ExternalRgb] permission, and, for an action that spends,
    the spend authorization verifies under a key that owns the account too;
    the service is then given the payload that was signed.  Otherwise the
    handler answers an error and the service's state is untouched. *)
Theorem external_dispatch_gate (auth : AuthVerifier) to_vec {S : Type}
    (external_rgb : Authorized ExternalRgbRequest -> SE S RgbServiceError ExternalRgbResponse)
    signed k s :
  (admitted auth to_vec signed k /\
     exists subj, external_dispatch auth to_vec external_rgb signed k s =
       external_rgb {| subject := subj; authorized_payload := payload signed |} s) \/
  (~ admitted auth to_vec signed k /\
     exists e, external_dispatch auth to_vec external_rgb signed k s = (s, Err e)).
Proof.
  unfold external_dispatch, admitted, authorize_asset_spend, authorize, ensure.
  unfold mbind, SE_bind, lift, result_bind.
  destruct (String.eqb_spec (kind (action (payload signed))) k) as [Hk|Hk];
    [|by refused].
  destruct (verify_account_key auth _ (public_key (req_signature signed))) as [[]|e];
    [|by refused].
  destruct (asset_spend_authorization (payload signed)) as [sp|] eqn:Hsp; cbn.
  - destruct (verify_account_key auth _ (public_key (auth_signature sp))) as [[]|e] eqn:Hko;
      [|by refused].
    destruct (to_vec (payload signed)) as [body|e]; cbn; [|by refused].
    destruct (verify_request auth _ _ _ _) as [subj|e] eqn:Hr; cbn; [|by refused].
    destruct (verify_asset_spend auth _ _) as [[]|e] eqn:Hs; cbn;
      [left|by refused].
    split; [|by exists subj]. split_and!; [done..|by eauto|]. by intros ? [= <-].
  - destruct (to_vec (payload signed)) as [body|e]; cbn; [|by refused].
    destruct (verify_request auth _ _ _ _) as [subj|e] eqn:Hr; cbn; [left|by refused].
    split; [|by exists subj]. split_and!; [done..|by eauto|done].
Qed.
