(* ===== verification/Hex.v ===== *)
(** * Hexadecimal text (crates/rgb-service-daemon/src/main.rs)

    [hex_encode] and [hex_decode], the codec of every PSBT, transaction and
    signature that crosses the daemon's API.  [hex_decode] slices its input
    bytewise, which panics inside a multi-byte character, so its outcome is a
    value, a service error or a panic. *)

From S2P Require Import Prelude ServiceApi.
Local Open Scope Z_scope.

Inductive fault := Panic | Fault (e : RgbServiceError).

(** [HEX[n as usize] as char] for a nibble. *)
Definition hex_digit (n : Z) : Ascii.ascii :=
  if n <? 10 then byte_of (48 + n) else byte_of (87 + n).

Fixpoint hex_encode (bytes : string) : string :=
  match bytes with
  | EmptyString => EmptyString
  | String b rest =>
      String (hex_digit (Z.shiftr (byte_val b) 4))
        (String (hex_digit (Z.land (byte_val b) 15)) (hex_encode rest))
  end.

(** [char::to_digit(16)] *)
Definition to_digit16 (c : Ascii.ascii) : option Z :=
  let b := byte_val c in
  if (48 <=? b) && (b <=? 57) then Some (b - 48)
  else if (97 <=? b) && (b <=? 102) then Some (b - 87)
  else if (65 <=? b) && (b <=? 70) then Some (b - 55)
  else None.

(** [u8::from_str_radix(_, 16)] on a slice of two bytes: two digits, or a plus
    sign and one digit. *)
Definition u8_from_str_radix16 (a b : Ascii.ascii) : option Z :=
  if byte_val a =? 43 then to_digit16 b
  else hi ← to_digit16 a; lo ← to_digit16 b; Some (16 * hi + lo).

(** [str::is_char_boundary] at the start of [s]. *)
Definition char_boundary (s : string) : bool :=
  match s with
  | EmptyString => true
  | String c _ => negb ((128 <=? byte_val c) && (byte_val c <? 192))
  end.

(** [str::trim] *)
Fixpoint trim_start_fuel (fuel : nat) (s : string) : string :=
  match fuel with
  | O => s
  | S f => match strip_space s with Some s' => trim_start_fuel f s' | None => s end
  end.
Fixpoint trim_end (s : string) : string :=
  if blank s then EmptyString else
  match s with EmptyString => EmptyString | String c s' => String c (trim_end s') end.
Definition trim (s : string) : string := trim_end (trim_start_fuel (String.length s) s).

Fixpoint decode_pairs (value : string) : result fault string :=
  match value with
  | EmptyString => Ok EmptyString
  | String a rest0 =>
    match rest0 with
    | EmptyString => Ok EmptyString
    | String b rest =>
      if char_boundary rest then
        v ← ok_or (u8_from_str_radix16 a b)
              (Fault (InvalidRequest "invalid digit found in string"));
        tl ← decode_pairs rest;
        Ok (String (byte_of v) tl)
      else Err Panic
    end
  end.

Definition hex_decode (value : string) : result fault string :=
  let value := trim value in
  if Z.odd (str_len value)
  then Err (Fault (InvalidRequest "hex string must have an even length"))
  else decode_pairs value.

(** ** Digits *)

Lemma byte_val_range c : 0 <= byte_val c < 256.
Proof. unfold byte_val. pose proof (Ascii.N_ascii_bounded c). lia. Qed.

Lemma byte_of_val c : byte_of (byte_val c) = c.
Proof.
  unfold byte_of, byte_val. pose proof (Ascii.N_ascii_bounded c).
  rewrite Z.mod_small by lia. by rewrite N2Z.id, Ascii.ascii_N_embedding.
Qed.

Lemma byte_val_of n : 0 <= n < 256 -> byte_val (byte_of n) = n.
Proof.
  intros. unfold byte_of, byte_val. rewrite Z.mod_small by lia.
  rewrite Ascii.N_ascii_embedding by lia. lia.
Qed.

Lemma byte_val_inj c d : byte_val c = byte_val d -> c = d.
Proof. intros H. by rewrite <- (byte_of_val c), <- (byte_of_val d), H. Qed.

Lemma hex_digit_val n : 0 <= n < 16 ->
  byte_val (hex_digit n) = if n <? 10 then 48 + n else 87 + n.
Proof. intros. unfold hex_digit. case_match; apply byte_val_of; lia. Qed.

Lemma to_digit16_hex_digit n : 0 <= n < 16 -> to_digit16 (hex_digit n) = Some n.
Proof.
  intros. unfold to_digit16. rewrite hex_digit_val by done.
  repeat case_match; f_equal; lia.
Qed.

Lemma nibbles b : 0 <= b < 256 ->
  0 <= Z.shiftr b 4 < 16 /\ 0 <= Z.land b 15 < 16 /\ 16 * Z.shiftr b 4 + Z.land b 15 = b.
Proof.
  intros. change 15 with (Z.ones 4). rewrite Z.shiftr_div_pow2, Z.land_ones by lia.
  change (2 ^ 4) with 16. pose proof (Z.div_mod b 16). pose proof (Z.mod_pos_bound b 16).
  split_and!; lia.
Qed.

Lemma u8_from_hex_digits b : 0 <= b < 256 ->
  u8_from_str_radix16 (hex_digit (Z.shiftr b 4)) (hex_digit (Z.land b 15)) = Some b.
Proof.
  intros Hb. destruct (nibbles b Hb) as (H1 & H2 & H3).
  unfold u8_from_str_radix16.
  rewrite !to_digit16_hex_digit, hex_digit_val by done. cbn.
  repeat case_match; try lia; by rewrite H3.
Qed.

(** ** Encoded text has no white space and no multi-byte character *)

Definition hexish (c : Ascii.ascii) : Prop := 48 <= byte_val c <= 102.

Lemma hex_digit_hexish n : 0 <= n < 16 -> hexish (hex_digit n).
Proof. intros. unfold hexish. rewrite hex_digit_val by done. case_match; lia. Qed.

Lemma strip_space_hexish c s : hexish c -> strip_space (String c s) = None.
Proof.
  unfold hexish, strip_space. intros H.
  repeat case_match; simplify_eq; try done; lia.
Qed.

Lemma hex_encode_first s c t : hex_encode s = String c t -> hexish c.
Proof.
  destruct s; cbn; [done|]. intros [= <- _].
  apply hex_digit_hexish, (nibbles (byte_val a)), byte_val_range.
Qed.

Fixpoint all_chars (P : Ascii.ascii -> Prop) (s : string) : Prop :=
  match s with EmptyString => True | String c t => P c /\ all_chars P t end.

Lemma hex_encode_hexish s : all_chars hexish (hex_encode s).
Proof.
  induction s as [|c s IH]; cbn; [done|].
  destruct (nibbles (byte_val c) (byte_val_range c)) as (? & ? & _).
  auto using hex_digit_hexish.
Qed.

Lemma trim_hexish s : all_chars hexish s -> trim s = s.
Proof.
  unfold trim. intros Hs.
  assert (trim_start_fuel (String.length s) s = s) as ->.
  { destruct s; [done|]. cbn -[strip_space]. destruct Hs.
    by rewrite strip_space_hexish. }
  induction s as [|c s IH]; [done|]. destruct Hs as [Hc Hs].
  cbn -[strip_space blank]. rewrite IH by done.
  unfold blank. cbn -[strip_space]. by rewrite strip_space_hexish.
Qed.

Lemma hex_encode_length s : str_len (hex_encode s) = 2 * str_len s.
Proof. unfold str_len. induction s; cbn -[Z.of_nat Z.mul] in *; lia. Qed.

Lemma hex_encode_boundary s : char_boundary (hex_encode s) = true.
Proof.
  destruct (hex_encode s) eqn:E; [done|].
  apply hex_encode_first in E. unfold hexish, char_boundary in *. lia.
Qed.

Lemma decode_pairs_encode s : decode_pairs (hex_encode s) = Ok s.
Proof.
  induction s as [|c s IH]; [done|].
  cbn -[char_boundary]. rewrite hex_encode_boundary, u8_from_hex_digits by apply byte_val_range.
  cbn. by rewrite IH, byte_of_val.
Qed.

(** Hexadecimal text round-trips: decoding what the daemon encoded gives
    the bytes back, for every byte string, and never fails. *)
Theorem hex_roundtrip (bytes : string) : hex_decode (hex_encode bytes) = Ok bytes.
Proof.
  unfold hex_decode. rewrite trim_hexish by apply hex_encode_hexish.
  rewrite hex_encode_length, Z.odd_mul. apply decode_pairs_encode.
Qed.

(** A slice that would cut a multi-byte character: the text a, U+00E9, b. *)
Definition split_char_text : string :=
  String (byte_of 97) (String (byte_of 195) (String (byte_of 169) "b")).

(** [hex_decode] does not answer an error on every malformed text: valid
    UTF-8 whose slices of two bytes cut a character makes it panic. *)
Theorem hex_decode_panics : hex_decode split_char_text = Err Panic.
Proof. vm_compute. reflexivity. Qed.

(** On ASCII text [hex_decode] always answers. *)
Lemma decode_pairs_ascii n : forall s, (String.length s <= n)%nat ->
  all_chars (fun c => byte_val c < 128) s -> decode_pairs s <> Err Panic.
Proof.
  induction n as [|n IH]; intros s Hn Hs.
  - destruct s; cbn in *; [done|lia].
  - destruct s as [|a [|b s]]; cbn in *; try done.
    destruct Hs as (Ha & Hb & Hs).
    assert (char_boundary s = true) as ->.
    { destruct s as [|c s]; [done|]. cbn in *. lia. }
    destruct (u8_from_str_radix16 a b); cbn; [|done].
    specialize (IH s ltac:(lia) Hs). by destruct (decode_pairs s); naive_solver.
Qed.

Lemma strip_space_all P s s' : strip_space s = Some s' -> all_chars P s -> all_chars P s'.
Proof. unfold strip_space. repeat case_match; naive_solver. Qed.

Lemma trim_all P s : all_chars P s -> all_chars P (trim s).
Proof.
  unfold trim. intros Hs.
  assert (all_chars P (trim_start_fuel (String.length s) s)) as Hts.
  { generalize (String.length s) as n. intros n. revert s Hs.
    induction n as [|n IH]; intros s Hs; cbn; [done|].
    destruct (strip_space s) eqn:E; [|done]. eauto using strip_space_all. }
  revert Hts. generalize (trim_start_fuel (String.length s) s) as t.
  induction t as [|c t IH]; cbn -[blank]; [done|].
  intros [? ?]. case_match; cbn; auto.
Qed.

(** On ASCII text [hex_decode] always answers: bytes or a service error. *)
Theorem hex_decode_ascii_total (s : string) :
  all_chars (fun c => byte_val c < 128) s -> hex_decode s <> Err Panic.
Proof.
  intros Hs. unfold hex_decode. case_match; [done|].
  eapply decode_pairs_ascii, trim_all; done.
Qed.

Lemma hex_decode_ascii_total_witness : hex_decode "0g" <> Err Panic.
Proof. apply (hex_decode_ascii_total "0g"). vm_compute. auto. Defined.
