(* ===== verification/Auth.v ===== *)
(** * Request signatures (crates/rgb-service-daemon/src/main.rs,
      [ConfiguredAuthVerifier])

    The daemon's [AuthVerifier]: freshness of the timestamp, the purposes each
    permission accepts, the signed message and the verification of requests
    and of asset-spend authorizations.  Keys, signatures and the hash come from
    the secp256k1 and bitcoin-hashes crates and are parameters. *)

From S2P Require Import Prelude ServiceApi Hex.
Local Open Scope Z_scope.

Definition SIGNATURE_DOMAIN : string := "bihelix-ln-rgb-auth-v1".
Definition REQUEST_SIGNATURE_MAX_AGE_MS : Z := 5 * 60 * 1000.
Definition REQUEST_SIGNATURE_FUTURE_SKEW_MS : Z := 60 * 1000.

Definition verify_signature_timestamp (now timestamp_ms : Z) : result RgbServiceError unit :=
  if saturating_add 64 now REQUEST_SIGNATURE_FUTURE_SKEW_MS <? timestamp_ms
  then Err (Unauthorized "request signature timestamp is too far in the future")
  else if REQUEST_SIGNATURE_MAX_AGE_MS <? saturating_sub now timestamp_ms
  then Err (Unauthorized "request signature has expired")
  else Ok tt.

(** What [signature_message] feeds to SHA-256. *)
Definition signature_preimage (purpose payload nonce : string) (timestamp_ms : Z) : string :=
  SIGNATURE_DOMAIN +:+ purpose +:+ nonce +:+ be_bytes 8 timestamp_ms +:+ payload.

Definition permission_purposes (p : Permission) : list string :=
  match p with
  | ExternalRgb => ["external_rgb"]
  | ReadRnaBalance => ["read_rna_balance"; "rna_balance"]
  | ReadAssets => ["read_assets"; "list_assets"; "balance"; "balance_breakdown"]
  | IssueAsset => ["issue_asset"]
  | PrepareTransfer => ["prepare_transfer"]
  | CommitTransfer => ["commit_transfer"]
  | LnChannelOpenPrepare => ["ln_channel_open_prepare"]
  | LnChannelFundingRef => ["ln_channel_funding_ref"]
  | LnCommitmentCompose => ["ln_commitment_compose"]
  | LnClosingCompose => ["ln_closing_compose"]
  | LnOnchainClaimCompose => ["ln_onchain_claim_compose"]
  | LnPaymentClaim => ["ln_payment_claim"]
  | LnRecover => ["ln_recover"]
  | CancelTransfer => ["cancel_transfer"]
  | ManagePending => ["manage_pending"; "list_pending"]
  | Recover => ["recover"]
  | RunTest => ["run_test"; "run_rgb_test"]
  | L2Reserve => ["l2_reserve"]
  | L2Settle => ["l2_settle"]
  | Admin => ["admin"]
  end.

(** The [{:?}] form of a scheme. *)
Definition scheme_debug (s : SignatureScheme) : string :=
  match s with Schnorr => "Schnorr" | Ecdsa => "Ecdsa" | Ed25519 => "Ed25519" end.

(** The secp256k1, bitcoin-hashes and serde_json calls of the verifier. *)
Record Crypto := {
  PubKey : Type;
  EcdsaSig : Type;
  parse_pubkey : string -> result string PubKey;
  sig_from_der : string -> result string EcdsaSig;
  sha256 : string -> string;
  verify_ecdsa : string -> EcdsaSig -> PubKey -> result string unit;
  (** [serde_json::to_vec] of [UnsignedAssetSpendAuthorizationRef]: the
      authorization without its signature. *)
  spend_payload : string -> Z -> AssetSpendPurpose -> option string -> option string -> Z
                  -> result string string;
  (** [external::verify_account_key]'s address check. *)
  key_owns_account : string -> string -> result RgbServiceError unit;
}.

Section verifier.
Context (cr : Crypto).

Definition signature_message (purpose payload nonce : string) (timestamp_ms : Z) : string :=
  sha256 cr (signature_preimage purpose payload nonce timestamp_ms).

Definition fault_text (f : fault) : string :=
  match f with
  | Panic => "panic"
  | Fault (InvalidRequest m) => "invalid request: " +:+ m
  | Fault _ => ""
  end.

(** A panic inside [hex_decode] aborts the handler before the service is
    reached; the model reports it as a refusal with the text "panic". *)
Definition verify_ecdsa_signature (now : Z) (purpose payload : string)
    (s : RequestSignature) : result RgbServiceError unit :=
  if blank (public_key s)
  then Err (Unauthorized "request signature public_key must not be empty")
  else if blank (nonce s)
  then Err (Unauthorized "request signature nonce must not be empty")
  else if blank (signature s)
  then Err (SignatureRequired "request signature must not be empty")
  else
    verify_signature_timestamp now (timestamp_ms s) ;;
    pk ← map_err (fun e => Unauthorized ("invalid request signature public_key: " +:+ e))
           (parse_pubkey cr (public_key s));
    sb ← map_err (fun e => Unauthorized ("invalid request signature hex: " +:+ fault_text e))
           (hex_decode (signature s));
    es ← map_err (fun e => Unauthorized ("invalid request ECDSA signature: " +:+ e))
           (sig_from_der cr sb);
    map_err (fun e => Unauthorized ("invalid request signature: " +:+ e))
      (verify_ecdsa cr (signature_message purpose payload (nonce s) (timestamp_ms s)) es pk).

(** The loop of [verify_request_signature]: the first purpose that verifies
    wins, otherwise the last error is reported. *)
Fixpoint verify_any (now : Z) (purposes : list string) (payload : string)
    (s : RequestSignature) (last_error : option RgbServiceError)
    : result RgbServiceError unit :=
  match purposes with
  | [] => Err (default (Unauthorized "request signature purpose did not match permission")
                 last_error)
  | p :: ps =>
      match verify_ecdsa_signature now p payload s with
      | Ok _ => Ok tt
      | Err e => verify_any now ps payload s (Some e)
      end
  end.

Definition verify_request_signature (now : Z) (permission : Permission)
    (payload : string) (s : RequestSignature) : result RgbServiceError unit :=
  match scheme s with
  | Ecdsa => verify_any now (permission_purposes permission) payload s None
  | Schnorr | Ed25519 =>
      Err (Unauthorized ("unsupported request signature scheme: " +:+ scheme_debug (scheme s)))
  end.

Definition configured_verify_request (now : Z) (permission : Permission)
    (account_id payload : string) (s : RequestSignature)
    : result RgbServiceError AuthSubject :=
  if blank account_id then Err (Unauthorized "account_id must not be empty")
  else
    verify_request_signature now permission payload s ;;
    mret {| subject_account_id := account_id; subject_signer_id := signer_id s;
            permissions := [permission] |}.

Definition configured_verify_asset_spend (now : Z) (_account_id : string)
    (a : AssetSpendAuthorization) : result RgbServiceError unit :=
  if expires_at_ms a <? now
  then Err (Unauthorized "asset spend authorization has expired")
  else
    payload ← map_err Backend (spend_payload cr (auth_asset_id a) (auth_amount a)
                (purpose a) (auth_recipient a) (auth_anchor_psbt a) (expires_at_ms a));
    match scheme (auth_signature a) with
    | Ecdsa => verify_ecdsa_signature now "asset_spend" payload (auth_signature a)
    | Schnorr | Ed25519 =>
        Err (AssetSpendAuthorizationRequired
               ("unsupported asset spend signature scheme: " +:+
                  scheme_debug (scheme (auth_signature a))))
    end.

Definition ConfiguredAuthVerifier (now : Z) : AuthVerifier := {|
  verify_account_key := key_owns_account cr;
  verify_request := configured_verify_request now;
  verify_asset_spend := configured_verify_asset_spend now;
|}.
End verifier.

(** ** Freshness *)

(** A timestamp is accepted exactly when it is at most a minute ahead of
    the daemon's clock and at most five minutes behind it. *)
Theorem verify_signature_timestamp_window now ts :
  0 <= now -> 0 <= ts <= umax 64 -> now + 60000 <= umax 64 ->
  verify_signature_timestamp now ts = Ok tt <-> now - 300000 <= ts <= now + 60000.
Proof.
  intros. unfold verify_signature_timestamp, saturating_add, saturating_sub,
    REQUEST_SIGNATURE_MAX_AGE_MS, REQUEST_SIGNATURE_FUTURE_SKEW_MS.
  repeat case_match; split; intros; try done; lia.
Qed.

Lemma verify_signature_timestamp_window_witness :
  verify_signature_timestamp 1760000000000 1760000060000 = Ok tt <->
  1760000000000 - 300000 <= 1760000060000 <= 1760000000000 + 60000.
Proof. apply verify_signature_timestamp_window; unfold umax; lia. Defined.

(** ** Domain separation *)

(** Every purpose a signature can be made for: those of the permissions, and
    the one of spend authorizations. *)
Definition all_permissions : list Permission :=
  [ExternalRgb; ReadRnaBalance; ReadAssets; IssueAsset; PrepareTransfer; CommitTransfer;
   LnChannelOpenPrepare; LnChannelFundingRef; LnCommitmentCompose; LnClosingCompose;
   LnOnchainClaimCompose; LnPaymentClaim; LnRecover; CancelTransfer; ManagePending;
   Recover; RunTest; L2Reserve; L2Settle; Admin].

Lemma all_permissions_complete p : p ∈ all_permissions.
Proof. destruct p; unfold all_permissions; set_solver. Qed.

Definition clash (a b : string) : bool := String.prefix a b || String.prefix b a.

Lemma prefix_app a b c d : a +:+ b = c +:+ d -> clash a c = true.
Proof.
  revert c. induction a as [|x a IH]; intros [|y c] H; try done.
  cbn in H. simplify_eq. unfold clash in *. cbn.
  destruct (Ascii.ascii_dec y y); [|done]. eauto.
Qed.

Lemma preimage_purpose p q pl pl' n n' t t' :
  signature_preimage p pl n t = signature_preimage q pl' n' t' -> clash p q = true.
Proof.
  unfold signature_preimage. intros H. apply (inj (String.append SIGNATURE_DOMAIN)) in H.
  eauto using prefix_app.
Qed.

(** The purposes of distinct permissions never clash, and none clashes with
    the purpose of spend authorizations (checked by evaluation). *)
Lemma purposes_disjoint :
  forallb (fun p => forallb (fun q =>
    bool_decide (p = q) ||
    forallb (fun a => forallb (fun b => negb (clash a b)) (permission_purposes q))
      (permission_purposes p)) all_permissions) all_permissions = true /\
  forallb (fun p => forallb (fun a => negb (clash a "asset_spend")) (permission_purposes p))
    all_permissions = true.
Proof. vm_compute. auto. Qed.

Lemma forallb_elem {A} (f : A -> bool) l x : forallb f l = true -> x ∈ l -> f x = true.
Proof. rewrite list_elem_of_In, forallb_forall. auto. Qed.

(** Signatures are separated by permission: no signed message of one
    permission (under any nonce, timestamp and payload) is a signed message of
    another, and no request message is a spend authorization.  A signature
    made for one kind of request cannot be presented for another kind. *)
Theorem permission_messages_disjoint p q a b pl pl' n n' t t' :
  a ∈ permission_purposes p -> b ∈ permission_purposes q ->
  (signature_preimage a pl n t = signature_preimage b pl' n' t' -> p = q) /\
  signature_preimage a pl n t <> signature_preimage "asset_spend" pl' n' t'.
Proof.
  intros Ha Hb. destruct purposes_disjoint as [H1 H2]. split.
  - intros E%preimage_purpose.
    apply forallb_elem with (x := p) in H1; [|apply all_permissions_complete].
    apply forallb_elem with (x := q) in H1; [|apply all_permissions_complete].
    apply orb_prop in H1 as [H1%bool_decide_eq_true|H1]; [done|].
    apply forallb_elem with (x := a) in H1; [|done].
    apply forallb_elem with (x := b) in H1; [|done].
    by rewrite E in H1.
  - intros E%preimage_purpose.
    apply forallb_elem with (x := p) in H2; [|apply all_permissions_complete].
    apply forallb_elem with (x := a) in H2; [|done].
    by rewrite E in H2.
Qed.

Lemma permission_messages_disjoint_witness :
  (signature_preimage "balance" "{}" "n" 7 = signature_preimage "recover" "{}" "n" 7 ->
     ReadAssets = Recover) /\
  signature_preimage "balance" "{}" "n" 7 <> signature_preimage "asset_spend" "{}" "n" 7.
Proof.
  apply (permission_messages_disjoint ReadAssets Recover "balance" "recover"); cbn; set_solver.
Defined.

(** ** What an accepted signature attests *)

Section accepted.
Context (cr : Crypto) (now : Z).

(** The facts a verified ECDSA signature stands for. *)
Definition attested (purpose payload : string) (s : RequestSignature) : Prop :=
  verify_signature_timestamp now (timestamp_ms s) = Ok tt /\
  exists pk sb es,
    parse_pubkey cr (public_key s) = Ok pk /\ hex_decode (signature s) = Ok sb /\
    sig_from_der cr sb = Ok es /\
    verify_ecdsa cr (sha256 cr (signature_preimage purpose payload (nonce s) (timestamp_ms s)))
      es pk = Ok tt.

Lemma verify_ecdsa_signature_attests purpose payload s :
  verify_ecdsa_signature cr now purpose payload s = Ok tt -> attested purpose payload s.
Proof.
  unfold verify_ecdsa_signature, attested, signature_message.
  repeat (case_match; [done|]). rewrite result_bind_Ok. intros ([] & Ht & Hv).
  rewrite result_bind_Ok in Hv. destruct Hv as (pk & Hpk%map_err_Ok & Hv).
  rewrite result_bind_Ok in Hv. destruct Hv as (sb & Hsb%map_err_Ok & Hv).
  rewrite result_bind_Ok in Hv. destruct Hv as (es & Hes%map_err_Ok & Hv%map_err_Ok).
  eauto 10.
Qed.

Lemma verify_any_attests ps payload s e :
  verify_any cr now ps payload s e = Ok tt -> exists p, p ∈ ps /\ attested p payload s.
Proof.
  revert e. induction ps as [|p ps IH]; intros e; cbn; [done|].
  destruct (verify_ecdsa_signature cr now p payload s) as [[]|e'] eqn:E.
  - intros _. exists p. split; [by left|]. by apply verify_ecdsa_signature_attests.
  - intros H%IH. destruct H as (q & ? & ?). exists q. split; [by right|done].
Qed.


End accepted.

(** A toy curve: the "signature" of a message is the message itself, so that a
    signed request can be written down. *)
Definition toy_crypto : Crypto := {|
  PubKey := unit; EcdsaSig := string;
  parse_pubkey := fun _ => Ok tt;
  sig_from_der := Ok;
  sha256 := fun m => m;
  verify_ecdsa := fun m s _ => if String.eqb m s then Ok tt else Err "bad";
  spend_payload := fun a _ _ _ _ _ => Ok a;
  key_owns_account := fun a k => if String.eqb a k then Ok tt else Err (Forbidden "owner");
|}.

Definition toy_signature (p payload : string) : RequestSignature := {|
  signer_id := "s"; public_key := "alice"; scheme := Ecdsa; nonce := "n";
  timestamp_ms := 1000;
  signature := hex_encode (signature_preimage p payload "n" 1000) |}.

