(* ===== verification/Kv.v ===== *)
(** * The key-value store as the daemon uses it

    The daemon keeps its state in one fjall database
    ([SingleWriterTxDatabase]).  A write is a transaction: it is built in
    memory, [commit]ted atomically and then [persist]ed.  The database is
    third-party code; what the daemon relies on is that a transaction that is
    not committed leaves no trace and that a committed one is complete.

    Each write takes its outcome from a list of [io] outcomes, so that every
    theorem covers failing writes and, with a list that fails from some point
    on, a crash at any commit. *)

From S2P Require Import Prelude.

Inductive io :=
| IoOk            (** committed and persisted *)
| CommitFails     (** nothing written *)
| PersistFails.   (** written, but the caller is told of an error *)

(** A database with the outcomes of its next writes; no outcome left means
    that writes succeed. *)
Record kv (D : Type) := mkKv { data : D; faults : list io }.
Arguments mkKv {D}.
Arguments data {D}.
Arguments faults {D}.

Section commit.
Context {D E : Type}.

(** [tx.commit()?; db.persist(SyncAll)?] for a transaction whose effect is
    [f]; [e] is the error reported when the store fails. *)
Definition commit (e : E) (f : D -> D) : SE (kv D) E unit := fun s =>
  match faults s with
  | [] => (mkKv (f (data s)) [], Ok tt)
  | IoOk :: fs => (mkKv (f (data s)) fs, Ok tt)
  | CommitFails :: fs => (mkKv (data s) fs, Err e)
  | PersistFails :: fs => (mkKv (f (data s)) fs, Err e)
  end.

Definition read {A} (f : D -> A) : SE (kv D) E A := fun s => (s, Ok (f (data s))).

Lemma wp_read {A} (f : D -> A) (Q : kv D -> result E A -> Prop) s :
  Q s (Ok (f (data s))) -> wp (read f) Q s.
Proof. done. Qed.

(** A write either happens completely or not at all; it cannot report success
    without having happened. *)
Lemma wp_commit (e : E) f (Q : kv D -> result E unit -> Prop) s :
  (forall fs, Q (mkKv (f (data s)) fs) (Ok tt)) ->
  (forall fs, Q (mkKv (f (data s)) fs) (Err e)) ->
  (forall fs, Q (mkKv (data s) fs) (Err e)) ->
  wp (commit e f) Q s.
Proof. unfold wp, commit. destruct (faults s) as [|[] ?]; cbn; auto. Qed.

Lemma commit_ok (e : E) f (s : kv D) :
  faults s = [] -> commit e f s = (mkKv (f (data s)) [], Ok tt).
Proof. unfold commit. by intros ->. Qed.

End commit.
