(* ===== verification/DaemonRna.v ===== *)
(** * The DAEMON_RNA metering ledger (crates/rgb-service-daemon/src/main.rs)

    Profiles hold an account's balance; every movement is logged.  [charge]
    debits, [refund] undoes a debit, [credit] is an idempotent top-up keyed by
    the caller.  All three run under one mutex and write the profile and the
    log entry in one transaction. *)

From stdpp Require Import pretty.
From S2P Require Import Prelude ServiceApi Kv.
Local Open Scope Z_scope.

(** A JSON value as the ledger reads it: a [u64] or something else. *)
Inductive json := JU64 (n : Z) | JOther.

Definition as_u64 (j : json) : option Z := match j with JU64 n => Some n | JOther => None end.

Record Profile := {
  profile_id : string;
  daemon_rna_balance : option json;
  rna_balance : option json;
  profile_created_at_ms : Z;
  updated_at_ms : Z;
}.

Record UsageEvent := {
  event_id : string;
  event_account_id : string;
  event_kind : string;
  route : string;
  event_purpose : string;
  event_amount : option json;
  balance_before : option json;
  balance_after : option json;
  reason : option string;
  idempotency_key : option string;
  created_at_ms : Z;
}.

Record Ledger := {
  profiles : gmap string Profile;
  usage_logs : gmap string UsageEvent;
}.

Record DaemonRnaCreditResult := {
  result_balance_before : Z;
  result_balance_after : Z;
  current_balance : Z;
  idempotent_replay : bool;
}.

Abbreviation M := (SE (kv Ledger) RgbServiceError).

Definition new_profile (id : string) (now : Z) : Profile := {|
  profile_id := id;
  daemon_rna_balance := Some (JU64 0);
  rna_balance := Some (JU64 0);
  profile_created_at_ms := now;
  updated_at_ms := now |}.

Definition load_profile (id : string) : M (option Profile) :=
  read (fun l => profiles l !! id).

(** The renamed field wins over the legacy one, even when it is not a number. *)
Definition profile_daemon_rna_balance (p : Profile) : result RgbServiceError Z :=
  let v := match daemon_rna_balance p with Some j => Some j | None => rna_balance p end in
  ok_or (v ≫= as_u64)
    (Backend "profile missing numeric daemon_rna_balance/rna_balance").

Definition set_profile_daemon_rna_balance (p : Profile) (balance : Z) : Profile := {|
  profile_id := profile_id p;
  daemon_rna_balance := Some (JU64 balance);
  rna_balance := Some (JU64 balance);
  profile_created_at_ms := profile_created_at_ms p;
  updated_at_ms := updated_at_ms p |}.

(** [profile["updated_at_ms"] = json!(now)] *)
Definition touch (p : Profile) (now : Z) : Profile := {|
  profile_id := profile_id p;
  daemon_rna_balance := daemon_rna_balance p;
  rna_balance := rna_balance p;
  profile_created_at_ms := profile_created_at_ms p;
  updated_at_ms := now |}.

Definition put_profile (id : string) (p : Profile) : M unit :=
  commit (Backend "store") (fun l =>
    {| profiles := <[id := p]> (profiles l); usage_logs := usage_logs l |}).

Definition get_or_create_profile (now : Z) (id : string) : M Profile :=
  if blank id
  then fail (Unauthorized "account_id must not be empty for profile lookup")
  else
    found ← load_profile id;
    match found with
    | Some p => mret p
    | None => let p := new_profile id now in put_profile id p ;; mret p
    end.

(** The transaction of a movement: the profile and its log entry together. *)
Definition write_movement (account_id : string) (p : Profile) (ev : UsageEvent) : M unit :=
  commit (Backend "store") (fun l =>
    {| profiles := <[account_id := p]> (profiles l);
       usage_logs := <[event_id ev := ev]> (usage_logs l) |}).

Definition charge_event_id (now : Z) (account_id purpose : string) : string :=
  pretty now +:+ ":" +:+ account_id +:+ ":" +:+ purpose.

Definition charge_daemon_rna (now : Z) (account_id route_ purpose : string) (amount : Z) : M Z :=
  if blank account_id
  then fail (Unauthorized "account_id must not be empty for DAEMON_RNA metering")
  else
    found ← load_profile account_id;
    let p := default (new_profile account_id now) found in
    current ← lift (profile_daemon_rna_balance p);
    if current <? amount
    then fail (Forbidden ("insufficient DAEMON_RNA balance for " +:+ purpose +:+ ": required "
                 +:+ pretty amount +:+ ", available " +:+ pretty current))
    else
      let new_balance := current - amount in
      let p' := touch (set_profile_daemon_rna_balance p new_balance) now in
      let ev := {|
        event_id := charge_event_id now account_id purpose;
        event_account_id := account_id;
        event_kind := "debit";
        route := route_;
        event_purpose := purpose;
        event_amount := Some (JU64 amount);
        balance_before := Some (JU64 current);
        balance_after := Some (JU64 new_balance);
        reason := None;
        idempotency_key := None;
        created_at_ms := now |} in
      write_movement account_id p' ev ;;
      mret new_balance.

Definition refund_daemon_rna (now : Z) (account_id route_ purpose : string) (amount : Z)
    (reason_ : string) : M Z :=
  found ← load_profile account_id;
  p ← lift (ok_or found (Backend
        ("profile missing for DAEMON_RNA refund account_id=" +:+ account_id)));
  current ← lift (profile_daemon_rna_balance p);
  new_balance ← lift (ok_or (checked_add 64 current amount)
                        (Backend "DAEMON_RNA balance overflow"));
  let p' := touch (set_profile_daemon_rna_balance p new_balance) now in
  let ev := {|
    event_id := charge_event_id now account_id purpose +:+ ":refund";
    event_account_id := account_id;
    event_kind := "refund";
    route := route_;
    event_purpose := purpose;
    event_amount := Some (JU64 amount);
    balance_before := Some (JU64 current);
    balance_after := Some (JU64 new_balance);
    reason := Some reason_;
    idempotency_key := None;
    created_at_ms := now |} in
  write_movement account_id p' ev ;;
  mret new_balance.

Section credit.
(** SHA-256 of a byte string, in hexadecimal (bitcoin-hashes). *)
Context (sha256_hex : string -> string).

Definition nul : string := String (byte_of 0) EmptyString.

Definition credit_event_id (account_id key : string) : string :=
  "daemon-rna-credit:" +:+ sha256_hex (account_id +:+ nul +:+ key).

(** A recorded credit is answered from its log entry. *)
Definition replay_credit (account_id : string) (amount : Z) (ev : UsageEvent)
    : M DaemonRnaCreditResult :=
  recorded ← lift (ok_or (event_amount ev ≫= as_u64)
               (Backend "DAEMON_RNA credit event missing numeric amount"));
  if negb (recorded =? amount)
  then fail (InvalidRequest "idempotency_key was already used with a different amount")
  else
    before ← lift (ok_or (balance_before ev ≫= as_u64)
               (Backend "DAEMON_RNA credit event missing balance_before"));
    after ← lift (ok_or (balance_after ev ≫= as_u64)
               (Backend "DAEMON_RNA credit event missing balance_after"));
    found ← load_profile account_id;
    p ← lift (ok_or found (Backend
          ("profile missing for replayed DAEMON_RNA credit account_id=" +:+ account_id)));
    current ← lift (profile_daemon_rna_balance p);
    mret {| result_balance_before := before; result_balance_after := after;
            current_balance := current; idempotent_replay := true |}.

Definition credit_daemon_rna (now : Z) (account_id : string) (amount : Z)
    (reason_ key : string) : M DaemonRnaCreditResult :=
  if blank account_id || (amount =? 0) || blank reason_ || blank key
  then fail (InvalidRequest
               "account_id, positive amount, reason and idempotency_key are required")
  else if (256 <? str_len account_id) || (512 <? str_len reason_) || (128 <? str_len key)
  then fail (InvalidRequest "DAEMON_RNA credit request field is too long")
  else
    let id := credit_event_id account_id key in
    logged ← read (fun l => usage_logs l !! id);
    match logged with
    | Some ev => replay_credit account_id amount ev
    | None =>
        found ← load_profile account_id;
        let p := default (new_profile account_id now) found in
        before ← lift (profile_daemon_rna_balance p);
        after ← lift (ok_or (checked_add 64 before amount)
                  (Backend "DAEMON_RNA balance overflow"));
        let p' := touch (set_profile_daemon_rna_balance p after) now in
        let ev := {|
          event_id := id;
          event_account_id := account_id;
          event_kind := "credit";
          route := "/internal/daemon-rna/credit";
          event_purpose := "manual_credit";
          event_amount := Some (JU64 amount);
          balance_before := Some (JU64 before);
          balance_after := Some (JU64 after);
          reason := Some reason_;
          idempotency_key := Some key;
          created_at_ms := now |} in
        write_movement account_id p' ev ;;
        mret {| result_balance_before := before; result_balance_after := after;
                current_balance := after; idempotent_replay := false |}
    end.

(** [refund_daemon_rna_on_error]: a failed call gives its charge back; a
    failing refund is only logged. *)
Definition refund_daemon_rna_on_error {A} (now : Z) (r : result RgbServiceError A)
    (error_text : RgbServiceError -> string)
    (account_id route_ purpose : string) (amount : Z) : M A :=
  match r with
  | Ok _ => lift r
  | Err err =>
      attempt (refund_daemon_rna now account_id route_ purpose amount (error_text err)) ;;
      lift r
  end.
End credit.

(** ** What the ledger says an account has *)

(** An account without a profile has nothing. *)
Definition ledger_balance (l : Ledger) (id : string) : result RgbServiceError Z :=
  profile_daemon_rna_balance (default (new_profile id 0) (profiles l !! id)).

(** No other account's profile changed. *)
Definition others_kept (a : string) (l l' : Ledger) : Prop :=
  forall b, b <> a -> profiles l' !! b = profiles l !! b.

Definition ledger_ok (l : Ledger) : Prop :=
  forall id p n, profiles l !! id = Some p -> profile_daemon_rna_balance p = Ok n ->
    0 <= n <= umax 64.

Lemma balance_set p n now :
  profile_daemon_rna_balance (touch (set_profile_daemon_rna_balance p n) now) = Ok n.
Proof. done. Qed.

Lemma balance_default (l : Ledger) id now :
  profile_daemon_rna_balance (default (new_profile id now) (profiles l !! id)) =
  ledger_balance l id.
Proof. unfold ledger_balance. by destruct (profiles l !! id). Qed.

(** [wp] rules and the store's, then the reads of profiles. *)
Ltac ledger_steps :=
  repeat first
    [ wp_step | apply wp_read; cbn beta iota | apply wp_commit; intros ? ];
  cbn beta iota.

(** The profile and log after a movement. *)
Lemma movement_profiles a p ev l :
  profiles {| profiles := <[a := p]> (profiles l);
              usage_logs := <[event_id ev := ev]> (usage_logs l) |} !! a = Some p.
Proof. apply lookup_insert_eq. Qed.

(** A charge succeeds exactly when the account holds the amount.  It then
    lowers the balance by the amount, returns what is left and touches no other
    profile; a refused charge changes nothing. *)
Theorem charge_exact now a route_ purpose amount s b :
  faults s = [] -> blank a = false -> ledger_balance (data s) a = Ok b ->
  let '(s', r) := charge_daemon_rna now a route_ purpose amount s in
  (amount <= b /\ r = Ok (b - amount) /\ ledger_balance (data s') a = Ok (b - amount) /\
     others_kept a (data s) (data s')) \/
  (b < amount /\ is_ok r = false /\ s' = s).
Proof.
  intros Hf Ha Hb. unfold charge_daemon_rna. rewrite Ha. cbn.
  unfold mbind, SE_bind, load_profile, read, lift. rewrite balance_default, Hb.
  destruct (Z.ltb_spec b amount) as [Hlt|Hge]; [by right|].
  unfold write_movement. rewrite commit_ok by done. cbn. left.
  split_and!; [done..| |].
  - unfold ledger_balance. cbn. by rewrite lookup_insert_eq.
  - intros c Hc. cbn. by rewrite lookup_insert_ne.
Qed.

Definition sample_ledger : Ledger := {|
  profiles := {[ "alice" := set_profile_daemon_rna_balance (new_profile "alice" 1) 100 ]};
  usage_logs := ∅ |}.

Lemma charge_exact_witness :
  let '(s', r) := charge_daemon_rna 5 "alice" "/r" "issue" 40 (mkKv sample_ledger []) in
  (40 <= 100 /\ r = Ok (100 - 40) /\ ledger_balance (data s') "alice" = Ok (100 - 40) /\
     others_kept "alice" sample_ledger (data s')) \/
  (100 < 40 /\ is_ok r = false /\ s' = mkKv sample_ledger []).
Proof.
  apply (charge_exact 5 "alice" "/r" "issue" 40 (mkKv sample_ledger []) 100);
    vm_compute; reflexivity.
Defined.

(** A refund of a charge restores the balance: the account is back where
    it was before the charge, whatever the two calls' clocks. *)
Theorem charge_refund_restores now now' a route_ purpose amount why s s1 n b :
  faults s = [] -> ledger_balance (data s) a = Ok b -> b <= umax 64 ->
  charge_daemon_rna now a route_ purpose amount s = (s1, Ok n) ->
  exists s2, refund_daemon_rna now' a route_ purpose amount why s1 = (s2, Ok b) /\
    ledger_balance (data s2) a = Ok b /\ others_kept a (data s) (data s2).
Proof.
  intros Hf Hb Hmax Hc.
  assert (blank a = false) as Ha.
  { unfold charge_daemon_rna in Hc. by destruct (blank a). }
  revert Hc. unfold charge_daemon_rna. rewrite Ha. cbn.
  unfold mbind, SE_bind, load_profile, read, lift. rewrite balance_default, Hb.
  destruct (Z.ltb_spec b amount); [done|].
  unfold write_movement. rewrite commit_ok by done. cbn. intros [= <- <-].
  assert (checked_add 64 (b - amount) amount = Some b) as Hadd
    by (apply checked_add_Some; lia).
  unfold refund_daemon_rna, mbind, SE_bind, load_profile, read, lift, write_movement.
  cbn -[checked_add]. rewrite lookup_insert_eq. cbn -[checked_add]. rewrite Hadd. cbn.
  eexists. split; [done|]. cbn. split.
  - unfold ledger_balance. cbn. by rewrite lookup_insert_eq.
  - intros c Hc. cbn. by rewrite !lookup_insert_ne.
Qed.

Lemma charge_refund_restores_witness :
  exists s2, refund_daemon_rna 6 "alice" "/r" "issue" 40 "why"
      (charge_daemon_rna 5 "alice" "/r" "issue" 40 (mkKv sample_ledger [])).1 = (s2, Ok 100) /\
    ledger_balance (data s2) "alice" = Ok 100 /\ others_kept "alice" sample_ledger (data s2).
Proof.
  apply (charge_refund_restores 5 6 "alice" "/r" "issue" 40 "why" (mkKv sample_ledger []) _ 60 100);
    [reflexivity|reflexivity|unfold umax; lia|vm_compute; reflexivity].
Defined.

(** ** Interleavings

    Any sequence of the ledger's operations, by any accounts, with any store
    failures; the mutex makes them run one after the other. *)

Inductive ledger_op :=
| DoOpen (now : Z) (account_id : string)
| DoCharge (now : Z) (account_id route_ purpose : string) (amount : Z)
| DoRefund (now : Z) (account_id route_ purpose : string) (amount : Z) (why : string)
| DoCredit (now : Z) (account_id : string) (amount : Z) (why key : string).

Definition op_amount (op : ledger_op) : Z :=
  match op with
  | DoOpen _ _ => 0
  | DoCharge _ _ _ _ n | DoRefund _ _ _ _ n _ | DoCredit _ _ n _ _ => n
  end.

Section interleavings.
Context (sha256_hex : string -> string).

Definition run_op (op : ledger_op) (s : kv Ledger) : kv Ledger :=
  match op with
  | DoOpen now a => (get_or_create_profile now a s).1
  | DoCharge now a r p n => (charge_daemon_rna now a r p n s).1
  | DoRefund now a r p n w => (refund_daemon_rna now a r p n w s).1
  | DoCredit now a n w k => (credit_daemon_rna sha256_hex now a n w k s).1
  end.

Definition run_ops (ops : list ledger_op) (s : kv Ledger) : kv Ledger :=
  foldl (fun s op => run_op op s) s ops.

(** What an operation can do to the ledger: nothing, open an empty profile, or
    one movement, whose new balance is in range when its account's was. *)
Inductive ledger_step (op : ledger_op) : Ledger -> Ledger -> Prop :=
| step_none l : ledger_step op l l
| step_open l a now : profiles l !! a = None ->
    ledger_step op l {| profiles := <[a := new_profile a now]> (profiles l);
                        usage_logs := usage_logs l |}
| step_move l a p n now ev :
    (forall b, ledger_balance l a = Ok b -> 0 <= op_amount op -> 0 <= b <= umax 64 ->
       0 <= n <= umax 64) ->
    is_Some (match ledger_balance l a with Ok b => Some b | Err _ => None end) ->
    (forall x y, usage_logs l !! credit_event_id sha256_hex x y <> None ->
       event_id ev <> credit_event_id sha256_hex x y) ->
    ledger_step op l {| profiles := <[a := touch (set_profile_daemon_rna_balance p n) now]> (profiles l);
                        usage_logs := <[event_id ev := ev]> (usage_logs l) |}.

Lemma pretty_no_d (n : Z) t : pretty n <> String (Ascii.ascii_of_N 100) t.
Proof.
  assert (forall x s, (forall t, s <> String (Ascii.ascii_of_N 100) t) ->
    forall t, pretty_N_go x s <> String (Ascii.ascii_of_N 100) t) as Hgo.
  { intros x. induction (N.lt_wf_0 x) as [x _ IH]; intros s Hs t'.
    assert (x = 0 ∨ 0 < x)%N as [->|?] by lia; [by rewrite pretty_N_go_0|].
    rewrite pretty_N_go_step by done. apply IH; [by apply N.div_lt|].
    intros t''. unfold pretty_N_char. by repeat case_match. }
  destruct n; [done| |done]. unfold pretty, pretty_Z, pretty, pretty_positive, pretty, pretty_N.
  case_decide; [done|]. by apply Hgo.
Qed.

(** The log keys of debits and refunds start with the clock, those of credits
    do not. *)
Lemma charge_event_no_credit now a p rest x y :
  charge_event_id now a p +:+ rest <> credit_event_id sha256_hex x y.
Proof.
  unfold charge_event_id, credit_event_id.
  pose proof (pretty_no_d now) as Hd. destruct (pretty now) as [|c s]; [done|].
  rewrite !append_cons. intros [= ->]. by eapply Hd.
Qed.

(** A movement's transaction is one step, if its parts meet the conditions of
    [step_move]; a failed one is none. *)
Lemma write_movement_step {A} op a p n now ev (x : A) s b :
  ledger_balance (data s) a = Ok b ->
  (0 <= op_amount op -> 0 <= b <= umax 64 -> 0 <= n <= umax 64) ->
  (forall x y, usage_logs (data s) !! credit_event_id sha256_hex x y <> None ->
     event_id ev <> credit_event_id sha256_hex x y) ->
  ledger_step op (data s)
    (data ((write_movement a (touch (set_profile_daemon_rna_balance p n) now) ev ;; mret x) s).1).
Proof.
  intros Hb Hn Hev.
  assert (ledger_step op (data s)
    {| profiles := <[a := touch (set_profile_daemon_rna_balance p n) now]> (profiles (data s));
       usage_logs := <[event_id ev := ev]> (usage_logs (data s)) |}) as Hstep.
  { apply step_move; [by rewrite Hb; intros ? [= <-]|by rewrite Hb|done]. }
  unfold mbind, SE_bind, write_movement, commit.
  destruct (faults s) as [|[] ?]; cbn; done || constructor.
Qed.

Lemma charge_step now a r p n s :
  ledger_step (DoCharge now a r p n) (data s) (data (charge_daemon_rna now a r p n s).1).
Proof.
  unfold charge_daemon_rna. case_match; [constructor|].
  unfold mbind at 1 2, SE_bind at 1 2, load_profile, read, lift. rewrite balance_default.
  destruct (ledger_balance (data s) a) as [b|] eqn:Hb; [|constructor].
  destruct (Z.ltb_spec b n); [constructor|].
  eapply write_movement_step; [exact Hb|cbn [op_amount]; lia|].
  intros x y _. cbn. rewrite <- (append_nil_r (charge_event_id _ _ _)).
  apply charge_event_no_credit.
Qed.

Lemma refund_step now a r p n w s :
  ledger_step (DoRefund now a r p n w) (data s) (data (refund_daemon_rna now a r p n w s).1).
Proof.
  unfold refund_daemon_rna, load_profile.
  unfold mbind at 1 2 3 4, SE_bind at 1 2 3 4, read, lift.
  destruct (profiles (data s) !! a) as [pr|] eqn:E; cbn [ok_or]; [|constructor].
  destruct (profile_daemon_rna_balance pr) as [b|] eqn:Hb; [|constructor].
  destruct (checked_add 64 b n) as [b'|] eqn:Hadd; cbn [ok_or]; [|constructor].
  apply checked_add_Some in Hadd as [-> Hadd].
  eapply (write_movement_step _ _ _ _ _ _ _ _ b); [|cbn [op_amount]; lia|].
  - unfold ledger_balance. by rewrite E.
  - intros x y _. cbn. apply charge_event_no_credit.
Qed.

Lemma credit_step now a n w k s :
  ledger_step (DoCredit now a n w k) (data s)
    (data (credit_daemon_rna sha256_hex now a n w k s).1).
Proof.
  unfold credit_daemon_rna, load_profile. case_match; [constructor|]. case_match; [constructor|].
  unfold mbind at 1, SE_bind at 1, read.
  destruct (usage_logs (data s) !! credit_event_id sha256_hex a k) as [ev|] eqn:El.
  { unfold replay_credit, mbind, SE_bind, load_profile, read, lift.
    repeat (case_match; simplify_eq; cbn; try constructor). }
  unfold mbind at 1 2 3, SE_bind at 1 2 3, lift. rewrite balance_default.
  destruct (ledger_balance (data s) a) as [b|] eqn:Hb; [|constructor].
  destruct (checked_add 64 b n) as [b'|] eqn:Hadd; cbn [ok_or]; [|constructor].
  apply checked_add_Some in Hadd as [-> Hadd].
  eapply write_movement_step; [exact Hb|cbn [op_amount]; lia|].
  intros x y Hxy Heq. cbn [event_id] in Heq. by rewrite <- Heq, El in Hxy.
Qed.

Lemma run_op_step op s : ledger_step op (data s) (data (run_op op s)).
Proof.
  destruct op as [now a| | |]; cbn [run_op];
    [|apply charge_step|apply refund_step|apply credit_step].
  unfold get_or_create_profile. case_match; [constructor|].
  unfold mbind, SE_bind, load_profile, read. destruct (profiles (data s) !! a) eqn:E; [constructor|].
  unfold put_profile, commit. destruct (faults s) as [|[] ?]; cbn; by constructor.
Qed.

(** C29.  Balances stay 64-bit: whatever operations run, in whatever order and
    with whatever store failures, no readable balance goes below zero or above
    [u64::MAX]. *)
Theorem ledger_ok_run ops s :
  Forall (fun op => 0 <= op_amount op) ops -> ledger_ok (data s) ->
  ledger_ok (data (run_ops ops s)).
Proof.
  revert s. induction ops as [|op ops IH]; intros s Hops Hok; cbn; [done|].
  inversion Hops as [|? ? Hop Hrest]; subst. apply IH; [done|].
  destruct (run_op_step op s) as [l|l a now Ha|l a p n now ev Hn [b Hb] _]; [done|..];
    intros id q m; cbn; rewrite lookup_insert_Some; intros [[<- <-]|[_ Hq]] Hm; eauto.
  - cbn in Hm. simplify_eq. unfold umax. lia.
  - rewrite balance_set in Hm. simplify_eq.
    destruct (ledger_balance l a) as [b'|] eqn:E; [|done]. apply (Hn b'); [done..|].
    unfold ledger_balance in E. destruct (profiles l !! a) eqn:El; cbn in E; eauto.
    simplify_eq. unfold umax. lia.
Qed.

(** A recorded credit stays recorded. *)
Lemma credit_log_kept ops s x y ev :
  usage_logs (data s) !! credit_event_id sha256_hex x y = Some ev ->
  usage_logs (data (run_ops ops s)) !! credit_event_id sha256_hex x y = Some ev.
Proof.
  revert s. induction ops as [|op ops IH]; intros s Hev; cbn; [done|].
  apply IH. destruct (run_op_step op s) as [l|l a now Ha|l a p n now ev' _ _ Hkeep]; [done..|].
  cbn. rewrite lookup_insert_ne; [done|]. apply Hkeep. by rewrite Hev.
Qed.

(** A successful credit, first or replayed, is in the log with its figures. *)
Lemma credit_logged now a amount why key s s1 res :
  credit_daemon_rna sha256_hex now a amount why key s = (s1, Ok res) ->
  exists ev, usage_logs (data s1) !! credit_event_id sha256_hex a key = Some ev /\
    event_amount ev = Some (JU64 amount) /\
    balance_before ev = Some (JU64 (result_balance_before res)) /\
    balance_after ev = Some (JU64 (result_balance_after res)).
Proof.
  unfold credit_daemon_rna, load_profile. case_match; [done|]. case_match; [done|].
  unfold mbind, SE_bind, read, lift.
  destruct (usage_logs (data s) !! credit_event_id sha256_hex a key) as [ev|] eqn:El.
  - unfold replay_credit, mbind, SE_bind, load_profile, read, lift.
    destruct (event_amount ev) as [[m|]|] eqn:E1; cbn; try done.
    destruct (Z.eqb_spec m amount) as [->|]; cbn; [|done].
    destruct (balance_before ev) as [[bb|]|] eqn:E2; cbn; try done.
    destruct (balance_after ev) as [[ba|]|] eqn:E3; cbn; try done.
    repeat (case_match; simplify_eq); cbn; try done. intros [= <- <-]. cbn. eauto.
  - rewrite balance_default. destruct (ledger_balance (data s) a); [|done].
    destruct (checked_add 64 _ amount); cbn [ok_or]; [|done].
    unfold write_movement, commit.
    destruct (faults s) as [|[] ?]; cbn; try done; intros [= <- <-];
      eexists; cbn; rewrite lookup_insert_eq; eauto.
Qed.

(** C28.  A credit is applied at most once: after it succeeded, repeating it with
    the same account and idempotency key, after any further operations of any
    accounts and with any store failures, writes nothing; it is answered from the log
    with the balances of the first time, and refused if the amount differs. *)
Theorem credit_exactly_once now a amount why key s s1 res ops now' amount' why' :
  credit_daemon_rna sha256_hex now a amount why key s = (s1, Ok res) ->
  let s2 := run_ops ops s1 in
  let '(s3, r) := credit_daemon_rna sha256_hex now' a amount' why' key s2 in
  data s3 = data s2 /\
  forall res', r = Ok res' ->
    amount' = amount /\ idempotent_replay res' = true /\
    result_balance_before res' = result_balance_before res /\
    result_balance_after res' = result_balance_after res.
Proof.
  intros (ev & Hev & Ham & Hbb & Hba)%credit_logged.
  cbn zeta. apply (credit_log_kept ops) in Hev.
  destruct (credit_daemon_rna sha256_hex now' a amount' why' key (run_ops ops s1))
    as [s3 r] eqn:Hc. revert Hc.
  unfold credit_daemon_rna. case_match; [by intros [= <- <-]|]. case_match; [by intros [= <- <-]|].
  unfold mbind at 1, SE_bind at 1, read. rewrite Hev.
  unfold replay_credit, mbind, SE_bind, lift, load_profile, read.
  rewrite Ham, Hbb, Hba. cbn.
  destruct (Z.eqb_spec amount amount') as [<-|]; cbn; [|by intros [= <- <-]].
  repeat (case_match; simplify_eq); cbn; intros [= <- <-]; naive_solver.
Qed.
End interleavings.

(** A stand-in for SHA-256 that keeps its input. *)
Definition id_hash (s : string) : string := s.

Lemma ledger_ok_run_witness :
  ledger_ok (data (run_ops id_hash [DoCharge 5 "alice" "/r" "issue" 40; DoCredit 6 "bob" 7 "w" "k"]
    (mkKv sample_ledger [PersistFails]))).
Proof.
  apply ledger_ok_run; [repeat constructor; cbn; lia|].
  intros id p n Hp Hn. cbn in Hp. apply lookup_singleton_Some in Hp as [_ <-].
  cbn in Hn. simplify_eq. unfold umax. lia.
Defined.

Lemma credit_exactly_once_witness :
  let s1 := (credit_daemon_rna id_hash 5 "alice" 9 "w" "k" (mkKv sample_ledger [])).1 in
  let s2 := run_ops id_hash [DoCharge 6 "alice" "/r" "issue" 100] s1 in
  let '(s3, r) := credit_daemon_rna id_hash 7 "alice" 9 "again" "k" s2 in
  data s3 = data s2 /\
  forall res', r = Ok res' ->
    9 = 9 /\ idempotent_replay res' = true /\
    result_balance_before res' = 100 /\ result_balance_after res' = 109.
Proof.
  apply (credit_exactly_once id_hash 5 "alice" 9 "w" "k" (mkKv sample_ledger [])
    _ {| result_balance_before := 100; result_balance_after := 109; current_balance := 109;
         idempotent_replay := false |}).
  vm_compute. reflexivity.
Defined.

(** The usage log is not a complete audit trail: its key is the clock in
    milliseconds, the account and the purpose, so two debits of one account
    for one purpose in the same millisecond both lower the balance and leave a
    single log entry. *)
Theorem charge_log_collision :
  let s := run_ops id_hash [DoCharge 5 "alice" "/r" "issue" 40; DoCharge 5 "alice" "/r" "issue" 30]
             (mkKv sample_ledger []) in
  ledger_balance (data s) "alice" = Ok 30 /\ size (usage_logs (data s)) = 1%nat.
Proof. vm_compute. auto. Qed.

(** The idempotency key of a credit is hashed as account, NUL byte, key,
    with nothing that forbids NUL inside the two: whatever the hash, a credit of
    one account can take the log key of a different credit of a different
    account, and the second one is then refused instead of applied. *)
Theorem credit_key_ambiguous (h : string -> string) :
  let account1 := "a" +:+ nul +:+ "b" in
  let key2 := "b" +:+ nul +:+ "c" in
  credit_event_id h account1 "c" = credit_event_id h "a" key2 /\
  let '(s1, r1) := credit_daemon_rna id_hash 5 account1 10 "w" "c" (mkKv sample_ledger []) in
  let '(s2, r2) := credit_daemon_rna id_hash 6 "a" 10 "w" key2 s1 in
  is_ok r1 = true /\ is_ok r2 = false /\ data s2 = data s1.
Proof. vm_compute. auto. Qed.
