(* ===== verification/ExternalTypes.v ===== *)
(** * Data and checks of the external-operation engine
      (crates/rgb-service-daemon/src/external.rs)

    The configuration, the durable record of an operation, and the pure checks
    a request goes through: identifiers, the invoice, the spend
    authorization, the carrier PSBT and the signed transaction.  Addresses,
    PSBTs, transactions and invoices are bitcoin-crate and rgb-invoicing data;
    the record [Lib] holds the calls the engine makes to those crates. *)

From stdpp Require Import pretty.
From S2P Require Import Prelude ServiceApi Hex Layer1.
Local Open Scope Z_scope.

(** ** Errors: anyhow values that may carry a service error *)

Inductive err := Svc (e : RgbServiceError) | Anyhow (msg : string).

Definition invalid (s : string) : err := Svc (InvalidRequest s).
Definition conflict (s : string) : err := Svc (Conflict s).
Definition classify (e : err) : RgbServiceError :=
  match e with Svc e => e | Anyhow m => Backend m end.

Abbreviation Res := (result err).

Definition scoped (account id : string) : string := account +:+ "/" +:+ id.

(** ASCII letters, digits, hyphen and underscore. *)
Definition ident_char (c : Ascii.ascii) : bool :=
  let b := byte_val c in
  ((48 <=? b) && (b <=? 57)) || ((65 <=? b) && (b <=? 90)) || ((97 <=? b) && (b <=? 122))
  || (b =? 45) || (b =? 95).

Fixpoint ident_chars (s : string) : bool :=
  match s with EmptyString => true | String c t => ident_char c && ident_chars t end.

Definition identifier (id : string) : Res unit :=
  if str_is_empty id || (128 <? str_len id) || negb (ident_chars id)
  then Err (invalid "identifier must contain 1..128 letters, digits, '-' or '_'")
  else Ok tt.

(** ** Configuration *)

Record ExternalConfig := {
  enabled : bool;
  proxy_allowlist : list string;
  max_consignment_bytes : Z;
  request_timeout_secs : Z;
  cfg_required_confirmations : Z;
  max_operations : Z;
}.

Definition default_config : ExternalConfig := {|
  enabled := false;
  proxy_allowlist := [];
  max_consignment_bytes := 2 * 1024 * 1024;
  request_timeout_secs := 30;
  cfg_required_confirmations := 1;
  max_operations := 10000 |}.

(** The parts of a parsed URL that [proxy_url] looks at (reqwest). *)
Record Url := {
  url_scheme : string;
  url_username : string;
  url_password : option string;
  url_fragment : option string;
  url_query : option string;
  port_or_known_default : option Z;
}.

Definition proxy_url (parse_url : string -> result string Url) (value : string) : Res Url :=
  url ← map_err invalid (parse_url value);
  if negb (String.eqb (url_scheme url) "https")
     || negb (str_is_empty (url_username url))
     || bool_decide (is_Some (url_password url))
     || bool_decide (is_Some (url_fragment url))
     || bool_decide (is_Some (url_query url))
     || negb (bool_decide (port_or_known_default url = Some 443))
  then Err (invalid "proxy must be an HTTPS URL on port 443 without credentials, query or fragment")
  else Ok url.

Definition in_range (lo hi n : Z) : bool := (lo <=? n) && (n <=? hi).

Fixpoint all_proxy_urls (parse_url : string -> result string Url) (l : list string) : Res unit :=
  match l with
  | [] => Ok tt
  | u :: l' => proxy_url parse_url u ;; all_proxy_urls parse_url l'
  end.

Definition validate_config (parse_url : string -> result string Url) (c : ExternalConfig)
    : Res unit :=
  if negb (enabled c) then Ok tt else
  ensure (negb (bool_decide (proxy_allowlist c = [])))
    (Anyhow "external RGB proxy allowlist is required") ;;
  ensure (in_range 1 100 (cfg_required_confirmations c)) (Anyhow "invalid confirmation policy") ;;
  ensure (in_range 1 120 (request_timeout_secs c)) (Anyhow "invalid external timeout") ;;
  ensure (in_range 1024 (16 * 1024 * 1024) (max_consignment_bytes c))
    (Anyhow "invalid proof size limit") ;;
  ensure (in_range 1 100000 (max_operations c)) (Anyhow "invalid operation limit") ;;
  all_proxy_urls parse_url (proxy_allowlist c).

(** Which addresses the proxy client may connect to. *)
Inductive IpAddr := V4 (a b c d : Z) | V6 (s0 s1 : Z).

Definition public_ip (ip : IpAddr) : bool :=
  match ip with
  | V4 a b c d =>
      negb ((a =? 10) || ((a =? 172) && in_range 16 31 b) || ((a =? 192) && (b =? 168)))
      && negb (a =? 127)
      && negb ((a =? 169) && (b =? 254))
      && negb (in_range 224 239 a)
      && negb ((a =? 255) && (b =? 255) && (c =? 255) && (d =? 255))
      && negb (((a =? 192) && (b =? 0) && (c =? 2)) || ((a =? 198) && (b =? 51) && (c =? 100))
               || ((a =? 203) && (b =? 0) && (c =? 113)))
      && negb (a =? 0)
      && (a <? 224)
      && negb ((a =? 100) && in_range 64 127 b)
      && negb ((a =? 198) && ((b =? 18) || (b =? 19)))
      && negb ((a =? 192) && (b =? 0))
  | V6 s0 s1 =>
      (Z.land s0 57344 =? 8192)
      && negb ((s0 =? 8193) && (s1 =? 3512))
      && negb ((s0 =? 8193) && (s1 <? 512))
  end.

(** ** Bitcoin data *)

Record OutPoint := mkOutPoint { op_txid : string; op_vout : Z }.

Record TxIn := {
  previous_output : OutPoint;
  script_sig : string;
  sequence : Z;
  witness : list string;
}.

Record TxOut := { value : Z; script_pubkey : string }.

Record Transaction := {
  version : Z;
  lock_time : Z;
  input : list TxIn;
  output : list TxOut;
}.

Record PsbtInput := {
  witness_utxo : option TxOut;
  final_script_sig : option string;
  final_script_witness : option (list string);
}.

(** [psbt_rest] stands for the maps the engine never looks at. *)
Record Psbt := { unsigned_tx : Transaction; psbt_inputs : list PsbtInput; psbt_rest : string }.

#[export] Instance OutPoint_eq_dec : EqDecision OutPoint.
Proof. solve_decision. Defined.
#[export] Instance TxIn_eq_dec : EqDecision TxIn.
Proof. solve_decision. Defined.
#[export] Instance TxOut_eq_dec : EqDecision TxOut.
Proof. solve_decision. Defined.
#[export] Instance Transaction_eq_dec : EqDecision Transaction.
Proof. solve_decision. Defined.
#[export] Instance OutPoint_countable : Countable OutPoint.
Proof.
  apply (inj_countable' (fun o => (op_txid o, op_vout o)) (fun p => mkOutPoint p.1 p.2)).
  by intros [].
Qed.

Definition SEQUENCE_MAX : Z := 4294967295.

(** [for i in &mut tx.input { i.witness.clear() }] *)
Definition clear_witnesses (tx : Transaction) : Transaction := {|
  version := version tx; lock_time := lock_time tx;
  input := map (fun i => {| previous_output := previous_output i; script_sig := script_sig i;
                            sequence := sequence i; witness := [] |}) (input tx);
  output := output tx |}.

(** ** Invoices (crates/rgb-ops/invoice/src/invoice.rs) *)

Inductive Network := Bitcoin | Testnet | Testnet4 | Signet | Regtest.

Inductive XChainNet (T : Type) :=
| XBitcoinMainnet (data : T)
| XBitcoinTestnet3 (data : T)
| XBitcoinTestnet4 (data : T)
| XBitcoinSignet (data : T)
| XBitcoinSignetCustom (chain_hash : string) (data : T)
| XBitcoinRegtest (data : T)
| XLiquidMainnet (data : T)
| XLiquidTestnet (data : T).
Arguments XBitcoinMainnet {T}.
Arguments XBitcoinTestnet3 {T}.
Arguments XBitcoinTestnet4 {T}.
Arguments XBitcoinSignet {T}.
Arguments XBitcoinSignetCustom {T}.
Arguments XBitcoinRegtest {T}.
Arguments XLiquidMainnet {T}.
Arguments XLiquidTestnet {T}.

(** [XChainNet::with] *)
Definition xwith {T} (cn : ChainNet) (data : T) : XChainNet T :=
  match cn with
  | BitcoinMainnet => XBitcoinMainnet data
  | BitcoinTestnet3 => XBitcoinTestnet3 data
  | BitcoinTestnet4 => XBitcoinTestnet4 data
  | BitcoinSignet => XBitcoinSignet data
  | BitcoinSignetCustom chain_hash => XBitcoinSignetCustom chain_hash data
  | BitcoinRegtest => XBitcoinRegtest data
  | LiquidMainnet => XLiquidMainnet data
  | LiquidTestnet => XLiquidTestnet data
  end.

(** [XChainNet::bitcoin] *)
Definition xbitcoin {T} (network : Network) (data : T) : XChainNet T :=
  match network with
  | Bitcoin => XBitcoinMainnet data
  | Testnet => XBitcoinTestnet3 data
  | Testnet4 => XBitcoinTestnet4 data
  | Signet => XBitcoinSignet data
  | Regtest => XBitcoinRegtest data
  end.

Definition chain_network {T} (x : XChainNet T) : ChainNet :=
  match x with
  | XBitcoinMainnet _ => BitcoinMainnet
  | XBitcoinTestnet3 _ => BitcoinTestnet3
  | XBitcoinTestnet4 _ => BitcoinTestnet4
  | XBitcoinSignet _ => BitcoinSignet
  | XBitcoinSignetCustom chain_hash _ => BitcoinSignetCustom chain_hash
  | XBitcoinRegtest _ => BitcoinRegtest
  | XLiquidMainnet _ => LiquidMainnet
  | XLiquidTestnet _ => LiquidTestnet
  end.

Definition into_inner {T} (x : XChainNet T) : T :=
  match x with
  | XBitcoinMainnet d | XBitcoinTestnet3 d | XBitcoinTestnet4 d | XBitcoinSignet d
  | XBitcoinSignetCustom _ d | XBitcoinRegtest d | XLiquidMainnet d | XLiquidTestnet d => d
  end.

(** A witness beneficiary is given by the script its address pays to. *)
Inductive Beneficiary :=
| BlindedSeal (seal : string)
| WitnessVout (pay_script : string) (internal_key : option string).

Inductive InvoiceState := Void | InvAmount (amount : Z) | InvData (data : string).

Record RgbInvoice := {
  transports : list string;
  contract : option string;
  schema : option string;
  assignment_name : option string;
  assignment_state : option InvoiceState;
  beneficiary : XChainNet Beneficiary;
  expiry : option Z;
  unknown_query : list (string * string);
}.

(** [RgbInvoiceBuilder::with(..)] and the setters the engine chains on it. *)
Definition build_invoice (contract_id : string) (b : XChainNet Beneficiary)
    (amount : Z) (expires_at : Z) (transport : string) : RgbInvoice := {|
  transports := [transport];
  contract := Some contract_id;
  schema := None;
  assignment_name := Some "assetOwner";
  assignment_state := Some (InvAmount amount);
  beneficiary := b;
  expiry := Some expires_at;
  unknown_query := [] |}.

Inductive ExternalRgbSeal := SealWitness (vout : Z) | SealBlind (seal : string).

(** ** Calls to the bitcoin, rgb and encoding crates *)

Inductive EcdsaSighashType :=
| EAll | ENone | ESingle | EAllPlusAnyoneCanPay | ENonePlusAnyoneCanPay | ESinglePlusAnyoneCanPay.
Inductive TapSighashType :=
| TDefault | TAll | TNone | TSingle
| TAllPlusAnyoneCanPay | TNonePlusAnyoneCanPay | TSinglePlusAnyoneCanPay.

#[export] Instance EcdsaSighashType_eq_dec : EqDecision EcdsaSighashType.
Proof. solve_decision. Defined.
#[export] Instance TapSighashType_eq_dec : EqDecision TapSighashType.
Proof. solve_decision. Defined.

Record Lib := {
  (** SHA-256 in hexadecimal *)
  digest : string -> string;
  (** [serde_json] form of an action without its authorization *)
  semantic_json : ExternalRgbAction -> string;
  (** [Address::from_str(..).require_network(..)]; an address is given by its
      canonical text and its script *)
  parse_address : string -> result string (string * string);
  parse_outpoint : string -> result string OutPoint;
  outpoint_to_string : OutPoint -> string;
  parse_txid : string -> result string string;
  parse_contract : string -> result string string;
  parse_transport : string -> result string string;
  parse_url : string -> result string Url;
  invoice_from_str : string -> result string RgbInvoice;
  invoice_to_string : RgbInvoice -> string;
  beneficiary_to_string : XChainNet Beneficiary -> string;
  conceal : string -> string;
  parse_graph_seal : string -> result string string;
  psbt_deserialize : string -> result string Psbt;
  psbt_serialize : Psbt -> string;
  extract_tx : Psbt -> result string Transaction;
  serialize_tx : Transaction -> string;
  deserialize_tx : string -> result string Transaction;
  compute_txid : Transaction -> string;
  is_op_return : string -> bool;
  is_p2tr : string -> bool;
  is_p2wpkh : string -> bool;
  key_from_slice : string -> result string string;
  p2wpkh_script : string -> string;
  ecdsa_from_slice : string -> result string (EcdsaSighashType * string);
  p2wpkh_signature_hash : Transaction -> nat -> TxOut -> EcdsaSighashType -> result string string;
  verify_ecdsa_msg : string -> string -> string -> result string unit;
  xonly_from_slice : string -> result string string;
  schnorr_from_slice : string -> result string (TapSighashType * string);
  taproot_signature_hash : Transaction -> nat -> list TxOut -> TapSighashType -> result string string;
  verify_schnorr_msg : string -> string -> string -> result string unit;
  base64_decode : string -> result string string;
}.

(** ** Checks on requests *)

Section checks.
Context (lib : Lib).

Definition MAX_PSBT : Z := 2 * 1024 * 1024.

(** [hex_decode(..).map_err(..)]: a panic of [hex_decode] ends the request
    like an error does. *)
Definition hex_bytes (e : string -> err) (text : string) : Res string :=
  map_err (fun f => match f with
                    | Panic => e "panic"
                    | Fault (InvalidRequest m) => e ("invalid request: " +:+ m)
                    | Fault _ => e ""
                    end) (hex_decode text).

Definition parse_psbt (text : string) : Res Psbt :=
  if MAX_PSBT <? str_len text then Err (invalid "PSBT exceeds limit") else
  b ← hex_bytes invalid text;
  map_err invalid (psbt_deserialize lib b).

Definition invoice_amount (now : Z) (invoice : RgbInvoice) (network : Network) : Res Z :=
  if negb (bool_decide (chain_network (beneficiary invoice) = chain_network (xbitcoin network tt)))
  then Err (invalid "invoice network mismatch") else
  if bool_decide (contract invoice = None)
     || match expiry invoice with None => true | Some t => t <=? now end
  then Err (invalid "contract-bound unexpired invoice required") else
  if match assignment_name invoice with
     | Some n => negb (String.eqb n "assetOwner") | None => false end
     || negb (bool_decide (unknown_query invoice = []))
  then Err (invalid "unsupported invoice assignment or extension") else
  match assignment_state invoice with
  | Some (InvAmount a) =>
      if 0 <? a then Ok a else Err (invalid "positive fungible amount required")
  | _ => Err (invalid "positive fungible amount required")
  end.

Definition check_authorization (a : AssetSpendAuthorization) (invoice : RgbInvoice)
    (amount : Z) (psbt : string) : Res unit :=
  if negb (bool_decide (purpose a = L1Transfer)) then
    Err (invalid "asset authorization must bind this contract, amount, canonical invoice and exact PSBT")
  else
  c ← ok_or (contract invoice) (Anyhow "missing contract");
  if negb (String.eqb (auth_asset_id a) c)
     || negb (auth_amount a =? amount)
     || negb (bool_decide (auth_recipient a = Some (invoice_to_string lib invoice)))
     || negb (bool_decide (auth_anchor_psbt a = Some psbt))
  then Err (invalid "asset authorization must bind this contract, amount, canonical invoice and exact PSBT")
  else Ok tt.

(** [rgb_service_local::validate_rgb20_external_carrier] *)
Definition validate_rgb20_external_carrier (psbt : Psbt) : result string unit :=
  let outputs := output (unsigned_tx psbt) in
  match list_find (fun o => is_op_return lib (script_pubkey o) = true) outputs with
  | None => Err "external RGB carrier requires OP_RETURN"
  | Some (opret, _) =>
      ensure (Nat.eqb (length (filter (fun o => is_op_return lib (script_pubkey o) = true) outputs)) 1)
        "external RGB carrier requires exactly one OP_RETURN" ;;
      ensure (negb (existsb (fun o => is_p2tr lib (script_pubkey o)) (take opret outputs)))
        "external RGB OP_RETURN must precede every Taproot output for UTEXO compatibility"
  end.

(** The outputs a carrier may have beside the change and the recipient. *)
Fixpoint only_expected (n : Z) (change : Z) (expected : option Z) (outs : list TxOut) : bool :=
  match outs with
  | [] => true
  | o :: outs' =>
      ((n =? change) || bool_decide (expected = Some n)
       || (is_op_return lib (script_pubkey o) && (value o =? 0)))
      && only_expected (n + 1) change expected outs'
  end.

(** [psbt.inputs.iter().try_fold(..)] over the values of the spent outputs. *)
Fixpoint input_total (acc : Z) (ins : list PsbtInput) : Res Z :=
  match ins with
  | [] => Ok acc
  | i :: ins' =>
      u ← ok_or (witness_utxo i) (invalid "witness_utxo required");
      acc' ← ok_or (checked_add 64 acc (value u)) (invalid "input overflow");
      input_total acc' ins'
  end.

Definition validate_carrier (psbt : Psbt) (account_script : string) (invoice : RgbInvoice)
    (recipient : option Z) (change : Z) : Res unit :=
  map_err invalid (validate_rgb20_external_carrier psbt) ;;
  let tx := unsigned_tx psbt in
  if bool_decide (input tx = [])
     || existsb (fun i => negb (sequence i =? SEQUENCE_MAX) || negb (str_is_empty (script_sig i))
                          || negb (bool_decide (witness i = []))) (input tx)
  then Err (invalid "non-RBF unsigned native SegWit inputs required") else
  if negb (bool_decide (NoDup (map previous_output (input tx))))
  then Err (invalid "duplicate inputs") else
  change_output ← ok_or (output tx !! Z.to_nat change) (invalid "change output missing");
  if negb (String.eqb (script_pubkey change_output) account_script) || (value change_output <? 546)
  then Err (invalid "change must return to account, above dust") else
  expected ← match into_inner (beneficiary invoice) with
    | WitnessVout v None =>
        n ← ok_or recipient (invalid "witness recipient_vout required");
        if (n =? change) || match output tx !! Z.to_nat n with
                            | None => true
                            | Some o => negb (String.eqb (script_pubkey o) v) || (value o <? 546)
                            end
        then Err (invalid "recipient output does not match invoice")
        else Ok (Some n)
    | BlindedSeal _ =>
        if bool_decide (is_Some recipient)
        then Err (invalid "blind transfer has no recipient_vout") else Ok None
    | _ => Err (invalid "tapret recipient unsupported")
    end;
  if negb (only_expected 0 change expected (output tx))
  then Err (invalid "unexpected carrier output") else
  input_sum ← input_total 0 (psbt_inputs psbt);
  outputs ← ok_or (checked_sum 64 0 (map value (output tx))) (invalid "output overflow");
  fee ← ok_or (checked_sub input_sum outputs) (invalid "negative fee");
  if (fee =? 0) || (100000 <? fee)
  then Err (invalid "fee must be 1..100000 sats; review in wallet")
  else Ok tt.

(** One round of [finalized_transaction]'s loop over the inputs. *)
Definition final_input_ok (a b : PsbtInput) : bool :=
  bool_decide (witness_utxo a = witness_utxo b)
  && match final_script_sig b with Some s => str_is_empty s | None => true end
  && match final_script_witness b with Some w => negb (bool_decide (w = [])) | None => false end.

Fixpoint prevouts_of (ins : list PsbtInput) : Res (list TxOut) :=
  match ins with
  | [] => Ok []
  | i :: ins' =>
      u ← ok_or (witness_utxo i) (invalid "missing prevout");
      us ← prevouts_of ins';
      Ok (u :: us)
  end.

(** The verification of the witness of input [index]. *)
Definition verify_witness (tx : Transaction) (prevouts : list TxOut) (index : nat)
    (prev : TxOut) (w : list string) : Res unit :=
  if is_p2wpkh lib (script_pubkey prev) && Nat.eqb (length w) 2 then
    key ← map_err invalid (key_from_slice lib (default "" (w !! 1%nat)));
    if negb (String.eqb (p2wpkh_script lib key) (script_pubkey prev))
    then Err (invalid "witness key does not own prevout") else
    sg ← map_err invalid (ecdsa_from_slice lib (default "" (w !! 0%nat)));
    if negb (bool_decide (sg.1 = EAll)) then Err (invalid "SIGHASH_ALL required") else
    hash ← map_err invalid (p2wpkh_signature_hash lib tx index prev sg.1);
    map_err invalid (verify_ecdsa_msg lib hash sg.2 key)
  else if is_p2tr lib (script_pubkey prev) && Nat.eqb (length w) 1 then
    sg ← map_err invalid (schnorr_from_slice lib (default "" (w !! 0%nat)));
    if negb (bool_decide (sg.1 = TDefault) || bool_decide (sg.1 = TAll))
    then Err (invalid "Taproot DEFAULT or ALL required") else
    key ← map_err invalid (xonly_from_slice lib
             (String.substring 2 (String.length (script_pubkey prev) - 2) (script_pubkey prev)));
    hash ← map_err invalid (taproot_signature_hash lib tx index prevouts sg.1);
    map_err invalid (verify_schnorr_msg lib hash sg.2 key)
  else Err (invalid "unsupported or malformed final native SegWit witness").

(** [prevouts[index]] panics past the end; the prepared PSBT has one prevout
    per input. *)
Fixpoint verify_witnesses (tx : Transaction) (prevouts : list TxOut) (index : nat)
    (ins : list TxIn) : Res unit :=
  match ins with
  | [] => Ok tt
  | i :: ins' =>
      prev ← ok_or (prevouts !! index) (Anyhow "index out of bounds");
      verify_witness tx prevouts index prev (witness i) ;;
      verify_witnesses tx prevouts (S index) ins'
  end.

Definition verify_final_witnesses (prepared : Psbt) (tx : Transaction) : Res unit :=
  prevouts ← prevouts_of (psbt_inputs prepared);
  verify_witnesses tx prevouts 0 (input tx).

Definition finalized_transaction (prepared signed : Psbt) : Res Transaction :=
  if negb (bool_decide (unsigned_tx signed = unsigned_tx prepared))
     || negb (Nat.eqb (length (psbt_inputs signed)) (length (psbt_inputs prepared)))
  then Err (invalid "signed transaction differs from prepared carrier") else
  if negb (forallb (fun ab => final_input_ok ab.1 ab.2)
             (zip (psbt_inputs prepared) (psbt_inputs signed)))
  then Err (invalid "fully finalized native SegWit PSBT with original prevouts required") else
  tx ← map_err invalid (extract_tx lib signed);
  verify_final_witnesses prepared tx ;;
  Ok tx.

End checks.
