(* ===== verification/ExternalStore.v ===== *)
(** * Durable records of the external-operation engine
      (crates/rgb-service-daemon/src/external.rs, [Record] and [Engine])

    The keyspaces of the engine and the methods that read and write them:
    [load], [save], [replay], [new_record], [credit], [mark_utxo_unconfirmed],
    and the account's projection for balances. *)

From stdpp Require Import pretty.
From S2P Require Import Prelude ServiceApi Kv ExternalTypes.
Local Open Scope Z_scope.

Record Record_ := mkRecord {
  schema_version : Z;
  account : string;
  view : ExternalRgbOperation;
  proxy : string;
  rec_expires_at : Z;
  blind_secret : option string;
  receive_outpoint : option string;
  recipient_vout : option Z;
  change_vout : option Z;
  inputs : list string;
  fascia : string;
  proof : string;
  candidate_hex : option string;
  signed_hex : option string;
  next_retry_at : Z;
  attempts : Z;
  quarantine_account : bool;
}.

Record TrackedUtxo := { utxo_outpoint : string; utxo_address : option string; confirmed : bool }.

(** ** Field updates *)

Definition set_view (f : ExternalRgbOperation -> ExternalRgbOperation) (r : Record_) : Record_ :=
  mkRecord (schema_version r) (account r) (f (view r)) (proxy r) (rec_expires_at r)
    (blind_secret r) (receive_outpoint r) (recipient_vout r) (change_vout r) (inputs r)
    (fascia r) (proof r) (candidate_hex r) (signed_hex r) (next_retry_at r) (attempts r)
    (quarantine_account r).

Definition with_status (s : string) (v : ExternalRgbOperation) : ExternalRgbOperation :=
  mkOperation (operation_id v) (direction v) s (asset_id v) (amount v) (op_invoice v)
    (recipient_id v) (txid v) (anchor_psbt v) (delivery_status v) (broadcast_status v)
    (acknowledged v) (confirmations v) (required_confirmations v) (retryable v)
    (last_error v) (created_at v) (updated_at v).
Definition with_txid (t : option string) (v : ExternalRgbOperation) : ExternalRgbOperation :=
  mkOperation (operation_id v) (direction v) (status v) (asset_id v) (amount v) (op_invoice v)
    (recipient_id v) t (anchor_psbt v) (delivery_status v) (broadcast_status v)
    (acknowledged v) (confirmations v) (required_confirmations v) (retryable v)
    (last_error v) (created_at v) (updated_at v).
Definition with_anchor_psbt (p : option string) (v : ExternalRgbOperation) : ExternalRgbOperation :=
  mkOperation (operation_id v) (direction v) (status v) (asset_id v) (amount v) (op_invoice v)
    (recipient_id v) (txid v) p (delivery_status v) (broadcast_status v)
    (acknowledged v) (confirmations v) (required_confirmations v) (retryable v)
    (last_error v) (created_at v) (updated_at v).
Definition with_delivery (d : string) (v : ExternalRgbOperation) : ExternalRgbOperation :=
  mkOperation (operation_id v) (direction v) (status v) (asset_id v) (amount v) (op_invoice v)
    (recipient_id v) (txid v) (anchor_psbt v) d (broadcast_status v)
    (acknowledged v) (confirmations v) (required_confirmations v) (retryable v)
    (last_error v) (created_at v) (updated_at v).
Definition with_broadcast (b : string) (v : ExternalRgbOperation) : ExternalRgbOperation :=
  mkOperation (operation_id v) (direction v) (status v) (asset_id v) (amount v) (op_invoice v)
    (recipient_id v) (txid v) (anchor_psbt v) (delivery_status v) b
    (acknowledged v) (confirmations v) (required_confirmations v) (retryable v)
    (last_error v) (created_at v) (updated_at v).
Definition with_acknowledged (a : option bool) (v : ExternalRgbOperation) : ExternalRgbOperation :=
  mkOperation (operation_id v) (direction v) (status v) (asset_id v) (amount v) (op_invoice v)
    (recipient_id v) (txid v) (anchor_psbt v) (delivery_status v) (broadcast_status v)
    a (confirmations v) (required_confirmations v) (retryable v)
    (last_error v) (created_at v) (updated_at v).
Definition with_confirmations (n : Z) (v : ExternalRgbOperation) : ExternalRgbOperation :=
  mkOperation (operation_id v) (direction v) (status v) (asset_id v) (amount v) (op_invoice v)
    (recipient_id v) (txid v) (anchor_psbt v) (delivery_status v) (broadcast_status v)
    (acknowledged v) n (required_confirmations v) (retryable v)
    (last_error v) (created_at v) (updated_at v).
Definition with_retryable (b : bool) (v : ExternalRgbOperation) : ExternalRgbOperation :=
  mkOperation (operation_id v) (direction v) (status v) (asset_id v) (amount v) (op_invoice v)
    (recipient_id v) (txid v) (anchor_psbt v) (delivery_status v) (broadcast_status v)
    (acknowledged v) (confirmations v) (required_confirmations v) b
    (last_error v) (created_at v) (updated_at v).
Definition with_last_error (e : option string) (v : ExternalRgbOperation) : ExternalRgbOperation :=
  mkOperation (operation_id v) (direction v) (status v) (asset_id v) (amount v) (op_invoice v)
    (recipient_id v) (txid v) (anchor_psbt v) (delivery_status v) (broadcast_status v)
    (acknowledged v) (confirmations v) (required_confirmations v) (retryable v)
    e (created_at v) (updated_at v).
Definition with_updated_at (n : Z) (v : ExternalRgbOperation) : ExternalRgbOperation :=
  mkOperation (operation_id v) (direction v) (status v) (asset_id v) (amount v) (op_invoice v)
    (recipient_id v) (txid v) (anchor_psbt v) (delivery_status v) (broadcast_status v)
    (acknowledged v) (confirmations v) (required_confirmations v) (retryable v)
    (last_error v) (created_at v) n.

Definition set_status (s : string) : Record_ -> Record_ := set_view (with_status s).
Definition set_txid t : Record_ -> Record_ := set_view (with_txid t).
Definition set_anchor_psbt p : Record_ -> Record_ := set_view (with_anchor_psbt p).
Definition set_delivery d : Record_ -> Record_ := set_view (with_delivery d).
Definition set_broadcast b : Record_ -> Record_ := set_view (with_broadcast b).
Definition set_acknowledged a : Record_ -> Record_ := set_view (with_acknowledged a).
Definition set_confirmations n : Record_ -> Record_ := set_view (with_confirmations n).
Definition set_retryable b : Record_ -> Record_ := set_view (with_retryable b).
Definition set_last_error e : Record_ -> Record_ := set_view (with_last_error e).
Definition set_updated_at n : Record_ -> Record_ := set_view (with_updated_at n).

Definition set_receive (secret outpoint : option string) (r : Record_) : Record_ :=
  mkRecord (schema_version r) (account r) (view r) (proxy r) (rec_expires_at r)
    secret outpoint (recipient_vout r) (change_vout r) (inputs r)
    (fascia r) (proof r) (candidate_hex r) (signed_hex r) (next_retry_at r) (attempts r)
    (quarantine_account r).
Definition set_vouts (recipient change : option Z) (r : Record_) : Record_ :=
  mkRecord (schema_version r) (account r) (view r) (proxy r) (rec_expires_at r)
    (blind_secret r) (receive_outpoint r) recipient change (inputs r)
    (fascia r) (proof r) (candidate_hex r) (signed_hex r) (next_retry_at r) (attempts r)
    (quarantine_account r).
Definition set_inputs (l : list string) (r : Record_) : Record_ :=
  mkRecord (schema_version r) (account r) (view r) (proxy r) (rec_expires_at r)
    (blind_secret r) (receive_outpoint r) (recipient_vout r) (change_vout r) l
    (fascia r) (proof r) (candidate_hex r) (signed_hex r) (next_retry_at r) (attempts r)
    (quarantine_account r).
Definition set_artifacts (f p : string) (r : Record_) : Record_ :=
  mkRecord (schema_version r) (account r) (view r) (proxy r) (rec_expires_at r)
    (blind_secret r) (receive_outpoint r) (recipient_vout r) (change_vout r) (inputs r)
    f p (candidate_hex r) (signed_hex r) (next_retry_at r) (attempts r)
    (quarantine_account r).
Definition set_proof (p : string) (r : Record_) : Record_ := set_artifacts (fascia r) p r.
Definition set_candidate (c : option string) (r : Record_) : Record_ :=
  mkRecord (schema_version r) (account r) (view r) (proxy r) (rec_expires_at r)
    (blind_secret r) (receive_outpoint r) (recipient_vout r) (change_vout r) (inputs r)
    (fascia r) (proof r) c (signed_hex r) (next_retry_at r) (attempts r)
    (quarantine_account r).
Definition set_signed (c : option string) (r : Record_) : Record_ :=
  mkRecord (schema_version r) (account r) (view r) (proxy r) (rec_expires_at r)
    (blind_secret r) (receive_outpoint r) (recipient_vout r) (change_vout r) (inputs r)
    (fascia r) (proof r) (candidate_hex r) c (next_retry_at r) (attempts r)
    (quarantine_account r).
Definition set_retry (next n : Z) (r : Record_) : Record_ :=
  mkRecord (schema_version r) (account r) (view r) (proxy r) (rec_expires_at r)
    (blind_secret r) (receive_outpoint r) (recipient_vout r) (change_vout r) (inputs r)
    (fascia r) (proof r) (candidate_hex r) (signed_hex r) next n
    (quarantine_account r).
Definition set_quarantine (b : bool) (r : Record_) : Record_ :=
  mkRecord (schema_version r) (account r) (view r) (proxy r) (rec_expires_at r)
    (blind_secret r) (receive_outpoint r) (recipient_vout r) (change_vout r) (inputs r)
    (fascia r) (proof r) (candidate_hex r) (signed_hex r) (next_retry_at r) (attempts r) b.

(** ** Keyspaces

    [stock] is the rgb-ops state of all accounts; the engine reaches it through
    the calls of [StockLib] only. *)

Record Db (Stk : Type) := mkDb {
  ops : gmap string Record_;
  artifacts : gmap string (string * string);
  idem : gmap string (string * string);
  reserved : gmap string string;
  accounts : gset string;
  prepared_transfers : gset string;
  account_utxos : gmap string TrackedUtxo;
  stock : Stk;
}.
Arguments mkDb {Stk}.
Arguments ops {Stk}.
Arguments artifacts {Stk}.
Arguments idem {Stk}.
Arguments reserved {Stk}.
Arguments accounts {Stk}.
Arguments prepared_transfers {Stk}.
Arguments account_utxos {Stk}.
Arguments stock {Stk}.

(** What is written of a record: its proofs go to a keyspace of their own
    ([#[serde(skip)]]). *)
Definition stored (r : Record_) : Record_ := set_artifacts "" "" r.

(** The entries whose key starts with [prefix], in key order. *)
Definition key_le (a b : string * Record_) : Prop := str_leb a.1 b.1 = true.
#[export] Instance key_le_dec a b : Decision (key_le a b).
Proof. unfold key_le. apply _. Defined.
Definition scan_prefix {Stk} (prefix : string) (d : Db Stk) : list (string * Record_) :=
  merge_sort key_le (filter (fun kv => String.prefix prefix kv.1 = true) (map_to_list (ops d))).

(** ** Transactions as functions on the database *)

Section store.
Context {Stk : Type}.
Abbreviation D := (Db Stk).
Abbreviation E_ := (SE (kv D) err).

Definition io_err : err := Anyhow "store".

Definition load (account_ id : string) : E_ Record_ :=
  lift (identifier id) ;;
  found ← read (fun d => (ops d !! scoped account_ id, artifacts d !! scoped account_ id));
  r ← lift (ok_or found.1 (Svc (NotFound "external operation not found")));
  lift (ensure ((schema_version r =? 1) && String.eqb (account r) account_)
          (Anyhow "unsupported or corrupt external record")) ;;
  mret (match found.2 with Some (f, p) => set_artifacts f p r | None => r end).

(** [for input in &r.inputs]: an input that another operation holds aborts the
    transaction. *)
Fixpoint reserve_all (id : string) (ins : list string) (res : gmap string string)
    : Res (gmap string string) :=
  match ins with
  | [] => Ok res
  | i :: ins' =>
      match res !! i with
      | Some owner =>
          if String.eqb owner id then reserve_all id ins' (<[i := id]> res)
          else Err (conflict ("input reserved: " +:+ i))
      | None => reserve_all id ins' (<[i := id]> res)
      end
  end.

(** The release branch of [save]: only the operation's own reservations go. *)
Fixpoint release_all (id : string) (ins : list string) (res : gmap string string)
    : gmap string string :=
  match ins with
  | [] => res
  | i :: ins' =>
      release_all id ins'
        (if bool_decide (res !! i = Some id) then delete i res else res)
  end.

(** The body of the write transaction of [save]. *)
Definition save_tx (r : Record_) (key_hash : option (string * string)) (reserve : bool) (d : D)
    : Res D :=
  let id := operation_id (view r) in
  idem' ← match key_hash with
    | None => Ok (idem d)
    | Some (key, hash) =>
        match idem d !! key with
        | Some old =>
            if bool_decide (old = (hash, id)) then Ok (<[key := (hash, id)]> (idem d))
            else Err (conflict "request_id already used with another request")
        | None => Ok (<[key := (hash, id)]> (idem d))
        end
    end;
  res1 ← (if reserve then reserve_all id (inputs r) (reserved d) else Ok (reserved d));
  let res2 :=
    if String.eqb (direction (view r)) "send" && String.eqb (status (view r)) "cancelled"
    then release_all id (inputs r) res1 else res1 in
  let key := scoped (account r) id in
  let art :=
    if negb (str_is_empty (fascia r)) || negb (str_is_empty (proof r))
    then <[key := (fascia r, proof r)]> (artifacts d) else artifacts d in
  Ok (mkDb (<[key := stored r]> (ops d)) art idem' res2 ({[account r]} ∪ accounts d)
        (prepared_transfers d) (account_utxos d) (stock d)).

Definition save (r : Record_) (key_hash : option (string * string)) (reserve : bool) : E_ unit :=
  d ← read (fun d => d);
  d' ← lift (save_tx r key_hash reserve d);
  commit io_err (fun _ => d').

Definition replay (account_ kind_ request_id hash : string) : E_ (option Record_) :=
  lift (identifier request_id) ;;
  found ← read (fun d => idem d !! scoped account_ (kind_ +:+ "/" +:+ request_id));
  match found with
  | None => mret None
  | Some (old, id) =>
      if String.eqb old hash
      then r ← load account_ id; mret (Some r)
      else fail (conflict "request_id already used with different parameters")
  end.

Definition account_utxo_key (account_id outpoint : string) : string :=
  account_id +:+ ":" +:+ outpoint.

(** The body of the write transaction of [credit]. *)
Definition credit_tx (outpoint : string) (r : Record_) (d : D) : D :=
  let utxos := foldl (fun m i => delete (account_utxo_key (account r) i) m)
                 (account_utxos d) (inputs r) in
  let res := if String.eqb (direction (view r)) "receive"
             then foldl (fun m i => delete i m) (reserved d) (inputs r) else reserved d in
  let utxo := {| utxo_outpoint := outpoint; utxo_address := Some (account r); confirmed := true |} in
  let committed := set_retryable false (set_status "settled" r) in
  mkDb (<[scoped (account r) (operation_id (view r)) := stored committed]> (ops d))
    (artifacts d) (idem d) res (accounts d) (prepared_transfers d)
    (<[account_utxo_key (account r) outpoint := utxo]> utxos) (stock d).

Definition credit (r : Record_) (outpoint : string) : E_ unit :=
  commit io_err (credit_tx outpoint r).

Definition mark_utxo_unconfirmed (r : Record_) : E_ unit :=
  outpoint ← lift (
    if String.eqb (direction (view r)) "send" then
      t ← ok_or (txid (view r)) (Anyhow "txid missing");
      c ← ok_or (change_vout r) (Anyhow "change missing");
      Ok (t +:+ ":" +:+ pretty c)
    else ok_or (receive_outpoint r) (Anyhow "outpoint missing"));
  let key := account_utxo_key (account r) outpoint in
  found ← read (fun d => account_utxos d !! key);
  match found with
  | None => mret tt
  | Some u =>
      commit io_err (fun d =>
        mkDb (ops d) (artifacts d) (idem d) (reserved d) (accounts d) (prepared_transfers d)
          (<[key := {| utxo_outpoint := utxo_outpoint u; utxo_address := utxo_address u;
                       confirmed := false |}]> (account_utxos d)) (stock d))
  end.

(** [guard_legacy_account]: an account that used the external engine is shut
    out of the older spending paths. *)
Definition guard_legacy_account (account_ : string) : SE (kv D) RgbServiceError unit :=
  used ← read (fun d => bool_decide (account_ ∈ accounts d));
  if (used : bool)
  then fail (Conflict "account uses external RGB operations; use /v1/external for spends")
  else mret tt.

End store.
