(* ===== verification/ExternalEngine.v ===== *)
(** * The external-operation engine
      (crates/rgb-service-daemon/src/external.rs, [Engine])

    The requests ([execute_locked], one definition per action), the recovery
    worker ([scan_operations], [advance] and the two state machines
    [advance_send] and [advance_receive]) and the calls they make to the
    chain, to the proxy and to the RGB stock. *)

From stdpp Require Import pretty.
From S2P Require Import Prelude ServiceApi Kv Hex ExternalTypes ExternalStore.
Local Open Scope Z_scope.

(** ** The world outside the process *)

(** What the engine reads of a decoded consignment. *)
Record Transfer := {
  t_contract : string;
  t_witnesses : list (string * option Transaction);
  t_terminals : list (list string);
}.

(** A stored allocation: outpoint, contract and amount. *)
Record Allocation := { al_outpoint : OutPoint; al_contract : string; al_amount : Z }.

(** The answers of the chain backend, of the proxy and of the RGB stock during
    one call of the engine. *)
Record Env (Stk : Type) := {
  (** GET /tx/{txid}/hex: [None] is 404 *)
  net_tx_hex : string -> Res (option string);
  (** GET /tx/{txid}/outspend/{vout} *)
  net_outspend : OutPoint -> Res Value;
  (** GET /tx/{txid}/status: [None] is 404 *)
  net_status : string -> Res (option Value);
  net_tip : Res Z;
  (** POST /tx *)
  net_post_tx : string -> Res string;
  (** a JSON-RPC reply of the proxy to [method] for [recipient_id] *)
  net_rpc : string -> string -> option bool -> Res Value;
  (** the multipart upload: recipient, txid, vout and proof *)
  net_upload : string -> option string -> option Z -> string -> Res Value;
  (** calls to rgb-service-local on the stock of an account *)
  stk_active_pending : Stk -> string -> result string bool;
  stk_assets : Stk -> string -> list OutPoint -> result string (list Allocation);
  stk_schema : Stk -> string -> string -> result string string;
  stk_prepare : Stk -> string -> Psbt -> Z -> string -> Z -> ExternalRgbSeal ->
                Stk * result string (Psbt * string * string);
  stk_pending_confirmed : Stk -> string -> string -> result string bool;
  stk_stage_sender : Stk -> string -> string -> string -> Stk * result string unit;
  stk_promote : Stk -> string -> Stk * result string unit;
  stk_preview : Stk -> string -> Transfer -> Transaction -> OutPoint -> option string ->
                result string (list Allocation);
  stk_store_secret : Stk -> string -> string -> Stk * result string unit;
  stk_accept : Stk -> string -> string -> Stk * result string unit;
  decode_transfer : string -> result string Transfer;
}.
Arguments net_tx_hex {Stk}.
Arguments net_outspend {Stk}.
Arguments net_status {Stk}.
Arguments net_tip {Stk}.
Arguments net_post_tx {Stk}.
Arguments net_rpc {Stk}.
Arguments net_upload {Stk}.
Arguments stk_active_pending {Stk}.
Arguments stk_assets {Stk}.
Arguments stk_schema {Stk}.
Arguments stk_prepare {Stk}.
Arguments stk_pending_confirmed {Stk}.
Arguments stk_stage_sender {Stk}.
Arguments stk_promote {Stk}.
Arguments stk_preview {Stk}.
Arguments stk_store_secret {Stk}.
Arguments stk_accept {Stk}.
Arguments decode_transfer {Stk}.

(** The [{:#}] form of an error. *)
Definition err_text (e : err) : string :=
  match e with
  | Anyhow m => m
  | Svc (Unauthorized m) => "unauthorized: " +:+ m
  | Svc (Forbidden m) => "forbidden: " +:+ m
  | Svc (InvalidRequest m) => "invalid request: " +:+ m
  | Svc (SignatureRequired m) => "signature required: " +:+ m
  | Svc (AssetSpendAuthorizationRequired m) => "asset spend authorization required: " +:+ m
  | Svc (NotFound m) => "not found: " +:+ m
  | Svc (Conflict m) => "conflict: " +:+ m
  | Svc (NotImplemented m) => "not implemented: " +:+ m
  | Svc (Backend m) => "backend error: " +:+ m
  end.

(** A missing proxy slot is an empty answer; every other RPC error is one. *)
Definition proxy_result (method : string) (body : Value) : Res Value :=
  if negb (v_is_null (vindex body "error")) then
    if (String.eqb method "consignment.get" || String.eqb method "ack.get")
       && bool_decide (v_as_i64 (vindex (vindex body "error") "code") = Some (-400))
       && bool_decide (v_as_str (vindex (vindex body "error") "message")
                       = Some "Consignment file not found")
    then Ok VNull
    else Err (Anyhow "proxy RPC error")
  else ok_or (vget body "result") (Anyhow "proxy result missing").

Section engine.
Context {Stk : Type} (lib : Lib) (config : ExternalConfig) (network : Network).
Abbreviation D := (Db Stk).
Abbreviation E_ := (SE (kv D) err).
(** Methods with a [&mut Record] argument: the record is part of the state, and
    what was changed before an early return stays changed. *)
Abbreviation R_ := (SE (kv D * Record_) err).

Section call.
Context (now : Z) (env : Env Stk).

Definition any {A} (r : result string A) : Res A := map_err Anyhow r.

Definition db {A} (m : E_ A) : R_ A := fun s =>
  let '(d, x) := m s.1 in ((d, s.2), x).
Definition rec : R_ Record_ := gets snd.
Definition upd (f : Record_ -> Record_) : R_ unit := modify (fun s => (s.1, f s.2)).
(** [self.save(r, None, false)?] *)
Definition save_rec : R_ unit := r ← rec; db (save r None false).

(** A stock call that may change the stock. *)
Definition stock_call {A} (f : Stk -> Stk * result string A) : E_ A := fun s =>
  let d := data s in
  let '(stk, x) := f (stock d) in
  (mkKv (mkDb (ops d) (artifacts d) (idem d) (reserved d) (accounts d)
           (prepared_transfers d) (account_utxos d) stk) (faults s), any x).

Definition account_address (account_ : string) : Res (string * string) :=
  a ← map_err invalid (parse_address lib account_);
  if negb (String.eqb a.1 account_)
  then Err (invalid "canonical lowercase account address required") else Ok a.

Definition chain_tx (txid_ : string) : Res (option Transaction) :=
  body ← net_tx_hex env txid_;
  match body with
  | None => Ok None
  | Some text =>
      b ← hex_bytes Anyhow text;
      tx ← any (deserialize_tx lib b);
      ensure (String.eqb (compute_txid lib tx) txid_) (Anyhow "chain returned wrong transaction") ;;
      Ok (Some tx)
  end.

Definition confirmations_of (txid_ : string) : Res Z :=
  status_ ← net_status env txid_;
  match status_ with
  | None => Ok 0
  | Some v =>
      if negb (bool_decide (v_as_bool (vindex v "confirmed") = Some true)) then Ok 0 else
      height ← ok_or (v_as_u64 (vindex v "block_height"))
                 (Anyhow "confirmed transaction missing height");
      tip ← net_tip env;
      Ok (match checked_sub tip height with
          | Some n => Z.min (n + 1) (umax 32)
          | None => 0
          end)
  end.

Definition rpc (method recipient : string) (ack : option bool) : Res Value :=
  body ← net_rpc env method recipient ack;
  proxy_result method body.

Definition owned_unspent (outpoint : OutPoint) (account_script : string) : Res TxOut :=
  found ← chain_tx (op_txid outpoint);
  tx ← ok_or found (invalid "input transaction not found");
  out ← ok_or (output tx !! Z.to_nat (op_vout outpoint)) (invalid "input vout missing");
  if negb (String.eqb (script_pubkey out) account_script)
  then Err (invalid "input not owned by account") else
  spent ← net_outspend env outpoint;
  if negb (bool_decide (v_as_bool (vindex spent "spent") = Some false))
  then Err (conflict "input spent or chain status unavailable") else
  n ← confirmations_of (op_txid outpoint);
  if n <? cfg_required_confirmations config
  then Err (conflict "input not sufficiently confirmed") else Ok out.

(** [encoded.strip_prefix("rpcs://")] *)
Definition invoice_proxy (invoice : RgbInvoice) : Res string :=
  match transports invoice with
  | [encoded] =>
      if String.prefix "rpcs://" encoded then
        let url := "https://" +:+ String.substring 7 (String.length encoded - 7) encoded in
        if bool_decide (url ∈ proxy_allowlist config) then Ok url
        else Err (invalid "invoice proxy is not allowlisted")
      else Err (invalid "HTTPS RGB proxy required")
  | _ => Err (invalid "exactly one configured proxy transport required")
  end.

Definition new_record (account_ id : string) (invoice : RgbInvoice) (amount_ : Z)
    (direction_ : string) : E_ Record_ :=
  d ← read (fun d => d);
  if max_operations config <=? Z.of_nat (size (ops d))
  then fail (conflict "external operation capacity reached") else
  let legacy := existsb (String.prefix (account_ +:+ ":")) (elements (prepared_transfers d)) in
  pending ← (if (legacy : bool) then mret true
             else lift (any (stk_active_pending env (stock d) account_)));
  if (pending : bool)
  then fail (conflict "account has legacy prepared/pending operations; reconcile before external use")
  else
  proxy_ ← lift (invoice_proxy invoice);
  asset ← lift (ok_or (contract invoice) (invalid "contract required"));
  expires ← lift (ok_or (expiry invoice) (invalid "invoice expiry required"));
  mret (mkRecord 1 account_
    (mkOperation id direction_
       (if String.eqb direction_ "receive" then "awaiting_transfer" else "preparing")
       asset amount_ (invoice_to_string lib invoice)
       (beneficiary_to_string lib (beneficiary invoice)) None None "not_started" "not_started"
       None 0 (cfg_required_confirmations config) true None now now)
    proxy_ expires None None None None [] "" "" None None 0 0 false).

(** ** Requests *)

Definition one (v : ExternalRgbOperation) : ExternalRgbResponse :=
  {| operations := [v]; next_cursor := None |}.

Definition op_key (kind_ request_id : string) : string := kind_ +:+ "/" +:+ request_id.

(** The digest that identifies a request up to its authorization. *)
Definition request_hash (a : ExternalRgbAction) : string := digest lib (semantic_json lib a).

(** [replacen("https://", "rpcs://", 1)] *)
Definition https_to_rpcs (url : string) : string :=
  match String.index 0 "https://" url with
  | None => url
  | Some n => String.substring 0 n url +:+ "rpcs://" +:+
              String.substring (n + 8) (String.length url - (n + 8)) url
  end.

(** [Action::Receive]; [secret] is the seal [GraphSeal::new_random] draws. *)
Definition do_receive (secret : string) (account_ address_script hash request_id asset_id_ : string)
    (amount_ expires_at : Z) (blind_outpoint : option string) : E_ ExternalRgbOperation :=
  old ← replay account_ "receive" request_id hash;
  match old with
  | Some r => mret (view r)
  | None =>
    if (amount_ =? 0) || (expires_at <=? now) || (now + 7 * 86400 <? expires_at)
    then fail (invalid "positive amount and expiry within seven days required") else
    contract_ ← lift (map_err invalid (parse_contract lib asset_id_));
    d ← read (fun d => d);
    seal ← lift (match blind_outpoint with
      | None => Ok None
      | Some text =>
          outpoint ← map_err invalid (parse_outpoint lib text);
          owned_unspent outpoint address_script ;;
          assets ← any (stk_assets env (stock d) account_ [outpoint]);
          if existsb (fun a => 0 <? al_amount a) assets
          then Err (conflict "blind receive requires an unallocated UTXO")
          else Ok (Some secret)
      end);
    let b := match seal with
             | Some s => BlindedSeal (conceal lib s)
             | None => WitnessVout address_script None
             end in
    first_proxy ← lift (ok_or (head (proxy_allowlist config)) (Anyhow "index out of bounds"));
    transport ← lift (map_err invalid (parse_transport lib (https_to_rpcs first_proxy)));
    let invoice := build_invoice contract_ (xbitcoin network b) amount_ expires_at transport in
    let recipient := beneficiary_to_string lib (beneficiary invoice) in
    if existsb (fun kv => String.eqb (direction (view kv.2)) "receive"
                          && String.eqb (recipient_id (view kv.2)) recipient)
         (scan_prefix (account_ +:+ "/") d)
    then fail (conflict "witness recipient already used; use a new account address or a blind invoice")
    else
    let id := digest lib (scoped account_ (op_key "receive" request_id)) in
    r0 ← new_record account_ id invoice amount_ "receive";
    let r1 := set_receive seal blind_outpoint r0 in
    let r := match blind_outpoint with Some o => set_inputs (inputs r1 ++ [o]) r1 | None => r1 end in
    save r (Some (scoped account_ (op_key "receive" request_id), hash)) true ;;
    mret (view r)
  end.

(** Runs a [&mut Record] method on a local record. *)
Definition on_record {A} (r : Record_) (m : R_ A) : E_ (Record_ * result err A) := fun s =>
  let '((d, r'), x) := m (s, r) in (d, Ok (r', x)).

Definition finish_preparation (psbt : Psbt) (seal : ExternalRgbSeal) : R_ unit :=
  r ← rec;
  contract_ ← lift (map_err invalid (parse_contract lib (asset_id (view r))));
  change ← lift (ok_or (change_vout r) (Anyhow "missing change"));
  out ← db (stock_call (fun stk => stk_prepare env stk (account r) psbt change contract_
                                     (amount (view r)) seal));
  let '(prepared, fascia_, proof_) := out in
  upd (set_artifacts fascia_ proof_) ;;
  if max_consignment_bytes config <? str_len proof_
  then fail (invalid "outgoing proof exceeds configured limit") else
  upd (fun r =>
    set_last_error None (set_retryable false (set_status "awaiting_signature"
      (set_anchor_psbt (Some (hex_encode (psbt_serialize lib prepared)))
        (set_candidate (Some (hex_encode (serialize_tx lib (unsigned_tx prepared))))
          (set_txid (Some (compute_txid lib (unsigned_tx prepared))) r)))))) ;;
  save_rec.

(** [psbt.unsigned_tx.input.iter().position(..).unwrap()] finds the first input
    that spends the same outpoint. *)
Fixpoint check_inputs (psbt : Psbt) (address_script : string) (ins : list TxIn) : Res unit :=
  match ins with
  | [] => Ok tt
  | i :: ins' =>
      actual ← owned_unspent (previous_output i) address_script;
      n ← ok_or (fst <$> list_find (fun j => previous_output j = previous_output i)
                           (input (unsigned_tx psbt))) (Anyhow "unwrap");
      inp ← ok_or (psbt_inputs psbt !! n) (Anyhow "index out of bounds");
      if negb (bool_decide (witness_utxo inp = Some actual))
      then Err (invalid "PSBT witness_utxo differs from chain")
      else check_inputs psbt address_script ins'
  end.

Fixpoint check_settled (utxos : gmap string TrackedUtxo) (account_ : string)
    (allocs : list Allocation) : Res unit :=
  match allocs with
  | [] => Ok tt
  | a :: allocs' =>
      tracked ← ok_or (utxos !! account_utxo_key account_ (outpoint_to_string lib (al_outpoint a)))
                  (conflict "RGB input has not completed daemon settlement");
      if negb (confirmed tracked)
      then Err (conflict "RGB input requires confirmation recovery")
      else check_settled utxos account_ allocs'
  end.

Definition beneficiary_seal (no_vout : err) (unsupported : err) (b : Beneficiary)
    (recipient : option Z) : Res ExternalRgbSeal :=
  match b with
  | BlindedSeal s => Ok (SealBlind s)
  | WitnessVout _ None => v ← ok_or recipient no_vout; Ok (SealWitness v)
  | WitnessVout _ (Some _) => Err unsupported
  end.

Definition do_prepare (account_ address_script hash request_id invoice_text unsigned_anchor_psbt : string)
    (recipient : option Z) (change : Z) (auth : AssetSpendAuthorization) : E_ ExternalRgbOperation :=
  old ← replay account_ "prepare" request_id hash;
  match old with
  | Some r => mret (view r)
  | None =>
    d ← read (fun d => d);
    if existsb (fun kv => quarantine_account kv.2) (scan_prefix (account_ +:+ "/") d)
    then fail (conflict "account has an operation requiring review") else
    invoice ← lift (map_err invalid (invoice_from_str lib invoice_text));
    amount_ ← lift (invoice_amount now invoice network);
    lift (match schema invoice with
      | None => Ok tt
      | Some expected =>
          c ← ok_or (contract invoice) (Anyhow "contract missing");
          actual ← any (stk_schema env (stock d) account_ c);
          if negb (String.eqb expected actual)
          then Err (invalid "invoice schema differs from stored contract") else Ok tt
      end) ;;
    lift (check_authorization lib auth invoice amount_ unsigned_anchor_psbt) ;;
    psbt ← lift (parse_psbt lib unsigned_anchor_psbt);
    lift (validate_carrier lib psbt address_script invoice recipient change) ;;
    lift (check_inputs psbt address_script (input (unsigned_tx psbt))) ;;
    allocs ← lift (any (stk_assets env (stock d) account_
                          (map previous_output (input (unsigned_tx psbt)))));
    lift (check_settled (account_utxos d) account_ allocs) ;;
    seal ← lift (beneficiary_seal (invalid "recipient_vout required")
                   (invalid "tapret recipient not supported")
                   (into_inner (beneficiary invoice)) recipient);
    let id := digest lib (scoped account_ (op_key "prepare" request_id)) in
    r0 ← new_record account_ id invoice amount_ "send";
    let r := set_candidate (Some unsigned_anchor_psbt)
               (set_vouts recipient (Some change)
                 (set_inputs (map (fun i => outpoint_to_string lib (previous_output i))
                                (input (unsigned_tx psbt))) r0)) in
    save r (Some (scoped account_ (op_key "prepare" request_id), hash)) true ;;
    out ← on_record r (finish_preparation psbt seal);
    match out with
    | (r', Ok _) => mret (view r')
    | (r', Err e) =>
        save (set_last_error (Some (err_text e)) r') None false ;;
        fail e
    end
  end.

Definition do_finalize (account_ hash request_id operation_id_ signed_anchor_psbt : string)
    (auth : AssetSpendAuthorization) : E_ ExternalRgbOperation :=
  old ← replay account_ "finalize" request_id hash;
  match old with
  | Some r => mret (view r)
  | None =>
    r ← load account_ operation_id_;
    if negb (String.eqb (direction (view r)) "send")
    then fail (invalid "not a send operation") else
    invoice ← lift (map_err invalid (invoice_from_str lib (op_invoice (view r))));
    prepared ← lift (ok_or (anchor_psbt (view r)) (conflict "preparation is not complete"));
    lift (check_authorization lib auth invoice (amount (view r)) prepared) ;;
    signed ← lift (parse_psbt lib signed_anchor_psbt);
    prepared ← lift (parse_psbt lib prepared);
    tx ← lift (finalized_transaction lib prepared signed);
    let raw := hex_encode (serialize_tx lib tx) in
    r' ← lift (match signed_hex r with
      | Some old_raw =>
          if negb (String.eqb old_raw raw)
          then Err (conflict "operation already finalized with a different signed transaction")
          else Ok r
      | None =>
          if negb (String.eqb (status (view r)) "awaiting_signature") || (rec_expires_at r <=? now)
          then Err (conflict "operation is not awaiting a valid signature")
          else Ok (set_retryable true (set_status "delivering" (set_signed (Some raw) r)))
      end);
    save r' (Some (scoped account_ (op_key "finalize" request_id), hash)) false ;;
    mret (view r')
  end.

(** The page loop of [Action::List]: at most [limit + 1] entries are taken. *)
Fixpoint take_page (after : option string) (limit : nat) (views : list ExternalRgbOperation)
    (entries : list (string * Record_)) : list ExternalRgbOperation :=
  match entries with
  | [] => views
  | (_, r) :: rest =>
      if match after with Some id => str_leb (operation_id (view r)) id | None => false end
      then take_page after limit views rest
      else
        let views' := views ++ [view r] in
        if Nat.ltb limit (length views') then views' else take_page after limit views' rest
  end.

Definition do_list (account_ : string) (after : option string) (limit : Z) : E_ ExternalRgbResponse :=
  if (limit =? 0) || (100 <? limit) then fail (invalid "limit must be 1..100") else
  lift (match after with Some a => identifier a | None => Ok tt end) ;;
  d ← read (fun d => d);
  let views := take_page after (Z.to_nat limit) [] (scan_prefix (account_ +:+ "/") d) in
  mret (if Z.to_nat limit <? length views then
          let page := take (length views - 1) views in
          {| operations := page; next_cursor := operation_id <$> last page |}
        else {| operations := views; next_cursor := None |})%nat.

Definition do_refresh (account_ operation_id_ : string) : E_ ExternalRgbOperation :=
  r ← load account_ operation_id_;
  let r' := set_retry 0 (attempts r) r in
  save r' None false ;;
  mret (view r').

Definition do_cancel (account_ hash request_id operation_id_ : string) : E_ ExternalRgbOperation :=
  old ← replay account_ "cancel" request_id hash;
  match old with
  | Some r => mret (view r)
  | None =>
    r ← load account_ operation_id_;
    if String.eqb (direction (view r)) "send"
    then fail (conflict "a returned PSBT may already be signed; cancellation cannot release its inputs")
    else if String.eqb (direction (view r)) "receive"
            && (negb (str_is_empty (proof r)) || bool_decide (is_Some (txid (view r))))
    then fail (conflict "payment already detected; continue recovery")
    else
      let r' := set_retryable false (set_status "cancelled" r) in
      save r' (Some (scoped account_ (op_key "cancel" request_id), hash)) false ;;
      mret (view r')
  end.

Definition execute_locked (secret : string) (request : ExternalRgbRequest) : E_ ExternalRgbResponse :=
  let account_ := req_account_id request in
  address ← lift (account_address account_);
  let hash := request_hash (action request) in
  match action request with
  | Receive request_id asset_id_ amount_ expires_at blind_outpoint =>
      v ← do_receive secret account_ address.2 hash request_id asset_id_ amount_ expires_at blind_outpoint;
      mret (one v)
  | Prepare request_id invoice psbt recipient change auth =>
      v ← do_prepare account_ address.2 hash request_id invoice psbt recipient change auth;
      mret (one v)
  | Finalize request_id operation_id_ psbt auth =>
      v ← do_finalize account_ hash request_id operation_id_ psbt auth;
      mret (one v)
  | Get operation_id_ => r ← load account_ operation_id_; mret (one (view r))
  | List after limit => do_list account_ after limit
  | Refresh operation_id_ => v ← do_refresh account_ operation_id_; mret (one v)
  | Cancel request_id operation_id_ =>
      v ← do_cancel account_ hash request_id operation_id_; mret (one v)
  end.

(** ** The recovery worker *)

Definition upload (r : Record_) : Res unit :=
  reply ← net_upload env (recipient_id (view r)) (txid (view r)) (recipient_vout r) (proof r);
  if bool_decide (v_as_bool (vindex reply "result") = Some true) then Ok tt else
  (* an earlier upload may have succeeded even when its reply was lost *)
  kept ← rpc "consignment.get" (recipient_id (view r)) None;
  if negb (bool_decide (v_as_str (vindex kept "txid") = Some (default "" (txid (view r)))))
  then Err (conflict "proxy slot contains a different consignment") else
  b ← any (base64_decode lib (default "" (v_as_str (vindex kept "consignment"))));
  if negb (String.eqb b (proof r))
  then Err (conflict "proxy slot contains a different consignment") else Ok tt.

Definition broadcast (r : Record_) : Res unit :=
  t ← ok_or (txid (view r)) (Anyhow "txid missing");
  txid_ ← any (parse_txid lib t);
  found ← chain_tx txid_;
  match found with
  | Some actual =>
      hex ← ok_or (candidate_hex r) (Anyhow "candidate missing");
      b ← hex_bytes Anyhow hex;
      candidate ← any (deserialize_tx lib b);
      ensure (bool_decide (clear_witnesses actual = candidate))
        (Anyhow "chain carrier differs from prepared transaction")
  | None =>
      raw ← ok_or (signed_hex r) (Anyhow "signed transaction missing");
      text ← net_post_tx env raw;
      ensure (String.eqb text txid_) (Anyhow "unexpected broadcast response")
  end.

Definition advance_send : R_ unit :=
  r ← rec;
  if String.eqb (status (view r)) "preparing" then
    hex ← lift (ok_or (candidate_hex r) (Anyhow "preparation input missing"));
    psbt ← lift (parse_psbt lib hex);
    invoice ← lift (any (invoice_from_str lib (op_invoice (view r))));
    seal ← lift (beneficiary_seal (Anyhow "recipient missing") (invalid "unsupported beneficiary")
                   (into_inner (beneficiary invoice)) (recipient_vout r));
    finish_preparation psbt seal
  else if bool_decide (signed_hex r = None) then mret tt
  else
    (if negb (String.eqb (delivery_status (view r)) "delivered") then
       lift (upload r) ;;
       upd (set_delivery "delivered") ;;
       save_rec
     else mret tt) ;;
    r ← rec;
    (if negb (String.eqb (broadcast_status (view r)) "broadcast") then
       upd (set_broadcast "unknown") ;;
       save_rec ;;
       r ← rec;
       lift (broadcast r) ;;
       upd (set_broadcast "broadcast") ;;
       upd (set_status "waiting_confirmations") ;;
       save_rec
     else mret tt) ;;
    r ← rec;
    ack ← lift (rpc "ack.get" (recipient_id (view r)) None);
    upd (set_acknowledged (v_as_bool ack)) ;;
    t ← lift (ok_or (txid (view r)) (Anyhow "missing send txid"));
    txid_ ← lift (any (parse_txid lib t));
    n ← lift (confirmations_of txid_);
    upd (set_confirmations n) ;;
    r ← rec;
    if n <? required_confirmations (view r) then mret tt else
    d ← db (read (fun d => d));
    done ← lift (any (stk_pending_confirmed env (stock d) (account r) txid_));
    (if (done : bool) then mret tt else
       db (stock_call (fun stk => stk_stage_sender env stk (account r) txid_ (fascia r))) ;;
       db (stock_call (fun stk => stk_promote env stk (account r))) ;;
       d ← db (read (fun d => d));
       promoted ← lift (any (stk_pending_confirmed env (stock d) (account r) txid_));
       lift (ensure promoted (Anyhow "sender RGB state not yet promoted"))) ;;
    vout ← lift (ok_or (change_vout r) (Anyhow "missing change vout"));
    db (credit r (outpoint_to_string lib (mkOutPoint txid_ vout))) ;;
    upd (fun r => set_retryable false (set_status "settled" r)) ;;
    if bool_decide (acknowledged (view r) = Some false) then
      upd (set_status "needs_review") ;;
      fail (conflict "peer rejected a confirmed payment; inspect proof without releasing inputs")
    else mret tt.

(** [reject]: a deterministic mismatch ends the operation for review. *)
Definition reject (message : string) : R_ unit :=
  upd (fun r => set_last_error (Some message) (set_retryable false (set_status "needs_review" r))) ;;
  save_rec ;;
  r ← rec;
  lift (rpc "ack.post" (recipient_id (view r)) (Some false)) ;;
  fail (conflict message).

(** The first part of [advance_receive]: fetch the consignment.  [false] means
    that nothing has arrived yet. *)
Definition fetch_consignment : R_ bool :=
  r ← rec;
  if negb (str_is_empty (proof r)) then mret true else
  reply ← lift (rpc "consignment.get" (recipient_id (view r)) None);
  if v_is_null reply then mret false else
  encoded ← lift (ok_or (v_as_str (vindex reply "consignment")) (Anyhow "proxy consignment missing"));
  b ← lift (any (base64_decode lib encoded));
  if max_consignment_bytes config <? str_len b
  then fail (invalid "consignment too large") else
  t ← lift (ok_or (v_as_str (vindex reply "txid")) (Anyhow "proxy txid missing"));
  txid_ ← lift (any (parse_txid lib t));
  upd (set_proof b) ;;
  upd (set_txid (Some txid_)) ;;
  (if bool_decide (blind_secret r = None) then
     vout ← lift (ok_or (v_as_u64 (vindex reply "vout") ≫=
                          (fun v => if is_uint 32 v then Some v else None))
                    (Anyhow "proxy vout missing"));
     upd (set_receive (blind_secret r) (Some (outpoint_to_string lib (mkOutPoint txid_ vout))))
   else mret tt) ;;
  if (rec_expires_at r <=? now) || String.eqb (status (view r)) "cancelled" then
    upd (fun r => set_retryable false (set_status "needs_review" r)) ;;
    save_rec ;;
    fail (conflict "payment arrived for expired/cancelled invoice; proof retained")
  else
    upd (set_status "validating") ;;
    save_rec ;;
    mret true.

(** The sum of the previewed allocations of the operation's contract. *)
Definition received_amount (asset : string) (allocs : list Allocation) : Res Z :=
  ok_or (checked_sum 64 0 (map al_amount (filter (fun a => al_contract a = asset) allocs)))
    (Anyhow "allocation overflow").

(** The second part of [advance_receive]: validate the proof; a rejection is
    an error and ends the pass. *)
Definition validate_receive (txid_ : string) (outpoint : OutPoint) : R_ unit :=
  r ← rec;
  if negb (String.eqb (status (view r)) "validating") then mret tt else
  match decode_transfer env (proof r) with
  | Err _ => reject "malformed RGB consignment"
  | Ok transfer =>
    if negb (String.eqb (t_contract transfer) (asset_id (view r)))
    then reject "consignment contract differs from invoice" else
    let own := match list_find (fun w => w.1 = txid_) (t_witnesses transfer) with
               | Some (_, (_, Some tx)) => Some tx
               | _ => None
               end in
    candidate ← lift (match own with
      | Some tx => Ok tx
      | None => found ← chain_tx txid_; ok_or found (Anyhow "carrier not yet available")
      end);
    let own_script := match account_address (account r) with Ok a => a.2 | Err _ => "" end in
    if bool_decide (blind_secret r = None)
       && match output candidate !! Z.to_nat (op_vout outpoint) with
          | None => true
          | Some o => negb (String.eqb (script_pubkey o) own_script)
          end
    then reject "carrier recipient differs from invoice account" else
    secret ← lift (match blind_secret r with
      | None => Ok None
      | Some s => g ← any (parse_graph_seal lib s); Ok (Some g)
      end);
    (if bool_decide (is_Some secret) then
       lift (a ← account_address (account r);
             owned_unspent outpoint a.2 ;; Ok tt)
     else mret tt) ;;
    if match secret with
       | Some s => negb (existsb (fun seals => bool_decide (conceal lib s ∈ seals))
                           (t_terminals transfer))
       | None => false
       end
    then reject "proof does not target the invoice blind seal" else
    d ← db (read (fun d => d));
    allocs ← lift (any (stk_preview env (stock d) (account r) transfer candidate outpoint secret));
    total ← lift (received_amount (asset_id (view r)) allocs);
    if negb (total =? amount (view r))
    then reject "received amount differs from invoice; manual review required" else
    upd (set_candidate (Some (hex_encode (serialize_tx lib candidate)))) ;;
    upd (fun r => set_delivery "validated" (set_status "waiting_confirmations" r)) ;;
    save_rec
  end.

Definition advance_receive : R_ unit :=
  arrived ← fetch_consignment;
  if negb (arrived : bool) then mret tt else
  r ← rec;
  t ← lift (ok_or (txid (view r)) (Anyhow "receive txid missing"));
  txid_ ← lift (any (parse_txid lib t));
  text ← lift (ok_or (receive_outpoint r) (Anyhow "receive outpoint missing"));
  outpoint ← lift (any (parse_outpoint lib text));
  validate_receive txid_ outpoint ;;
  r ← rec;
  (if negb (bool_decide (acknowledged (view r) = Some true)) then
     lift (rpc "ack.post" (recipient_id (view r)) (Some true)) ;;
     ack ← lift (rpc "ack.get" (recipient_id (view r)) None);
     lift (ensure (bool_decide (v_as_bool ack = Some true)) (Anyhow "proxy ACK not recorded")) ;;
     upd (set_acknowledged (Some true)) ;;
     save_rec
   else mret tt) ;;
  n ← lift (confirmations_of txid_);
  upd (set_confirmations n) ;;
  r ← rec;
  if n <? required_confirmations (view r) then mret tt else
  found ← lift (chain_tx txid_);
  actual ← lift (ok_or found (Anyhow "confirmed carrier missing"));
  hex ← lift (ok_or (candidate_hex r) (Anyhow "validated carrier missing"));
  b ← lift (hex_bytes Anyhow hex);
  candidate ← lift (any (deserialize_tx lib b));
  if negb (bool_decide (clear_witnesses actual = clear_witnesses candidate))
  then reject "confirmed carrier differs from validated proof" else
  (match blind_secret r with
   | Some s =>
       g ← lift (any (parse_graph_seal lib s));
       db (stock_call (fun stk => stk_store_secret env stk (account r) g))
   | None => mret tt
   end) ;;
  lift (any (decode_transfer env (proof r))) ;;
  db (stock_call (fun stk => stk_accept env stk (account r) (proof r))) ;;
  db (credit r (outpoint_to_string lib outpoint)) ;;
  upd (fun r => set_broadcast "confirmed" (set_retryable false (set_status "settled" r))).

Definition advance : R_ unit :=
  r ← rec;
  if String.eqb (status (view r)) "settled" then
    t ← lift (ok_or (txid (view r)) (Anyhow "missing settled txid"));
    txid_ ← lift (any (parse_txid lib t));
    n ← lift (confirmations_of txid_);
    upd (set_confirmations n) ;;
    r ← rec;
    if n <? required_confirmations (view r) then
      upd (fun r => set_quarantine true (set_retryable false (set_status "needs_review" r))) ;;
      r ← rec;
      db (mark_utxo_unconfirmed r) ;;
      fail (conflict "settled carrier lost required confirmations; account requires review")
    else mret tt
  else if String.eqb (direction (view r)) "receive" then advance_receive
  else advance_send.

(** Whether the worker takes up an operation. *)
Definition due (r : Record_) : bool :=
  negb (String.eqb (direction (view r)) "send" && String.eqb (status (view r)) "cancelled")
  && (next_retry_at r <=? now)
  && negb (String.eqb (status (view r)) "awaiting_signature")
  && negb (String.eqb (status (view r)) "needs_review").

(** [30u64.saturating_mul(1u64 << attempts.min(6))] seconds *)
Definition backoff (attempts_ : Z) : Z :=
  saturating_mul 64 30 (Z.shiftl 1 (Z.min attempts_ 6)).

(** One round of the worker's loop, on the operation [account_]/[id]. *)
Definition scan_one (account_ id : string) : E_ unit :=
  r ← load account_ id;
  if negb (due r) then mret tt else
  out ← on_record r advance;
  let '(r1, res) := out in
  let r2 := match res with
    | Ok _ => set_retry (now + 60) 0 (set_last_error None r1)
    | Err e =>
        let n := saturating_add 32 (attempts r1) 1 in
        set_retryable (negb (String.eqb (status (view r1)) "needs_review"))
          (set_retry (now + backoff n) n (set_last_error (Some (err_text e)) r1))
    end in
  save (set_updated_at now r2) None false.

(** [scan_operations]: the due operations, the longest waiting first, at most
    32 of them. *)
Definition retry_le (a b : string * string * Z) : Prop := a.2 <= b.2.
#[local] Instance retry_le_dec a b : Decision (retry_le a b).
Proof. unfold retry_le. apply _. Defined.

Definition due_operations (d : D) : list (string * string * Z) :=
  merge_sort retry_le
    (map (fun kv => (account kv.2, operation_id (view kv.2), next_retry_at kv.2))
       (filter (fun kv => due kv.2 = true) (scan_prefix "" d))).

Definition scan_operations : E_ unit :=
  d ← read (fun d => d);
  lift (ensure (forallb (fun kv => schema_version kv.2 =? 1) (scan_prefix "" d))
          (Anyhow "unsupported external operation schema")) ;;
  for_each (take 32 (due_operations d)) (fun x => scan_one x.1.1 x.1.2).

End call.

(** [execute] and [scan]: errors are reported as service errors. *)
Definition execute (now : Z) (env : Env Stk) (secret : string) (request : ExternalRgbRequest)
    : SE (kv D) RgbServiceError ExternalRgbResponse := fun s =>
  let '(s', r) := execute_locked now env secret request s in (s', map_err classify r).

Definition scan (now : Z) (env : Env Stk) : SE (kv D) RgbServiceError unit := fun s =>
  let '(s', r) := scan_operations now env s in (s', map_err classify r).

End engine.

(** ** What balances see ([account_projection]) *)

Inductive OperationStatus :=
| StPrepared | StReserved | StPending | StCommitted | StSettled | StCancelled | StFailed
| StRecoveryRequired.
Inductive AllocationStatus :=
| AlAvailable | AlReserved | AlPendingIn | AlPendingOut | AlSettling | AlLocked.

#[export] Instance OperationStatus_eq_dec : EqDecision OperationStatus.
Proof. solve_decision. Defined.
#[export] Instance AllocationStatus_eq_dec : EqDecision AllocationStatus.
Proof. solve_decision. Defined.

Record PendingOperation := {
  pending_operation_id : string;
  pending_asset_id : option string;
  pending_amount : option Z;
  pending_status : OperationStatus;
  related_txid : option string;
}.

Record AccountProjection := {
  quarantined : bool;
  proj_reserved : gset string;
  pending : list PendingOperation;
}.

Definition allocation_status (p : AccountProjection) (outpoint : string) (confirmed_ : bool)
    : AllocationStatus :=
  if quarantined p then AlLocked
  else if bool_decide (outpoint ∈ proj_reserved p) then AlReserved
  else if negb confirmed_ then AlPendingIn
  else AlAvailable.

(** One round of [account_projection]'s loop. *)
Definition project_record (p : AccountProjection) (r : Record_) : AccountProjection :=
  let q := quarantined p || quarantine_account r in
  if String.eqb (status (view r)) "settled"
     || (String.eqb (status (view r)) "cancelled" && String.eqb (direction (view r)) "send")
  then {| quarantined := q; proj_reserved := proj_reserved p; pending := pending p |}
  else
    let res := proj_reserved p ∪ list_to_set (inputs r) in
    if String.eqb (status (view r)) "cancelled"
    then {| quarantined := q; proj_reserved := res; pending := pending p |}
    else
      let st := if String.eqb (status (view r)) "preparing" then StReserved
                else if String.eqb (status (view r)) "awaiting_signature" then StPrepared
                else if String.eqb (status (view r)) "needs_review" then StRecoveryRequired
                else StPending in
      {| quarantined := q; proj_reserved := res;
         pending := pending p ++ [{| pending_operation_id := operation_id (view r);
                                     pending_asset_id := Some (asset_id (view r));
                                     pending_amount := Some (amount (view r));
                                     pending_status := st;
                                     related_txid := txid (view r) |}] |}.

Definition account_projection {Stk} (account_ : string) (d : Db Stk)
    : result RgbServiceError AccountProjection :=
  let entries := scan_prefix (account_ +:+ "/") d in
  if forallb (fun kv => schema_version kv.2 =? 1) entries
  then Ok (foldl (fun p kv => project_record p kv.2)
             {| quarantined := false; proj_reserved := ∅; pending := [] |} entries)
  else Err (Backend "unsupported external operation schema").
