(* ===== verification/ExternalSafety.v ===== *)
(** * Safety of the external-operation engine

    The invariant of the engine's database and that every request and every
    round of the recovery worker preserves it, with store failures anywhere
    but between commit and persist.  Its consequences are in
    ExternalTheorems.v. *)

From stdpp Require Import pretty.
From Stdlib Require Import Ascii.
From S2P Require Import Prelude ServiceApi Kv Hex ExternalTypes ExternalStore ExternalEngine.
Local Open Scope Z_scope.

(** ** Records *)

Abbreviation oid r := (operation_id (view r)).
Abbreviation dir r := (direction (view r)).
Abbreviation stat r := (status (view r)).

Definition rkey (r : Record_) : string := scoped (account r) (oid r).

(** A receive lets go of its outpoint when it settles (a later quarantine keeps
    it let go); a send never does. *)
Definition holds (r : Record_) : Prop :=
  dir r = "receive" -> stat r <> "settled" /\ quarantine_account r = false.

(** What never changes in an operation, and what is frozen by its signature. *)
Record evolves (r r' : Record_) : Prop := {
  ev_schema : schema_version r' = schema_version r;
  ev_account : account r' = account r;
  ev_id : oid r' = oid r;
  ev_dir : dir r' = dir r;
  ev_asset : asset_id (view r') = asset_id (view r);
  ev_amount : amount (view r') = amount (view r);
  ev_invoice : op_invoice (view r') = op_invoice (view r);
  ev_recipient : recipient_id (view r') = recipient_id (view r);
  ev_inputs : inputs r' = inputs r;
  ev_change : change_vout r' = change_vout r;
  ev_signed : forall raw, signed_hex r = Some raw ->
    signed_hex r' = Some raw /\ txid (view r') = txid (view r) /\
    anchor_psbt (view r') = anchor_psbt (view r) /\ candidate_hex r' = candidate_hex r;
}.

#[export] Instance evolves_refl : Reflexive evolves.
Proof. intros r. by constructor. Qed.

#[export] Instance evolves_trans : Transitive evolves.
Proof.
  intros a b c [] []. constructor; try congruence.
  intros raw H. destruct (ev_signed0 raw H) as (H1 & ? & ? & ?).
  destruct (ev_signed1 raw H1) as (? & ? & ? & ?). split_and!; congruence.
Qed.

Section safety.
Context {Stk : Type} (lib : Lib) (config : ExternalConfig) (network : Network).
Abbreviation D := (Db Stk).

(** The request that created an operation. *)
Definition origin (r : Record_) (request_id : string) : string :=
  scoped (account r) (op_key (if String.eqb (dir r) "receive" then "receive" else "prepare") request_id).

Record rec_ok (r : Record_) : Prop := {
  ok_schema : schema_version r = 1;
  ok_dir : dir r = "send" \/ dir r = "receive";
  ok_origin : exists request_id, ident_chars request_id = true /\
    oid r = digest lib (origin r request_id);
  ok_send : dir r = "send" -> stat r <> "cancelled";
  ok_signed : is_Some (signed_hex r) ->
    dir r = "send" /\ stat r <> "preparing" /\ stat r <> "awaiting_signature";
  ok_quarantine : quarantine_account r = true -> stat r = "needs_review";
  ok_released : ~ holds r -> is_Some (txid (view r));
  ok_settled : stat r = "settled" -> required_confirmations (view r) <= confirmations (view r);
}.

Record Inv (d : D) : Prop := {
  inv_ops : forall k r, ops d !! k = Some r -> k = rkey r /\ rec_ok r;
  inv_reserved : forall k r, ops d !! k = Some r -> holds r ->
    forall i, i ∈ inputs r -> reserved d !! i = Some (oid r);
  inv_idem : forall k r, ops d !! k = Some r ->
    exists request_id h, oid r = digest lib (origin r request_id) /\
      ident_chars request_id = true /\
      idem d !! origin r request_id = Some (h, oid r);
}.

(** The operations of [d] are still there in [d'], and no answer recorded for a
    request was lost or changed. *)
Record extends (d d' : D) : Prop := {
  ext_ops : forall k r, ops d !! k = Some r -> exists r', ops d' !! k = Some r' /\ evolves r r';
  ext_idem : forall k v, idem d !! k = Some v -> idem d' !! k = Some v;
}.

#[local] Instance extends_refl : Reflexive extends.
Proof. intros d. constructor; eauto using evolves_refl. Qed.

#[local] Instance extends_trans : Transitive extends.
Proof.
  intros a b c [] []. constructor; [|by eauto].
  intros k r Hr. destruct (ext_ops0 k r Hr) as (r1 & H1 & ?).
  destruct (ext_ops1 k r1 H1) as (r2 & ? & ?). exists r2. split; [done|by etrans].
Qed.

(** A write that is committed but reported as failed is the only store failure
    the engine does not survive. *)
Definition sound_io (s : kv D) : Prop := PersistFails ∉ faults s.

(** ** Identifiers of distinct requests *)

Definition no_slash (s : string) : Prop := ident_chars s = true.

Lemma ident_no_slash s t u : ident_chars s = true -> s <> t +:+ "/" +:+ u.
Proof.
  revert s. induction t as [|c t IH]; intros s Hs ->.
  - cbn in Hs. done.
  - rewrite append_cons in Hs. cbn in Hs. apply andb_prop in Hs as [_ Hs]. by eapply IH.
Qed.

(** The text after the last slash determines the text before it. *)
Lemma last_segment a b x y :
  ident_chars x = true -> ident_chars y = true ->
  a +:+ "/" +:+ x = b +:+ "/" +:+ y -> a = b /\ x = y.
Proof.
  intros Hx Hy. revert b. induction a as [|c a IH]; intros [|c' b] H.
  - cbv in H. by simplify_eq.
  - rewrite append_cons in H. change ("" +:+ "/" +:+ x) with (String "/"%char x) in H.
    injection H as _ H. by destruct (ident_no_slash x b y Hx).
  - rewrite append_cons in H. change ("" +:+ "/" +:+ y) with (String "/"%char y) in H.
    injection H as _ H. by destruct (ident_no_slash y a x Hy).
  - rewrite !append_cons in H. injection H as -> H. by destruct (IH b H) as [-> ->].
Qed.

(** SHA-256 has no collision among the texts the engine hashes. *)
Context (digest_inj : forall a b, digest lib a = digest lib b -> a = b).

Lemma origin_inj r r' x x' :
  ident_chars x = true -> ident_chars x' = true ->
  origin r x = origin r' x' ->
  account r = account r' /\ (dir r = "receive" <-> dir r' = "receive") /\ x = x'.
Proof.
  unfold origin, scoped, op_key. intros Hx Hx' H.
  rewrite <- !(append_assoc (account _)), <- !(append_assoc _ "/" x), <- !(append_assoc _ "/" x') in H.
  rewrite !append_assoc in H.
  assert (forall a k z, a +:+ "/" +:+ k +:+ "/" +:+ z = (a +:+ "/" +:+ k) +:+ "/" +:+ z) as Ha.
  { intros. by rewrite !append_assoc. }
  rewrite !Ha in H. apply last_segment in H as [H ->]; [|done..].
  assert (forall b : bool, ident_chars (if b then "receive" else "prepare") = true) as Hk
    by (intros []; reflexivity).
  apply last_segment in H as [-> H]; [|apply Hk..].
  split_and!; [done| |done].
  destruct (String.eqb_spec (dir r) "receive"), (String.eqb_spec (dir r') "receive"); done.
Qed.

(** Two operations with the same identifier are the same operation. *)
Lemma same_id r r' : rec_ok r -> rec_ok r' -> oid r = oid r' ->
  rkey r = rkey r' /\ dir r = dir r'.
Proof.
  intros H H' Hid. destruct (ok_origin _ H) as (x & Hx & E), (ok_origin _ H') as (x' & Hx' & E').
  rewrite E, E' in Hid. apply digest_inj in Hid.
  destruct (origin_inj r r' x x' Hx Hx' Hid) as (Ha & Hd & ->).
  split; [unfold rkey; rewrite Ha, E, E'; by rewrite Hid|].
  destruct (ok_dir _ H), (ok_dir _ H'); naive_solver congruence.
Qed.

(** ** Reservations *)

Lemma reserve_all_spec id ins res res' :
  reserve_all id ins res = Ok res' ->
  (forall i, i ∈ ins -> res' !! i = Some id) /\
  (forall i o, res !! i = Some o -> res' !! i = Some o).
Proof.
  revert res. induction ins as [|j ins IH]; cbn; intros res H.
  { simplify_eq. split; [set_solver|done]. }
  destruct (res !! j) as [o|] eqn:Ej.
  - destruct (String.eqb_spec o id) as [->|]; [|done].
    rewrite insert_id in H by done. destruct (IH _ H) as [H1 H2].
    split; [|done]. intros i [->|Hi]%elem_of_cons; eauto.
  - destruct (IH _ H) as [H1 H2]. split.
    + intros i [->|Hi]%elem_of_cons; [|by eauto]. apply H2, lookup_insert_eq.
    + intros i o Hi. apply H2. rewrite lookup_insert_ne; [done|congruence].
Qed.

(** ** [save] *)

(** The in-memory record [r] continues the stored one. *)
Definition linked (d : D) (r : Record_) : Prop :=
  exists r0, ops d !! rkey r = Some r0 /\ evolves r0 r /\ (holds r -> holds r0).

Lemma rec_ok_stored r : rec_ok r -> rec_ok (stored r).
Proof. by intros []; constructor. Qed.

Lemma evolves_stored r r' : evolves r r' -> evolves r (stored r').
Proof. by intros []; constructor. Qed.

Lemma evolves_unstored r r' : evolves (stored r) r' <-> evolves r r'.
Proof. split; intros []; by constructor. Qed.

Lemma save_tx_spec r kh reserve d d' :
  Inv d -> rec_ok r -> save_tx r kh reserve d = Ok d' ->
  (reserve = false -> linked d r) ->
  (reserve = true -> (exists x h, kh = Some (origin r x, h) /\ ident_chars x = true /\
     oid r = digest lib (origin r x)) /\ ops d !! rkey r = None) ->
  Inv d' /\ extends d d' /\ linked d' r.
Proof.
  intros HI Hr Hs Hold Hnew. unfold save_tx in Hs.
  apply result_bind_Ok in Hs as (idem' & Hidem & Hs).
  apply result_bind_Ok in Hs as (res1 & Hres & Hs).
  assert (String.eqb (dir r) "send" && String.eqb (stat r) "cancelled" = false) as Hnc.
  { destruct (String.eqb_spec (dir r) "send"); [|done].
    destruct (String.eqb_spec (stat r) "cancelled"); [|done]. by destruct (ok_send _ Hr). }
  rewrite Hnc in Hs. injection Hs as <-.
  assert (forall k v, idem d !! k = Some v -> idem' !! k = Some v) as Hidem_ext.
  { intros k v Hk. destruct kh as [[key hash]|]; [|by simplify_eq].
    destruct (idem d !! key) as [old|] eqn:Eo.
    - case_bool_decide; simplify_eq. by rewrite insert_id.
    - simplify_eq. rewrite lookup_insert_ne; [done|congruence]. }
  assert ((forall i, i ∈ inputs r -> holds r -> res1 !! i = Some (oid r)) /\
          (forall i o, reserved d !! i = Some o -> res1 !! i = Some o)) as [Hres1 Hres2].
  { destruct reserve.
    - destruct (reserve_all_spec _ _ _ _ Hres). eauto.
    - simplify_eq. split; [|done]. intros i Hi Hh.
      destruct (Hold eq_refl) as (r0 & H0 & [] & Hhh).
      rewrite ev_id0, <- (inv_reserved _ HI _ _ H0) with (i := i); auto. by rewrite <- ev_inputs0. }
  split_and!.
  - constructor; cbn.
    + intros k q [[<- <-]|[_ Hq]]%lookup_insert_Some; [|by eapply inv_ops].
      split; [done|by apply rec_ok_stored].
    + intros k q [[<- <-]|[_ Hq]]%lookup_insert_Some Hh i Hi; [by apply Hres1|].
      eapply Hres2, inv_reserved; eauto.
    + intros k q [[<- <-]|[_ Hq]]%lookup_insert_Some.
      * destruct reserve.
        { destruct Hnew as [(x & h & -> & Hx & Hid) _]; [done|].
          exists x, h. split_and!; [done..|].
          destruct (idem d !! origin r x); [case_bool_decide|]; simplify_eq; apply lookup_insert_eq. }
        destruct (Hold eq_refl) as (r0 & H0 & Hev & _).
        destruct (inv_idem _ HI _ _ H0) as (x & h & Hx & Hid & Hk).
        exists x, h. assert (origin (stored r) x = origin r0 x) as ->.
        { unfold origin. cbn. by rewrite (ev_account _ _ Hev), (ev_dir _ _ Hev). }
        cbn. rewrite (ev_id _ _ Hev). eauto.
      * destruct (inv_idem _ HI _ _ Hq) as (x & h & ? & ? & ?). eauto 10.
  - constructor; cbn; [|done]. intros k q Hq.
    destruct (decide (k = rkey r)) as [->|Hne].
    + rewrite lookup_insert_eq. eexists. split; [done|]. apply evolves_stored.
      destruct reserve; [|by destruct (Hold eq_refl) as (r0 & H0 & Hev & _); simplify_eq].
      destruct (Hnew eq_refl) as [_ Hn]. congruence.
    + rewrite lookup_insert_ne by done. eauto using evolves_refl.
  - exists (stored r). cbn. rewrite lookup_insert_eq. split_and!; [done| |done].
    by apply evolves_unstored.
Qed.

(** ... and its hexadecimal text is an identifier. *)
Context (digest_ident : forall a, ident_chars (digest lib a) = true).

(** A request that was not answered yet creates a new operation. *)
Lemma fresh_op d r x :
  Inv d -> ident_chars x = true -> oid r = digest lib (origin r x) ->
  idem d !! origin r x = None -> ops d !! rkey r = None.
Proof.
  intros HI Hx Hid Hn. destruct (ops d !! rkey r) as [r0|] eqn:E; [|done]. exfalso.
  destruct (inv_ops _ HI _ _ E) as [Hk _].
  destruct (inv_idem _ HI _ _ E) as (y & h & Hy & Hiy & Hi).
  unfold rkey, scoped in Hk. rewrite Hid, Hy in Hk.
  apply last_segment in Hk as [_ Hk]; [|apply digest_ident..].
  apply digest_inj in Hk. congruence.
Qed.

(** ** State predicates of the symbolic execution *)

Record good (d0 : D) (s : kv D) : Prop := {
  g_inv : Inv (data s);
  g_io : sound_io s;
  g_ext : extends d0 (data s);
}.

Lemma good_refl s : Inv (data s) -> sound_io s -> good (data s) s.
Proof. by constructor. Qed.

Lemma good_trans s1 s2 d0 : good d0 s1 -> good (data s1) s2 -> good d0 s2.
Proof. intros [] []. constructor; [done..|by etrans]. Qed.

Lemma wp_save d0 r kh reserve s :
  good d0 s -> rec_ok r ->
  (reserve = false -> linked (data s) r) ->
  (reserve = true -> (exists x h, kh = Some (origin r x, h) /\ ident_chars x = true /\
     oid r = digest lib (origin r x) /\ idem (data s) !! origin r x = None)) ->
  wp (save r kh reserve)
    (fun s' x => good d0 s' /\ (linked (data s) r \/ x = Ok tt -> linked (data s') r)) s.
Proof.
  intros [HI Hio Hext] Hr Hold Hnew. unfold save.
  wp_step. apply wp_read. cbn. wp_step. apply wp_lift.
  destruct (save_tx r kh reserve (data s)) as [d'|e] eqn:Hs.
  - assert (Inv d' /\ extends (data s) d' /\ linked d' r) as (HI' & Hext' & Hl).
    { eapply save_tx_spec; eauto. intros Hr'.
      destruct (Hnew Hr') as (x & h & -> & ? & ? & ?). split; [by eauto 10|by eapply fresh_op]. }
    unfold commit, wp, sound_io in *. destruct (faults s) as [|[] fs] eqn:Ef; cbn.
    + split; [|done]. constructor; cbn; [done|unfold sound_io; cbn; set_solver|by etrans].
    + split; [|done]. constructor; cbn; [done|unfold sound_io; cbn; set_solver|by etrans].
    + split; [constructor; cbn; [done|unfold sound_io; cbn; set_solver|done]|]. by intros [|[=]].
    + set_solver.
  - split; [by constructor|]. by intros [|[=]].
Qed.

(** An update of the in-memory record that keeps the operation alive. *)
Record harmless (r r' : Record_) : Prop := {
  hl_ev : evolves r r';
  hl_send : dir r = "send" -> stat r' <> "cancelled";
  hl_signed : is_Some (signed_hex r') ->
    dir r' = "send" /\ stat r' <> "preparing" /\ stat r' <> "awaiting_signature";
  hl_quarantine : quarantine_account r' = false;
  hl_settled : stat r' <> "settled";
}.

Lemma harmless_holds r r' : harmless r r' -> holds r'.
Proof. by intros [] _. Qed.

Lemma evolves_origin r r' x : evolves r r' -> origin r' x = origin r x.
Proof. intros []. unfold origin. by rewrite ev_account0, ev_dir0. Qed.

Lemma evolves_rkey r r' : evolves r r' -> rkey r' = rkey r.
Proof. intros []. unfold rkey. congruence. Qed.

Lemma harmless_ok r r' : rec_ok r -> harmless r r' -> rec_ok r'.
Proof.
  intros Hr Hh. destruct Hh as [Hev Hs Hsg Hq Hst] eqn:E. constructor; try done.
  - rewrite (ev_schema _ _ Hev). by apply ok_schema.
  - rewrite (ev_dir _ _ Hev). by apply ok_dir.
  - destruct (ok_origin _ Hr) as (x & ? & Hid). exists x.
    by rewrite (evolves_origin _ _ _ Hev), (ev_id _ _ Hev).
  - rewrite (ev_dir _ _ Hev). done.
  - congruence.
  - intros Hn. destruct Hn. by eapply harmless_holds.
Qed.

(** The worker's invariant while an operation is alive, for a property [P] of
    the record that its updates keep; and the weaker one at its end. *)
Record alive (P : Record_ -> Prop) (d0 : D) (s : kv D) (r : Record_) : Prop := {
  a_good : good d0 s;
  a_ok : rec_ok r;
  a_linked : linked (data s) r;
  a_settled : stat r <> "settled";
  a_quarantine : quarantine_account r = false;
  a_P : P r;
}.

Record ended (d0 : D) (s : kv D) (r : Record_) : Prop := {
  e_good : good d0 s;
  e_ok : rec_ok r;
  e_linked : linked (data s) r;
}.

Lemma alive_ended P d0 s r : alive P d0 s r -> ended d0 s r.
Proof. intros []. by constructor. Qed.

Lemma linked_evolves d r r' : linked d r -> evolves r r' -> (holds r' -> holds r) -> linked d r'.
Proof.
  intros (r0 & H0 & He & Hh) Hev Hh'. exists r0. rewrite (evolves_rkey _ _ Hev).
  split_and!; [done|by etrans|by auto].
Qed.

Lemma alive_holds P d0 s r : alive P d0 s r -> holds r.
Proof. by intros [] _. Qed.

Lemma alive_upd P d0 s r r' : alive P d0 s r -> harmless r r' -> P r' -> alive P d0 s r'.
Proof.
  intros Ha Hh HP. pose proof (alive_holds _ _ _ _ Ha). destruct Ha. constructor; try done.
  - by eapply harmless_ok.
  - eapply linked_evolves; [done|apply Hh|done].
  - apply Hh.
  - apply Hh.
Qed.

(** A computation that keeps an operation alive, whatever its outcome. *)
Definition keeps (P : Record_ -> Prop) (d0 : D) {A} (m : SE (kv D * Record_) err A) : Prop :=
  forall s r, alive P d0 s r -> wp m (fun sr _ => alive P d0 sr.1 sr.2) (s, r).
(** One that may end it. *)
Definition ends (P : Record_ -> Prop) (d0 : D) {A} (m : SE (kv D * Record_) err A) : Prop :=
  forall s r, alive P d0 s r -> wp m (fun sr _ => ended d0 sr.1 sr.2) (s, r).

Lemma alive_same P d0 s r r' :
  alive P d0 s r -> evolves r r' -> stat r' = stat r ->
  quarantine_account r' = quarantine_account r -> signed_hex r' = signed_hex r -> P r' ->
  alive P d0 s r'.
Proof.
  intros Ha Hev Hst Hq Hsg HP. eapply alive_upd; [done| |done]. destruct Ha as [_ Hok _ Hs' Hq' _].
  constructor; [done|rewrite Hst..|rewrite Hq|rewrite Hst]; try done.
  - by apply Hok.
  - rewrite Hsg, (ev_dir _ _ Hev). by apply Hok.
Qed.

Lemma alive_status P st d0 s r r' :
  alive P d0 s r -> evolves r r' -> stat r' = st -> st <> "cancelled" -> st <> "settled" ->
  quarantine_account r' = quarantine_account r ->
  (signed_hex r' = None \/ (dir r = "send" /\ st <> "preparing" /\ st <> "awaiting_signature")) ->
  P r' -> alive P d0 s r'.
Proof.
  intros Ha Hev Hst Hc Hset Hq Hsg HP. eapply alive_upd; [done| |done].
  destruct Ha as [_ Hok _ Hs' Hq' _].
  constructor; [done|rewrite Hst; done|rewrite Hst|by rewrite Hq|by rewrite Hst].
  rewrite (ev_dir _ _ Hev). destruct Hsg as [->|]; [by intros [? ?]|done].
Qed.

Section keeps_rules.
Context (P : Record_ -> Prop) (d0 : D).

Lemma keeps_ends {A} (m : SE (kv D * Record_) err A) : keeps P d0 m -> ends P d0 m.
Proof. intros Hm s r Ha. eapply wp_mono; [by apply Hm|]. cbn. eauto using alive_ended. Qed.

Lemma keeps_bind {A B} (m : SE (kv D * Record_) err A) (f : A -> SE (kv D * Record_) err B) :
  keeps P d0 m -> (forall a, keeps P d0 (f a)) -> keeps P d0 (m ≫= f).
Proof.
  intros Hm Hf s r Ha. apply wp_bind. eapply wp_mono; [by apply Hm|].
  intros [s' r'] [a|e] Ha'; cbn in *; [by apply Hf|done].
Qed.

Lemma ends_bind {A B} (m : SE (kv D * Record_) err A) (f : A -> SE (kv D * Record_) err B) :
  keeps P d0 m -> (forall a, ends P d0 (f a)) -> ends P d0 (m ≫= f).
Proof.
  intros Hm Hf s r Ha. apply wp_bind. eapply wp_mono; [by apply Hm|].
  intros [s' r'] [a|e] Ha'; cbn in *; [by apply Hf|by eapply alive_ended].
Qed.

(** Reading the record: the continuation may use that it is alive. *)
Lemma keeps_rec {B} (f : Record_ -> SE (kv D * Record_) err B) :
  (forall s r, alive P d0 s r -> wp (f r) (fun sr _ => alive P d0 sr.1 sr.2) (s, r)) ->
  keeps P d0 (rec ≫= f).
Proof. intros Hf s r Ha. apply wp_bind, wp_gets. cbn. by apply Hf. Qed.

Lemma ends_rec {B} (f : Record_ -> SE (kv D * Record_) err B) :
  (forall s r, alive P d0 s r -> wp (f r) (fun sr _ => ended d0 sr.1 sr.2) (s, r)) ->
  ends P d0 (rec ≫= f).
Proof. intros Hf s r Ha. apply wp_bind, wp_gets. cbn. by apply Hf. Qed.

Lemma keeps_get_rec : keeps P d0 rec.
Proof. intros s r Ha. by apply wp_gets. Qed.

Lemma keeps_ret {A} (a : A) : keeps P d0 (mret a).
Proof. intros s r Ha. by apply wp_ret. Qed.
Lemma keeps_lift {A} (x : Res A) : keeps P d0 (lift x).
Proof. intros s r Ha. by apply wp_lift. Qed.
Lemma keeps_fail {A} e : keeps P d0 (fail (A := A) e).
Proof. intros s r Ha. by apply wp_fail. Qed.

Lemma keeps_upd f : (forall s r, alive P d0 s r -> alive P d0 s (f r)) -> keeps P d0 (upd f).
Proof. intros Hf s r Ha. apply wp_modify. cbn. by apply Hf. Qed.

Lemma keeps_read {A} (f : D -> A) : keeps P d0 (db (read f)).
Proof. by intros s r Ha. Qed.

Lemma keeps_save : keeps P d0 save_rec.
Proof.
  intros s r Ha. apply wp_bind, wp_gets. cbn. unfold wp, db. cbn.
  pose proof (wp_save d0 r None false s (a_good _ _ _ _ Ha) (a_ok _ _ _ _ Ha)
    (fun _ => a_linked _ _ _ _ Ha) ltac:(done)) as [Hg Hl].
  destruct (save r None false s) as [s' x]; cbn in *.
  destruct Ha. constructor; auto.
Qed.

(** The stock is not part of the engine's own state. *)
Lemma same_tables d d' : ops d' = ops d -> reserved d' = reserved d -> idem d' = idem d ->
  Inv d -> Inv d' /\ extends d d' /\ (forall r, linked d r -> linked d' r).
Proof.
  intros Ho Hr Hi [H1 H2 H3]. split_and!.
  - constructor; rewrite ?Ho, ?Hr, ?Hi; done.
  - constructor; rewrite ?Ho, ?Hi; eauto using evolves_refl.
  - intros r (r0 & ? & ?). exists r0. by rewrite Ho.
Qed.

Lemma stock_call_alive {A} (f : Stk -> Stk * result string A) s r :
  alive P d0 s r -> alive P d0 (stock_call f s).1 r.
Proof.
  intros Ha. unfold stock_call. destruct (f (stock (data s))) as [stk x]. cbn.
  destruct Ha as [[HI Hio Hext] ? ? ? ? ?].
  destruct (same_tables (data s) (mkDb (ops (data s)) (artifacts (data s)) (idem (data s))
    (reserved (data s)) (accounts (data s)) (prepared_transfers (data s))
    (account_utxos (data s)) stk)) as (? & ? & ?); [done..|].
  constructor; auto. constructor; [done..|by etrans].
Qed.

Lemma keeps_stock {A} (f : Stk -> Stk * result string A) : keeps P d0 (db (stock_call f)).
Proof.
  intros s r Ha. pose proof (stock_call_alive f s r Ha) as H. unfold wp, db. cbn.
  by destruct (stock_call f s).
Qed.

Lemma keeps_if {A} (b : bool) (m m' : SE (kv D * Record_) err A) :
  keeps P d0 m -> keeps P d0 m' -> keeps P d0 (if b then m else m').
Proof. by destruct b. Qed.
End keeps_rules.

Create HintDb keeps.
Hint Resolve keeps_get_rec keeps_ret keeps_lift keeps_fail keeps_read keeps_save keeps_stock : keeps.

(** Structural part of a [keeps] proof; leaves the updates. *)
Ltac keeps_step :=
  lazymatch goal with
  | |- keeps _ _ (_ ≫= _) => apply keeps_bind; [|intros ?]
  | |- keeps _ _ (if _ then _ else _) => apply keeps_if
  | |- keeps _ _ (match ?x with _ => _ end) => destruct x eqn:?
  | |- keeps _ _ (upd _) => apply keeps_upd; intros ? ? ?
  | |- keeps _ _ _ => solve [auto with keeps]
  end.
Ltac keeps_steps := repeat keeps_step.

Section worker.
Context (now : Z) (env : Env Stk) (d0 : D).

Definition unsigned (r : Record_) : Prop := signed_hex r = None.
Definition sending (r : Record_) : Prop := dir r = "send" /\ is_Some (signed_hex r).

Lemma evolves_unsigned r r' : unsigned r ->
  schema_version r' = schema_version r -> account r' = account r -> oid r' = oid r ->
  dir r' = dir r -> asset_id (view r') = asset_id (view r) ->
  amount (view r') = amount (view r) -> op_invoice (view r') = op_invoice (view r) ->
  recipient_id (view r') = recipient_id (view r) -> inputs r' = inputs r ->
  change_vout r' = change_vout r -> evolves r r'.
Proof. unfold unsigned. intros. constructor; try done. congruence. Qed.

(** Updates of the worker before a signature exists: none touches the identity
    of the operation, and the status set is a live one. *)
Ltac unsigned_upd :=
  lazymatch goal with
  | H : alive unsigned _ _ ?r |- alive unsigned _ _ _ =>
      pose proof (a_P _ _ _ _ H);
      first
        [ eapply alive_same; [exact H|apply evolves_unsigned|..]; done
        | eapply alive_status; [exact H|apply evolves_unsigned|reflexivity|..];
          (done || by left) ]
  end.

Lemma finish_preparation_keeps psbt seal :
  keeps unsigned d0 (finish_preparation lib config env psbt seal).
Proof.
  unfold finish_preparation. keeps_steps; unsigned_upd.
Qed.

Lemma fetch_consignment_keeps : keeps unsigned d0 (fetch_consignment lib config now env).
Proof. unfold fetch_consignment. keeps_steps; unsigned_upd. Qed.

(** A receive whose payment was seen. *)
Definition detected (r : Record_) : Prop := unsigned r /\ is_Some (txid (view r)).

Ltac detected_upd :=
  lazymatch goal with
  | H : alive detected _ _ ?r |- alive detected _ _ _ =>
      destruct (a_P _ _ _ _ H);
      first
        [ eapply alive_same; [exact H|apply evolves_unsigned|..]; done
        | eapply alive_status; [exact H|apply evolves_unsigned|reflexivity|..];
          (done || by left) ]
  end.

Lemma reject_keeps message : keeps detected d0 (reject env message).
Proof. unfold reject. keeps_steps; detected_upd. Qed.

Lemma validate_receive_keeps t o : keeps detected d0 (validate_receive lib config env t o).
Proof.
  unfold validate_receive.
  repeat (keeps_step || apply reject_keeps); detected_upd.
Qed.

(** ** [credit] *)

Lemma foldl_delete_ne (ins : list string) (res : gmap string string) i :
  i ∉ ins -> foldl (fun m j => delete j m) res ins !! i = res !! i.
Proof.
  revert res. induction ins as [|j ins IH]; intros res Hi; cbn; [done|].
  rewrite IH by set_solver. apply lookup_delete_ne. set_solver.
Qed.

Definition settle (r : Record_) : Record_ := set_retryable false (set_status "settled" r).

Lemma settle_ok P s r :
  alive P d0 s r -> is_Some (txid (view r)) ->
  required_confirmations (view r) <= confirmations (view r) -> rec_ok (settle r).
Proof.
  intros [_ [] _ _ Hq _] Ht Hc. constructor; cbn; try done.
  - intros Hs. destruct (ok_signed0 Hs) as (? & ? & ?). done.
  - congruence.
Qed.

Lemma settle_evolves r : evolves r (settle r).
Proof. by constructor. Qed.

Lemma credit_tx_spec P s r out :
  alive P d0 s r -> is_Some (txid (view r)) ->
  required_confirmations (view r) <= confirmations (view r) ->
  Inv (credit_tx out r (data s)) /\ extends (data s) (credit_tx out r (data s)) /\
  linked (credit_tx out r (data s)) (settle r).
Proof.
  intros Ha Ht Hc. pose proof (settle_ok _ _ _ Ha Ht Hc) as Hok.
  destruct Ha as [[HI _ _] Hr (r0 & H0 & Hev & Hh) Hset Hq _].
  assert (holds r) as Hhr by by intros _.
  assert (forall i, i ∈ inputs r -> reserved (data s) !! i = Some (oid r)) as Hown.
  { intros i Hi. rewrite (ev_id _ _ Hev). eapply inv_reserved; eauto.
    by rewrite <- (ev_inputs _ _ Hev). }
  split_and!.
  - constructor; cbn.
    + intros k q [[<- <-]|[_ Hk]]%lookup_insert_Some; [|by eapply inv_ops].
      split; [done|by apply (rec_ok_stored (settle r))].
    + intros k q [[<- <-]|[Hne Hk]]%lookup_insert_Some Hhq i Hi; cbn in *.
      * destruct (String.eqb_spec (dir r) "receive") as [Hd|]; [|by apply Hown].
        destruct (Hhq Hd). done.
      * assert (reserved (data s) !! i = Some (oid q)) as Hiq by (eapply inv_reserved; eauto).
        destruct (String.eqb _ _); [|done]. rewrite foldl_delete_ne; [done|].
        intros Hir. destruct (inv_ops _ HI _ _ Hk) as [-> Hqok].
        destruct (same_id r q) as [Hkk _]; [done|done| |by destruct (Hne Hkk)].
        specialize (Hown i Hir). congruence.
    + intros k q [[<- <-]|[_ Hk]]%lookup_insert_Some; [|by eapply inv_idem].
      destruct (inv_idem _ HI _ _ H0) as (x & h & Hx & Hid & Hk).
      exists x, h.
      change (oid r = digest lib (origin r x) /\ ident_chars x = true /\
              idem (data s) !! origin r x = Some (h, oid r)).
      by rewrite (evolves_origin _ _ _ Hev), (ev_id _ _ Hev).
  - constructor; cbn; [|done]. intros k q Hk. destruct (decide (k = rkey r)) as [->|Hne].
    + rewrite lookup_insert_eq. eexists. split; [done|]. apply (evolves_stored q (settle r)).
      simplify_eq. etrans; [done|apply settle_evolves].
    + rewrite lookup_insert_ne by done. eauto using evolves_refl.
  - exists (stored (settle r)). cbn. rewrite lookup_insert_eq. split_and!; [done| |done].
    by apply (evolves_unstored (settle r)).
Qed.

Lemma wp_credit P s r out :
  alive P d0 s r -> is_Some (txid (view r)) ->
  required_confirmations (view r) <= confirmations (view r) ->
  wp (credit r out) (fun s' x =>
    match x with Ok _ => ended d0 s' (settle r) | Err _ => alive P d0 s' r end) s.
Proof.
  intros Ha Ht Hc. destruct (credit_tx_spec P s r out Ha Ht Hc) as (HI' & Hext' & Hl').
  pose proof (settle_ok _ _ _ Ha Ht Hc) as Hok. destruct Ha as [[HI Hio Hext] ? ? ? ? ?].
  unfold credit, commit, wp, sound_io in *.
  destruct (faults s) as [|[] fs] eqn:Ef; cbn.
  - constructor; [constructor; cbn; [done|unfold sound_io; cbn; set_solver|by etrans]|done..].
  - constructor; [constructor; cbn; [done|unfold sound_io; cbn; set_solver|by etrans]|done..].
  - constructor; [constructor; cbn; [done|unfold sound_io; cbn; set_solver|done]|done..].
  - set_solver.
Qed.

(** ** The last steps of the two state machines

    They work on one record [r] that no call changes before [credit]. *)

Section fixed.
Context (P : Record_ -> Prop) (r : Record_).

(** A call that leaves the record alone. *)
Definition steady {A} (m : SE (kv D * Record_) err A) : Prop :=
  forall s, alive P d0 s r -> wp m (fun sr _ => sr.2 = r /\ alive P d0 sr.1 r) (s, r).

Lemma steady_bind {A B} (m : SE (kv D * Record_) err A) (f : A -> SE (kv D * Record_) err B)
    (Q : kv D * Record_ -> result err B -> Prop) s :
  steady m ->
  (forall s e, alive P d0 s r -> Q (s, r) (Err e)) ->
  (forall a s', (m (s, r)).2 = Ok a -> alive P d0 s' r -> wp (f a) Q (s', r)) ->
  alive P d0 s r -> wp (m ≫= f) Q (s, r).
Proof.
  intros Hm He Hf Ha. apply wp_bind. specialize (Hm s Ha). unfold wp in *.
  destruct (m (s, r)) as [[s' r'] [a|e]]; cbn in *; destruct Hm as [-> Ha']; auto.
Qed.

Lemma steady_lift {A} (x : Res A) : steady (lift x).
Proof. by intros s Ha. Qed.
Lemma steady_ret {A} (x : A) : steady (mret x).
Proof. by intros s Ha. Qed.
Lemma steady_read {A} (f : D -> A) : steady (db (read f)).
Proof. by intros s Ha. Qed.
Lemma steady_stock {A} (f : Stk -> Stk * result string A) : steady (db (stock_call f)).
Proof.
  intros s Ha. pose proof (stock_call_alive P d0 f s r Ha) as H. unfold wp, db. cbn.
  by destruct (stock_call f s).
Qed.
Lemma steady_seq {A B} (m : SE (kv D * Record_) err A) (f : A -> SE (kv D * Record_) err B) :
  steady m -> (forall a, steady (f a)) -> steady (m ≫= f).
Proof.
  intros Hm Hf s Ha. eapply steady_bind; [done| | |done]; [done|].
  intros a s' _ Ha'. by apply Hf.
Qed.
Lemma steady_if {A} (b : bool) (m m' : SE (kv D * Record_) err A) :
  steady m -> steady m' -> steady (if b then m else m').
Proof. by destruct b. Qed.

(** Crediting settles the stored record; the continuation [k] still has to
    settle the one in memory. *)
Lemma credit_settles out (k : SE (kv D * Record_) err unit) s :
  alive P d0 s r -> is_Some (txid (view r)) ->
  required_confirmations (view r) <= confirmations (view r) ->
  (forall s', ended d0 s' (settle r) -> wp k (fun sr _ => ended d0 sr.1 sr.2) (s', r)) ->
  wp (db (credit r out) ;; k) (fun sr _ => ended d0 sr.1 sr.2) (s, r).
Proof.
  intros Ha Ht Hc Hk. apply wp_bind. pose proof (wp_credit P s r out Ha Ht Hc) as Hcr.
  unfold wp, db in *. cbn. destruct (credit r out s) as [s' [[]|e]]; cbn in *.
  - by apply Hk.
  - by eapply alive_ended.
Qed.
End fixed.

(** A field that is not part of the invariant may still change at the end. *)
Lemma ended_same s r r' :
  ended d0 s r -> evolves r r' -> stat r' = stat r ->
  quarantine_account r' = quarantine_account r -> signed_hex r' = signed_hex r ->
  (is_Some (txid (view r)) -> is_Some (txid (view r'))) ->
  required_confirmations (view r') = required_confirmations (view r) ->
  confirmations (view r') = confirmations (view r) -> ended d0 s r'.
Proof.
  intros [Hg Hok Hl] Hev Hst Hq Hsg Ht Hrq Hcf.
  assert (holds r' <-> holds r) as Hh.
  { unfold holds. by rewrite (ev_dir _ _ Hev), Hst, Hq. }
  constructor; [done| |eapply linked_evolves; [done..|naive_solver]].
  constructor.
  - rewrite (ev_schema _ _ Hev). apply Hok.
  - rewrite (ev_dir _ _ Hev). apply Hok.
  - destruct (ok_origin _ Hok) as (x & ? & ?). exists x.
    by rewrite (evolves_origin _ _ _ Hev), (ev_id _ _ Hev).
  - rewrite (ev_dir _ _ Hev), Hst. apply Hok.
  - rewrite (ev_dir _ _ Hev), Hst, Hsg. apply Hok.
  - rewrite Hst, Hq. apply Hok.
  - rewrite Hh. intros ?. by apply Ht, Hok.
  - rewrite Hst, Hrq, Hcf. apply Hok.
Qed.

Lemma evolves_view r f :
  (forall v, operation_id (f v) = operation_id v /\ direction (f v) = direction v /\
     asset_id (f v) = asset_id v /\ amount (f v) = amount v /\ op_invoice (f v) = op_invoice v /\
     recipient_id (f v) = recipient_id v /\ txid (f v) = txid v /\
     anchor_psbt (f v) = anchor_psbt v) ->
  evolves r (set_view f r).
Proof. intros Hf. destruct (Hf (view r)) as (? & ? & ? & ? & ? & ? & ? & ?). by constructor. Qed.

Ltac steady_step :=
  match goal with
  | |- wp (if _ then _ else _) _ _ => case_match
  | |- wp (lift ?x ≫= _) _ _ =>
      apply (steady_bind detected); [apply steady_lift|by eauto using alive_ended|intros ? ? ? ?|done]
  | |- wp (mret _) _ _ => apply wp_ret; by eauto using alive_ended
  end.

Lemma receive_tail txid_ outpoint n s r :
  alive detected d0 s r ->
  wp (upd (set_confirmations n) ;;
      r ← rec;
      if n <? required_confirmations (view r) then mret tt else
      found ← lift (chain_tx lib env txid_);
      actual ← lift (ok_or found (Anyhow "confirmed carrier missing"));
      hex ← lift (ok_or (candidate_hex r) (Anyhow "validated carrier missing"));
      b ← lift (hex_bytes Anyhow hex);
      candidate ← lift (any (deserialize_tx lib b));
      if negb (bool_decide (clear_witnesses actual = clear_witnesses candidate))
      then reject env "confirmed carrier differs from validated proof" else
      (match blind_secret r with
       | Some s =>
           g ← lift (any (parse_graph_seal lib s));
           db (stock_call (fun stk => stk_store_secret env stk (account r) g))
       | None => mret tt
       end) ;;
      lift (any (decode_transfer env (proof r))) ;;
      db (stock_call (fun stk => stk_accept env stk (account r) (proof r))) ;;
      db (credit r (outpoint_to_string lib outpoint)) ;;
      upd (fun r => set_broadcast "confirmed" (set_retryable false (set_status "settled" r))))
    (fun sr _ => ended d0 sr.1 sr.2) (s, r).
Proof.
  intros Ha. apply wp_bind, wp_modify. cbn [fst snd]. apply wp_bind, wp_gets. cbn [fst snd].
  assert (alive detected d0 s (set_confirmations n r)) as Ha'
    by (destruct (a_P _ _ _ _ Ha); eapply alive_same; [done|apply evolves_unsigned|..]; done).
  assert (confirmations (view (set_confirmations n r)) = n) as Hn by done.
  clear Ha. revert Ha' Hn. generalize (set_confirmations n r). clear r. intros r Ha Hn.
  destruct (Z.ltb_spec n (required_confirmations (view r))); [by eapply alive_ended|].
  do 5 steady_step. case_match.
  { by apply (keeps_ends detected d0 _ (reject_keeps _)). }
  apply (steady_bind detected); [|by eauto using alive_ended|intros ? ? ? ?|done].
  { destruct (blind_secret r); [|apply steady_ret].
    apply steady_seq; [apply steady_lift|intros; apply steady_stock]. }
  steady_step.
  apply (steady_bind detected); [apply steady_stock|by eauto using alive_ended|intros ? ? ? ?|done].
  eapply credit_settles; [done|by apply (a_P _ _ _ _ Ha)|lia|].
  intros s'' He. apply wp_modify. cbn.
  eapply (ended_same _ (settle r)); [done| |done..]. by apply evolves_view.
Qed.

Lemma detected_of s r : alive unsigned d0 s r -> is_Some (txid (view r)) -> alive detected d0 s r.
Proof. intros [] ?. by constructor. Qed.

Lemma advance_receive_ends : ends unsigned d0 (advance_receive lib config now env).
Proof.
  unfold advance_receive. apply ends_bind; [apply fetch_consignment_keeps|]. intros [];
    [|apply keeps_ends, keeps_ret]. cbn [negb].
  apply ends_rec. intros s r Ha. destruct (txid (view r)) as [t|] eqn:Et; cbn;
    [|by eapply alive_ended].
  assert (alive detected d0 s r) as Hd by (apply detected_of; [done|by rewrite Et]).
  clear Ha. revert s r Hd Et. intros s r Hd _.
  assert (forall m, ends detected d0 m -> wp m (fun sr (_ : result err unit) => ended d0 sr.1 sr.2) (s, r))
    as Hends by (intros m Hm; by apply Hm).
  apply Hends. clear Hends. repeat (apply ends_bind; [apply keeps_lift|intros ?]).
  apply ends_bind; [apply validate_receive_keeps|intros ?].
  intros s1 r1 Ha1. apply wp_bind, wp_gets. cbn [fst snd].
  match goal with |- wp ?m _ _ => cut (ends detected d0 m); [by intros Hm; apply Hm|] end.
  apply ends_bind.
  { keeps_steps; detected_upd. }
  intros ?. apply ends_bind; [apply keeps_lift|intros n]. intros s2 r2 Ha2.
  by apply receive_tail.
Qed.

(** Updates of a signed send. *)
Ltac sending_upd :=
  lazymatch goal with
  | H : alive sending _ _ ?r |- alive sending _ _ _ =>
      destruct (a_P _ _ _ _ H);
      first
        [ eapply alive_same; [exact H|by apply evolves_view|..]; done
        | eapply alive_status; [exact H|by apply evolves_view|reflexivity|..];
          (done || by right) ]
  end.

Lemma settled_review s r :
  dir r = "send" -> ended d0 s (settle r) -> ended d0 s (set_status "needs_review" (settle r)).
Proof.
  intros Hd [Hg Hok Hl].
  assert (evolves (settle r) (set_status "needs_review" (settle r))) as Hev by by apply evolves_view.
  assert (holds (settle r)) as Hh by (intros Hr; cbn in Hr; congruence).
  constructor; [done| |by eapply linked_evolves].
  destruct Hok. constructor; cbn in *; try done.
  intros Hn. destruct Hn. intros Hr. cbn in Hr. congruence.
Qed.

Lemma send_tail txid_ n s r :
  alive sending d0 s r -> is_Some (txid (view r)) ->
  wp (upd (set_confirmations n) ;;
      r ← rec;
      if n <? required_confirmations (view r) then mret tt else
      d ← db (read (fun d => d));
      done ← lift (any (stk_pending_confirmed env (stock d) (account r) txid_));
      (if (done : bool) then mret tt else
         db (stock_call (fun stk => stk_stage_sender env stk (account r) txid_ (fascia r))) ;;
         db (stock_call (fun stk => stk_promote env stk (account r))) ;;
         d ← db (read (fun d => d));
         promoted ← lift (any (stk_pending_confirmed env (stock d) (account r) txid_));
         lift (ensure promoted (Anyhow "sender RGB state not yet promoted"))) ;;
      vout ← lift (ok_or (change_vout r) (Anyhow "missing change vout"));
      db (credit r (outpoint_to_string lib (mkOutPoint txid_ vout))) ;;
      upd (fun r => set_retryable false (set_status "settled" r)) ;;
      if bool_decide (acknowledged (view r) = Some false) then
        upd (set_status "needs_review") ;;
        fail (conflict "peer rejected a confirmed payment; inspect proof without releasing inputs")
      else mret tt)
    (fun sr _ => ended d0 sr.1 sr.2) (s, r).
Proof.
  intros Ha Ht. apply wp_bind, wp_modify. cbn [fst snd]. apply wp_bind, wp_gets. cbn [fst snd].
  assert (alive sending d0 s (set_confirmations n r)) as Ha' by sending_upd.
  assert (is_Some (txid (view (set_confirmations n r)))) as Ht' by done.
  assert (confirmations (view (set_confirmations n r)) = n) as Hn by done.
  clear Ha Ht. revert Ha' Ht' Hn. generalize (set_confirmations n r). clear r. intros r Ha Ht Hn.
  destruct (Z.ltb_spec n (required_confirmations (view r))); [by eapply alive_ended|].
  apply (steady_bind sending); [apply steady_read|by eauto using alive_ended|intros d s1 _ Ha1|done].
  apply (steady_bind sending); [apply steady_lift|by eauto using alive_ended|intros ? s2 _ Ha2|done].
  apply (steady_bind sending); [|by eauto using alive_ended|intros ? s3 _ Ha3|done].
  { apply steady_if; [apply steady_ret|].
    repeat (apply steady_seq; [first [apply steady_stock|apply steady_read|apply steady_lift]|intros ?]).
    apply steady_lift. }
  apply (steady_bind sending); [apply steady_lift|by eauto using alive_ended|intros ? s4 _ Ha4|done].
  eapply credit_settles; [done..|lia|]. intros s5 He.
  apply wp_bind, wp_modify. cbn [fst snd].
  case_bool_decide; [|by apply wp_ret].
  apply wp_bind, wp_modify. cbn [fst snd]. apply wp_fail. cbn [fst snd].
  destruct (a_P _ _ _ _ Ha). by apply settled_review.
Qed.

Lemma advance_send_ends :
  ends (fun r => dir r = "send") d0 (advance_send lib config env).
Proof.
  unfold advance_send. apply ends_rec. intros s r Ha. pose proof (a_P _ _ _ _ Ha) as Hd.
  destruct (String.eqb_spec (stat r) "preparing") as [Hp|Hp].
  { assert (alive unsigned d0 s r) as Hu.
    { destruct Ha. constructor; try done. unfold unsigned. destruct (signed_hex r) eqn:E; [|done].
      destruct (ok_signed _ a_ok0) as (_ & ? & _); [by rewrite E|done]. }
    assert (forall m, keeps unsigned d0 m -> wp m (fun sr (_ : result err unit) => ended d0 sr.1 sr.2) (s, r))
      as Hm by (intros m Hm; by apply (keeps_ends _ _ _ Hm)).
    apply Hm. keeps_steps. apply finish_preparation_keeps. }
  case_bool_decide as Hsg; [by eapply alive_ended|].
  assert (alive sending d0 s r) as Hs.
  { destruct Ha. constructor; try done. split; [done|]. by destruct (signed_hex r). }
  clear Ha.
  match goal with |- wp ?m _ _ => cut (ends sending d0 m); [by intros Hm; apply Hm|] end.
  apply ends_bind; [keeps_steps; sending_upd|intros ?].
  apply ends_bind; [apply keeps_get_rec|intros r1].
  apply ends_bind; [keeps_steps; sending_upd|intros ?].
  apply ends_rec. intros s2 r2 Ha2.
  apply wp_bind, wp_lift. destruct (rpc _ _ _ _) as [ack|]; cbn [fst snd]; [|by eapply alive_ended].
  apply wp_bind, wp_modify. cbn [fst snd].
  apply wp_bind, wp_lift.
  assert (alive sending d0 s2 (set_acknowledged (v_as_bool ack) r2)) as Ha3 by sending_upd.
  destruct (txid (view r2)) as [t|] eqn:Et; cbn [ok_or fst snd]; [|by eapply alive_ended].
  apply wp_bind, wp_lift. destruct (any _); [|by eapply alive_ended].
  apply wp_bind, wp_lift. destruct (confirmations_of _ _); [|by eapply alive_ended].
  apply send_tail; [done|]. cbn. by rewrite Et.
Qed.

(** ** One round of the worker *)

(** A write of tables outside the engine's invariant. *)
Lemma wp_commit_same (f : D -> D) s :
  good d0 s ->
  (forall d, ops (f d) = ops d /\ reserved (f d) = reserved d /\ idem (f d) = idem d) ->
  wp (commit io_err f) (fun s' _ => good d0 s' /\ forall r, linked (data s) r -> linked (data s') r) s.
Proof.
  intros [HI Hio Hext] Hf. destruct (Hf (data s)) as (Ho & Hr & Hi).
  destruct (same_tables (data s) (f (data s)) Ho Hr Hi HI) as (HI' & Hext' & Hl).
  unfold commit, wp, sound_io in *. destruct (faults s) as [|[] fs] eqn:Ef; cbn; [| | |set_solver];
    (split; [constructor; cbn; [done|unfold sound_io; cbn; set_solver|]|]; try done; by etrans).
Qed.

Lemma mark_utxo_unconfirmed_ended s r :
  ended d0 s r -> wp (db (mark_utxo_unconfirmed r)) (fun sr _ => ended d0 sr.1 sr.2) (s, r).
Proof.
  intros [Hg Hok Hl].
  assert (wp (mark_utxo_unconfirmed r)
    (fun s' _ => good d0 s' /\ forall q, linked (data s) q -> linked (data s') q) s) as Hm.
  { unfold mark_utxo_unconfirmed. apply wp_bind, wp_lift.
    match goal with |- match ?x with _ => _ end => destruct x end; [|by split].
    apply wp_bind, wp_read. case_match; [|by apply wp_ret]. by apply wp_commit_same. }
  unfold wp, db in *. cbn. destruct (mark_utxo_unconfirmed r s) as [s' x]. cbn in *.
  destruct Hm as [? ?]. constructor; auto.
Qed.

(** A settled operation that lost its confirmations is quarantined. *)
Definition quarantine_rec (n : Z) (r : Record_) : Record_ :=
  set_quarantine true (set_retryable false (set_status "needs_review" (set_confirmations n r))).

Lemma quarantined_ended n s r :
  ended d0 s r -> stat r = "settled" -> is_Some (txid (view r)) -> ended d0 s (quarantine_rec n r).
Proof.
  intros [Hg Hok Hl] Hst Ht.
  assert (evolves r (quarantine_rec n r)) as Hev by by constructor.
  constructor; [done| |eapply linked_evolves; [done..|]].
  - destruct Hok. constructor; cbn in *; try done.
    intros Hsg. destruct (ok_signed0 Hsg) as (? & ? & ?). done.
  - intros Hh Hd. destruct (Hh Hd). done.
Qed.

Lemma confirmed_ended n s r :
  ended d0 s r -> stat r = "settled" -> required_confirmations (view r) <= n ->
  ended d0 s (set_confirmations n r).
Proof.
  intros [Hg Hok Hl] Hst Hn.
  assert (evolves r (set_confirmations n r)) as Hev by by apply evolves_view.
  constructor; [done| |by eapply linked_evolves]. by destruct Hok; constructor.
Qed.

Lemma advance_ended s r :
  ended d0 s r -> quarantine_account r = false ->
  wp (advance lib config now env) (fun sr _ => ended d0 sr.1 sr.2) (s, r).
Proof.
  intros He Hq. unfold advance. apply wp_bind, wp_gets. cbn [fst snd].
  destruct (String.eqb_spec (stat r) "settled") as [Hst|Hst].
  - apply wp_bind, wp_lift. destruct (txid (view r)) as [t|] eqn:Et; [|done]. cbn [ok_or].
    apply wp_bind, wp_lift. destruct (any _) as [t'|]; [|done].
    apply wp_bind, wp_lift. destruct (confirmations_of _ _) as [n|]; [|done].
    apply wp_bind, wp_modify. cbn [fst snd]. apply wp_bind, wp_gets. cbn [fst snd].
    destruct (Z.ltb_spec n (required_confirmations (view (set_confirmations n r)))).
    + apply wp_bind, wp_modify. cbn [fst snd]. apply wp_bind, wp_gets. cbn [fst snd].
      apply wp_bind. eapply wp_mono.
      { apply (mark_utxo_unconfirmed_ended s (quarantine_rec n r)).
        apply quarantined_ended; [done..|by rewrite Et]. }
      intros [s' r'] [?|?] ?; [by apply wp_fail|done].
    + apply wp_ret. by apply confirmed_ended.
  - destruct He as [Hg Hok Hl].
    destruct (String.eqb_spec (dir r) "receive") as [Hd|Hd].
    + apply advance_receive_ends. constructor; try done.
      unfold unsigned. destruct (signed_hex r) eqn:E; [|done].
      destruct (ok_signed _ Hok) as [? _]; [by rewrite E|congruence].
    + apply advance_send_ends. constructor; try done. by destruct (ok_dir _ Hok).
Qed.

Lemma wp_load s a id :
  Inv (data s) ->
  wp (load a id) (fun s' x => s' = s /\ match x with
    | Ok r => rec_ok r /\ linked (data s) r /\ account r = a /\ oid r = id
    | Err _ => True end) s.
Proof.
  intros HI. unfold load. apply wp_bind, wp_lift. destruct (identifier id); [|done].
  apply wp_bind, wp_read. apply wp_bind, wp_lift. cbn.
  destruct (ops (data s) !! scoped a id) as [r|] eqn:E; [cbn [ok_or]|done].
  destruct (inv_ops _ HI _ _ E) as [Hk Hok].
  apply wp_bind, wp_lift. destruct (ensure _ _) eqn:He; [|done].
  apply ensure_Ok, andb_prop in He as [_ Ha%String.eqb_eq]. apply wp_ret.
  assert (oid r = id) as Hid.
  { unfold rkey, scoped in Hk. rewrite Ha in Hk. by do 2 apply (inj _) in Hk. }
  assert (linked (data s) r) as Hl by (exists r; rewrite <- Hk; by split_and!).
  split; [done|]. destruct (artifacts (data s) !! scoped a id) as [[f p]|]; [|done].
  split_and!; [by destruct Hok; constructor| |done..].
  destruct Hl as (r0 & ? & ? & ?). exists r0. split_and!; [done| |done].
  etrans; [done|by constructor].
Qed.

Lemma scan_one_good s a id :
  good d0 s -> wp (scan_one lib config now env a id) (fun s' _ => good d0 s') s.
Proof.
  intros Hg. unfold scan_one. apply wp_bind.
  eapply wp_mono; [by apply wp_load, Hg|]. intros s1 [r|e] [-> Hl]; [|done].
  destruct Hl as (Hok & Hl & _). destruct (due now r) eqn:Hdue; [|by apply wp_ret]. cbn [negb].
  assert (quarantine_account r = false) as Hq.
  { destruct (quarantine_account r) eqn:E; [|done].
    pose proof (ok_quarantine _ Hok E) as Hst. unfold due in Hdue.
    rewrite Hst, andb_false_r in Hdue. done. }
  pose proof (advance_ended s r ltac:(by constructor) Hq) as Ha.
  apply wp_bind. unfold wp, on_record in *.
  destruct (advance lib config now env (s, r)) as [[s2 r2] x]. cbn [fst snd] in *.
  set (r3 := match x with Ok _ => _ | Err _ => _ end).
  assert (ended d0 s2 (set_updated_at now r3)) as [Hg3 Hok3 Hl3].
  { eapply ended_same; [exact Ha|..]; destruct x; try done; by constructor. }
  by destruct (wp_save d0 _ None false s2 Hg3 Hok3 (fun _ => Hl3) ltac:(done)).
Qed.

Lemma for_each_good {X} (l : list X) (f : X -> SE (kv D) err unit) s :
  (forall x s, good d0 s -> wp (f x) (fun s' _ => good d0 s') s) ->
  good d0 s -> wp (for_each l f) (fun s' _ => good d0 s') s.
Proof.
  intros Hf. revert s. induction l as [|x l IH]; intros s Hg; [done|]. cbn.
  apply wp_bind. eapply wp_mono; [by apply Hf|]. intros s' [?|?] ?; [by apply IH|done].
Qed.

Lemma scan_operations_good s :
  good d0 s -> wp (scan_operations lib config now env) (fun s' _ => good d0 s') s.
Proof.
  intros Hg. unfold scan_operations. apply wp_bind, wp_read. apply wp_bind, wp_lift.
  destruct (ensure _ _); [|done]. apply for_each_good; [|done].
  intros x s' Hg'. by apply scan_one_good.
Qed.

(** ** Requests *)

(** What a handler reads before it writes leaves the store alone. *)
Definition quiet {A} (m : SE (kv D) err A) : Prop := forall s, (m s).1 = s.

Lemma quiet_lift {A} (x : Res A) : quiet (lift x).
Proof. done. Qed.
Lemma quiet_ret {A} (x : A) : quiet (mret x).
Proof. done. Qed.
Lemma quiet_fail {A} e : quiet (fail (A := A) e).
Proof. done. Qed.
Lemma quiet_read {A} (f : D -> A) : quiet (read f).
Proof. done. Qed.
Lemma quiet_bind {A B} (m : SE (kv D) err A) (f : A -> SE (kv D) err B) :
  quiet m -> (forall a, quiet (f a)) -> quiet (m ≫= f).
Proof.
  intros Hm Hf s. unfold mbind, SE_bind. specialize (Hm s).
  destruct (m s) as [s' [a|e]]; cbn in *; subst; [apply Hf|done].
Qed.

Lemma quiet_then {A B} (m : SE (kv D) err A) (f : A -> SE (kv D) err B)
    (Q : kv D -> result err B -> Prop) s :
  quiet m -> (forall e, Q s (Err e)) -> (forall a, (m s).2 = Ok a -> wp (f a) Q s) ->
  wp (m ≫= f) Q s.
Proof.
  intros Hm He Hf. apply wp_bind. unfold wp. specialize (Hm s). specialize (Hf).
  destruct (m s) as [s' [a|e]]; cbn in *; subst; [by apply Hf|done].
Qed.

Ltac quiet_step :=
  lazymatch goal with
  | |- quiet (_ ≫= _) => apply quiet_bind; [|intros ?]
  | |- quiet (if _ then _ else _) => case_match
  | |- quiet (match ?x with _ => _ end) => destruct x
  | |- quiet _ => first [apply quiet_lift|apply quiet_ret|apply quiet_fail|apply quiet_read]
  end.

Lemma load_quiet a id : quiet (load (Stk := Stk) a id).
Proof. unfold load. repeat quiet_step. Qed.

Lemma replay_quiet a kind_ id h : quiet (replay (Stk := Stk) a kind_ id h).
Proof. unfold replay. repeat (quiet_step || apply load_quiet). Qed.

Lemma new_record_quiet a id i n dir_ : quiet (new_record lib config now env a id i n dir_).
Proof. unfold new_record. repeat quiet_step. Qed.

Lemma identifier_ident id : identifier id = Ok tt -> ident_chars id = true.
Proof. unfold identifier. destruct (ident_chars id); [done|]. by rewrite orb_true_r. Qed.

Lemma replay_None a kind_ x h (s : kv D) :
  (replay a kind_ x h s).2 = Ok None ->
  ident_chars x = true /\ idem (data s) !! scoped a (op_key kind_ x) = None.
Proof.
  unfold replay. unfold mbind at 1, SE_bind at 1. cbn [lift].
  destruct (identifier x) as [[]|] eqn:Ei; [|done]. apply identifier_ident in Ei.
  unfold mbind at 1, SE_bind at 1. cbn. unfold op_key.
  destruct (idem (data s) !! _) as [[old id]|] eqn:E; [|done].
  destruct (String.eqb old h); [|done]. unfold mbind, SE_bind.
  destruct (load a id s) as [s' [r|e]]; done.
Qed.

(** The record of a new operation. *)
Lemma new_record_Ok a id i n dir_ s r :
  (new_record lib config now env a id i n dir_ s).2 = Ok r ->
  schema_version r = 1 /\ account r = a /\ oid r = id /\ dir r = dir_ /\
  (dir_ = "send" -> stat r = "preparing") /\
  (dir_ = "receive" -> stat r = "awaiting_transfer") /\
  signed_hex r = None /\ quarantine_account r = false /\ inputs r = [].
Proof.
  unfold new_record. unfold mbind at 1, SE_bind at 1. cbn [read fst snd].
  destruct (_ <=? _); [done|]. unfold mbind at 1, SE_bind at 1.
  match goal with |- context [match ?m with _ => _ end] => destruct m as [s1 [[]|]] end; try done.
  unfold mbind at 1, SE_bind at 1. cbn [lift]. destruct (invoice_proxy _ _) as [p|]; [|done].
  unfold mbind at 1, SE_bind at 1. cbn [lift]. destruct (ok_or (contract i) _) as [c|]; [|done].
  unfold mbind at 1, SE_bind at 1. cbn [lift]. destruct (ok_or (expiry i) _) as [e|]; [|done].
  cbn. intros [= <-]. cbn. split_and!; try done; by intros ->.
Qed.

(** A new operation may be saved with its reservation. *)
Definition kind_of (dir_ : string) : string :=
  if String.eqb dir_ "receive" then "receive" else "prepare".

Lemma wp_save_new s r x h key :
  good d0 s -> ident_chars x = true -> idem (data s) !! key = None ->
  dir r = "send" /\ stat r = "preparing" \/ dir r = "receive" /\ stat r = "awaiting_transfer" ->
  key = scoped (account r) (op_key (kind_of (dir r)) x) ->
  schema_version r = 1 -> oid r = digest lib key ->
  signed_hex r = None -> quarantine_account r = false ->
  wp (save r (Some (key, h)) true)
    (fun s' x => good d0 s' /\ (x = Ok tt -> alive unsigned d0 s' r)) s.
Proof.
  intros Hg Hx Hi Hdir Hkey Hv Hid Hsg Hq.
  assert (stat r <> "cancelled" /\ stat r <> "settled") as [Hc Hst]
    by (destruct Hdir as [[_ ->]|[_ ->]]; done).
  assert (rec_ok r) as Hok.
  { constructor; try done.
    - destruct Hdir as [[? _]|[? _]]; auto.
    - exists x. split; [done|]. by rewrite Hid, Hkey.
    - rewrite Hsg. by intros [].
    - by rewrite Hq.
    - intros Hn. destruct Hn. by intros _. }
  eapply wp_mono; [apply (wp_save d0); [done..|]|].
  - intros _. exists x, h. subst key. done.
  - intros s' y [Hg' Hl]. split; [done|]. intros ->. constructor; try done. auto.
Qed.

Lemma wp_resave r kh s : ended d0 s r -> wp (save r kh false) (fun s' _ => good d0 s') s.
Proof.
  intros [Hg Hok Hl]. eapply wp_mono; [by apply (wp_save d0)|]. by intros ? ? [? _].
Qed.

Lemma quiet_after {A B} (m : SE (kv D) err A) (f : A -> SE (kv D) err B) s :
  wp m (fun s' _ => good d0 s') s ->
  (forall a s', good d0 s' -> wp (f a) (fun s' _ => good d0 s') s') ->
  wp (m ≫= f) (fun s' _ => good d0 s') s.
Proof.
  intros Hm Hf. apply wp_bind. eapply wp_mono; [done|]. intros s' [a|e] ?; [by apply Hf|done].
Qed.

Lemma do_receive_good secret a scr h x asset n exp bo s :
  good d0 s ->
  wp (do_receive lib config network now env secret a scr h x asset n exp bo) (fun s' _ => good d0 s') s.
Proof.
  intros Hg. unfold do_receive.
  apply quiet_then; [apply replay_quiet|done|]. intros [r|] Hrep; [by apply wp_ret|].
  apply replay_None in Hrep as [Hx Hi]. case_match; [by apply wp_fail|].
  do 5 (apply quiet_then; [first [apply quiet_lift|apply quiet_read]|done|intros ? _]).
  case_match; [by apply wp_fail|].
  apply quiet_then; [apply new_record_quiet|done|]. intros r0 Hnew.
  apply new_record_Ok in Hnew as (Hv & Ha & Hid & Hd & _ & Hst & Hsg & Hq & _).
  apply wp_bind. eapply wp_mono.
  - apply (wp_save_new s _ x h); [done..| | | | | |]; destruct bo; cbn; rewrite ?Hd, ?Ha; auto.
  - intros s' [[]|e] [Hg' _]; [by apply wp_ret|done].
Qed.

Lemma do_prepare_good a scr h x inv psbt rv cv auth s :
  good d0 s ->
  wp (do_prepare lib config network now env a scr h x inv psbt rv cv auth) (fun s' _ => good d0 s') s.
Proof.
  intros Hg. unfold do_prepare.
  apply quiet_then; [apply replay_quiet|done|]. intros [r|] Hrep; [by apply wp_ret|].
  apply replay_None in Hrep as [Hx Hi].
  apply quiet_then; [apply quiet_read|done|intros d _]. case_match; [by apply wp_fail|].
  do 10 (apply quiet_then; [apply quiet_lift|done|intros ? _]).
  apply quiet_then; [apply new_record_quiet|done|]. intros r0 Hnew.
  apply new_record_Ok in Hnew as (Hv & Ha & Hid & Hd & Hst & _ & Hsg & Hq & _).
  apply wp_bind. eapply wp_mono.
  - apply (wp_save_new s _ x h); [done..| | | | | |]; cbn; rewrite ?Hd, ?Ha; auto.
  - intros s1 [[]|e] [Hg1 Hal]; [|done]. specialize (Hal eq_refl). apply wp_bind.
    pose proof (finish_preparation_keeps a4 a9 s1 _ Hal) as Hfp. unfold wp, on_record in *.
    destruct (finish_preparation _ _ _ _ _ _) as [[s2 r2] [[]|e]]; cbn in Hfp |- *; [by apply Hfp|].
    apply quiet_after; [|done]. apply wp_resave. apply (alive_ended unsigned). unsigned_upd.
Qed.

Lemma do_finalize_good a h x id psbt auth s :
  good d0 s -> wp (do_finalize lib now a h x id psbt auth) (fun s' _ => good d0 s') s.
Proof.
  intros Hg. unfold do_finalize.
  apply quiet_then; [apply replay_quiet|done|]. intros [r|] _; [by apply wp_ret|].
  apply wp_bind. eapply wp_mono; [by apply wp_load, Hg|]. intros s1 [r|e] [-> Hl]; [|done].
  destruct Hl as (Hok & Hl & _). destruct (String.eqb_spec (dir r) "send") as [Hd|]; [|by apply wp_fail].
  cbn [negb]. do 6 (apply quiet_then; [apply quiet_lift|done|intros ? _]).
  apply quiet_then; [apply quiet_lift|done|]. intros r' Hr'. cbn [lift snd] in Hr'.
  apply quiet_after; [|by intros; apply wp_ret]. apply wp_resave.
  destruct (signed_hex r) eqn:Es.
  - destruct (negb (String.eqb _ _)); [done|]. simplify_eq. by constructor.
  - destruct (String.eqb_spec (stat r) "awaiting_signature") as [Hst|]; [|done].
    destruct (rec_expires_at r <=? now); [done|]. cbn in Hr'. injection Hr' as <-.
    assert (holds r) as Hh by (intros ?; congruence).
    constructor; [done| |eapply linked_evolves; [done| |done]].
    + destruct Hok. constructor; cbn in *; try done.
      * intros Hq. specialize (ok_quarantine0 Hq). congruence.
      * intros Hn. destruct Hn. intros ?. cbn in *. congruence.
    + constructor; cbn; try done. congruence.
Qed.

Lemma do_refresh_good a id s :
  good d0 s -> wp (do_refresh a id) (fun s' _ => good d0 s') s.
Proof.
  intros Hg. unfold do_refresh. apply wp_bind. eapply wp_mono; [by apply wp_load, Hg|].
  intros s1 [r|e] [-> Hl]; [|done]. destruct Hl as (Hok & Hl & _).
  apply quiet_after; [|by intros; apply wp_ret]. apply wp_resave.
  by eapply (ended_same _ r).
Qed.

Lemma do_cancel_good a h x id s :
  good d0 s -> wp (do_cancel a h x id) (fun s' _ => good d0 s') s.
Proof.
  intros Hg. unfold do_cancel.
  apply quiet_then; [apply replay_quiet|done|]. intros [r|] _; [by apply wp_ret|].
  apply wp_bind. eapply wp_mono; [by apply wp_load, Hg|]. intros s1 [r|e] [-> Hl]; [|done].
  destruct Hl as (Hok & Hl & _). destruct (String.eqb_spec (dir r) "send") as [|Hd]; [by apply wp_fail|].
  assert (dir r = "receive") as Hr by by destruct (ok_dir _ Hok).
  rewrite Hr. change (String.eqb "receive" "receive") with true. cbn [andb].
  destruct (negb _ || _) eqn:Et; [by apply wp_fail|].
  apply orb_false_elim in Et as [_ Ht%bool_decide_eq_false].
  apply quiet_after; [|by intros; apply wp_ret]. apply wp_resave.
  assert (holds r) as Hh.
  { intros _. split; [|destruct (quarantine_account r) eqn:Eq; [|done]];
      (try intros Est); destruct Ht; apply (ok_released _ Hok); intros Hh; destruct (Hh Hr); congruence. }
  destruct (Hh Hr) as [Hst Hq].
  constructor; [done| |eapply linked_evolves; [done|by constructor|done]].
  destruct Hok. constructor; cbn in *; try done.
  - intros Hsg. by destruct (ok_signed0 Hsg).
  - congruence.
  - intros Hn. destruct Hn. by intros _.
Qed.

Lemma execute_locked_good secret request s :
  good d0 s ->
  wp (execute_locked lib config network now env secret request) (fun s' _ => good d0 s') s.
Proof.
  intros Hg. unfold execute_locked. apply quiet_then; [apply quiet_lift|done|intros addr _].
  destruct (action request).
  all: try (apply quiet_after; [|by intros; apply wp_ret]).
  - by apply do_receive_good.
  - by apply do_prepare_good.
  - by apply do_finalize_good.
  - unfold wp. by rewrite load_quiet.
  - unfold do_list. case_match; [by apply wp_fail|].
    do 2 (apply quiet_then; [first [apply quiet_lift|apply quiet_read]|done|intros ? _]).
    by apply wp_ret.
  - by apply do_refresh_good.
  - by apply do_cancel_good.
Qed.

End worker.
End safety.
