(* ===== verification/ExternalCarrier.v ===== *)
(** * The Bitcoin transaction that carries an external transfer

    What [validate_carrier] and [finalized_transaction] guarantee of a carrier
    they accept (crates/rgb-service-daemon/src/external.rs): the specification
    and the lemmas from which ExternalTheorems concludes. *)

From S2P Require Import Prelude ServiceApi Hex ExternalTypes.
Local Open Scope Z_scope.

Section carrier.
Context (lib : Lib).

(** The value of output [i], seen from position [n]. *)
Definition value_at (n i : Z) (outs : list TxOut) : Z :=
  if n <=? i then match outs !! Z.to_nat (i - n) with Some o => value o | None => 0 end else 0.

Lemma value_at_nil n i : value_at n i [] = 0.
Proof. unfold value_at. by case_match. Qed.

Lemma value_at_cons n i o outs :
  value_at n i (o :: outs) = (if n =? i then value o else 0) + value_at (n + 1) i outs.
Proof.
  unfold value_at. destruct (Z.eqb_spec n i) as [->|Hne].
  - rewrite Z.leb_refl, Z.sub_diag. destruct (Z.leb_spec (i + 1) i); [lia|]. simpl. lia.
  - destruct (Z.leb_spec n i), (Z.leb_spec (n + 1) i); try lia.
    replace (Z.to_nat (i - n)) with (S (Z.to_nat (i - (n + 1)))) by lia. simpl. lia.
Qed.

(** Outputs that are neither the change nor the recipient's carry no value. *)
Lemma only_expected_value n change expected outs :
  only_expected lib n change expected outs = true -> expected <> Some change ->
  sumZ (map value outs)
  = value_at n change outs + match expected with Some e => value_at n e outs | None => 0 end.
Proof.
  intros Ho Hne. revert n Ho. induction outs as [|o outs IH]; intros n Ho.
  - rewrite value_at_nil. destruct expected; rewrite ?value_at_nil; done.
  - cbn in Ho. apply andb_prop in Ho as [Ho Hrest]. specialize (IH _ Hrest).
    unfold sumZ in *. cbn [map foldr]. rewrite IH, value_at_cons.
    destruct (Z.eqb_spec n change) as [->|Hc]; cbn in Ho.
    + destruct expected as [e|]; [|lia]. rewrite value_at_cons.
      destruct (Z.eqb_spec change e); [congruence|lia].
    + destruct expected as [e|]; [rewrite value_at_cons|];
        case_bool_decide as He; try done; cbn in Ho.
      * simplify_eq. rewrite Z.eqb_refl. lia.
      * destruct (Z.eqb_spec n e); [congruence|].
        apply andb_prop in Ho as [_ ->%Z.eqb_eq]. lia.
      * apply andb_prop in Ho as [_ ->%Z.eqb_eq]. lia.
Qed.

Lemma only_expected_kind n change expected outs i o :
  only_expected lib n change expected outs = true -> outs !! i = Some o ->
  n + Z.of_nat i = change \/ expected = Some (n + Z.of_nat i) \/
  is_op_return lib (script_pubkey o) = true /\ value o = 0.
Proof.
  revert n i. induction outs as [|o' outs IH]; intros n [|i] Ho Hi; try done; cbn in *.
  - simplify_eq. apply andb_prop in Ho as [Ho _]. rewrite Z.add_0_r.
    apply orb_prop in Ho as [[?%Z.eqb_eq|?%bool_decide_eq_true]%orb_prop|[? ?%Z.eqb_eq]%andb_prop]; auto.
  - apply andb_prop in Ho as [_ Ho]. replace (n + Z.of_nat (S i)) with (n + 1 + Z.of_nat i) by lia.
    by eapply IH.
Qed.

Lemma input_total_Ok acc ins t :
  input_total acc ins = Ok t ->
  exists utxos, map witness_utxo ins = map Some utxos /\ t = acc + sumZ (map value utxos).
Proof.
  revert acc. induction ins as [|i ins IH]; intros acc; cbn.
  - intros [= <-]. exists []. unfold sumZ. cbn. split; [done|lia].
  - intros (u & Hu%ok_or_Ok & (a & Ha%ok_or_Ok & Ht)%result_bind_Ok)%result_bind_Ok.
    apply checked_add_Some in Ha as [-> _]. destruct (IH _ Ht) as (us & Hus & ->).
    exists (u :: us). unfold sumZ. cbn. rewrite Hu, Hus. split; [done|lia].
Qed.

(** What an accepted carrier looks like.  [recipient] and [change] are [u32]. *)
Record carrier_safe (psbt : Psbt) (account_script : string) (invoice : RgbInvoice)
    (recipient : option Z) (change : Z) : Prop := {
  cs_inputs : NoDup (map previous_output (input (unsigned_tx psbt)));
  cs_final : Forall (fun i => sequence i = SEQUENCE_MAX) (input (unsigned_tx psbt));
  cs_opret : length (filter (fun o => is_op_return lib (script_pubkey o) = true)
                       (output (unsigned_tx psbt))) = 1%nat;
  cs_change : exists o, output (unsigned_tx psbt) !! Z.to_nat change = Some o /\
    script_pubkey o = account_script /\ 546 <= value o;
  cs_recipient : match into_inner (beneficiary invoice) with
    | WitnessVout script None => exists n o, recipient = Some n /\ n <> change /\
        output (unsigned_tx psbt) !! Z.to_nat n = Some o /\ script_pubkey o = script /\ 546 <= value o
    | BlindedSeal _ => recipient = None
    | WitnessVout _ (Some _) => False
    end;
  cs_outputs : forall i o, output (unsigned_tx psbt) !! i = Some o ->
    Z.of_nat i = change \/ recipient = Some (Z.of_nat i) \/
    is_op_return lib (script_pubkey o) = true /\ value o = 0;
  cs_value : exists utxos fee, map witness_utxo (psbt_inputs psbt) = map Some utxos /\
    1 <= fee <= 100000 /\
    sumZ (map value utxos)
    = value_at 0 change (output (unsigned_tx psbt))
      + match recipient with Some n => value_at 0 n (output (unsigned_tx psbt)) | None => 0 end
      + fee;
}.

Lemma rgb20_carrier_Ok psbt :
  validate_rgb20_external_carrier lib psbt = Ok tt ->
  length (filter (fun o => is_op_return lib (script_pubkey o) = true)
            (output (unsigned_tx psbt))) = 1%nat.
Proof.
  unfold validate_rgb20_external_carrier. destruct (list_find _ _) as [[p ?]|]; [|done].
  intros (? & H%ensure_Ok & _)%result_bind_Ok. by apply Nat.eqb_eq in H.
Qed.

Lemma carrier_inputs_final ins :
  existsb (fun i => negb (sequence i =? SEQUENCE_MAX) || negb (str_is_empty (script_sig i))
                    || negb (bool_decide (witness i = []))) ins = false ->
  Forall (fun i => sequence i = SEQUENCE_MAX /\ script_sig i = "" /\ witness i = []) ins.
Proof.
  induction ins as [|i ins IH]; cbn; [done|]. intros [Hi Hr]%orb_false_elim. constructor; [|auto].
  apply orb_false_elim in Hi as [[H1 H2]%orb_false_elim H3].
  apply negb_false_iff in H1, H2, H3. apply Z.eqb_eq in H1. apply bool_decide_eq_true in H3.
  split_and!; [done| |done]. by destruct (script_sig i).
Qed.

(** The recipient's output, as the invoice asks for it. *)
Lemma expected_recipient tx (invoice : RgbInvoice) recipient change expected :
  match into_inner (beneficiary invoice) with
  | WitnessVout v None =>
      n ← ok_or recipient (invalid "witness recipient_vout required");
      if (n =? change) || match output tx !! Z.to_nat n with
                          | None => true
                          | Some o => negb (String.eqb (script_pubkey o) v) || (value o <? 546)
                          end
      then Err (invalid "recipient output does not match invoice")
      else Ok (Some n)
  | BlindedSeal _ =>
      if bool_decide (is_Some recipient)
      then Err (invalid "blind transfer has no recipient_vout") else Ok None
  | _ => Err (invalid "tapret recipient unsupported")
  end = Ok expected ->
  expected = recipient /\ expected <> Some change /\
  match into_inner (beneficiary invoice) with
  | WitnessVout script None => exists n o, recipient = Some n /\ n <> change /\
      output tx !! Z.to_nat n = Some o /\ script_pubkey o = script /\ 546 <= value o
  | BlindedSeal _ => recipient = None
  | WitnessVout _ (Some _) => False
  end.
Proof.
  destruct (into_inner _) as [seal|v [k|]]; [|done|].
  - destruct recipient; case_bool_decide as H; try done; [destruct H; eauto|]. by intros [= <-].
  - intros (n & Hn%ok_or_Ok & H)%result_bind_Ok.
    destruct (Z.eqb_spec n change) as [->|Hne]; [done|]. cbn in H.
    destruct (output tx !! Z.to_nat n) as [o|] eqn:Eo; [|done].
    destruct (String.eqb_spec (script_pubkey o) v); [|done]. cbn in H.
    destruct (Z.ltb_spec (value o) 546); [done|]. injection H as <-.
    split_and!; [done|congruence|eauto 10].
Qed.

(** ** The signed transaction *)

(** What it means that input [index] of [tx] spends [prev] with a valid
    signature over the whole transaction. *)
Inductive spends (tx : Transaction) (prevouts : list TxOut) (index : nat) (prev : TxOut)
    : list string -> Prop :=
| spends_p2wpkh sig_bytes key_bytes key sig hash :
    is_p2wpkh lib (script_pubkey prev) = true ->
    key_from_slice lib key_bytes = Ok key -> p2wpkh_script lib key = script_pubkey prev ->
    ecdsa_from_slice lib sig_bytes = Ok (EAll, sig) ->
    p2wpkh_signature_hash lib tx index prev EAll = Ok hash ->
    verify_ecdsa_msg lib hash sig key = Ok tt ->
    spends tx prevouts index prev [sig_bytes; key_bytes]
| spends_p2tr sig_bytes ty key sig hash :
    is_p2tr lib (script_pubkey prev) = true ->
    schnorr_from_slice lib sig_bytes = Ok (ty, sig) -> ty = TDefault \/ ty = TAll ->
    xonly_from_slice lib
      (String.substring 2 (String.length (script_pubkey prev) - 2) (script_pubkey prev)) = Ok key ->
    taproot_signature_hash lib tx index prevouts ty = Ok hash ->
    verify_schnorr_msg lib hash sig key = Ok tt ->
    spends tx prevouts index prev [sig_bytes].

Lemma verify_witness_spends tx prevouts index prev w :
  verify_witness lib tx prevouts index prev w = Ok tt -> spends tx prevouts index prev w.
Proof.
  unfold verify_witness. destruct (is_p2wpkh _ _ && _) eqn:Hw.
  - apply andb_prop in Hw as [Hw Hl%Nat.eqb_eq]. destruct w as [|sg [|kb [|]]]; try done.
    cbn [lookup list_lookup default].
    intros (key & Hk%map_err_Ok & H)%result_bind_Ok.
    destruct (String.eqb_spec (p2wpkh_script lib key) (script_pubkey prev)) as [Hs|]; [|done].
    apply result_bind_Ok in H as ([ty sig] & Hsg%map_err_Ok & H). cbn [fst snd] in H.
    case_bool_decide; [subst ty|done]. cbn [negb] in H.
    apply result_bind_Ok in H as (hash & Hh%map_err_Ok & Hv%map_err_Ok).
    by eapply spends_p2wpkh.
  - destruct (is_p2tr _ _ && _) eqn:Ht; [|done].
    apply andb_prop in Ht as [Ht Hl%Nat.eqb_eq]. destruct w as [|sg [|]]; try done.
    cbn [lookup list_lookup default].
    intros ([ty sig] & Hsg%map_err_Ok & H)%result_bind_Ok. cbn [fst snd] in H.
    destruct (bool_decide (ty = TDefault) || bool_decide (ty = TAll)) eqn:Hty; [|done].
    cbn [negb] in H. apply result_bind_Ok in H as (key & Hk%map_err_Ok & H).
    apply result_bind_Ok in H as (hash & Hh%map_err_Ok & Hv%map_err_Ok).
    eapply spends_p2tr; try done.
    by apply orb_prop in Hty as [?%bool_decide_eq_true|?%bool_decide_eq_true]; [left|right].
Qed.

Lemma verify_witnesses_spends tx prevouts n ins :
  verify_witnesses lib tx prevouts n ins = Ok tt ->
  forall i inp, ins !! i = Some inp ->
  exists prev, prevouts !! (n + i)%nat = Some prev /\ spends tx prevouts (n + i) prev (witness inp).
Proof.
  revert n. induction ins as [|i0 ins IH]; intros n H [|i] inp Hi; try done; cbn in H, Hi;
    apply result_bind_Ok in H as (prev & Hp%ok_or_Ok & H);
    apply result_bind_Ok in H as ([] & Hv%verify_witness_spends & H).
  - simplify_eq. exists prev. by rewrite Nat.add_0_r.
  - rewrite <- Nat.add_succ_comm. by apply IH.
Qed.

Lemma prevouts_of_Ok ins us : prevouts_of ins = Ok us -> map witness_utxo ins = map Some us.
Proof.
  revert us. induction ins as [|i ins IH]; intros us; cbn; [by intros [= <-]|].
  intros (u & Hu%ok_or_Ok & (us' & Hus & [= <-])%result_bind_Ok)%result_bind_Ok.
  cbn. by rewrite Hu, (IH _ Hus).
Qed.

(** [Psbt::extract_tx] moves the final scripts and witnesses of the PSBT into
    the inputs of the unsigned transaction. *)
Definition filled (p : Psbt) : Transaction := {|
  version := version (unsigned_tx p); lock_time := lock_time (unsigned_tx p);
  input := zip_with (fun i q => {|
      previous_output := previous_output i; sequence := sequence i;
      script_sig := default "" (final_script_sig q);
      witness := default [] (final_script_witness q) |})
    (input (unsigned_tx p)) (psbt_inputs p);
  output := output (unsigned_tx p) |}.

Definition blank_input (i : TxIn) : Prop := script_sig i = "" /\ witness i = [].

Lemma filled_clear prepared signed :
  unsigned_tx signed = unsigned_tx prepared ->
  length (psbt_inputs signed) = length (input (unsigned_tx prepared)) ->
  Forall blank_input (input (unsigned_tx prepared)) ->
  Forall (fun q => default "" (final_script_sig q) = "") (psbt_inputs signed) ->
  clear_witnesses (filled signed) = unsigned_tx prepared.
Proof.
  intros Hu Hl Hb Hf. unfold filled, clear_witnesses. rewrite Hu. cbn.
  destruct (unsigned_tx prepared) as [v lt ins outs]; cbn in *. f_equal.
  clear Hu. revert Hf Hl. generalize (psbt_inputs signed) as qs. induction Hb as [|i ins [Hs Hw] Hb IH].
  - by intros [|]; cbn.
  - intros [|q qs] Hf Hl; cbn in *; [done|]. inversion_clear Hf. rewrite IH; [|done|lia].
    f_equal. destruct i; cbn in *. congruence.
Qed.

Lemma final_inputs_blank (ps ss : list PsbtInput) :
  length ss = length ps ->
  forallb (fun ab => final_input_ok ab.1 ab.2) (zip ps ss) = true ->
  Forall (fun q => default "" (final_script_sig q) = "") ss.
Proof.
  revert ss. induction ps as [|a ps IH]; intros [|b ss] Hl Hf; try done.
  cbn in Hl, Hf. apply andb_prop in Hf as [Ha Hf]. constructor; [|apply IH; [lia|done]].
  unfold final_input_ok in Ha. apply andb_prop in Ha as [[_ Ha]%andb_prop _].
  by destruct (final_script_sig b) as [[]|].
Qed.
End carrier.
