(* ===== verification/ExternalDemo.v ===== *)
(** * A concrete world for the external engine

    A small instance of the code the engine calls (bitcoin, rgb, the chain, the
    proxy and the stock), on which the engine runs by evaluation.  The witnesses
    of the external theorems evaluate their hypotheses on it. *)

From stdpp Require Import pretty.
From Stdlib Require Import Ascii.
From S2P Require Import Prelude ServiceApi Kv Hex ExternalTypes ExternalStore ExternalEngine ExternalSafety ExternalCarrier.
Local Open Scope Z_scope.

Lemma hex_encode_inj a b : hex_encode a = hex_encode b -> a = b.
Proof. intros H. pose proof (decode_pairs_encode a) as Ha. rewrite H, decode_pairs_encode in Ha. congruence. Qed.

Lemma ident_hex_digit n : 0 <= n < 16 -> ident_char (hex_digit n) = true.
Proof. intros H. unfold ident_char. rewrite hex_digit_val by done. case_match; lia. Qed.

Lemma hex_encode_ident a : ident_chars (hex_encode a) = true.
Proof.
  induction a as [|c a IH]; [done|]. cbn [hex_encode ident_chars].
  pose proof (byte_val_range c). rewrite IH, !ident_hex_digit; [done|..].
  - change 15 with (Z.ones 4). rewrite Z.land_ones by lia. apply Z.mod_pos_bound. lia.
  - rewrite Z.shiftr_div_pow2 by lia. split; [apply Z.div_pos; lia|].
    apply Z.div_lt_upper_bound; lia.
Qed.

(** The previous transaction and the carrier that spends it; a lock time tells
    the transactions of this world apart. *)
Definition demo_input (w : list string) : TxIn := {|
  previous_output := mkOutPoint "t0" 0; script_sig := ""; sequence := SEQUENCE_MAX; witness := w |}.
Definition demo_prev : TxOut := {| value := 10000; script_pubkey := "wA" |}.
Definition demo_tx (id : Z) (ins : list TxIn) (outs : list TxOut) : Transaction := {|
  version := 2; lock_time := id; input := ins; output := outs |}.
Definition demo_tx0 : Transaction := demo_tx 0 [] [demo_prev; demo_prev].
Definition demo_outputs : list TxOut :=
  [{| value := 0; script_pubkey := "opret" |}; {| value := 9000; script_pubkey := "wA" |}].
Definition demo_carrier : Transaction := demo_tx 1 [demo_input []] demo_outputs.
Definition demo_signed_tx : Transaction := demo_tx 1 [demo_input ["sig"; "kA"]] demo_outputs.

Definition demo_psbt : Psbt := {|
  unsigned_tx := demo_carrier;
  psbt_inputs := [{| witness_utxo := Some demo_prev; final_script_sig := None;
                     final_script_witness := None |}];
  psbt_rest := "" |}.
Definition demo_signed_psbt : Psbt := {|
  unsigned_tx := demo_carrier;
  psbt_inputs := [{| witness_utxo := Some demo_prev; final_script_sig := None;
                     final_script_witness := Some ["sig"; "kA"] |}];
  psbt_rest := "" |}.

Definition demo_invoice : RgbInvoice :=
  build_invoice "asset" (xbitcoin Regtest (BlindedSeal "seal")) 5 5000 "rpcs://proxy".

Definition demo_semantic (a : ExternalRgbAction) : string :=
  match a with
  | Receive id asset n e b => kind a +:+ id +:+ asset +:+ pretty n +:+ pretty e +:+ default "" b
  | Prepare id i p _ _ _ => kind a +:+ id +:+ i +:+ p
  | Finalize id o p _ => kind a +:+ id +:+ o +:+ p
  | Cancel id o => kind a +:+ id +:+ o
  | _ => kind a
  end.

(** "t:d" with one digit *)
Fixpoint demo_parse_outpoint (s : string) : result string OutPoint :=
  match s with
  | String ":" (String d EmptyString) => Ok (mkOutPoint "" (byte_val d - 48))
  | String c rest =>
      match demo_parse_outpoint rest with
      | Ok o => Ok (mkOutPoint (String c (op_txid o)) (op_vout o))
      | Err e => Err e
      end
  | EmptyString => Err "outpoint"
  end.

Definition demo_lib : Lib := {|
  digest := hex_encode;
  semantic_json := demo_semantic;
  parse_address a := Ok (a, a);
  parse_outpoint := demo_parse_outpoint;
  outpoint_to_string o := op_txid o +:+ ":" +:+ pretty (op_vout o);
  parse_txid t := Ok t;
  parse_contract c := Ok c;
  parse_transport t := Ok t;
  parse_url _ := Err "url";
  invoice_from_str _ := Ok demo_invoice;
  invoice_to_string _ := "invoice";
  beneficiary_to_string b := match into_inner b with BlindedSeal s => s | WitnessVout s _ => s end;
  conceal s := s;
  parse_graph_seal s := Ok s;
  psbt_deserialize b := if String.eqb b "p" then Ok demo_psbt
                        else if String.eqb b "s" then Ok demo_signed_psbt else Err "psbt";
  psbt_serialize _ := "p";
  extract_tx p := Ok (filled p);
  serialize_tx tx := if bool_decide (tx = demo_signed_tx) then "S" else
                     if lock_time tx =? 0 then "T" else "C";
  deserialize_tx b := if String.eqb b "T" then Ok demo_tx0
                      else if String.eqb b "C" then Ok demo_carrier
                      else if String.eqb b "S" then Ok demo_signed_tx else Err "tx";
  compute_txid tx := "t" +:+ pretty (lock_time tx);
  is_op_return s := String.eqb s "opret";
  is_p2tr s := String.prefix "r" s;
  is_p2wpkh s := String.prefix "w" s;
  key_from_slice k := Ok k;
  p2wpkh_script k := match k with String _ rest => "w" +:+ rest | EmptyString => "" end;
  ecdsa_from_slice s := Ok (EAll, s);
  p2wpkh_signature_hash _ _ _ _ := Ok "hash";
  verify_ecdsa_msg _ s _ := if String.eqb s "sig" then Ok tt else Err "bad signature";
  xonly_from_slice k := Ok k;
  schnorr_from_slice s := Ok (TDefault, s);
  taproot_signature_hash _ _ _ _ := Ok "hash";
  verify_schnorr_msg _ s _ := if String.eqb s "sig" then Ok tt else Err "bad signature";
  base64_decode s := Ok s |}.

Definition obj (fields : list (string * Value)) : Value := VObj fields.
Definition rpc_ok (v : Value) : Value := obj [("result", v)].

(** A chain whose transactions all have 11 confirmations, a proxy that accepts
    and acknowledges, and a stock that agrees. [tip] is the height of the chain. *)
Definition demo_env (tip : Z) (known : string -> option string) : Env unit := {|
  net_tx_hex t := Ok (known t);
  net_outspend _ := Ok (obj [("spent", VBool false)]);
  net_status t := Ok (if bool_decide (is_Some (known t))
    then Some (obj [("confirmed", VBool true); ("block_height", VNum 100)]) else None);
  net_tip := Ok tip;
  net_post_tx _ := Ok "t1";
  net_rpc method _ _ := Ok (rpc_ok (if String.eqb method "ack.get" then VBool true else VNull));
  net_upload _ _ _ _ := Ok (obj [("result", VBool true)]);
  stk_active_pending _ _ := Ok false;
  stk_assets _ _ _ := Ok [];
  stk_schema _ _ _ := Ok "RGB20";
  stk_prepare s _ psbt _ _ _ _ := (s, Ok (psbt, "F", "P"));
  stk_pending_confirmed _ _ _ := Ok true;
  stk_stage_sender s _ _ _ := (s, Ok tt);
  stk_promote s _ := (s, Ok tt);
  stk_preview _ _ _ _ o _ := Ok [{| al_outpoint := o; al_contract := "asset"; al_amount := 5 |}];
  stk_store_secret s _ _ := (s, Ok tt);
  stk_accept s _ _ := (s, Ok tt);
  decode_transfer _ := Ok {| t_contract := "asset"; t_witnesses := [("t1", Some demo_carrier)];
                             t_terminals := [["seal"]] |} |}.

Definition only_t0 (t : string) : option string :=
  if String.eqb t "t0" then Some (hex_encode "T") else None.
Definition t0_t1 (t : string) : option string :=
  if String.eqb t "t0" then Some (hex_encode "T")
  else if String.eqb t "t1" then Some (hex_encode "S") else None.

Definition demo_config : ExternalConfig := {|
  enabled := true;
  proxy_allowlist := ["https://proxy"];
  max_consignment_bytes := 2 * 1024 * 1024;
  request_timeout_secs := 30;
  cfg_required_confirmations := 1;
  max_operations := 10000 |}.

Definition empty_db : Db unit := mkDb ∅ ∅ ∅ ∅ ∅ ∅ ∅ tt.

Definition demo_signature : RequestSignature := {|
  signer_id := "A"; public_key := "k"; scheme := Ecdsa; nonce := "n"; timestamp_ms := 0;
  signature := "" |}.
Definition demo_auth : AssetSpendAuthorization := {|
  auth_asset_id := "asset"; auth_amount := 5; purpose := L1Transfer;
  auth_recipient := Some "invoice"; auth_anchor_psbt := Some (hex_encode "p");
  expires_at_ms := 9000; auth_signature := demo_signature |}.

Definition demo_call (now : Z) (env : Env unit) (a : ExternalRgbAction) :=
  execute demo_lib demo_config Regtest now env "seal" {| req_account_id := "wA"; action := a |}.

Definition demo_prepare : ExternalRgbAction :=
  Prepare "r1" "invoice" (hex_encode "p") None 1 demo_auth.
Definition demo_id : string := hex_encode (scoped "wA" (op_key "prepare" "r1")).
Definition demo_finalize : ExternalRgbAction :=
  Finalize "r2" demo_id (hex_encode "s") demo_auth.

(** ** Runs *)

Definition demo_s0 : kv (Db unit) := mkKv empty_db [].
(** The send after [Prepare], after [Finalize], after delivery and broadcast,
    and settled. *)
Definition demo_s1 := (demo_call 1000 (demo_env 110 only_t0) demo_prepare demo_s0).1.
Definition demo_s2 := (demo_call 1100 (demo_env 110 only_t0) demo_finalize demo_s1).1.
Definition demo_s3 := (scan demo_lib demo_config 1200 (demo_env 110 only_t0) demo_s2).1.
Definition demo_s4 := (scan demo_lib demo_config 1300 (demo_env 110 t0_t1) demo_s3).1.

Definition no_record : Record_ :=
  mkRecord 1 "" (mkOperation "" "" "" "" 0 "" "" None None "" "" None 0 0 false None 0 0)
    "" 0 None None None None [] "" "" None None 0 0 false.
Definition demo_record (s : kv (Db unit)) (id : string) : Record_ :=
  default no_record (ops (data s) !! scoped "wA" id).

(** A receive on the account's own script, and a proxy whose reply has no
    output index. *)
Definition demo_receive : ExternalRgbAction := Receive "r3" "asset" 5 5000 None.
Definition demo_receive_id : string := hex_encode (scoped "wA" (op_key "receive" "r3")).
Definition short_reply_env : Env unit :=
  let e := demo_env 110 t0_t1 in {|
  net_tx_hex := net_tx_hex e; net_outspend := net_outspend e; net_status := net_status e;
  net_tip := net_tip e; net_post_tx := net_post_tx e;
  net_rpc _ _ _ := Ok (rpc_ok (obj [("consignment", VStr "P"); ("txid", VStr "t1")]));
  net_upload := net_upload e; stk_active_pending := stk_active_pending e;
  stk_assets := stk_assets e; stk_schema := stk_schema e; stk_prepare := stk_prepare e;
  stk_pending_confirmed := stk_pending_confirmed e; stk_stage_sender := stk_stage_sender e;
  stk_promote := stk_promote e; stk_preview := stk_preview e;
  stk_store_secret := stk_store_secret e; stk_accept := stk_accept e;
  decode_transfer := decode_transfer e |}.

Definition wedged_s : kv (Db unit) :=
  let s1 := (demo_call 1000 (demo_env 110 t0_t1) demo_receive demo_s0).1 in
  (scan demo_lib demo_config 1100 short_reply_env s1).1.
Definition wedged_r : Record_ :=
  match (load "wA" demo_receive_id wedged_s).2 with Ok r => r | Err _ => no_record end.
