(* ===== verification/ExternalTheorems.v ===== *)
(** * The guarantees of the external engine

    The properties of crates/rgb-service-daemon/src/external.rs: what holds in
    every state that requests and the recovery worker can reach, what the
    checks on a carrier guarantee, and what replays, pages and balances show.
    Each witness runs the engine on the world of ExternalDemo. *)

From stdpp Require Import pretty.
From S2P Require Import Prelude ServiceApi Kv Hex ExternalTypes ExternalStore ExternalEngine ExternalSafety ExternalCarrier ExternalDemo.
Local Open Scope Z_scope.

(** ** Reachable states *)

Section reachable.
Context {Stk : Type} (lib : Lib) (config : ExternalConfig) (network : Network).

(** What happens to the database between two calls of the engine: other parts
    of the daemon write their own tables, and the outcomes of the coming writes
    are drawn.  A crash is a run whose remaining writes fail. *)
Definition elsewhere (s s' : kv (Db Stk)) : Prop :=
  ops (data s') = ops (data s) /\ reserved (data s') = reserved (data s) /\
  idem (data s') = idem (data s) /\ PersistFails ∉ faults s'.

(** The engine's lock serialises requests and rounds of the worker; the answers
    of the chain, the proxy and the stock are arbitrary and may change at every
    call. *)
Inductive step (s : kv (Db Stk)) : kv (Db Stk) -> Prop :=
| step_execute now env secret request :
    step s (execute lib config network now env secret request s).1
| step_scan now env : step s (scan lib config now env s).1
| step_elsewhere s' : elsewhere s s' -> step s s'.

Definition initial (s : kv (Db Stk)) : Prop := ops (data s) = ∅ /\ PersistFails ∉ faults s.

Definition reachable (s : kv (Db Stk)) : Prop := exists s0, initial s0 /\ rtc step s0 s.

Context (digest_inj : forall a b, digest lib a = digest lib b -> a = b)
        (digest_ident : forall a, ident_chars (digest lib a) = true).

Lemma step_good d0 s s' : good lib d0 s -> step s s' -> good lib d0 s'.
Proof.
  intros Hg []; unfold execute, scan.
  - pose proof (execute_locked_good lib config network digest_inj digest_ident now env d0
      secret request s Hg) as H. unfold wp in H. by destruct (execute_locked _ _ _ _ _ _ _ _).
  - pose proof (scan_operations_good lib config digest_inj digest_ident now env d0 s Hg) as H.
    unfold wp in H. by destruct (scan_operations _ _ _ _ _).
  - destruct H as (Ho & Hr & Hi & Hf). destruct Hg as [HI _ Hext].
    destruct (same_tables lib (data s) _ Ho Hr Hi HI) as (? & ? & _).
    constructor; [done..|by eapply extends_trans].
Qed.

Lemma steps_good s s' : Inv lib (data s) -> sound_io s -> rtc step s s' -> good lib (data s) s'.
Proof.
  intros HI Hio Hs. pose proof (good_refl lib s HI Hio) as Hg. revert Hg.
  generalize (data s). clear HI Hio. induction Hs; [done|]. eauto using step_good.
Qed.

Lemma initial_inv s : initial s -> Inv lib (data s).
Proof. intros [He _]. constructor; rewrite He; intros k r Hk; by rewrite lookup_empty in Hk. Qed.

Lemma reachable_inv s : reachable s -> Inv lib (data s) /\ sound_io s.
Proof.
  intros (s0 & Hi & Hs). destruct (steps_good s0 s) as [? ? _]; [by apply initial_inv|apply Hi|done|].
  done.
Qed.
End reachable.

Section guarantees.
Context {Stk : Type} (lib : Lib) (config : ExternalConfig) (network : Network).
Context (digest_inj : forall a b, digest lib a = digest lib b -> a = b)
        (digest_ident : forall a, ident_chars (digest lib a) = true).



(** C23. Operations are never lost or retargeted: an operation is still there
    after any number of steps, with the account, asset, amount, invoice,
    recipient, inputs and change of its creation; once it is signed, its signed
    transaction, txid and carrier are frozen; and the answer recorded for a
    request id never changes. *)
Theorem operations_persist (s s' : kv (Db Stk)) :
  reachable lib config network s -> rtc (step lib config network) s s' ->
  (forall k r, ops (data s) !! k = Some r ->
     exists r', ops (data s') !! k = Some r' /\ evolves r r') /\
  (forall key answer, idem (data s) !! key = Some answer -> idem (data s') !! key = Some answer).
Proof.
  intros [HI Hio]%reachable_inv Hs; [|done..].
  by destruct (steps_good lib config network digest_inj digest_ident s s') as [_ _ [? ?]].
Qed.

(** C25. An operation is settled only with the confirmations it requires, and
    every operation that gave its outpoint back (a receive that settled, also
    when it was quarantined later) has a transaction. *)
Theorem settled_confirmed (s : kv (Db Stk)) k r :
  reachable lib config network s -> ops (data s) !! k = Some r ->
  (stat r = "settled" -> required_confirmations (view r) <= confirmations (view r)) /\
  (~ holds r -> is_Some (txid (view r))) /\
  (is_Some (signed_hex r) -> dir r = "send").
Proof.
  intros [HI _]%reachable_inv Hr; [|done..]. destruct (inv_ops _ _ HI _ _ Hr) as [_ []].
  split_and!; [done..|]. intros Hs. by destruct (ok_signed Hs).
Qed.

End guarantees.

(** ** Replays *)

Section replays.
Context {Stk : Type} (lib : Lib) (config : ExternalConfig) (network : Network).

Definition request_id_of (a : ExternalRgbAction) : option string :=
  match a with
  | Receive id _ _ _ _ | Prepare id _ _ _ _ _ | Finalize id _ _ _ | Cancel id _ => Some id
  | Get _ | List _ _ | Refresh _ => None
  end.

Lemma replay_known account_ kind_ rid h0 h id (s : kv (Db Stk)) :
  identifier rid = Ok tt -> idem (data s) !! scoped account_ (op_key kind_ rid) = Some (h0, id) ->
  replay account_ kind_ rid h s =
    (s, if String.eqb h0 h then Some <$> (load account_ id s).2
        else Err (conflict "request_id already used with different parameters")).
Proof.
  intros Hid Hi. unfold replay. unfold mbind at 1, SE_bind at 1. cbn [lift]. rewrite Hid.
  unfold mbind at 1, SE_bind at 1. cbn [read]. unfold op_key in Hi. rewrite Hi.
  destruct (String.eqb h0 h); [|done].
  pose proof (load_quiet account_ id s) as Hq. unfold mbind, SE_bind.
  destruct (load account_ id s) as [s' [r|e]]; cbn in *; by subst.
Qed.

(** C26. A request that repeats an answered request id does nothing: with the
    same parameters it returns the operation as it is now, with others it is
    refused, and in both cases the store is left as it was. *)
Theorem execute_replay now env secret account_ a rid h id addr (s : kv (Db Stk)) :
  request_id_of a = Some rid -> identifier rid = Ok tt ->
  account_address lib account_ = Ok addr ->
  idem (data s) !! scoped account_ (op_key (kind a) rid) = Some (h, id) ->
  execute lib config network now env secret {| req_account_id := account_; action := a |} s =
    (s, map_err classify
          (if String.eqb h (request_hash lib a)
           then (fun r => one (view r)) <$> (load account_ id s).2
           else Err (conflict "request_id already used with different parameters"))).
Proof.
  intros Ha Hid Haddr Hi. unfold execute, execute_locked. cbn [req_account_id action].
  unfold mbind at 1, SE_bind at 1. cbn [lift]. rewrite Haddr.
  destruct a; try done; injection Ha as ->; cbn [kind] in Hi;
    unfold mbind at 1, SE_bind at 1; unfold do_receive, do_prepare, do_finalize, do_cancel;
    unfold mbind at 1, SE_bind at 1; rewrite (replay_known _ _ _ _ _ _ _ Hid Hi);
    destruct (String.eqb _ _); cbn; destruct (load account_ id s) as [? [|]]; done.
Qed.
End replays.

(** ** Carriers *)

Section carriers.
Context (lib : Lib).

(** C24. A carrier that [validate_carrier] accepts spends each input once, pays
    the change back to the account and the invoice's recipient, has a single
    OP_RETURN output and no other output that carries value, and loses at most
    100,000 satoshis in fees: the value of the spent outputs is the change plus
    the recipient's output plus the fee. *)
Theorem validate_carrier_safe psbt account_script invoice recipient change :
  validate_carrier lib psbt account_script invoice recipient change = Ok tt ->
  carrier_safe lib psbt account_script invoice recipient change.
Proof.
  unfold validate_carrier.
  intros ([] & Hop%map_err_Ok%rgb20_carrier_Ok & H)%result_bind_Ok.
  destruct (bool_decide _ || _) eqn:Hin; [done|].
  apply orb_false_elim in Hin as [_ Hin%carrier_inputs_final].
  case_bool_decide as Hnd; [|done]. cbn [negb] in H.
  apply result_bind_Ok in H as (co & Hco%ok_or_Ok & H).
  destruct (String.eqb_spec (script_pubkey co) account_script) as [Hs|]; [|done].
  destruct (Z.ltb_spec (value co) 546) as [|Hdust]; [done|]. cbn [negb orb] in H.
  apply result_bind_Ok in H as (expected & Hexp & H).
  apply expected_recipient in Hexp as (-> & Hne & Hrec).
  destruct (only_expected _ _ _ _ _) eqn:Ho; [|done]. cbn [negb] in H.
  apply result_bind_Ok in H as (ti & Hti & H).
  apply input_total_Ok in Hti as (utxos & Hu & ->).
  apply result_bind_Ok in H as (to_ & Hto%ok_or_Ok%checked_sum_sound & H).
  apply result_bind_Ok in H as (fee & [Hfee Hle]%ok_or_Ok%checked_sub_Some & H).
  destruct (Z.eqb_spec fee 0); [done|]. destruct (Z.ltb_spec 100000 fee); [done|].
  constructor; [done| |done|by eauto|done| |].
  - eapply Forall_impl; [done|]. by intros ? [? _].
  - intros i o Hi. by eapply only_expected_kind in Ho.
  - exists utxos, fee. apply only_expected_value in Ho; [|done]. split_and!; [done|lia|lia|lia].
Qed.


(** C27. A transaction that [finalized_transaction] accepts is the prepared
    carrier with witnesses added, and every input spends the output recorded at
    preparation with a signature over the whole transaction. *)
Theorem finalized_transaction_sound prepared signed tx
    (extract_fills : forall p t, extract_tx lib p = Ok t -> t = filled p) :
  length (psbt_inputs prepared) = length (input (unsigned_tx prepared)) ->
  Forall blank_input (input (unsigned_tx prepared)) ->
  finalized_transaction lib prepared signed = Ok tx ->
  clear_witnesses tx = unsigned_tx prepared /\
  exists prevouts, map witness_utxo (psbt_inputs prepared) = map Some prevouts /\
    forall i inp, input tx !! i = Some inp ->
      exists prev, prevouts !! i = Some prev /\ spends lib tx prevouts i prev (witness inp).
Proof.
  intros Hl Hb. unfold finalized_transaction.
  destruct (negb (bool_decide _) || _) eqn:Hsame; [done|].
  apply orb_false_elim in Hsame as [Hu%negb_false_iff%bool_decide_eq_true Hn%negb_false_iff%Nat.eqb_eq].
  destruct (forallb _ _) eqn:Hf; [|done]. cbn [negb].
  intros (t & ->%map_err_Ok%extract_fills & H)%result_bind_Ok.
  apply result_bind_Ok in H as ([] & Hv & [= <-]). split.
  - apply filled_clear; [done|congruence|done|]. by eapply final_inputs_blank.
  - apply result_bind_Ok in Hv as (prevouts & Hp%prevouts_of_Ok & Hv). exists prevouts. split; [done|].
    by apply (verify_witnesses_spends lib _ _ 0).
Qed.
End carriers.

(** ** Pages *)

(** The operations of an account after a cursor. *)
Definition listed (after : option string) (r : Record_) : bool :=
  match after with Some id => negb (str_leb (operation_id (view r)) id) | None => true end.
Definition account_views {Stk} (account_ : string) (after : option string) (d : Db Stk)
    : list ExternalRgbOperation :=
  map (fun kv => view kv.2) (filter (fun kv => listed after kv.2 = true)
    (scan_prefix (account_ +:+ "/") d)).

Lemma take_page_spec after limit views entries :
  (length views <= limit)%nat ->
  take_page after limit views entries
  = take (S limit) (views ++ map (fun kv => view kv.2)
                      (filter (fun kv : string * Record_ => listed after kv.2 = true) entries)).
Proof.
  revert views. induction entries as [|[k r] entries IH]; intros views Hl; cbn [take_page].
  - rewrite filter_nil. cbn. rewrite app_nil_r, firstn_all2; [done|lia].
  - rewrite filter_cons. cbn [snd].
    assert (listed after r = negb match after with
      | Some id => str_leb (operation_id (view r)) id | None => false end) as Hr by by destruct after.
    destruct (match after with Some id => _ | None => false end).
    + rewrite decide_False by (by rewrite Hr). by apply IH.
    + rewrite decide_True by done. cbn [map snd].
      rewrite (cons_middle (view r) views (map _ _)), app_assoc.
      destruct (Nat.ltb_spec limit (length (views ++ [view r]))) as [H|H]; [|by apply IH].
      rewrite length_app in H. cbn in H. rewrite take_app_length'; [done|].
      rewrite length_app. cbn. lia.
Qed.

(** Listing returns the next [limit] operations of the account in key
    order, and a cursor exactly when there are more. *)
Theorem do_list_page {Stk} account_ after limit (s : kv (Db Stk)) :
  1 <= limit <= 100 -> match after with Some a => identifier a = Ok tt | None => True end ->
  let all := account_views account_ after (data s) in
  do_list account_ after limit s =
    (s, Ok {| operations := take (Z.to_nat limit) all;
              next_cursor := if Nat.ltb (Z.to_nat limit) (length all)
                             then operation_id <$> last (take (Z.to_nat limit) all) else None |}).
Proof.
  intros Hl Ha all. unfold do_list.
  destruct (Z.eqb_spec limit 0); [lia|]. destruct (Z.ltb_spec 100 limit); [lia|]. cbn [orb].
  unfold mbind at 1, SE_bind at 1. cbn [lift].
  assert (match after with Some a => identifier a | None => Ok tt end = Ok tt) as ->
    by (destruct after; done).
  unfold mbind, SE_bind. cbn [read]. rewrite take_page_spec by (cbn; lia). cbn [app].
  fold (account_views account_ after (data s)). fold all. rewrite length_take.
  destruct (Nat.ltb_spec (Z.to_nat limit) (length all)) as [Hlt|Hge].
  - rewrite Nat.min_l by lia. rewrite (proj2 (Nat.ltb_lt _ _)) by lia. cbn [Nat.sub].
    rewrite Nat.sub_0_r, take_take, Nat.min_l by lia. done.
  - rewrite Nat.min_r by lia. rewrite (proj2 (Nat.ltb_ge _ _)) by lia.
    rewrite !firstn_all2 by lia. done.
Qed.

(** ** Balances *)

Lemma project_record_mono p r :
  proj_reserved p ⊆ proj_reserved (project_record p r) /\
  (quarantined p = true -> quarantined (project_record p r) = true).
Proof.
  unfold project_record. destruct (_ || _ : bool); cbn; [split; [done|by intros ->]|].
  destruct (String.eqb _ _); cbn; (split; [set_solver|by intros ->]).
Qed.

Lemma projection_mono (l : list (string * Record_)) p :
  proj_reserved p ⊆ proj_reserved (foldl (fun p kv => project_record p kv.2) p l) /\
  (quarantined p = true -> quarantined (foldl (fun p kv => project_record p kv.2) p l) = true).
Proof.
  revert p. induction l as [|kv l IH]; intros p; cbn; [done|].
  destruct (IH (project_record p kv.2)) as [? ?], (project_record_mono p kv.2) as [? ?].
  split; [by etrans|auto].
Qed.

Lemma projection_elem (l : list (string * Record_)) p kv :
  kv ∈ l ->
  let q := foldl (fun p kv => project_record p kv.2) p l in
  (quarantine_account kv.2 = true -> quarantined q = true) /\
  (stat kv.2 <> "settled" -> (dir kv.2 = "send" -> stat kv.2 <> "cancelled") ->
   list_to_set (inputs kv.2) ⊆ proj_reserved q).
Proof.
  revert p. induction l as [|x l IH]; intros p Hin; cbn; [by apply not_elem_of_nil in Hin|].
  apply elem_of_cons in Hin as [->|Hin]; [|by apply IH].
  destruct (projection_mono l (project_record p x.2)) as [Hs Hq]. split.
  - intros Hx. apply Hq. unfold project_record. rewrite Hx, orb_true_r.
    destruct (_ || _ : bool); [done|]. by destruct (String.eqb _ _).
  - intros Hst Hc. etrans; [|exact Hs]. unfold project_record.
    destruct (String.eqb_spec (stat x.2) "settled"); [done|]. cbn [orb].
    destruct (String.eqb_spec (stat x.2) "cancelled") as [E|E]; cbn [andb].
    + destruct (String.eqb_spec (dir x.2) "send") as [Hd|Hd]; [by destruct (Hc Hd)|]. cbn. set_solver.
    + cbn. set_solver.
Qed.

(** An outpoint that an unsettled operation of the account uses is never
    shown as available, and an account with a quarantined operation shows
    everything as locked. *)
Theorem projection_blocks_reserved {Stk} account_ (d : Db Stk) p k r :
  account_projection account_ d = Ok p ->
  (k, r) ∈ scan_prefix (account_ +:+ "/") d ->
  (quarantine_account r = true -> forall i c, allocation_status p i c = AlLocked) /\
  (stat r <> "settled" -> (dir r = "send" -> stat r <> "cancelled") ->
   forall i c, i ∈ inputs r -> allocation_status p i c = AlLocked \/ allocation_status p i c = AlReserved).
Proof.
  unfold account_projection. destruct (forallb _ _); [|done]. intros [= <-] Hin.
  destruct (projection_elem _ {| quarantined := false; proj_reserved := ∅; pending := [] |} _ Hin)
    as [Hq Hr]. cbn [snd] in *. unfold allocation_status. split.
  - intros E i c. by rewrite (Hq E).
  - intros Hst Hc i c Hi. destruct (quarantined _); [by left|]. right.
    rewrite bool_decide_true; [done|]. apply (Hr Hst Hc). by apply elem_of_list_to_set.
Qed.

(** ** A receive that can never complete *)


(** ** Witnesses *)

Abbreviation demo_reach := (reachable demo_lib demo_config Regtest).
Abbreviation demo_step := (step demo_lib demo_config Regtest).

Lemma demo_steps : rtc demo_step demo_s1 demo_s4.
Proof.
  eapply rtc_l; [apply (step_execute _ _ _ demo_s1 1100 (demo_env 110 only_t0) "seal"
    {| req_account_id := "wA"; action := demo_finalize |})|].
  eapply rtc_l; [apply (step_scan _ _ _ demo_s2 1200 (demo_env 110 only_t0))|].
  eapply rtc_l; [apply (step_scan _ _ _ demo_s3 1300 (demo_env 110 t0_t1))|]. apply rtc_refl.
Qed.

Lemma demo_reach_s1 : demo_reach demo_s1.
Proof.
  exists demo_s0. split; [split; [done|apply not_elem_of_nil]|]. apply rtc_once.
  apply (step_execute _ _ _ demo_s0 1000 (demo_env 110 only_t0) "seal"
    {| req_account_id := "wA"; action := demo_prepare |}).
Qed.

Lemma demo_reach_s4 : demo_reach demo_s4.
Proof.
  destruct demo_reach_s1 as (s0 & ? & ?). exists s0. split; [done|]. etrans; [done|apply demo_steps].
Qed.

Lemma demo_stored : ops (data demo_s1) !! scoped "wA" demo_id = Some (demo_record demo_s1 demo_id).
Proof. vm_compute. reflexivity. Qed.

Lemma demo_inputs : "t0:0" ∈ inputs (demo_record demo_s1 demo_id).
Proof. vm_compute. left. Qed.

Lemma demo_send : dir (demo_record demo_s1 demo_id) = "send".
Proof. vm_compute. reflexivity. Qed.

Lemma demo_holds : holds (demo_record demo_s1 demo_id).
Proof. intros H. rewrite demo_send in H. discriminate H. Qed.



Lemma operations_persist_witness :
  exists r', ops (data demo_s4) !! scoped "wA" demo_id = Some r' /\
    evolves (demo_record demo_s1 demo_id) r'.
Proof.
  exact (proj1 (operations_persist demo_lib demo_config Regtest hex_encode_inj hex_encode_ident
    demo_s1 demo_s4 demo_reach_s1 demo_steps) _ _ demo_stored).
Defined.

Lemma settled_confirmed_witness :
  stat (demo_record demo_s4 demo_id) = "settled" /\
  required_confirmations (view (demo_record demo_s4 demo_id))
  <= confirmations (view (demo_record demo_s4 demo_id)).
Proof.
  split; [vm_compute; reflexivity|].
  apply (settled_confirmed demo_lib demo_config Regtest hex_encode_inj hex_encode_ident
    demo_s4 (scoped "wA" demo_id)); [exact demo_reach_s4|vm_compute; reflexivity|vm_compute; reflexivity].
Defined.

Lemma execute_replay_witness :
  demo_call 1400 (demo_env 110 t0_t1) demo_prepare demo_s4
  = (demo_s4, Ok (one (view (demo_record demo_s4 demo_id)))).
Proof.
  unfold demo_call.
  rewrite (execute_replay demo_lib demo_config Regtest 1400 (demo_env 110 t0_t1) "seal" "wA"
    demo_prepare "r1" (request_hash demo_lib demo_prepare) demo_id ("wA", "wA") demo_s4);
    vm_compute; reflexivity.
Defined.

Lemma validate_carrier_safe_witness :
  carrier_safe demo_lib demo_psbt "wA" demo_invoice None 1.
Proof. apply validate_carrier_safe. vm_compute. reflexivity. Defined.

Lemma finalized_transaction_sound_witness :
  clear_witnesses demo_signed_tx = unsigned_tx demo_psbt.
Proof.
  apply (finalized_transaction_sound demo_lib demo_psbt demo_signed_psbt demo_signed_tx).
  - intros p t H. injection H as <-. reflexivity.
  - reflexivity.
  - constructor; [split; reflexivity|constructor].
  - vm_compute. reflexivity.
Defined.

Lemma do_list_page_witness :
  (do_list "wA" None 10 demo_s4).2
  = Ok {| operations := [view (demo_record demo_s4 demo_id)]; next_cursor := None |}.
Proof.
  rewrite (do_list_page "wA" None 10 demo_s4); [vm_compute; reflexivity|lia|exact I].
Defined.

Lemma projection_blocks_reserved_witness :
  exists p, account_projection "wA" (data demo_s1) = Ok p /\
    (allocation_status p "t0:0" true = AlLocked \/ allocation_status p "t0:0" true = AlReserved).
Proof.
  destruct (account_projection "wA" (data demo_s1)) as [p|] eqn:E; [|vm_compute in E; discriminate E].
  exists p. split; [reflexivity|].
  apply (projection_blocks_reserved "wA" (data demo_s1) p (scoped "wA" demo_id)
    (demo_record demo_s1 demo_id) E).
  - apply list_elem_of_In. vm_compute. left. reflexivity.
  - intros H. vm_compute in H. discriminate H.
  - intros _ H. vm_compute in H. discriminate H.
  - exact demo_inputs.
Defined.

