(* ===== verification/ExternalLiveness.v ===== *)
(** * Progress of the recovery worker

    [scan_operations] takes up at most 32 of the due operations of a round, the
    longest waiting first.  A round touches only the operations it takes up and
    schedules them later than the round, so no operation waits for ever; a
    signed send that is taken up in a world that cooperates settles. *)

From stdpp Require Import pretty.
From S2P Require Import Prelude ServiceApi Kv Hex ExternalTypes ExternalStore ExternalEngine ExternalSafety ExternalCarrier ExternalDemo ExternalTheorems.
Local Open Scope Z_scope.

Section frame.
Context {Stk : Type} (lib : Lib) (config : ExternalConfig).
Abbreviation D := (Db Stk).
Abbreviation R_ := (SE (kv D * Record_) err).

(** The records and proofs of all operations but [k] are those of [d]. *)
Definition framed (k : string) (d d' : D) : Prop :=
  forall j, j <> k -> ops d' !! j = ops d !! j /\ artifacts d' !! j = artifacts d !! j.

(** A method at work on the record of [k], while no write fails *)
Definition confined (k id : string) (d : D) (s : kv D * Record_) : Prop :=
  faults s.1 = [] /\ framed k d (data s.1) /\
  rkey s.2 = k /\ oid s.2 = id /\ schema_version s.2 = 1 /\ 0 <= attempts s.2.

Definition stable (I : kv D * Record_ -> Prop) {A} (m : R_ A) : Prop := forall s, I s -> I (m s).1.

(** [save] without a request to record or inputs to reserve *)
Lemma save_plain r (s : kv D) : faults s = [] ->
  exists d', save_tx r None false (data s) = Ok d' /\ save r None false s = (mkKv d' [], Ok tt).
Proof.
  intros Hf. eexists. split; [reflexivity|]. unfold save, mbind, SE_bind. cbn -[commit].
  by rewrite commit_ok.
Qed.

Lemma saved_lookup r (d d' : D) : save_tx r None false d = Ok d' -> ops d' !! rkey r = Some (stored r).
Proof. unfold save_tx. cbn. intros [= <-]. apply lookup_insert_eq. Qed.

Section rules.
Context (k id : string) (d : D).
Abbreviation st := (stable (confined k id d)).

Lemma stable_bind {A B} (m : R_ A) (f : A -> R_ B) : st m -> (forall a, st (f a)) -> st (m ≫= f).
Proof.
  intros Hm Hf s Hs. specialize (Hm s Hs). unfold mbind, SE_bind.
  destruct (m s) as [s' [a|e]]; cbn in *; [by apply Hf|done].
Qed.

Lemma stable_ret {A} (a : A) : st (mret a).
Proof. by intros s. Qed.
Lemma stable_lift {A} (x : Res A) : st (lift x).
Proof. by intros s. Qed.
Lemma stable_fail {A} e : st (fail (A := A) e).
Proof. by intros s. Qed.
Lemma stable_rec : st rec.
Proof. by intros s. Qed.
Lemma stable_read {A} (f : D -> A) : st (db (read f)).
Proof. by intros s. Qed.

(** A change of the record that keeps its identity *)
Lemma stable_upd f :
  (forall r, rkey (f r) = rkey r /\ oid (f r) = oid r /\ schema_version (f r) = schema_version r /\ attempts (f r) = attempts r) ->
  st (upd f).
Proof. intros Hf [s r] (? & ? & Hs). cbn in *. destruct (Hf r) as (E1 & E2 & E3 & E4). unfold confined; cbn. by rewrite E1, E2, E3, E4. Qed.

(** A transaction that writes no record but that of [k] *)
Lemma confined_commit (f : D -> D) (e : err) s r :
  confined k id d (s, r) -> framed k (data s) (f (data s)) -> confined k id d ((commit e f s).1, r).
Proof.
  intros (Hf & Hd & Hr) Hs. cbn in *. rewrite commit_ok by done. split_and!; cbn; [done| |apply Hr..].
  intros j Hj. destruct (Hs j Hj) as [-> ->]. by apply Hd.
Qed.

Lemma framed_save (r : Record_) d' d'' :
  rkey r = k -> save_tx r None false d' = Ok d'' -> framed k d' d''.
Proof.
  unfold save_tx, rkey. cbn. intros Hk [= <-] j Hj. cbn. rewrite Hk.
  rewrite lookup_insert_ne by done. split; [done|]. case_match; [|done]. by rewrite lookup_insert_ne.
Qed.

Lemma stable_save : st save_rec.
Proof.
  intros [s r] Hs. destruct (save_plain r s) as (d' & E & Hr); [apply Hs|].
  change (confined k id d (db (save r None false) (s, r)).1). unfold db. cbn [fst snd]. rewrite Hr. destruct Hs as (? & Hd & Hs). cbn in *.
  split_and!; cbn; [done| |apply Hs..]. intros j Hj.
  destruct (framed_save r _ _ (proj1 Hs) E j Hj) as [-> ->]. by apply Hd.
Qed.

Lemma stable_stock {A} (f : Stk -> Stk * result string A) : st (db (stock_call f)).
Proof.
  intros [s r] (Hf & Hd & Hr). unfold db, stock_call. cbn.
  destruct (f (stock (data s))) as [stk x]. by split_and!; try apply Hr.
Qed.

Lemma stable_if {A} (b : bool) (m m' : R_ A) : st m -> st m' -> st (if b then m else m').
Proof. by destruct b. Qed.

(** [credit] writes the record it is given, which has the identity of [k]. *)
Lemma confined_credit s r r' out : confined k id d (s, r) -> rkey r' = k ->
  confined k id d (((db (credit r' out)) (s, r)).1).
Proof.
  intros Hs Hk. unfold db, credit. cbn.
  pose proof (confined_commit (credit_tx out r') io_err s r Hs) as Hc.
  destruct (commit io_err _ s) as [s' x]. cbn in *. apply Hc. intros j Hj. unfold credit_tx; cbn.
  unfold rkey in Hk. by rewrite Hk, lookup_insert_ne.
Qed.

Lemma confined_mark s r r' : confined k id d (s, r) -> confined k id d ((db (mark_utxo_unconfirmed r') (s, r)).1).
Proof.
  intros Hs. unfold mark_utxo_unconfirmed.
  match goal with |- context [lift ?x] => destruct x as [o|e] end; [|done].
  unfold db, mbind, SE_bind. cbn -[commit].
  destruct (account_utxos (data s) !! _) as [u|]; [|done].
  pose proof (confined_commit (fun d => mkDb (ops d) (artifacts d) (idem d) (reserved d) (accounts d)
    (prepared_transfers d) (<[account_utxo_key (account r') o := {| utxo_outpoint := utxo_outpoint u;
      utxo_address := utxo_address u; confirmed := false |}]> (account_utxos d)) (stock d)) io_err s r Hs) as Hc.
  destruct (commit io_err _ s) as [s' x]. cbn in *. by apply Hc.
Qed.

(** The record a method reads is the one it works on. *)
Lemma stable_rec_then {B} (f : Record_ -> R_ B) :
  (forall r, rkey r = k -> st (f r)) -> st (r ← rec; f r).
Proof. intros Hf [s r] Hs. apply (Hf r); [apply Hs|done]. Qed.

Lemma stable_credit r out : rkey r = k -> st (db (credit r out)).
Proof. intros Hr [s r'] Hs. by apply confined_credit. Qed.
Lemma stable_mark r : st (db (mark_utxo_unconfirmed r)).
Proof. intros [s r'] Hs. by apply confined_mark. Qed.

Ltac steps := repeat lazymatch goal with
  | |- stable _ (mret _) => apply stable_ret
  | |- stable _ (lift _) => apply stable_lift
  | |- stable _ (fail _) => apply stable_fail
  | |- stable _ (db (read _)) => apply stable_read
  | |- stable _ (db (stock_call _)) => apply stable_stock
  | |- stable _ save_rec => apply stable_save
  | |- stable _ (db (mark_utxo_unconfirmed _)) => apply stable_mark
  | |- stable _ (db (credit _ _)) => apply stable_credit; assumption
  | |- stable _ (upd _) => apply stable_upd; intros; split_and!; reflexivity
  | |- stable _ (rec ≫= _) => apply stable_rec_then; intros ? ?
  | |- stable _ (_ ≫= _) => apply stable_bind; [|intros ?]
  | |- stable _ (if _ then _ else _) => apply stable_if
  | |- stable _ (match ?x with _ => _ end) => destruct x
  end.

(** Every branch of [advance] writes only the record it was given. *)
Lemma stable_advance now env : st (advance lib config now env).
Proof.
  unfold advance, advance_send, advance_receive, finish_preparation, fetch_consignment, validate_receive, reject.
  steps.
Qed.
End rules.

(** ** One operation *)

(** What the store keeps of an operation that the worker can load *)
Definition loadable (k : string) (r : Record_) : Prop :=
  k = rkey r /\ schema_version r = 1 /\ identifier (oid r) = Ok tt /\ 0 <= attempts r.

Lemma backoff_pos n : 0 <= n -> 0 < backoff n.
Proof.
  intros Hn. unfold backoff, saturating_mul. rewrite Z.shiftl_1_l.
  assert (1 <= 2 ^ Z.min n 6 <= 64).
  { split; [apply (Z.pow_le_mono_r 2 0); lia|apply (Z.pow_le_mono_r 2 _ 6); lia]. }
  unfold umax. lia.
Qed.

(** The record that [load] answers *)
Definition with_proofs (d : D) (k : string) (r : Record_) : Record_ :=
  match artifacts d !! k with Some (f, p) => set_artifacts f p r | None => r end.

Lemma load_run (s : kv D) r : loadable (rkey r) r -> ops (data s) !! rkey r = Some r ->
  load (account r) (oid r) s = (s, Ok (with_proofs (data s) (rkey r) r)).
Proof.
  intros (_ & Hv & Hi & _) Hr. unfold load, mbind, SE_bind. rewrite Hi. cbn.
  change (scoped (account r) (oid r)) with (rkey r). rewrite Hr. cbn. rewrite Hv, String.eqb_refl. cbn.
  unfold with_proofs. by destruct (artifacts (data s) !! rkey r) as [[]|].
Qed.

Lemma with_proofs_same d k r : rkey (with_proofs d k r) = rkey r /\
  schema_version (with_proofs d k r) = schema_version r /\ attempts (with_proofs d k r) = attempts r /\
  next_retry_at (with_proofs d k r) = next_retry_at r /\ view (with_proofs d k r) = view r /\
  signed_hex (with_proofs d k r) = signed_hex r.
Proof. unfold with_proofs. by destruct (artifacts d !! k) as [[]|]. Qed.

(** Taking up an operation changes no other operation and schedules it later. *)
Lemma scan_one_frame now env (s : kv D) k r : faults s = [] -> ops (data s) !! k = Some r -> loadable k r ->
  due now r = true ->
  exists s' r', scan_one lib config now env (account r) (oid r) s = (s', Ok tt) /\ faults s' = [] /\
    framed k (data s) (data s') /\ ops (data s') !! k = Some r' /\ loadable k r' /\ now < next_retry_at r'.
Proof.
  intros Hf Hr Hl Hdue. assert (k = rkey r) as -> by apply Hl. unfold scan_one. unfold mbind at 1, SE_bind at 1.
  rewrite load_run by done. destruct (with_proofs_same (data s) (rkey r) r) as (Ek & Ev & Ea & En & Ew & _).
  set (r0 := with_proofs (data s) (rkey r) r) in *.
  assert (due now r0 = true) as -> by (unfold due in *; by rewrite Ew, En). cbn [negb].
  assert (confined (rkey r) (oid r) (data s) (s, r0)) as Hc.
  { destruct Hl as (_ & ? & _ & ?). split_and!; cbn; [done|done|done|by rewrite Ew|congruence|lia]. }
  pose proof (stable_advance (rkey r) (oid r) (data s) now env _ Hc) as Hc'. unfold on_record, mbind, SE_bind.
  destruct (advance lib config now env (s, r0)) as [[s1 r1] x]. cbn [fst snd] in *.
  destruct Hc' as (Hf1 & Hd1 & Hk1 & Hi1 & Hv1 & Ha1). cbn in *.
  set (r2 := set_updated_at now _).
  assert (rkey r2 = rkey r /\ oid r2 = oid r /\ schema_version r2 = 1 /\ 0 <= attempts r2 /\ now < next_retry_at r2) as (Hk2 & Hi2 & Hv2 & Ha2 & Hn2).
  { unfold r2. destruct x; cbn; split_and!; try done; try lia.
    - unfold saturating_add, umax. lia.
    - pose proof (backoff_pos (saturating_add 32 (attempts r1) 1)) as Hb.
      assert (0 <= saturating_add 32 (attempts r1) 1) by (unfold saturating_add, umax; lia). lia. }
  destruct (save_plain r2 s1 Hf1) as (d2 & Hs2 & ->). exists (mkKv d2 []), (stored r2).
  split_and!; try done.
  - cbn [data]. intros j Hj. destruct (framed_save (rkey r) r2 _ _ Hk2 Hs2 j Hj) as [-> ->]. by apply Hd1.
  - cbn [data]. rewrite <- Hk2. by eapply saved_lookup.
  - split_and!; [done..| |done]. change (identifier (oid r2) = Ok tt). rewrite Hi2. apply Hl.
Qed.

(** ** One round *)

Definition all_loadable (d : D) : Prop := forall k r, ops d !! k = Some r -> loadable k r.

Definition qkey (x : string * string * Z) : string := scoped x.1.1 x.1.2.

(** An entry of the queue of a round *)
Definition queued (now : Z) (d : D) (x : string * string * Z) : Prop :=
  exists r, ops d !! qkey x = Some r /\ x = (account r, oid r, next_retry_at r) /\ due now r = true.

Record round_effect (now : Z) (l : list (string * string * Z)) (s s' : kv D) : Prop := {
  re_faults : faults s' = [];
  re_loadable : all_loadable (data s');
  re_others : forall j, j ∉ map qkey l ->
    ops (data s') !! j = ops (data s) !! j /\ artifacts (data s') !! j = artifacts (data s) !! j;
  re_taken : forall j, j ∈ map qkey l -> exists r', ops (data s') !! j = Some r' /\ now < next_retry_at r';
}.

Lemma scan_one_effect now env x (s : kv D) : faults s = [] -> all_loadable (data s) -> queued now (data s) x ->
  exists s', scan_one lib config now env x.1.1 x.1.2 s = (s', Ok tt) /\ round_effect now [x] s s'.
Proof.
  intros Hf Hl (r & Hr & -> & Hdue). unfold qkey in Hr; cbn in *.
  destruct (scan_one_frame now env s _ r Hf Hr (Hl _ _ Hr) Hdue) as (s' & r' & Hs & Hf' & Hd & Hr' & Hl' & Hn).
  exists s'. split; [done|]. split; [done| | |].
  - intros j rj Hj. destruct (decide (j = scoped (account r) (oid r))) as [->|Hne]; [by simplify_eq|].
    destruct (Hd j Hne) as [E _]. rewrite E in Hj. by apply Hl.
  - intros j Hj. apply Hd. intros ->. apply Hj. cbn. set_solver.
  - intros j Hj. cbn in Hj. apply list_elem_of_singleton in Hj as ->. by exists r'.
Qed.

Lemma round_run now env l (s : kv D) : faults s = [] -> all_loadable (data s) -> NoDup (map qkey l) ->
  (forall x, x ∈ l -> queued now (data s) x) ->
  exists s', for_each l (fun x => scan_one lib config now env x.1.1 x.1.2) s = (s', Ok tt) /\
    round_effect now l s s'.
Proof.
  revert s. induction l as [|x l IH]; intros s Hf Hl Hnd Hq.
  { exists s. split; [done|]. split; [done..|]. intros j Hj. by apply elem_of_nil in Hj. }
  cbn in Hnd. apply NoDup_cons in Hnd as [Hx Hnd].
  destruct (scan_one_effect now env x s Hf Hl (Hq x ltac:(left))) as (s1 & Hs1 & [Hf1 Hl1 Ho1 Ht1]).
  destruct (IH s1 Hf1 Hl1 Hnd) as (s2 & Hs2 & [Hf2 Hl2 Ho2 Ht2]).
  { intros y Hy. destruct (Hq y ltac:(by right)) as (r & Hr & Hrest). exists r. split; [|done].
    destruct (Ho1 (qkey y)) as [-> _]; [|done]. cbn. intros Hin%list_elem_of_singleton. apply Hx.
    rewrite <- Hin. by apply (list_elem_of_fmap_2 qkey). }
  exists s2. split. { cbn. unfold mbind, SE_bind. by rewrite Hs1. }
  split; [done|done| |].
  - cbn. intros j [Hj1 Hj2]%not_elem_of_cons. destruct (Ho2 j Hj2) as [-> ->].
    apply Ho1. cbn. by rewrite list_elem_of_singleton.
  - cbn. intros j [->|Hj]%elem_of_cons; [|by apply Ht2].
    destruct (Ho2 _ Hx) as [-> _]. apply Ht1. cbn. by rewrite list_elem_of_singleton.
Qed.

(** ** The queue *)

Lemma scan_all_in (d : D) k r : (k, r) ∈ scan_prefix "" d <-> ops d !! k = Some r.
Proof.
  unfold scan_prefix. rewrite merge_sort_Permutation, list_elem_of_filter, elem_of_map_to_list. cbn.
  split; [by intros [_ ?]|]. intros H. split; [by destruct k|done].
Qed.

Lemma scan_all_nodup (d : D) : NoDup (map fst (scan_prefix "" d)).
Proof.
  unfold scan_prefix. rewrite merge_sort_Permutation. apply NoDup_map_filter, NoDup_fst_map_to_list.
Qed.

Lemma queue_in now (d : D) x : x ∈ due_operations now d <->
  exists k r, ops d !! k = Some r /\ due now r = true /\ x = (account r, oid r, next_retry_at r).
Proof.
  unfold due_operations. rewrite merge_sort_Permutation, list_elem_of_fmap. split.
  - intros ([k r] & -> & [Hd Hin]%list_elem_of_filter). apply scan_all_in in Hin. by exists k, r.
  - intros (k & r & Hr & Hd & ->). exists (k, r). split; [done|].
    apply list_elem_of_filter. split; [done|]. by apply scan_all_in.
Qed.

Lemma queue_queued now (d : D) x : all_loadable d -> x ∈ due_operations now d -> queued now d x.
Proof.
  intros Hl (k & r & Hr & Hd & ->)%queue_in. exists r. split; [|done].
  destruct (Hl _ _ Hr) as [-> _]. done.
Qed.

Lemma queue_nodup now (d : D) : all_loadable d -> NoDup (map qkey (due_operations now d)).
Proof.
  intros Hl. unfold due_operations. rewrite merge_sort_Permutation, map_map.
  erewrite map_ext_in; [apply NoDup_map_filter, (scan_all_nodup d)|].
  intros [k r] Hin%list_elem_of_In. apply list_elem_of_filter in Hin as [_ Hin].
  apply scan_all_in in Hin. by destruct (Hl _ _ Hin) as [-> _].
Qed.

Lemma queue_sorted now (d : D) : StronglySorted retry_le (due_operations now d).
Proof.
  apply StronglySorted_merge_sort; unfold retry_le.
  - intros a b c. lia.
  - intros a b. lia.
Qed.

Definition round (now : Z) (d : D) : list (string * string * Z) := take 32 (due_operations now d).

(** A round is a run of the worker over the entries it takes up. *)
Lemma scan_run now env (s : kv D) : faults s = [] -> all_loadable (data s) ->
  NoDup (map qkey (round now (data s))) /\ (forall x, x ∈ round now (data s) -> queued now (data s) x) /\
  exists s', for_each (round now (data s)) (fun x => scan_one lib config now env x.1.1 x.1.2) s = (s', Ok tt) /\
    (scan lib config now env s).1 = s'.
Proof.
  intros Hf Hl.
  assert (NoDup (map qkey (round now (data s)))) as Hnd.
  { unfold round. rewrite <- firstn_map. eapply sublist_NoDup; [by apply queue_nodup|apply sublist_take]. }
  assert (forall x, x ∈ round now (data s) -> queued now (data s) x) as Hq.
  { intros x Hx. apply queue_queued; [done|]. apply elem_of_take in Hx as (i & Hi & _).
    by eapply list_elem_of_lookup_2. }
  split_and!; [done..|]. destruct (round_run now env _ s Hf Hl Hnd Hq) as (s' & Hs' & _). exists s'. split; [done|].
  unfold scan, scan_operations, mbind, SE_bind. cbn -[for_each take].
  assert (forallb (fun kv => schema_version kv.2 =? 1) (scan_prefix "" (data s)) = true) as ->.
  { apply forallb_forall. intros [k r] Hin%list_elem_of_In%scan_all_in. cbn. by destruct (Hl _ _ Hin) as (_ & -> & _). }
  cbn -[for_each take]. unfold round in Hs'. by rewrite Hs'.
Qed.

Lemma scan_effect now env (s : kv D) : faults s = [] -> all_loadable (data s) ->
  round_effect now (round now (data s)) s (scan lib config now env s).1.
Proof.
  intros Hf Hl. destruct (scan_run now env s Hf Hl) as (Hnd & Hq & s' & Hs' & ->).
  destruct (round_run now env _ s Hf Hl Hnd Hq) as (s2 & Hs2 & He). congruence.
Qed.

(** ** No starvation *)

(** The operations that are not scheduled after [t] *)
Definition waiting (t : Z) (d : D) : gmap string Record_ := filter (fun kr => next_retry_at kr.2 <= t) (ops d).

Lemma round_full now (d : D) x : x ∈ due_operations now d -> x ∉ round now d ->
  length (round now d) = 32%nat /\ forall y, y ∈ round now d -> retry_le y x.
Proof.
  unfold round. intros Hx Hn. pose proof (queue_sorted now d) as Hs.
  assert (x ∈ drop 32 (due_operations now d)) as Hd.
  { rewrite <- (take_drop 32 (due_operations now d)) in Hx. by apply elem_of_app in Hx as [?|?]. }
  rewrite <- (take_drop 32 (due_operations now d)) in Hs. split.
  - rewrite length_take. apply list_elem_of_lookup in Hd as (i & Hi). rewrite lookup_drop in Hi.
    apply lookup_lt_Some in Hi. lia.
  - intros y Hy. by eapply StronglySorted_app_1_elem_of.
Qed.

(** A due operation that a round leaves out was behind 32 others, which now are
    scheduled later than it. *)
Lemma round_progress now env (s : kv D) k r : faults s = [] -> all_loadable (data s) ->
  ops (data s) !! k = Some r -> due now r = true -> k ∉ map qkey (round now (data s)) ->
  (size (waiting (next_retry_at r) (data (scan lib config now env s).1)) + 32
   <= size (waiting (next_retry_at r) (data s)))%nat.
Proof.
  intros Hf Hl Hr Hdue Hk. destruct (scan_effect now env s Hf Hl) as [_ _ Ho Ht].
  set (l := round now (data s)) in *. set (d' := data (scan lib config now env s).1) in *.
  set (x := (account r, oid r, next_retry_at r)). assert (qkey x = k) as Hxk by (by destruct (Hl _ _ Hr) as [-> _]).
  destruct (round_full now (data s) x) as [Hlen Hle].
  { apply queue_in. by exists k, r. }
  { intros Hin. apply Hk. rewrite <- Hxk. by apply (list_elem_of_fmap_2 qkey). }
  destruct (scan_run now env s Hf Hl) as (Hnd & Hq & _).
  set (K := list_to_set (map qkey l) : gset string).
  assert (size K = 32%nat) as HK.
  { unfold K. by rewrite size_list_to_set, length_map. }
  assert (K ⊆ dom (waiting (next_retry_at r) (data s))) as Hsub.
  { intros j. unfold K. rewrite elem_of_list_to_set. intros (y & -> & Hy)%list_elem_of_fmap.
    destruct (Hq y Hy) as (ry & Hry & Ey & _). apply elem_of_dom. exists ry. apply map_lookup_filter_Some_2; [done|].
    cbn. specialize (Hle y Hy). unfold retry_le in Hle. rewrite Ey in Hle. apply Hle. }
  assert (dom (waiting (next_retry_at r) d') ⊆ dom (waiting (next_retry_at r) (data s)) ∖ K) as Hsub'.
  { intros j [rj [Hj Hn]%map_lookup_filter_Some]%elem_of_dom. cbn in Hn.
    assert (j ∉ map qkey l) as Hjl.
    { intros Hin. destruct (Ht j Hin) as (r' & Hr' & Hlt). simplify_eq.
      unfold due in Hdue. repeat (apply andb_prop in Hdue as [Hdue ?]). lia. }
    apply elem_of_difference. split; [|unfold K; by rewrite elem_of_list_to_set].
    apply elem_of_dom. exists rj. apply map_lookup_filter_Some_2; [|done]. by destruct (Ho j Hjl) as [<- _]. }
  rewrite <- !size_dom. apply subseteq_size in Hsub'. rewrite size_difference in Hsub' by done.
  apply subseteq_size in Hsub. lia.
Qed.

(** ** A signed send settles *)

(** The outside world plays its part for the send [r]: the proxy takes the proof
    and does not report a rejection, the chain takes the carrier and has buried it
    deep enough, and the stock of the account, whatever else happens to it, comes to
    know the transfer as confirmed. *)
Record cooperative (env : Env Stk) (r : Record_) (txid_ : string) : Prop := {
  co_txid : (t ← ok_or (txid (view r)) (Anyhow "missing send txid"); any (parse_txid lib t)) = Ok txid_;
  co_upload : delivery_status (view r) <> "delivered" -> upload lib env r = Ok tt;
  co_broadcast : broadcast_status (view r) <> "broadcast" -> broadcast lib env r = Ok tt;
  co_ack : exists v, rpc env "ack.get" (recipient_id (view r)) None = Ok v /\ v_as_bool v <> Some false;
  co_confirmed : exists n, confirmations_of env txid_ = Ok n /\ required_confirmations (view r) <= n;
  co_stock : forall stk, exists known, stk_pending_confirmed env stk (account r) txid_ = Ok known /\
    (known = false -> exists stk1 stk2, stk_stage_sender env stk (account r) txid_ (fascia r) = (stk1, Ok tt) /\
      stk_promote env stk1 (account r) = (stk2, Ok tt) /\
      stk_pending_confirmed env stk2 (account r) txid_ = Ok true);
  co_change : is_Some (change_vout r);
}.

(** Symbolic execution of the methods of a record while no write fails *)
Section run.
Context {A : Type} (Q : kv D * Record_ -> result err A -> Prop) (s : kv D) (r : Record_).

Lemma wp_rec (f : Record_ -> R_ A) : wp (f r) Q (s, r) -> wp (r ← rec; f r) Q (s, r).
Proof. done. Qed.
Lemma wp_upd f (k : R_ A) : wp k Q (s, f r) -> wp (upd f ;; k) Q (s, r).
Proof. done. Qed.
Lemma wp_lifted {B} (x : Res B) b (k : B -> R_ A) : x = Ok b -> wp (k b) Q (s, r) -> wp (b ← lift x; k b) Q (s, r).
Proof. by intros ->. Qed.
Lemma wp_credited r' out (k : R_ A) : faults s = [] -> wp k Q (mkKv (credit_tx out r' (data s)) [], r) ->
  wp (db (credit r' out) ;; k) Q (s, r).
Proof.
  intros Hf Hk. apply wp_bind. unfold wp, db, credit. cbn [fst snd]. by rewrite commit_ok.
Qed.
End run.

Lemma wp_save_rec (Q : kv D * Record_ -> result err unit -> Prop) s r : faults s = [] ->
  (forall d', Q (mkKv d' [], r) (Ok tt)) -> wp save_rec Q (s, r).
Proof.
  intros Hf Hk. destruct (save_plain r s Hf) as (d' & _ & Hr).
  change (wp (db (save r None false)) Q (s, r)). unfold wp, db. cbn [fst snd]. rewrite Hr. apply Hk.
Qed.

Lemma stock_settles env r txid_ (s : kv D) r0 (Q : kv D * Record_ -> result err unit -> Prop) (k : R_ unit) :
  cooperative env r txid_ -> faults s = [] -> account r0 = account r -> fascia r0 = fascia r ->
  (forall s', faults s' = [] -> wp k Q (s', r0)) ->
  wp (d ← db (read (fun d => d));
      done ← lift (any (stk_pending_confirmed env (stock d) (account r0) txid_));
      (if (done : bool) then mret tt else
         db (stock_call (fun stk => stk_stage_sender env stk (account r0) txid_ (fascia r0))) ;;
         db (stock_call (fun stk => stk_promote env stk (account r0))) ;;
         d ← db (read (fun d => d));
         promoted ← lift (any (stk_pending_confirmed env (stock d) (account r0) txid_));
         lift (ensure promoted (Anyhow "sender RGB state not yet promoted"))) ;; k) Q (s, r0).
Proof.
  intros Hc Hf -> -> Hk. destruct (co_stock _ _ _ Hc (stock (data s))) as (known & E & Hst).
  apply wp_bind. change (wp (done ← lift (any (stk_pending_confirmed env (stock (data s)) (account r) txid_));
    (if (done : bool) then mret tt else
         db (stock_call (fun stk => stk_stage_sender env stk (account r) txid_ (fascia r))) ;;
         db (stock_call (fun stk => stk_promote env stk (account r))) ;;
         d ← db (read (fun d => d));
         promoted ← lift (any (stk_pending_confirmed env (stock d) (account r) txid_));
         lift (ensure promoted (Anyhow "sender RGB state not yet promoted"))) ;; k) Q (s, r0)).
  rewrite E. apply wp_bind. cbn. destruct known; [by apply Hk|].
  destruct (Hst eq_refl) as (stk1 & stk2 & E1 & E2 & E3).
  apply wp_bind. unfold wp, db, stock_call, mbind, SE_bind. cbn. rewrite E1. cbn. rewrite E2. cbn. rewrite E3. cbn.
  by apply Hk.
Qed.

Definition settled (s : kv D * Record_) (x : result err unit) : Prop :=
  x = Ok tt /\ faults s.1 = [] /\ stat s.2 = "settled".

(** From the acknowledgement on *)
Lemma acknowledged_settles env r txid_ (s : kv D) : cooperative env r txid_ -> faults s = [] ->
  wp (r ← rec;
    ack ← lift (rpc env "ack.get" (recipient_id (view r)) None);
    upd (set_acknowledged (v_as_bool ack)) ;;
    t ← lift (ok_or (txid (view r)) (Anyhow "missing send txid"));
    txid_ ← lift (any (parse_txid lib t));
    n ← lift (confirmations_of env txid_);
    upd (set_confirmations n) ;;
    r ← rec;
    if n <? required_confirmations (view r) then mret tt else
    d ← db (read (fun d => d));
    done ← lift (any (stk_pending_confirmed env (stock d) (account r) txid_));
    (if (done : bool) then mret tt else
       db (stock_call (fun stk => stk_stage_sender env stk (account r) txid_ (fascia r))) ;;
       db (stock_call (fun stk => stk_promote env stk (account r))) ;;
       d ← db (read (fun d => d));
       promoted ← lift (any (stk_pending_confirmed env (stock d) (account r) txid_));
       lift (ensure promoted (Anyhow "sender RGB state not yet promoted"))) ;;
    vout ← lift (ok_or (change_vout r) (Anyhow "missing change vout"));
    db (credit r (outpoint_to_string lib (mkOutPoint txid_ vout))) ;;
    upd (fun r => set_retryable false (set_status "settled" r)) ;;
    if bool_decide (acknowledged (view r) = Some false) then
      upd (set_status "needs_review") ;;
      fail (conflict "peer rejected a confirmed payment; inspect proof without releasing inputs")
    else mret tt) settled (s, r).
Proof.
  intros Hc Hf. destruct (co_ack _ _ _ Hc) as (v & Ev & Hv). destruct (co_confirmed _ _ _ Hc) as (n & En & Hn).
  destruct (co_change _ _ _ Hc) as [vout Evout]. pose proof (co_txid _ _ _ Hc) as Et.
  destruct (txid (view r)) as [t|] eqn:Etx; [cbn in Et|done].
  apply wp_rec. apply (wp_lifted _ _ _ _ _ _ Ev). apply wp_upd.
  apply (wp_lifted _ _ _ _ t); [by rewrite Etx|]. apply (wp_lifted _ _ _ _ _ _ Et).
  apply (wp_lifted _ _ _ _ _ _ En). apply wp_upd, wp_rec.
  change (required_confirmations (view (set_confirmations n (set_acknowledged (v_as_bool v) r))))
    with (required_confirmations (view r)).
  rewrite (proj2 (Z.ltb_ge _ _) Hn). eapply stock_settles; [done..|]. intros s' Hf'.
  apply (wp_lifted _ _ _ _ vout); [by cbn; rewrite Evout|]. apply wp_credited; [done|]. apply wp_upd.
  change (acknowledged (view (set_confirmations n (set_acknowledged (v_as_bool v) r)))) with (v_as_bool v).
  by rewrite bool_decide_false.
Qed.

Lemma cooperative_same env r r' txid_ : cooperative env r txid_ ->
  account r' = account r -> txid (view r') = txid (view r) -> recipient_id (view r') = recipient_id (view r) ->
  required_confirmations (view r') = required_confirmations (view r) -> fascia r' = fascia r ->
  change_vout r' = change_vout r -> delivery_status (view r') = "delivered" ->
  (broadcast_status (view r') <> "broadcast" -> broadcast lib env r' = Ok tt) -> cooperative env r' txid_.
Proof.
  intros [] Ea Et Er Eq Ef Ec Ed Hb. constructor; rewrite ?Ea, ?Et, ?Er, ?Eq, ?Ef, ?Ec, ?Ed; try done.
Qed.

(** Delivery and broadcast, each skipped when it has happened *)
Lemma delivered_settles env r txid_ (s : kv D) (k : R_ unit) : cooperative env r txid_ -> faults s = [] ->
  (forall s' r', faults s' = [] -> cooperative env r' txid_ -> wp k settled (s', r')) ->
  wp ((if negb (String.eqb (delivery_status (view r)) "delivered") then
         lift (upload lib env r) ;; upd (set_delivery "delivered") ;; save_rec
       else mret tt) ;; k) settled (s, r).
Proof.
  intros Hc Hf Hk. apply wp_bind. destruct (String.eqb_spec (delivery_status (view r)) "delivered") as [E|E];
    cbn [negb]; [by apply Hk|].
  rewrite (co_upload _ _ _ Hc E). apply wp_bind, wp_lift, wp_bind, wp_modify, wp_save_rec; [done|].
  intros d'. apply Hk; [done|]. apply (cooperative_same env r); try done. apply Hc.
Qed.

Lemma broadcast_settles env r txid_ (s : kv D) (k : R_ unit) : cooperative env r txid_ -> faults s = [] ->
  (forall s' r', faults s' = [] -> cooperative env r' txid_ -> wp k settled (s', r')) ->
  wp ((if negb (String.eqb (broadcast_status (view r)) "broadcast") then
         upd (set_broadcast "unknown") ;; save_rec ;;
         r ← rec; lift (broadcast lib env r) ;;
         upd (set_broadcast "broadcast") ;; upd (set_status "waiting_confirmations") ;; save_rec
       else mret tt) ;; k) settled (s, r).
Proof.
  intros Hc Hf Hk. apply wp_bind. destruct (String.eqb_spec (broadcast_status (view r)) "broadcast") as [E|E];
    cbn [negb]; [by apply Hk|].
  apply wp_bind, wp_modify, wp_bind, wp_save_rec; [done|]. intros d1. apply wp_rec.
  pose proof (co_broadcast _ _ _ Hc E) as Hb.
  change (broadcast lib env r) with (broadcast lib env (set_broadcast "unknown" r)) in Hb. cbn [snd]. rewrite Hb.
  apply wp_bind, wp_lift, wp_bind, wp_modify, wp_bind, wp_modify, wp_save_rec; [done|].
  intros d2. apply Hk; [done|]. destruct Hc. by constructor.
Qed.

Lemma advance_settles now env r txid_ (s : kv D) : cooperative env r txid_ -> faults s = [] ->
  dir r = "send" -> is_Some (signed_hex r) -> stat r <> "preparing" -> stat r <> "settled" ->
  wp (advance lib config now env) settled (s, r).
Proof.
  intros Hc Hf Hd [raw Hraw] Hp Hs. unfold advance. apply wp_rec.
  rewrite (proj2 (String.eqb_neq _ _) Hs), Hd. unfold advance_send. apply wp_rec.
  rewrite (proj2 (String.eqb_neq _ _) Hp), (bool_decide_false (signed_hex r = None)) by (by rewrite Hraw).
  apply (delivered_settles _ _ _ _ _ Hc Hf). intros s1 r1 Hf1 Hc1. apply wp_rec.
  apply (broadcast_settles _ _ _ _ _ Hc1 Hf1). intros s2 r2 Hf2 Hc2. by eapply acknowledged_settles.
Qed.

Record signed_send (r : Record_) : Prop := {
  ss_dir : dir r = "send";
  ss_signed : is_Some (signed_hex r);
  ss_status : stat r <> "preparing" /\ stat r <> "settled";
}.

Lemma scan_one_settles now env (s : kv D) k r txid_ : faults s = [] -> ops (data s) !! k = Some r ->
  loadable k r -> due now r = true -> signed_send r -> cooperative env (with_proofs (data s) k r) txid_ ->
  exists s' r', scan_one lib config now env (account r) (oid r) s = (s', Ok tt) /\
    ops (data s') !! k = Some r' /\ stat r' = "settled".
Proof.
  intros Hf Hr Hl Hdue [Hd Hs [Hp Hst]] Hc. assert (k = rkey r) as -> by apply Hl. unfold scan_one.
  unfold mbind at 1, SE_bind at 1. rewrite load_run by done.
  destruct (with_proofs_same (data s) (rkey r) r) as (Ek & _ & _ & En & Ew & Eh).
  assert (confined (rkey r) (oid r) (data s) (s, with_proofs (data s) (rkey r) r)) as Hco.
  { destruct (with_proofs_same (data s) (rkey r) r) as (_ & Ev & Ea & _), Hl as (_ & ? & _ & ?).
    split_and!; cbn; [done|done|done|by rewrite Ew|congruence|lia]. }
  set (r0 := with_proofs (data s) (rkey r) r) in *.
  assert (due now r0 = true) as -> by (unfold due in *; by rewrite Ew, En). cbn [negb].
  pose proof (stable_advance _ _ _ now env _ Hco) as (_ & _ & Hk1 & _).
  assert (wp (advance lib config now env) settled (s, r0)) as Ha.
  { eapply advance_settles; rewrite ?Ew, ?Eh; done. }
  unfold wp in Ha. unfold on_record, mbind, SE_bind.
  destruct (advance lib config now env (s, r0)) as [[s1 r1] x]. destruct Ha as (Hx & Hf1 & Hs1).
  cbn in Hx, Hf1, Hs1, Hk1. subst x.
  match goal with |- context [save ?r _ _] => set (r2 := r) end.
  destruct (save_plain r2 s1 Hf1) as (d2 & Hs2 & ->). exists (mkKv d2 []), (stored r2). split; [done|].
  split; [|done]. cbn [data]. rewrite <- Hk1. by eapply (saved_lookup r2).
Qed.

Lemma for_each_app {A} (f : A -> SE (kv D) err unit) l1 l2 s s1 :
  for_each l1 f s = (s1, Ok tt) -> for_each (l1 ++ l2) f s = for_each l2 f s1.
Proof.
  revert s. induction l1 as [|x l1 IH]; intros s; cbn; [by intros [= ->]|]. unfold mbind, SE_bind.
  destruct (f x s) as [s' [[]|]]; [apply IH|done].
Qed.

(** A round that takes up a signed send settles it. *)
Lemma round_settles now env (s : kv D) k r txid_ : faults s = [] -> all_loadable (data s) ->
  ops (data s) !! k = Some r -> k ∈ map qkey (round now (data s)) -> signed_send r ->
  cooperative env (with_proofs (data s) k r) txid_ ->
  exists r', ops (data (scan lib config now env s).1) !! k = Some r' /\ stat r' = "settled".
Proof.
  intros Hf Hl Hr Hk Hss Hc. destruct (scan_run now env s Hf Hl) as (Hnd & Hq & s' & Hrun & ->).
  apply list_elem_of_fmap in Hk as (x & -> & Hx). destruct (Hq x Hx) as (r0 & Hr0 & Ex & Hdue).
  assert (r0 = r) as -> by congruence. apply list_elem_of_split in Hx as (l1 & l2 & El).
  rewrite El in *. rewrite map_app in Hnd. cbn in Hnd. apply NoDup_app in Hnd as (Hn1 & Hx1 & Hn2).
  apply NoDup_cons in Hn2 as [Hx2 Hn2].
  assert (qkey x ∉ map qkey l1) as Hx1' by (intros Hin; eapply Hx1; [exact Hin|left]).
  destruct (round_run now env l1 s Hf Hl Hn1) as (s1 & Hs1 & [Hf1 Hl1 Ho1 _]).
  { intros y Hy. apply Hq. set_solver. }
  destruct (Ho1 (qkey x) Hx1') as [Er1 Ea1]. rewrite Hr in Er1.
  destruct (scan_one_settles now env s1 (qkey x) r txid_ Hf1 Er1) as (s2 & r2 & Hs2 & Hr2 & Hst2); [by apply Hl1|done..| |].
  { unfold with_proofs in *. by rewrite Ea1. }
  destruct (scan_one_effect now env x s1 Hf1 Hl1) as (s2' & Hs2' & [Hf2 Hl2 Ho2 _]).
  { exists r. done. }
  assert (s2' = s2) as -> by (rewrite Ex in Hs2'; cbn in Hs2'; congruence).
  destruct (round_run now env l2 s2 Hf2 Hl2 Hn2) as (s3 & Hs3 & [_ _ Ho3 _]).
  { intros y Hy. destruct (Hq y) as (ry & Hry & Hrest); [set_solver|]. exists ry. split; [|done].
    assert (qkey y ∈ map qkey l2) as Hyl by (by apply (list_elem_of_fmap_2 qkey)).
    destruct (Ho2 (qkey y)) as [-> _]. { cbn. rewrite list_elem_of_singleton. by intros Eq; rewrite Eq in Hyl. }
    destruct (Ho1 (qkey y)) as [-> _]; [|done]. intros Hin. eapply Hx1; [exact Hin|by right]. }
  rewrite (for_each_app _ _ _ _ _ Hs1) in Hrun. cbn in Hrun. unfold mbind, SE_bind in Hrun.
  rewrite Hs2', Hs3 in Hrun. simplify_eq. exists r2. split; [|done]. by destruct (Ho3 _ Hx2) as [-> _].
Qed.

(** ** Rounds *)

(** Rounds of the worker, each with its clock and its answers of the world *)
Definition worker (rounds : list (Z * Env Stk)) (s : kv D) : kv D :=
  foldl (fun s ne => (scan lib config ne.1 ne.2 s).1) s rounds.

Lemma due_later now r : dir r = "send" -> stat r <> "cancelled" -> stat r <> "awaiting_signature" ->
  stat r <> "needs_review" -> next_retry_at r <= now -> due now r = true.
Proof.
  intros Hd H1%String.eqb_neq H2%String.eqb_neq H3%String.eqb_neq H4%Z.leb_le.
  unfold due. by rewrite Hd, H1, H2, H3, H4.
Qed.

Lemma rounds_settle rounds (s : kv D) k r txid_ : faults s = [] -> all_loadable (data s) ->
  ops (data s) !! k = Some r -> signed_send r ->
  Forall (fun ne => due ne.1 r = true /\ cooperative ne.2 (with_proofs (data s) k r) txid_) rounds ->
  (size (waiting (next_retry_at r) (data s)) <= 32 * length rounds)%nat ->
  exists done rest r', rounds = done ++ rest /\ ops (data (worker done s)) !! k = Some r' /\ stat r' = "settled".
Proof.
  intros Hf Hl Hr Hss. revert s Hf Hl Hr. induction rounds as [|[now env] rounds IH]; intros s Hf Hl Hr Hco Hsize.
  - exfalso. assert (waiting (next_retry_at r) (data s) = ∅) as E by (apply map_size_empty_inv; cbn in Hsize; lia).
    assert (waiting (next_retry_at r) (data s) !! k = Some r) as Hk; [|by rewrite E, lookup_empty in Hk].
    apply map_lookup_filter_Some_2; [done|]. cbn. lia.
  - apply Forall_cons in Hco as [[Hdue Hc] Hco]. cbn in Hdue, Hc.
    destruct (decide (k ∈ map qkey (round now (data s)))) as [Hk|Hk].
    { destruct (round_settles now env s k r txid_) as (r' & Hr' & Hs'); [done..|].
      exists [(now, env)], rounds, r'. done. }
    pose proof (round_progress now env s k r Hf Hl Hr Hdue Hk) as Hp.
    destruct (scan_effect now env s Hf Hl) as [Hf1 Hl1 Ho1 _]. destruct (Ho1 k Hk) as [Er Ea].
    destruct (IH (scan lib config now env s).1 Hf1 Hl1) as (done & rest & r' & -> & Hw & Hst).
    + by rewrite Er.
    + unfold with_proofs in *. by rewrite Ea.
    + cbn [length] in Hsize. lia.
    + by exists ((now, env) :: done), rest, r'.
Qed.
End frame.

Section liveness.
Context {Stk : Type} (lib : Lib) (config : ExternalConfig) (network : Network).
Context (digest_inj : forall a b, digest lib a = digest lib b -> a = b)
        (digest_ident : forall a, ident_chars (digest lib a) = true).

Lemma load_stored (s : kv (Db Stk)) a id r : load a id s = (s, Ok r) ->
  exists r0, ops (data s) !! scoped a id = Some r0 /\ r = with_proofs (data s) (scoped a id) r0.
Proof.
  unfold load, mbind, SE_bind. destruct (identifier id); [cbn|done].
  destruct (ops (data s) !! scoped a id) as [r0|]; [cbn|done]. destruct (ensure _ _); [cbn|done].
  intros [= <-]. exists r0. split; [done|]. unfold with_proofs. by destruct (artifacts _ !! _) as [[]|].
Qed.

End liveness.

(** The send of ExternalDemo once it is signed: the first round settles it. *)
Definition demo_signed : Record_ :=
  match (load "wA" demo_id demo_s2).2 with Ok r => r | Err _ => no_record end.
Definition demo_rounds : list (Z * Env unit) := [(1300, demo_env 110 t0_t1)].

Lemma demo_reach_s2 : reachable demo_lib demo_config Regtest demo_s2.
Proof.
  destruct demo_reach_s1 as (s0 & Hi & Hs). exists s0. split; [exact Hi|]. eapply rtc_r; [exact Hs|].
  exact (step_execute _ _ _ demo_s1 1100 (demo_env 110 only_t0) "seal"
    {| req_account_id := "wA"; action := demo_finalize |}).
Qed.

Lemma ids_checked {Stk} (d : Db Stk) :
  forallb (fun kr => is_ok (identifier (oid kr.2)) && (0 <=? attempts kr.2)) (map_to_list (ops d)) = true ->
  forall k r, ops d !! k = Some r -> identifier (oid r) = Ok tt /\ 0 <= attempts r.
Proof.
  intros H k r Hr%elem_of_map_to_list%list_elem_of_In. rewrite forallb_forall in H. specialize (H _ Hr). cbn in H.
  apply andb_prop in H as [H1 H2%Z.leb_le]. split; [|done]. by destruct (identifier (oid r)) as [[]|].
Qed.

Lemma demo_cooperative : cooperative demo_lib (demo_env 110 t0_t1) demo_signed "t1".
Proof.
  constructor; [vm_compute; reflexivity|intros _; vm_compute; reflexivity..| | | |].
  - exists (VBool true). split; [vm_compute; reflexivity|discriminate].
  - exists 11. split; [vm_compute; reflexivity|vm_compute; discriminate].
  - intros stk. exists true. split; [reflexivity|discriminate].
  - vm_compute. eexists. reflexivity.
Qed.

