(* ===== verification/MpcMerkle.v ===== *)
(** * Multi-protocol commitments: merkle trees (rgb-consensus/src/commit_verify)

    The nodes and leaves of a commitment tree with their identifiers, the
    merklization of a list of leaves and the depth counter of merkle blocks
    (merkle.rs), and the atoms of multi-protocol commitments (mpc/atoms.rs).

    Identifiers are tagged SHA-256 hashes of strict-encoded data: the class
    [MerkleIds].  Hashes, protocol ids and messages are strings of bytes, a [u5]
    depth is an integer.  A panic is an outcome; integer overflow is a panic, as in a
    build that checks it. *)

From Stdlib Require Import Ascii.
From S2P Require Import Prelude.
Local Open Scope Z_scope.

Abbreviation MerkleHash := string (only parsing).
Abbreviation ProtocolId := string (only parsing).
Abbreviation Message := string (only parsing).
Abbreviation Commitment := string (only parsing).

(** ** Nodes (merkle.rs) *)

Inductive NodeBranching := NB_Void | NB_Single | NB_Branch.

Record MerkleNode := mkNode {
  branching : NodeBranching;
  node_depth : Z;
  node_width : Z;
  node1 : MerkleHash;
  node2 : MerkleHash;
}.

(** [[0xFF; 32]] *)
Definition VIRTUAL_LEAF : MerkleHash := Nat.iter 32 (String (ascii_of_N 255)) "".

Definition node_void (depth width : Z) : MerkleNode := mkNode NB_Void depth width VIRTUAL_LEAF VIRTUAL_LEAF.
Definition node_single (depth width : Z) (node : MerkleHash) : MerkleNode := mkNode NB_Single depth width node VIRTUAL_LEAF.
Definition node_branches (depth width : Z) (n1 n2 : MerkleHash) : MerkleNode := mkNode NB_Branch depth width n1 n2.

(** ** Leaves and commitments (mpc/atoms.rs, mpc/block.rs) *)

Inductive Leaf :=
| Inhabited (protocol : ProtocolId) (message : Message)
| Entropy (entropy pos : Z).

Record MerkleConcealed := mkConcealed { mc_depth : Z; mc_cofactor : Z; mc_root : MerkleHash }.

(** The tagged hashes, [commit_id] of the source *)
Class MerkleIds := {
  node_id : MerkleNode -> MerkleHash;
  leaf_id : Leaf -> MerkleHash;
  concealed_id : MerkleConcealed -> Commitment;
}.

Section merklize.
Context `{MerkleIds}.

Definition hash_branches (depth width : Z) (n1 n2 : MerkleHash) : MerkleHash := node_id (node_branches depth width n1 n2).

(** [_merklize] at the depth [31 - left]; the depth is a [u5], and one more than 31
    is a panic. *)
Fixpoint merklize_ (left : nat) (nodes : list MerkleHash) (branch_width base_width : Z) : result (Fault False) MerkleHash :=
  let depth := 31 - Z.of_nat left in
  if branch_width <=? 2 then
    match nodes with
    | [] => Ok (node_id (node_void depth base_width))
    | [branch] => Ok (node_id (node_single depth base_width branch))
    | branch1 :: branch2 :: _ => Ok (hash_branches depth base_width branch1 branch2)
    end
  else
    let div := branch_width / 2 + branch_width mod 2 in
    match left with
    | O => Err (Panics "depth overflow")
    | S left' =>
        branch1 ← merklize_ left' (take (Z.to_nat div) nodes) div base_width;
        branch2 ← merklize_ left' (drop (Z.to_nat div) nodes) (branch_width - div) base_width;
        Ok (hash_branches depth base_width branch1 branch2)
    end.

Definition merklize (leaves : list Leaf) : result (Fault False) MerkleHash :=
  let nodes := leaf_id <$> leaves in
  let base_width := Z.of_nat (length nodes) in
  if negb (is_uint 32 base_width) then Err (Panics "too many merkle leaves (more than 2^31)") else
  if base_width =? 1 then
    match nodes with node :: _ => Ok node | [] => Err (Panics "length is 1") end
  else merklize_ 31 nodes base_width base_width.
End merklize.

(** ** The buoy of merkle blocks (merkle.rs, [MerkleBuoy]) *)

(** The struct has an optional stack: [Afloat] without, [Stacked] with one. *)
Inductive MerkleBuoy :=
| Afloat (buoy : Z)
| Stacked (buoy : Z) (stack : MerkleBuoy).

Definition buoy_new (top : Z) : MerkleBuoy := Afloat top.

Fixpoint buoy_level (b : MerkleBuoy) : Z :=
  match b with
  | Afloat buoy => buoy
  | Stacked _ stack => buoy_level stack
  end.

(** [push] on a buoy whose stack is empty *)
Definition push_bare (buoy depth : Z) : MerkleBuoy * bool :=
  if depth =? 0 then (Afloat buoy, false)
  else if depth =? buoy then (Afloat (buoy - 1), true)
  else (Stacked buoy (buoy_new depth), false).

Fixpoint buoy_push (b : MerkleBuoy) (depth : Z) : MerkleBuoy * bool :=
  match b with
  | Afloat buoy => push_bare buoy depth
  | Stacked buoy stack =>
      if depth =? 0 then (b, false) else
      let '(stack', surfaced) := buoy_push stack depth in
      if surfaced then push_bare buoy (buoy_level stack') else (Stacked buoy stack', false)
  end.

(** ** Positions (mpc/tree.rs) *)

(** [u256::from_le_bytes] *)
Fixpoint le_value (s : string) : Z :=
  match s with EmptyString => 0 | String c s' => byte_val c + 256 * le_value s' end.

(** [rem.low_u64() as u32] *)
Definition protocol_id_pos (protocol_id : ProtocolId) (cofactor depth : Z) : Z :=
  let width := 2 ^ depth in
  let rem := le_value protocol_id mod Z.max 1 (saturating_sub width cofactor) in
  rem mod 2 ^ 64 mod 2 ^ 32.

Lemma byte_val_nonneg c : 0 <= byte_val c.
Proof. unfold byte_val. lia. Qed.

Lemma le_value_nonneg s : 0 <= le_value s.
Proof. induction s as [|c s IH]; cbn [le_value]; [done|]. pose proof (byte_val_nonneg c). lia. Qed.

Lemma protocol_id_pos_range p cofactor depth : 0 <= cofactor -> 0 <= depth <= 31 ->
  0 <= protocol_id_pos p cofactor depth < 2 ^ depth.
Proof.
  intros Hc Hd. unfold protocol_id_pos, saturating_sub.
  assert (1 <= 2 ^ depth <= 2 ^ 31) as Hw by (split; [apply (Z.pow_le_mono_r 2 0)|apply Z.pow_le_mono_r]; lia).
  set (w := Z.max 1 (Z.max 0 (2 ^ depth - cofactor))).
  assert (1 <= w <= 2 ^ depth) by lia.
  pose proof (Z.mod_pos_bound (le_value p) w ltac:(lia)).
  rewrite (Z.mod_small _ (2 ^ 64)) by lia. rewrite Z.mod_small by lia. lia.
Qed.
