(* ===== verification/MpcBlock.v ===== *)
(** * Multi-protocol commitments: merkle blocks (commit_verify/mpc/block.rs)

    A merkle block is a cut through a commitment tree: from left to right, revealed
    leaves and concealed subtrees.  [conceal_except] hides leaves and joins sibling
    subtrees until nothing joins; [MerkleProof] is the path of one leaf, from which
    [block_with] restores a block and [convolve] the commitment.

    The inductive [cut] says which node hash a cut stands for.  All operations keep
    it, and so the commitment: what the loops compute is the hash of the tree by
    recursion. *)

From S2P Require Import Prelude MpcMerkle.
Local Open Scope Z_scope.

Record LeafNotKnown := mkNotKnown { unknown_protocol : ProtocolId }.

Record InvalidProof := mkInvalidProof {
  ip_protocol_id : ProtocolId;
  ip_expected : Z;
  ip_actual : Z;
  ip_width : Z;
}.

Inductive MergeError :=
| ME_InvalidProof (e : InvalidProof)
| ME_UnrelatedBlocks (base_root merged_root : Commitment).

Inductive TreeNode :=
| ConcealedNode (depth : Z) (hash : MerkleHash)
| CommitmentLeaf (protocol_id : ProtocolId) (message : Message).

#[export] Instance TreeNode_eq_dec : EqDecision TreeNode.
Proof. solve_decision. Defined.

(** The order of a [BTreeSet] of ids *)
Definition str_le (a b : string) : Prop := str_leb a b = true.
#[export] Instance str_le_dec a b : Decision (str_le a b).
Proof. unfold str_le. apply _. Defined.

Record MerkleBlock := mkBlock {
  mb_depth : Z;
  mb_cofactor : Z;
  cross_section : list TreeNode;
  mb_entropy : option Z;
}.

Record MerkleProof := mkProof {
  proof_pos : Z;
  proof_cofactor : Z;
  proof_path : list MerkleHash;
}.

Definition width_limit (b : MerkleBlock) : Z := 2 ^ mb_depth b.

Definition set_section (l : list TreeNode) (b : MerkleBlock) : MerkleBlock :=
  mkBlock (mb_depth b) (mb_cofactor b) l (mb_entropy b).

Definition depth_or (n : TreeNode) (tree_depth : Z) : Z :=
  match n with ConcealedNode depth _ => depth | CommitmentLeaf _ _ => tree_depth end.

Definition is_leaf (n : TreeNode) : bool :=
  match n with CommitmentLeaf _ _ => true | _ => false end.

Section block.
Context `{MerkleIds}.

Definition to_merkle_node (n : TreeNode) : MerkleHash :=
  match n with
  | ConcealedNode _ hash => hash
  | CommitmentLeaf protocol_id message => leaf_id (Inhabited protocol_id message)
  end.

(** [TreeNode::with] *)
Definition node_with (hash1 hash2 : MerkleHash) (depth width : Z) : TreeNode :=
  ConcealedNode depth (hash_branches depth width hash1 hash2).

(** ** Concealing *)

(** The first loop of [conceal_except]: leaves of other protocols are hidden; the
    number of them, and the nodes *)
Fixpoint hide_leaves (tree_depth : Z) (protocols : list ProtocolId) (l : list TreeNode) : nat * list TreeNode :=
  match l with
  | [] => (0%nat, [])
  | node :: l' =>
      let '(count, l'') := hide_leaves tree_depth protocols l' in
      match node with
      | ConcealedNode _ _ => (count, node :: l'')
      | CommitmentLeaf p _ =>
          if decide (p ∈ protocols) then (count, node :: l'')
          else (S count, ConcealedNode tree_depth (to_merkle_node node) :: l'')
      end
  end.

(** The protocols of the revealed leaves *)
Definition revealed (l : list TreeNode) : list ProtocolId :=
  omap (fun n => match n with CommitmentLeaf p _ => Some p | _ => None end) l.

(** What the set [not_found] holds after the loop, in its order *)
Definition not_found (protocols : list ProtocolId) (l : list TreeNode) : list ProtocolId :=
  filter (fun p => p ∉ revealed l) (merge_sort str_le protocols).

(** [2u32.pow(self.depth - depth)] *)
Definition span {E} (tree_depth depth : Z) : result (Fault E) Z :=
  if depth <=? tree_depth then Ok (2 ^ (tree_depth - depth)) else Err (Panics "subtraction overflow").

(** [offset += ..] on a [u32] *)
Definition add_offset {E} (a b : Z) : result (Fault E) Z :=
  if a + b <=? umax 32 then Ok (a + b) else Err (Panics "addition overflow").

(** One pass of the [while] loop over the cross-section from the current position:
    the nodes from there on, the final offset and the number of joined pairs *)
Fixpoint join_pass {E} (tree_depth offset : Z) (l : list TreeNode) : result (Fault E) (list TreeNode * Z * nat) :=
  match l with
  | [] => Ok ([], offset, 0%nat)
  | n1 :: rest =>
      let skip step :=
        next ← add_offset offset step;
        '(l', offset', n) ← join_pass tree_depth next rest; Ok (n1 :: l', offset', n) in
      match n1, rest with
      | ConcealedNode depth1 hash1, ConcealedNode depth2 hash2 :: rest' =>
          if depth1 =? depth2 then
            if depth1 =? 0 then Err (Panics "subtraction overflow") else
            let depth := depth1 - 1 in
            pow ← span tree_depth depth;
            if negb (offset mod pow =? 0) then
              step ← span tree_depth depth1; skip step
            else
              next ← add_offset offset pow;
              '(l', offset', n) ← join_pass tree_depth next rest';
              Ok (node_with hash1 hash2 depth (2 ^ tree_depth) :: l', offset', S n)
          else step ← span tree_depth depth1; skip step
      | ConcealedNode depth1 _, [] => step ← span tree_depth depth1; skip step
      | CommitmentLeaf _ _, (CommitmentLeaf _ _ as n2) :: rest' =>
          next ← add_offset offset 2;
          '(l', offset', n) ← join_pass tree_depth next rest'; Ok (n1 :: n2 :: l', offset', n)
      | ConcealedNode depth1 _, (CommitmentLeaf _ _ as n2) :: rest' =>
          step ← span tree_depth depth1;
          next ← add_offset offset (step + 1);
          '(l', offset', n) ← join_pass tree_depth next rest'; Ok (n1 :: n2 :: l', offset', n)
      | CommitmentLeaf _ _, _ => skip 1
      end
  end.

(** The outer [loop]: every pass but the last joins a pair, so the length of the
    cross-section bounds the number of passes. *)
Fixpoint join_loop {E} (fuel : nat) (tree_depth : Z) (count : nat) (l : list TreeNode)
    : result (Fault E) (nat * list TreeNode) :=
  match fuel with
  | O => Err (Panics "fuel")
  | S fuel' =>
      '(l', offset, n) ← join_pass tree_depth 0 l;
      match n with
      | O => Ok (count, l')
      | _ =>
          if offset =? 2 ^ tree_depth then join_loop fuel' tree_depth (count + n) l'
          else Err (Panics "assertion failed: offset")
      end
  end.

(** [conceal_except]: the block and the number of concealed nodes *)
Definition conceal_except (protocols : list ProtocolId) (b : MerkleBlock)
    : result (Fault LeafNotKnown) (MerkleBlock * nat) :=
  let '(count, l) := hide_leaves (mb_depth b) protocols (cross_section b) in
  match not_found protocols (cross_section b) with
  | protocol_id :: _ => Err (Fails (mkNotKnown protocol_id))
  | [] =>
      '(count, l') ← join_loop (S (length l)) (mb_depth b) count l;
      Ok (mkBlock (mb_depth b) (mb_cofactor b) l' None, count)
  end.

(** [Conceal for MerkleBlock] *)
Definition block_conceal {E} (b : MerkleBlock) : result (Fault E) MerkleConcealed :=
  match conceal_except [] b with
  | Err _ => Err (Panics "broken internal MerkleBlock structure")
  | Ok (concealed, _) =>
      if negb (length (cross_section concealed) =? 1)%nat then Err (Panics "assertion failed: length") else
      match cross_section concealed with
      | ConcealedNode 0 hash :: _ => Ok (mkConcealed (mb_depth b) (mb_cofactor b) hash)
      | _ => Err (Panics "broken MerkleBlock conceal procedure")
      end
  end.

(** [commit_id] *)
Definition block_commit_id {E} (b : MerkleBlock) : result (Fault E) Commitment :=
  concealed_id <$> block_conceal b.

(** ** Proofs *)

(** [u5::with] *)
Definition u5_with {E} (n : Z) : result (Fault E) Z :=
  if n <=? 31 then Ok n else Err (Panics "u5 out of range").

Definition proof_depth {E} (proof : MerkleProof) : result (Fault E) Z :=
  u5_with (Z.of_nat (length (proof_path proof))).

(** The loop of [MerkleBlock::with] from the path position [depth]: the nodes left of
    the leaf and the nodes right of it *)
Fixpoint split_path (depth pos width_limit : Z) (dir rev : list TreeNode) (hashes : list MerkleHash)
    : list TreeNode * list TreeNode :=
  match hashes with
  | [] => (dir, rev)
  | hash :: hashes' =>
      let node := ConcealedNode (depth + 1) hash in
      if width_limit / 2 <=? pos
      then split_path (depth + 1) (pos - width_limit / 2) (width_limit / 2) (dir ++ [node]) rev hashes'
      else split_path (depth + 1) pos (width_limit / 2) dir (rev ++ [node]) hashes'
  end.

(** [MerkleBlock::with] *)
Definition block_with (proof : MerkleProof) (protocol_id : ProtocolId) (message : Message)
    : result (Fault InvalidProof) MerkleBlock :=
  depth ← proof_depth proof;
  let width_limit := 2 ^ depth in
  let expected := protocol_id_pos protocol_id (proof_cofactor proof) depth in
  if negb (expected =? proof_pos proof)
  then Err (Fails (mkInvalidProof protocol_id expected (proof_pos proof) width_limit)) else
  let '(dir, rev_) := split_path 0 (proof_pos proof) width_limit [] [] (proof_path proof) in
  Ok (mkBlock depth (proof_cofactor proof) (dir ++ [CommitmentLeaf protocol_id message] ++ rev rev_) None).

(** [MerkleProof::convolve] *)
Definition convolve (proof : MerkleProof) (protocol_id : ProtocolId) (message : Message)
    : result (Fault InvalidProof) Commitment :=
  block ← block_with proof protocol_id message;
  block_commit_id block.

(** [map.insert(depth, hash)] for the concealed nodes, from left to right *)
Definition path_map (l : list TreeNode) : list (Z * MerkleHash) :=
  omap (fun n => match n with ConcealedNode depth hash => Some (depth, hash) | _ => None end) l.

(** [map.into_values()], in the order of the keys, which are [u5] *)
Definition into_values (m : gmap Z MerkleHash) : list MerkleHash := omap (fun d => m !! d) (seqZ 0 32).

(** [into_merkle_proof]: a depth that occurs twice and a depth that is missing fail an
    assertion. *)
Definition to_merkle_proof (b : MerkleBlock) (protocol_id : ProtocolId) : result (Fault LeafNotKnown) MerkleProof :=
  '(b', _) ← conceal_except [protocol_id] b;
  let map := path_map (cross_section b') in
  if negb (bool_decide (NoDup map.*1)) then Err (Panics "MerkleBlock conceal procedure is broken") else
  if negb (mb_depth b' =? Z.of_nat (length map)) then Err (Panics "MerkleBlock conceal procedure is broken") else
  if negb (length map <=? 32)%nat then Err (Panics "tree width guarantees are broken") else
  Ok (mkProof (protocol_id_pos protocol_id (mb_cofactor b') (mb_depth b')) (mb_cofactor b')
        (into_values (list_to_map map))).

(** [to_known_message_map] *)
Definition known_messages (b : MerkleBlock) : gmap ProtocolId Message :=
  foldl (fun map n => match n with CommitmentLeaf p m => <[p := m]> map | _ => map end) ∅ (cross_section b).
End block.

(** ** Cuts *)

Section cuts.
Context `{MerkleIds} (D : Z).

(** The number of leaves below a node *)
Definition node_size (n : TreeNode) : Z := 2 ^ (D - depth_or n D).
Definition size (l : list TreeNode) : Z := sumZ (node_size <$> l).

(** The section [l] is a cut through a subtree at the depth [d] with the hash [r]. *)
Inductive cut : Z -> list TreeNode -> MerkleHash -> Prop :=
| cut_leaf p m : 0 <= D -> cut D [CommitmentLeaf p m] (leaf_id (Inhabited p m))
| cut_node d h : 0 <= d <= D -> cut d [ConcealedNode d h] h
| cut_branch d l1 l2 r1 r2 : 0 <= d < D -> cut (d + 1) l1 r1 -> cut (d + 1) l2 r2 ->
    cut d (l1 ++ l2) (hash_branches d (2 ^ D) r1 r2).

Lemma size_app l1 l2 : size (l1 ++ l2) = size l1 + size l2.
Proof. unfold size. induction l1 as [|n l1 IH]; cbn in *; [done|]. unfold sumZ in *. cbn. lia. Qed.

Lemma size_cons n l : size (n :: l) = node_size n + size l.
Proof. done. Qed.

Lemma size_nil : size [] = 0.
Proof. done. Qed.

Lemma cut_range d l r : cut d l r -> 0 <= d <= D.
Proof. induction 1; lia. Qed.

Lemma cut_size d l r : cut d l r -> size l = 2 ^ (D - d).
Proof.
  induction 1; [unfold size, node_size; cbn; lia..|].
  rewrite size_app, IHcut1, IHcut2. replace (D - d) with (Z.succ (D - (d + 1))) by lia.
  rewrite Z.pow_succ_r by lia. lia.
Qed.

Lemma cut_nonempty d l r : cut d l r -> l <> [].
Proof. induction 1; [done..|]. by destruct l1. Qed.

(** The depths of a cut; its own depth occurs only when it is one node. *)
Lemma cut_depths d l r n : cut d l r -> n ∈ l -> d <= depth_or n D <= D /\ (depth_or n D = d -> l = [n]).
Proof.
  induction 1 as [p m|d h|d l1 l2 r1 r2 Hd _ IH1 _ IH2]; intros Hn.
  - apply list_elem_of_singleton in Hn as ->. cbn. split; [lia|done].
  - apply list_elem_of_singleton in Hn as ->. cbn. split; [lia|done].
  - apply elem_of_app in Hn as [Hn|Hn]; [destruct (IH1 Hn)|destruct (IH2 Hn)]; split; lia.
Qed.

Lemma pow_divide a b : 0 <= a <= b -> (2 ^ a | 2 ^ b).
Proof. intros Hab. exists (2 ^ (b - a)). rewrite <- Z.pow_add_r by lia. f_equal. lia. Qed.

(** A pass joins siblings: two concealed nodes of one depth at an offset that is a
    multiple of what they span. *)
Inductive joins : Z -> list TreeNode -> list TreeNode -> nat -> Prop :=
| joins_nil o : joins o [] [] 0
| joins_keep o n l l' k : joins (o + node_size n) l l' k -> joins o (n :: l) (n :: l') k
| joins_pair o d h1 h2 l l' k : 0 < d <= D -> (2 ^ (D - (d - 1)) | o) ->
    joins (o + 2 ^ (D - (d - 1))) l l' k ->
    joins o (ConcealedNode d h1 :: ConcealedNode d h2 :: l) (node_with h1 h2 (d - 1) (2 ^ D) :: l') (S k).

(** No pair can be joined. *)
Fixpoint stuck (o : Z) (l : list TreeNode) : Prop :=
  match l with
  | [] => True
  | n :: rest =>
      match n, rest with
      | ConcealedNode d1 _, ConcealedNode d2 _ :: _ => d1 = d2 -> ~ (2 ^ (D - (d1 - 1)) | o)
      | _, _ => True
      end /\ stuck (o + node_size n) rest
  end.

Lemma stuck_app o l1 l2 : stuck o (l1 ++ l2) -> stuck o l1 /\ stuck (o + size l1) l2.
Proof.
  revert o. induction l1 as [|n l1 IH]; intros o; cbn [app stuck].
  - rewrite size_nil, Z.add_0_r. done.
  - intros [Hn Hs]. apply IH in Hs as [Hs1 Hs2]. rewrite size_cons, Z.add_assoc. split; [|done]. split; [|done].
    destruct n, l1 as [|[] ?]; done.
Qed.

Lemma joins_length o l l' k : joins o l l' k -> length l = (length l' + k)%nat.
Proof. induction 1; cbn in *; lia. Qed.

(** The two parts of a joined section, unless a pair lies across the border *)
Lemma joins_app o l1 l2 l' k : joins o (l1 ++ l2) l' k ->
  (exists l1' l2' k1 k2, l' = l1' ++ l2' /\ joins o l1 l1' k1 /\ joins (o + size l1) l2 l2' k2) \/
  (exists l0 d h1 h2 l3, l1 = l0 ++ [ConcealedNode d h1] /\ l2 = ConcealedNode d h2 :: l3 /\
     (2 ^ (D - (d - 1)) | o + size l0)).
Proof.
  intros Hj. remember (l1 ++ l2) as l eqn:El. revert l1 El.
  induction Hj as [o|o n l l' k Hj IH|o d h1 h2 l l' k Hd Ho Hj IH]; intros l1 El.
  - symmetry in El. apply app_eq_nil in El as [-> ->]. left. exists [], [], 0%nat, 0%nat. split_and!; constructor.
  - destruct l1 as [|n1 l1]; cbn in El.
    { left. exists [], (n :: l'), 0%nat, k. rewrite size_nil, Z.add_0_r, <- El. split_and!; constructor; done. }
    injection El as <- El. destruct (IH l1 El) as [(l1' & l2' & k1 & k2 & -> & H1 & H2)|(l0 & d & h1 & h2 & l3 & -> & -> & Hx)].
    + left. exists (n :: l1'), l2', k1, k2. rewrite size_cons, Z.add_assoc. split_and!; [done|by constructor|done].
    + right. exists (n :: l0), d, h1, h2, l3. rewrite size_cons, Z.add_assoc. done.
  - destruct l1 as [|n1 [|n2 l1]]; cbn in El.
    + left. exists [], (node_with h1 h2 (d - 1) (2 ^ D) :: l'), 0%nat, (S k).
      rewrite size_nil, Z.add_0_r, <- El. split_and!; constructor; done.
    + injection El as <- El. right. exists [], d, h1, h2, l. rewrite size_nil, Z.add_0_r. done.
    + injection El as <- <- El.
      assert (o + size (ConcealedNode d h1 :: ConcealedNode d h2 :: l1) = o + 2 ^ (D - (d - 1)) + size l1) as Esz.
      { rewrite !size_cons. unfold node_size. cbn. replace (D - (d - 1)) with (Z.succ (D - d)) by lia.
        rewrite Z.pow_succ_r by lia. lia. }
      destruct (IH l1 El) as [(l1' & l2' & k1 & k2 & -> & H1 & H2)|(l0 & d' & h1' & h2' & l3 & -> & -> & Hx)].
      * left. exists (node_with h1 h2 (d - 1) (2 ^ D) :: l1'), l2', (S k1), k2. rewrite Esz.
        split_and!; [done|by constructor|done].
      * right. exists (ConcealedNode d h1 :: ConcealedNode d h2 :: l0), d', h1', h2', l3. split_and!; [done..|].
        rewrite !size_cons in *. rewrite size_app in Esz. replace (o + _) with (o + 2 ^ (D - (d - 1)) + size l0) by lia. done.
Qed.

Lemma joins_one o n l' k : joins o [n] l' k -> l' = [n].
Proof. intros Hj. inversion Hj as [|? ? ? ? ? Hr|]; subst. inversion Hr; by subst. Qed.

Lemma cut_single d n r : cut d [n] r -> r = to_merkle_node n.
Proof.
  intros Hc. remember [n] as l eqn:El. destruct Hc as [p m|d h|d l1 l2 r1 r2 Hd H1 H2]; [by simplify_eq..|].
  apply cut_nonempty in H1, H2. by destruct l1 as [|? []], l2.
Qed.

(** A pair across the border of two subtrees is the two subtrees. *)
Lemma joins_border d l0 d' h1 r1 o : 0 <= d < D -> cut (d + 1) (l0 ++ [ConcealedNode d' h1]) r1 ->
  (2 ^ (D - d) | o) -> (2 ^ (D - (d' - 1)) | o + size l0) -> d' = d + 1.
Proof.
  intros Hd Hc Ho Hx. destruct (decide (d' = d + 1)) as [|Hne]; [done|exfalso].
  destruct (cut_depths _ _ _ (ConcealedNode d' h1) Hc) as [Hd' _]; [set_solver|]. cbn in Hd'.
  pose proof (cut_size _ _ _ Hc) as Hs. rewrite size_app, size_cons, size_nil in Hs. unfold node_size in Hs. cbn in Hs.
  assert ((2 ^ (D - (d' - 1)) | 2 ^ (D - d'))) as Hdiv.
  { replace (2 ^ (D - d')) with (o + 2 ^ (D - (d + 1)) - (o + size l0)) by lia.
    apply Z.divide_sub_r; [apply Z.divide_add_r|done].
    - eapply Z.divide_trans; [apply pow_divide|done]. lia.
    - apply pow_divide. lia. }
  apply Z.divide_pos_le in Hdiv; [|lia]. revert Hdiv. apply Z.lt_nge, Z.pow_lt_mono_r; lia.
Qed.

(** Joining pairs of a cut gives a cut with the same hash. *)
Lemma joins_cut d l r o l' k : cut d l r -> (2 ^ (D - d) | o) -> joins o l l' k -> cut d l' r.
Proof.
  intros Hc. revert o l' k. induction Hc as [p m|d h|d l1 l2 r1 r2 Hd H1 IH1 H2 IH2]; intros o l' k Ho Hj.
  - apply joins_one in Hj as ->. by constructor.
  - apply joins_one in Hj as ->. by constructor.
  - assert ((2 ^ (D - (d + 1)) | o)) as Ho1 by (eapply Z.divide_trans; [apply pow_divide|exact Ho]; lia).
    destruct (joins_app _ _ _ _ _ Hj) as [(l1' & l2' & k1 & k2 & -> & Hj1 & Hj2)|(l0 & d' & h1 & h2 & l3 & -> & -> & Hx)].
    + constructor; [done|by eapply IH1|eapply IH2; [|exact Hj2]].
      rewrite (cut_size _ _ _ H1). apply Z.divide_add_r; [done|]. apply Z.divide_refl.
    + assert (d' = d + 1) as -> by (by eapply joins_border).
      destruct (cut_depths _ _ _ (ConcealedNode (d + 1) h1) H1) as [_ E1]; [set_solver|].
      destruct (cut_depths _ _ _ (ConcealedNode (d + 1) h2) H2) as [_ E2]; [set_solver|].
      specialize (E1 eq_refl). specialize (E2 eq_refl). rewrite E1 in *. rewrite E2 in *. cbn in Hj.
      inversion Hj as [|? ? ? ? ? Hr|? ? ? ? ? ? ? ? ? Hr]; subst.
      * apply joins_one in Hr as ->. by apply (cut_branch d [_] [_]).
      * inversion Hr; subst. 
        apply cut_single in H1 as ->, H2 as ->. replace (d + 1 - 1) with d by lia. constructor. lia.
Qed.

Lemma joins_zero o l l' : joins o l l' 0 -> l' = l.
Proof.
  intros Hj. remember 0%nat as k eqn:Ek. induction Hj; [done| |done]. f_equal. by apply IHHj.
Qed.

(** ** The loop of [conceal_except] *)

Context (HD : 0 <= D <= 31).

Definition section_ok (l : list TreeNode) : Prop := forall n, n ∈ l -> 0 <= depth_or n D <= D.

Lemma node_size_pos n : 0 <= depth_or n D <= D -> 1 <= node_size n <= 2 ^ D.
Proof. intros Hn. unfold node_size. split; [apply (Z.pow_le_mono_r 2 0)|apply Z.pow_le_mono_r]; lia. Qed.

Lemma size_nonneg l : section_ok l -> 0 <= size l.
Proof.
  induction l as [|n l IH]; intros Hl; [done|]. rewrite size_cons.
  pose proof (node_size_pos n ltac:(apply Hl; left)). assert (0 <= size l); [|lia].
  apply IH. intros x Hx. apply Hl. by right.
Qed.

Lemma span_ok {E} d : d <= D -> span (E := E) D d = Ok (2 ^ (D - d)).
Proof. intros Hd. unfold span. by rewrite (proj2 (Z.leb_le _ _) Hd). Qed.

Lemma add_offset_ok {E} a b : a + b <= 2 ^ D -> add_offset (E := E) a b = Ok (a + b).
Proof.
  intros Hab. unfold add_offset. assert (2 ^ D <= 2 ^ 31) by (apply Z.pow_le_mono_r; lia).
  rewrite (proj2 (Z.leb_le _ _)); [done|]. unfold umax. lia.
Qed.

(** What a pass over [l] from the offset [o] achieves *)
Definition passed {E} (o : Z) (l : list TreeNode) (x : result (Fault E) (list TreeNode * Z * nat)) : Prop :=
  exists l' k, x = Ok (l', o + size l, k) /\ joins o l l' k /\ (k = 0%nat -> stuck o l).

(** The border between a node and the rest is not one of a pair. *)
Definition apart (o : Z) (n : TreeNode) (rest : list TreeNode) : Prop :=
  match n, rest with
  | ConcealedNode d1 _, ConcealedNode d2 _ :: _ => d1 = d2 -> ~ (2 ^ (D - (d1 - 1)) | o)
  | _, _ => True
  end.

Lemma skip_passed {E} o n rest st : st = node_size n -> o + st <= 2 ^ D -> apart o n rest ->
  passed (o + st) rest (join_pass (E := E) D (o + st) rest) ->
  passed o (n :: rest) (next ← add_offset o st; '(l', offset', k) ← join_pass (E := E) D next rest;
                        Ok (n :: l', offset', k)).
Proof.
  intros -> Ho Ha (l' & k & E1 & J & S). rewrite add_offset_ok by done. cbn [mbind result_bind]. rewrite E1.
  exists (n :: l'), k. rewrite size_cons, Z.add_assoc. split_and!; [done|by constructor|].
  intros Hk. split; [|by apply S]. exact Ha.
Qed.

Lemma leaf_size p m : node_size (CommitmentLeaf p m) = 1.
Proof. unfold node_size. cbn. by rewrite Z.sub_diag. Qed.

Lemma leaf_passed {E} o n p m rest st : st = node_size n + 1 -> o + st <= 2 ^ D ->
  passed (o + st) rest (join_pass (E := E) D (o + st) rest) ->
  passed o (n :: CommitmentLeaf p m :: rest) (next ← add_offset o st; '(l', offset', k) ← join_pass (E := E) D next rest;
                        Ok (n :: CommitmentLeaf p m :: l', offset', k)).
Proof.
  intros -> Ho (l' & k & E1 & J & S). rewrite add_offset_ok by done. cbn [mbind result_bind]. rewrite E1.
  assert (o + node_size n + node_size (CommitmentLeaf p m) = o + (node_size n + 1)) as Eo by (rewrite leaf_size; lia).
  exists (n :: CommitmentLeaf p m :: l'), k. rewrite !size_cons. split_and!.
  - cbn [mbind result_bind]. do 3 f_equal. lia.
  - do 2 constructor. by rewrite Eo.
  - intros Hk. split; [by destruct n|]. split; [done|]. rewrite Eo. by apply S.
Qed.

Lemma pair_passed {E} o d h1 h2 rest : 0 < d <= D -> o + 2 ^ (D - (d - 1)) <= 2 ^ D -> (2 ^ (D - (d - 1)) | o) ->
  passed (o + 2 ^ (D - (d - 1))) rest (join_pass (E := E) D (o + 2 ^ (D - (d - 1))) rest) ->
  passed o (ConcealedNode d h1 :: ConcealedNode d h2 :: rest)
    (next ← add_offset o (2 ^ (D - (d - 1))); '(l', offset', k) ← join_pass (E := E) D next rest;
     Ok (node_with h1 h2 (d - 1) (2 ^ D) :: l', offset', S k)).
Proof.
  intros Hd Ho Hdiv (l' & k & E1 & J & _). rewrite add_offset_ok by done. cbn [mbind result_bind]. rewrite E1.
  eexists _, _. cbn [mbind result_bind]. split_and!; [do 3 f_equal|by constructor|done].
  rewrite !size_cons. unfold node_size. cbn [depth_or]. replace (D - (d - 1)) with (Z.succ (D - d)) by lia.
  rewrite Z.pow_succ_r by lia. lia.
Qed.

Lemma section_ok_cons n l : section_ok (n :: l) -> 0 <= depth_or n D <= D /\ section_ok l.
Proof. intros Hok. split; [apply Hok; left|]. intros x Hx. apply Hok. by right. Qed.

(** The step of the loop at a node *)
Lemma join_pass_step {E} o n1 rest : join_pass (E := E) D o (n1 :: rest) =
  let skip step :=
    next ← add_offset o step; '(l', offset', n) ← join_pass D next rest; Ok (n1 :: l', offset', n) in
  match n1, rest with
  | ConcealedNode depth1 hash1, ConcealedNode depth2 hash2 :: rest' =>
      if depth1 =? depth2 then
        if depth1 =? 0 then Err (Panics "subtraction overflow") else
        pow ← span D (depth1 - 1);
        if negb (o mod pow =? 0) then step ← span D depth1; skip step
        else
          next ← add_offset o pow;
          '(l', offset', n) ← join_pass D next rest';
          Ok (node_with hash1 hash2 (depth1 - 1) (2 ^ D) :: l', offset', S n)
      else step ← span D depth1; skip step
  | ConcealedNode depth1 _, [] => step ← span D depth1; skip step
  | CommitmentLeaf _ _, (CommitmentLeaf _ _ as n2) :: rest' =>
      next ← add_offset o 2; '(l', offset', n) ← join_pass D next rest'; Ok (n1 :: n2 :: l', offset', n)
  | ConcealedNode depth1 _, (CommitmentLeaf _ _ as n2) :: rest' =>
      step ← span D depth1; next ← add_offset o (step + 1);
      '(l', offset', n) ← join_pass D next rest'; Ok (n1 :: n2 :: l', offset', n)
  | CommitmentLeaf _ _, _ => skip 1
  end.
Proof. done. Qed.

Lemma join_pass_spec {E} l : forall o, section_ok l -> 0 <= o -> o + size l <= 2 ^ D ->
  passed o l (join_pass (E := E) D o l).
Proof.
  induction l as [l IH] using (induction_ltof1 _ (@length TreeNode)). unfold ltof in IH. intros o Hok Ho Hs.
  destruct l as [|n1 rest].
  { exists [], 0%nat. rewrite size_nil, Z.add_0_r. split_and!; [done|constructor|done]. }
  apply section_ok_cons in Hok as [Hn1 Hrest]. pose proof (node_size_pos n1 Hn1) as Hp1. rewrite size_cons in Hs.
  pose proof (size_nonneg rest Hrest) as Hr0.
  assert (passed (o + node_size n1) rest (join_pass (E := E) D (o + node_size n1) rest)) as Hp by (apply IH; [cbn|done|..]; lia).
  assert (o + node_size n1 <= 2 ^ D) as Hon by lia.
  destruct rest as [|n2 rest'].
  { rewrite join_pass_step. destruct n1 as [d1 h1|p1 m1]; cbv zeta.
    - rewrite span_ok by (cbn in Hn1; lia). cbn [mbind result_bind]. by apply skip_passed.
    - rewrite leaf_size in *. apply skip_passed; [by rewrite leaf_size|done..]. }
  apply section_ok_cons in Hrest as [Hn2 Hrest']. pose proof (node_size_pos n2 Hn2) as Hp2. rewrite size_cons in Hs.
  pose proof (size_nonneg rest' Hrest') as Hr1. cbn [length] in IH.
  rewrite join_pass_step. destruct n1 as [d1 h1|p1 m1], n2 as [d2 h2|p2 m2]; cbv zeta; cbn [depth_or] in *; rewrite ?leaf_size in *.
  - destruct (Z.eqb_spec d1 d2) as [<-|Hne].
    2:{ rewrite span_ok by lia. cbn [mbind result_bind]. apply skip_passed; [done..| |done]. by intros Heq. }
    assert (node_size (ConcealedNode d1 h1) = 2 ^ (D - d1) /\ node_size (ConcealedNode d1 h2) = 2 ^ (D - d1)) as [En1 En2] by done.
    assert (d1 <> 0) as Hd0 by (intros ->; rewrite En1, En2, Z.sub_0_r in *; lia).
    assert (2 ^ (D - (d1 - 1)) = 2 * 2 ^ (D - d1)) as Ep.
    { replace (D - (d1 - 1)) with (Z.succ (D - d1)) by lia. rewrite Z.pow_succ_r by lia. done. }
    rewrite (proj2 (Z.eqb_neq _ _) Hd0), (span_ok (d1 - 1)) by lia. cbn [mbind result_bind].
    destruct (Z.eqb_spec (o mod 2 ^ (D - (d1 - 1))) 0) as [Hm|Hm]; cbn [negb].
    + apply Z.mod_divide in Hm; [|lia]. apply pair_passed; [lia..|done|]. apply IH; [cbn; lia|done|lia|lia].
    + rewrite span_ok by lia. cbn [mbind result_bind]. apply skip_passed; [done..| |done]. intros _ Hdiv. apply Hm, Z.mod_divide; [lia|done].
  - rewrite span_ok by lia. cbn [mbind result_bind]. apply leaf_passed; [done|unfold node_size in *; cbn in *; lia|].
    apply IH; [cbn; lia|done|unfold node_size in *; cbn in *; lia..].
  - apply skip_passed; [by rewrite leaf_size|lia|done..].
  - apply leaf_passed; [by rewrite leaf_size|lia|]. apply IH; [cbn; lia|done|lia..].
Qed.

(** The revealed leaves, with their messages *)
Definition leaves (l : list TreeNode) : list (ProtocolId * Message) :=
  omap (fun n => match n with CommitmentLeaf p m => Some (p, m) | _ => None end) l.

Lemma revealed_leaves l : revealed l = (leaves l).*1.
Proof. induction l as [|[] l IH]; cbn; [done|exact IH|by f_equal]. Qed.

Lemma leaves_app l1 l2 : leaves (l1 ++ l2) = leaves l1 ++ leaves l2.
Proof. unfold leaves. by rewrite omap_app. Qed.

(** The leaves with their positions *)
Fixpoint offsets (o : Z) (l : list TreeNode) : list (Z * (ProtocolId * Message)) :=
  match l with
  | [] => []
  | n :: l' =>
      match n with
      | CommitmentLeaf p m => [(o, (p, m))]
      | ConcealedNode _ _ => []
      end ++ offsets (o + node_size n) l'
  end.

Lemma leaves_offsets o l : leaves l = (offsets o l).*2.
Proof. revert o. induction l as [|[] l IH]; intros o; cbn; [done|apply IH|f_equal; apply IH]. Qed.

Lemma offsets_app o l1 l2 : offsets o (l1 ++ l2) = offsets o l1 ++ offsets (o + size l1) l2.
Proof.
  revert o. induction l1 as [|n l1 IH]; intros o; cbn [app offsets]; [by rewrite size_nil, Z.add_0_r|].
  by rewrite IH, size_cons, Z.add_assoc, (assoc_L (++)).
Qed.

Lemma joins_offsets o l l' k : joins o l l' k -> offsets o l' = offsets o l.
Proof.
  induction 1 as [|o n l l' k _ IH|o d h1 h2 l l' k Hd _ _ IH]; cbn; [done|by rewrite IH|].
  unfold node_size. cbn. rewrite IH. f_equal. replace (D - (d - 1)) with (Z.succ (D - d)) by lia.
  rewrite Z.pow_succ_r by lia. lia.
Qed.

Lemma cut_ok d l r : cut d l r -> section_ok l.
Proof.
  intros Hc n Hn. pose proof (cut_range _ _ _ Hc). destruct (cut_depths _ _ _ n Hc Hn) as [Hd _]. lia.
Qed.

(** The loop ends with a cut of the same hash and the same leaves in which no pair can
    be joined. *)
Lemma join_loop_spec {E} fuel count l r : cut 0 l r -> (length l < fuel)%nat ->
  exists count' l', join_loop (E := E) fuel D count l = Ok (count', l') /\
    cut 0 l' r /\ stuck 0 l' /\ offsets 0 l' = offsets 0 l.
Proof.
  revert count l. induction fuel as [|fuel IH]; intros count l Hc Hf; [lia|].
  pose proof (cut_size _ _ _ Hc) as Hs. rewrite Z.sub_0_r in Hs.
  destruct (join_pass_spec (E := E) l 0) as (l' & k & Ep & J & S); [by eapply cut_ok|lia|lia|].
  cbn [join_loop]. rewrite Ep. cbn [mbind result_bind].
  pose proof (joins_cut _ _ _ _ _ _ Hc ltac:(apply Z.divide_0_r) J) as Hc'.
  destruct k as [|k].
  - apply joins_zero in J as ->. exists count, l. split_and!; try done. by apply S.
  - rewrite Hs, Z.add_0_l, Z.eqb_refl. pose proof (joins_length _ _ _ _ J).
    destruct (IH (count + Datatypes.S k)%nat l' Hc') as (c & l2 & E2 & Hc2 & Hs2 & Hl2); [lia|].
    exists c, l2. split_and!; [done..|]. rewrite Hl2. by eapply joins_offsets.
Qed.

(** ** Cuts that cannot be joined *)

(** Without leaves they are one node. *)
Lemma stuck_root d l r o : cut d l r -> (2 ^ (D - d) | o) -> stuck o l -> leaves l = [] -> l = [ConcealedNode d r].
Proof.
  intros Hc. revert o. induction Hc as [p m|d h|d l1 l2 r1 r2 Hd H1 IH1 H2 IH2]; intros o Ho Hs Hl; [done..|].
  exfalso. rewrite leaves_app in Hl. apply app_eq_nil in Hl as [Hl1 Hl2]. apply stuck_app in Hs as Hs'.
  destruct Hs' as [Hs1 Hs2]. rewrite (cut_size _ _ _ H1) in Hs2.
  assert ((2 ^ (D - (d + 1)) | o)) as Ho1 by (eapply Z.divide_trans; [apply pow_divide|exact Ho]; lia).
  assert (l1 = [ConcealedNode (d + 1) r1]) as -> by (by eapply IH1).
  assert (l2 = [ConcealedNode (d + 1) r2]) as ->.
  { eapply IH2; [|done..]. apply Z.divide_add_r; [done|apply Z.divide_refl]. }
  cbn in Hs. destruct Hs as [Hs _]. apply (Hs eq_refl). by replace (d + 1 - 1) with d by lia.
Qed.

(** The section that shows one leaf and the path to it *)
Fixpoint opened (d pos : Z) (path : list MerkleHash) (p : ProtocolId) (m : Message) : list TreeNode :=
  match path with
  | [] => [CommitmentLeaf p m]
  | hash :: path' =>
      let half := 2 ^ Z.of_nat (length path') in
      if half <=? pos then ConcealedNode (d + 1) hash :: opened (d + 1) (pos - half) path' p m
      else opened (d + 1) pos path' p m ++ [ConcealedNode (d + 1) hash]
  end.

(** The hash of the subtree that the path leads through *)
Fixpoint path_root (d pos : Z) (path : list MerkleHash) (leaf : MerkleHash) : MerkleHash :=
  match path with
  | [] => leaf
  | hash :: path' =>
      let half := 2 ^ Z.of_nat (length path') in
      if half <=? pos then hash_branches d (2 ^ D) hash (path_root (d + 1) (pos - half) path' leaf)
      else hash_branches d (2 ^ D) (path_root (d + 1) pos path' leaf) hash
  end.

Lemma opened_cut d pos path p m : 0 <= d -> d + Z.of_nat (length path) = D ->
  cut d (opened d pos path p m) (path_root d pos path (leaf_id (Inhabited p m))).
Proof.
  revert d pos. induction path as [|hash path IH]; intros d pos Hd HL; cbn in *.
  - replace d with D by lia. constructor. lia.
  - case_match.
    + apply (cut_branch d [_]); [lia|constructor; lia|apply IH; lia].
    + apply (cut_branch d _ [_]); [lia|apply IH; lia|constructor; lia].
Qed.

(** With one leaf they are a path. *)
Lemma stuck_path d l r o p m : cut d l r -> (2 ^ (D - d) | o) -> stuck o l -> leaves l = [(p, m)] ->
  exists pos path, 0 <= pos < 2 ^ (D - d) /\ Z.of_nat (length path) = D - d /\ l = opened d pos path p m /\
    r = path_root d pos path (leaf_id (Inhabited p m)).
Proof.
  intros Hc. revert o. induction Hc as [p' m'|d h|d l1 l2 r1 r2 Hd H1 IH1 H2 IH2]; intros o Ho Hs Hl; [|done|].
  { injection Hl as -> ->. exists 0, []. rewrite Z.sub_diag. done. }
  rewrite leaves_app in Hl. apply stuck_app in Hs as [Hs1 Hs2]. rewrite (cut_size _ _ _ H1) in Hs2.
  assert ((2 ^ (D - (d + 1)) | o)) as Ho1 by (eapply Z.divide_trans; [apply pow_divide|exact Ho]; lia).
  assert ((2 ^ (D - (d + 1)) | o + 2 ^ (D - (d + 1)))) as Ho2 by (apply Z.divide_add_r; [done|apply Z.divide_refl]).
  assert (2 ^ (D - d) = 2 * 2 ^ (D - (d + 1))) as Ep.
  { replace (D - d) with (Z.succ (D - (d + 1))) by lia. by rewrite Z.pow_succ_r by lia. }
  destruct (leaves l1) as [|x ls] eqn:El1; cbn in Hl.
  - assert (l1 = [ConcealedNode (d + 1) r1]) as -> by (eapply (stuck_root _ _ _ _ H1 Ho1); done).
    destruct (IH2 _ Ho2 Hs2 Hl) as (pos & path & Hpos & HL & -> & ->).
    exists (pos + 2 ^ (D - (d + 1))), (r1 :: path). cbn [length opened path_root]. rewrite HL, Nat2Z.inj_succ, HL.
    rewrite (proj2 (Z.leb_le (2 ^ (D - (d + 1))) _)) by lia. rewrite Z.add_simpl_r. split_and!; try done; lia.
  - injection Hl as -> Hl. apply app_eq_nil in Hl as [-> Hl2].
    assert (l2 = [ConcealedNode (d + 1) r2]) as -> by (eapply (stuck_root _ _ _ _ H2 Ho2); done).
    destruct (IH1 _ Ho1 Hs1 eq_refl) as (pos & path & Hpos & HL & -> & ->).
    exists pos, (r2 :: path). cbn [length opened path_root]. rewrite HL, Nat2Z.inj_succ, HL.
    rewrite (proj2 (Z.leb_gt (2 ^ (D - (d + 1))) _)) by lia. split_and!; try done; lia.
Qed.
End cuts.

(** ** Blocks *)

Section blocks.
Context `{MerkleIds}.

(** A block of a tree with the root [r] *)
Definition block_ok (b : MerkleBlock) (r : MerkleHash) : Prop :=
  0 <= mb_depth b <= 31 /\ cut (mb_depth b) 0 (cross_section b) r.

Lemma hide_leaves_app D ps l1 l2 :
  (hide_leaves D ps (l1 ++ l2)).2 = (hide_leaves D ps l1).2 ++ (hide_leaves D ps l2).2.
Proof.
  induction l1 as [|n l1 IH]; [done|]. cbn. destruct (hide_leaves D ps (l1 ++ l2)), (hide_leaves D ps l1). cbn in *.
  destruct n; cbn; [by rewrite IH|]. case_decide; cbn; by rewrite IH.
Qed.

Lemma hide_leaves_cut D ps d l r : cut D d l r -> cut D d (hide_leaves D ps l).2 r.
Proof.
  induction 1; cbn.
  - case_decide; cbn; by constructor.
  - by constructor.
  - rewrite hide_leaves_app. by constructor.
Qed.

Lemma hide_leaves_offsets D ps o l :
  offsets D o (hide_leaves D ps l).2 = filter (fun x => x.2.1 ∈ ps) (offsets D o l).
Proof.
  revert o. induction l as [|n l IH]; intros o; [done|]. cbn [hide_leaves]. destruct (hide_leaves D ps l). cbn [snd] in IH.
  destruct n as [d h|p m]; [apply IH|]. cbn [offsets app]. rewrite filter_cons. cbn [fst snd].
  case_decide; cbn [offsets app snd]; [f_equal|]; apply IH.
Qed.

(** Concealing keeps the tree of a block; it fails exactly on a protocol that is not
    revealed. *)
Lemma conceal_except_spec ps b r : block_ok b r ->
  match not_found ps (cross_section b) with
  | p :: _ => conceal_except ps b = Err (Fails (mkNotKnown p))
  | [] => exists b' count, conceal_except ps b = Ok (b', count) /\ block_ok b' r /\
      mb_depth b' = mb_depth b /\ mb_cofactor b' = mb_cofactor b /\ stuck (mb_depth b) 0 (cross_section b') /\
      offsets (mb_depth b) 0 (cross_section b') = filter (fun x => x.2.1 ∈ ps) (offsets (mb_depth b) 0 (cross_section b))
  end.
Proof.
  intros [HD Hc]. unfold conceal_except. pose proof (hide_leaves_cut _ ps _ _ _ Hc) as Hc'.
  pose proof (hide_leaves_offsets (mb_depth b) ps 0 (cross_section b)) as Hl.
  destruct (hide_leaves _ ps (cross_section b)) as [count l]. cbn in Hc', Hl.
  destruct (not_found ps (cross_section b)); [|done].
  destruct (join_loop_spec (E := LeafNotKnown) _ HD (S (length l)) count l r Hc' ltac:(lia)) as (c & l' & -> & Hc2 & Hs & Hl2).
  cbn [mbind result_bind]. eexists _, _. split; [done|].
  cbn [mb_depth mb_cofactor cross_section]. split_and!; try done. by rewrite Hl2.
Qed.

Lemma block_conceal_spec {E} b r : block_ok b r ->
  block_conceal (E := E) b = Ok (mkConcealed (mb_depth b) (mb_cofactor b) r).
Proof.
  intros Hb. unfold block_conceal. pose proof (conceal_except_spec [] b r Hb) as Hs. cbn in Hs.
  destruct Hs as (b' & count & -> & [HD Hc] & Ed & Ec & Hst & Hl). rewrite Ed in *.
  assert (leaves (cross_section b') = []) as Hl'.
  { rewrite (leaves_offsets (mb_depth b) 0), Hl. clear. induction (offsets _ _ _) as [|x l IH]; [done|].
    rewrite filter_cons_False; [done|]. apply not_elem_of_nil. }
  rewrite (stuck_root (mb_depth b) 0 (cross_section b') r 0 Hc (Z.divide_0_r _) Hst Hl'). done.
Qed.

Lemma block_commit_spec {E} b r : block_ok b r ->
  block_commit_id (E := E) b = Ok (concealed_id (mkConcealed (mb_depth b) (mb_cofactor b) r)).
Proof. intros Hb. unfold block_commit_id. by rewrite (block_conceal_spec b r Hb). Qed.

Lemma split_path_opened d pos dir rev_ path p m :
  let '(dir', rev') := split_path d pos (2 ^ Z.of_nat (length path)) dir rev_ path in
  dir' ++ [CommitmentLeaf p m] ++ rev rev' = dir ++ opened d pos path p m ++ rev rev_.
Proof.
  revert d pos dir rev_. induction path as [|hash path IH]; intros d pos dir rev_; [done|].
  cbn [split_path opened length]. rewrite Nat2Z.inj_succ, Z.pow_succ_r by lia.
  rewrite (Z.mul_comm 2), Z.div_mul by lia. destruct (_ <=? pos).
  - specialize (IH (d + 1) (pos - 2 ^ Z.of_nat (length path)) (dir ++ [ConcealedNode (d + 1) hash]) rev_).
    destruct (split_path _ _ _ _ _ _) in *. rewrite IH, <- !(assoc_L (++)). done.
  - specialize (IH (d + 1) pos dir (rev_ ++ [ConcealedNode (d + 1) hash])).
    destruct (split_path _ _ _ _ _ _) in *. rewrite IH, rev_unit, <- !(assoc_L (++)). done.
Qed.

(** The position of a protocol in a proof *)
Definition proof_expected (proof : MerkleProof) (p : ProtocolId) : Z :=
  protocol_id_pos p (proof_cofactor proof) (Z.of_nat (length (proof_path proof))).

Definition proof_root (proof : MerkleProof) (p : ProtocolId) (m : Message) : MerkleHash :=
  path_root (Z.of_nat (length (proof_path proof))) 0 (proof_pos proof) (proof_path proof) (leaf_id (Inhabited p m)).

Lemma block_with_spec proof p m : (length (proof_path proof) <= 31)%nat -> proof_expected proof p = proof_pos proof ->
  exists b, block_with proof p m = Ok b /\ block_ok b (proof_root proof p m) /\
    mb_depth b = Z.of_nat (length (proof_path proof)) /\ mb_cofactor b = proof_cofactor proof.
Proof.
  intros HL He. unfold block_with, proof_depth, u5_with. rewrite (proj2 (Z.leb_le _ 31)) by lia. cbn [mbind result_bind].
  unfold proof_expected in He. rewrite He, Z.eqb_refl. cbn [negb].
  pose proof (split_path_opened 0 (proof_pos proof) [] [] (proof_path proof) p m) as Hs.
  destruct (split_path _ _ _ _ _ _) as [dir rev_]. eexists. split; [done|]. cbn. split_and!; try done.
  split; cbn; [lia|]. cbn in Hs. rewrite Hs, app_nil_r. apply opened_cut; lia.
Qed.

(** [convolve] computes the commitment by recursion along the path. *)
Lemma convolve_spec proof p m : (length (proof_path proof) <= 31)%nat ->
  convolve proof p m =
    if proof_expected proof p =? proof_pos proof
    then Ok (concealed_id (mkConcealed (Z.of_nat (length (proof_path proof))) (proof_cofactor proof) (proof_root proof p m)))
    else Err (Fails (mkInvalidProof p (proof_expected proof p) (proof_pos proof) (2 ^ Z.of_nat (length (proof_path proof))))).
Proof.
  intros HL. unfold convolve. destruct (Z.eqb_spec (proof_expected proof p) (proof_pos proof)) as [He|He].
  - destruct (block_with_spec proof p m HL He) as (b & -> & Hb & Ed & Ec). cbn [mbind result_bind].
    by rewrite (block_commit_spec b _ Hb), Ed, Ec.
  - unfold block_with, proof_depth, u5_with. rewrite (proj2 (Z.leb_le _ 31)) by lia. cbn [mbind result_bind].
    unfold proof_expected in *. by rewrite (proj2 (Z.eqb_neq _ _) He).
Qed.

(** ** Proofs of blocks *)

Lemma opened_offsets D d pos path p m o : 0 <= d -> d + Z.of_nat (length path) = D ->
  0 <= pos < 2 ^ Z.of_nat (length path) -> offsets D o (opened d pos path p m) = [(o + pos, (p, m))].
Proof.
  revert d pos o. induction path as [|hash path IH]; intros d pos o Hd HL Hp; cbn [opened length] in *.
  - replace pos with 0 by (cbn in Hp; lia). cbn. by rewrite Z.add_0_r.
  - rewrite Nat2Z.inj_succ, Z.pow_succ_r in Hp by lia. destruct (Z.leb_spec (2 ^ Z.of_nat (length path)) pos).
    + cbn [offsets app]. rewrite IH by lia. unfold node_size. cbn [depth_or].
      replace (D - (d + 1)) with (Z.of_nat (length path)) by lia. by rewrite <- Z.add_assoc, Zplus_minus.
    + rewrite offsets_app, IH by lia. done.
Qed.

(** The siblings of a path, with their depths *)
Fixpoint depth_path (d : Z) (path : list MerkleHash) : list (Z * MerkleHash) :=
  match path with [] => [] | hash :: path' => (d + 1, hash) :: depth_path (d + 1) path' end.

Lemma opened_path_map d pos path p m : path_map (opened d pos path p m) ≡ₚ depth_path d path.
Proof.
  revert d pos. induction path as [|hash path IH]; intros d pos; cbn [opened depth_path]; [done|].
  destruct (_ <=? pos).
  - cbn. by rewrite IH.
  - unfold path_map. rewrite omap_app. fold (path_map (opened (d + 1) pos path p m)). rewrite IH. cbn.
    by rewrite Permutation_app_comm.
Qed.

Lemma depth_path_keys d path k : k ∈ (depth_path d path).*1 -> d < k.
Proof.
  revert d. induction path as [|hash path IH]; intros d; cbn; [by intros ?%elem_of_nil|].
  intros [->|Hk]%elem_of_cons; [lia|]. apply IH in Hk. lia.
Qed.

Lemma depth_path_nodup d path : NoDup (depth_path d path).*1.
Proof.
  revert d. induction path as [|hash path IH]; intros d; cbn; constructor; [|done].
  intros Hk%depth_path_keys. lia.
Qed.

Lemma depth_path_length d path : length (depth_path d path) = length path.
Proof. revert d. induction path; intros d; cbn; [done|by f_equal]. Qed.

Lemma depth_path_values d path n : (length path <= n)%nat ->
  omap (fun k => (list_to_map (depth_path d path) : gmap Z MerkleHash) !! k) (seqZ (d + 1) (Z.of_nat n)) = path.
Proof.
  revert d n. induction path as [|hash path IH]; intros d n Hn.
  - cbn. induction (seqZ _ _) as [|k ks IHk]; [done|]. cbn. by rewrite lookup_empty.
  - destruct n as [|n]; [cbn in Hn; lia|]. cbn in Hn. rewrite seqZ_cons by lia.
    replace (Z.succ (d + 1)) with (d + 1 + 1) by lia. replace (Z.pred (Z.of_nat (S n))) with (Z.of_nat n) by lia.
    cbn [omap list_omap depth_path list_to_map foldr]. unfold uncurry. cbn. rewrite lookup_insert_eq. f_equal.
    etrans; [|apply (IH (d + 1) n); lia]. apply list_omap_ext, Forall_Forall2_diag, Forall_forall.
    intros k Hk%elem_of_seqZ. by rewrite lookup_insert_ne by lia.
Qed.

(** The proof of a revealed leaf is the path to it; the position it states is the one
    the protocol id asks for. *)
Lemma to_merkle_proof_spec b r p m o : block_ok b r ->
  filter (fun x => x.2.1 ∈ [p]) (offsets (mb_depth b) 0 (cross_section b)) = [(o, (p, m))] ->
  exists path, Z.of_nat (length path) = mb_depth b /\ 0 <= o < 2 ^ mb_depth b /\
    to_merkle_proof b p = Ok (mkProof (protocol_id_pos p (mb_cofactor b) (mb_depth b)) (mb_cofactor b) path) /\
    r = path_root (mb_depth b) 0 o path (leaf_id (Inhabited p m)).
Proof.
  intros Hb Ho. pose proof (conceal_except_spec [p] b r Hb) as Hs.
  assert (p ∈ revealed (cross_section b)) as Hin.
  { rewrite revealed_leaves, (leaves_offsets (mb_depth b) 0). apply list_elem_of_fmap. exists (p, m). split; [done|].
    apply list_elem_of_fmap. exists (o, (p, m)). split; [done|].
    eapply list_elem_of_filter. rewrite Ho. left. }
  assert (not_found [p] (cross_section b) = []) as Hnf.
  { unfold not_found. change (merge_sort str_le [p]) with [p]. rewrite filter_cons_False; [done|]. naive_solver. }
  rewrite Hnf in Hs. destruct Hs as (b' & count & Ec & [HD Hc] & Ed & Ef & Hst & Hof). rewrite Ed, Ho in *.
  destruct (stuck_path (mb_depth b) 0 (cross_section b') r 0 p m Hc) as (pos & path & Hpos & HL & El & Er);
    [apply Z.divide_0_r|done|by rewrite (leaves_offsets (mb_depth b) 0), Hof|]. rewrite Z.sub_0_r in *.
  rewrite El, opened_offsets in Hof; [|lia|lia|by rewrite HL]. injection Hof as Epos. rewrite Z.add_0_l in Epos. subst pos.
  exists path. split_and!; [done|lia|lia| |done]. unfold to_merkle_proof. rewrite Ec. cbn [mbind result_bind].
  pose proof (opened_path_map 0 o path p m) as Hperm. rewrite El.
  assert (NoDup (path_map (opened 0 o path p m)).*1) as Hnd by (rewrite Hperm; apply depth_path_nodup).
  assert (length (path_map (opened 0 o path p m)) = length path) as Hlen by (by rewrite Hperm, depth_path_length).
  rewrite bool_decide_true, Hlen, Ed, HL, Z.eqb_refl by done. cbn [negb].
  rewrite (proj2 (Nat.leb_le _ _)) by lia. cbn [negb]. rewrite Ef. do 2 f_equal.
  rewrite (list_to_map_proper _ _ Hnd Hperm). unfold into_values.
  change (seqZ 0 32) with (0 :: seqZ (0 + 1) (Z.of_nat 31)). cbn [omap list_omap].
  rewrite (not_elem_of_list_to_map_1 _ 0) by (intros Hk%depth_path_keys; lia). apply depth_path_values. lia.
Qed.
End blocks.
