(* ===== verification/MpcTree.v ===== *)
(** * Multi-protocol commitments: trees (commit_verify/mpc/tree.rs)

    [try_commit] looks for the least depth and cofactor at which the protocols take
    different leaves, and fills the other leaves from an entropy.  The tree commits to
    its messages and to nothing else: a merkle proof convolves to the commitment of the
    tree exactly when the tree has the message ([tree_proofs]), and two proofs of one
    commitment agree ([convolve_binding]), for hashes without collisions. *)

From S2P Require Import Prelude MpcMerkle MpcBlock.
Local Open Scope Z_scope.

Definition COFACTOR_ATTEMPTS : Z := 500.

(** The messages of a source are a [BTreeMap]: pairs in the order of their keys. *)
Record MultiSource := mkSource {
  min_depth : Z;
  src_messages : list (ProtocolId * Message);
  static_entropy : option Z;
}.

Record MerkleTree := mkTree {
  tree_depth : Z;
  tree_entropy : Z;
  tree_cofactor : Z;
  tree_messages : list (ProtocolId * Message);
  tree_map : gmap Z (ProtocolId * Message);
}.

Inductive TreeError :=
| TE_Empty
| TE_TooManyMessages (count : Z)
| TE_CantFitInMaxSlots (count : Z).

(** [messages.iter().all(|..| map.insert(pos, ..).is_none())] *)
Fixpoint place (cofactor depth : Z) (messages : list (ProtocolId * Message)) (map : gmap Z (ProtocolId * Message))
    : option (gmap Z (ProtocolId * Message)) :=
  match messages with
  | [] => Some map
  | (protocol, message) :: messages' =>
      let pos := protocol_id_pos protocol cofactor depth in
      match map !! pos with
      | Some _ => None
      | None => place cofactor depth messages' (<[pos := (protocol, message)]> map)
      end
  end.

(** [for cofactor in 0..=last]: the first cofactor that places all messages *)
Fixpoint try_cofactors (depth : Z) (messages : list (ProtocolId * Message)) (cofactors : list Z)
    : option (Z * gmap Z (ProtocolId * Message)) :=
  match cofactors with
  | [] => None
  | cofactor :: rest =>
      match place cofactor depth messages ∅ with
      | Some map => Some (cofactor, map)
      | None => try_cofactors depth messages rest
      end
  end.

(** The [loop] at the depth [31 - left]; the depth is a [u5]. *)
Fixpoint grow (left : nat) (prev_width entropy : Z) (messages : list (ProtocolId * Message)) : result TreeError MerkleTree :=
  let depth := 31 - Z.of_nat left in
  let width_limit := 2 ^ depth in
  let found :=
    if Z.of_nat (length messages) <=? width_limit
    then try_cofactors depth messages (seqZ 0 (Z.min prev_width COFACTOR_ATTEMPTS + 1)) else None in
  match found with
  | Some (cofactor, map) => Ok (mkTree depth entropy cofactor messages map)
  | None =>
      match left with
      | O => Err (TE_CantFitInMaxSlots (Z.of_nat (length messages)))
      | S left' => grow left' width_limit entropy messages
      end
  end.

(** [try_commit]; [random] is drawn when the source has no entropy of its own. *)
Definition try_commit (random : Z) (source : MultiSource) : result TreeError MerkleTree :=
  let msg_count := Z.of_nat (length (src_messages source)) in
  if (min_depth source =? 0) && (msg_count =? 0) then Err TE_Empty else
  if 2 ^ 31 <? msg_count then Err (TE_TooManyMessages msg_count) else
  let entropy := default random (static_entropy source) in
  grow (Z.to_nat (31 - min_depth source)) 1 entropy (src_messages source).

Section tree.
Context `{MerkleIds}.

Definition tree_width (t : MerkleTree) : Z := 2 ^ tree_depth t.

(** [MerkleTree::root] *)
Definition tree_leaf (t : MerkleTree) (pos : Z) : Leaf :=
  match tree_map t !! pos with
  | Some (protocol, msg) => Inhabited protocol msg
  | None => Entropy (tree_entropy t) pos
  end.
Definition tree_root (t : MerkleTree) : result (Fault False) MerkleHash :=
  merklize (tree_leaf t <$> seqZ 0 (tree_width t)).

(** [From<&MerkleTree> for MerkleBlock] *)
Definition tree_node (t : MerkleTree) (pos : Z) : TreeNode :=
  match tree_map t !! pos with
  | Some (protocol_id, message) => CommitmentLeaf protocol_id message
  | None => ConcealedNode (tree_depth t) (leaf_id (Entropy (tree_entropy t) pos))
  end.
Definition tree_block (t : MerkleTree) : MerkleBlock :=
  mkBlock (tree_depth t) (tree_cofactor t) (tree_node t <$> seqZ 0 (tree_width t)) (Some (tree_entropy t)).

(** [Conceal for MerkleTree] and [commit_id] *)
Definition tree_conceal {E} (t : MerkleTree) : result (Fault E) MerkleConcealed := block_conceal (tree_block t).
Definition tree_commit_id {E} (t : MerkleTree) : result (Fault E) Commitment := concealed_id <$> tree_conceal t.

(** ** Trees that [try_commit] makes *)

Record tree_ok (t : MerkleTree) : Prop := {
  to_depth : 0 <= tree_depth t <= 31;
  to_cofactor : 0 <= tree_cofactor t;
  to_map : forall pos p m, tree_map t !! pos = Some (p, m) <->
    (p, m) ∈ tree_messages t /\ pos = protocol_id_pos p (tree_cofactor t) (tree_depth t);
}.

Lemma place_spec c d ms map0 map :
  place c d ms map0 = Some map ->
  (forall pos p m, map !! pos = Some (p, m) <->
     map0 !! pos = Some (p, m) \/ (p, m) ∈ ms /\ pos = protocol_id_pos p c d).
Proof.
  revert map0. induction ms as [|[p0 m0] ms IH]; intros map0; cbn.
  - intros [= ->] pos p m. split; [by left|]. intros [?|[?%elem_of_nil _]]; done.
  - destruct (map0 !! protocol_id_pos p0 c d) eqn:E; [done|]. intros Hp pos p m. rewrite (IH _ Hp), lookup_insert_Some, elem_of_cons.
    split.
    + intros [[[<- [= <- <-]]|[_ ?]]|[? ?]]; naive_solver.
    + intros [Hm|[[[= -> ->]|Hin] ->]]; [|naive_solver..]. left. right. split; [|done]. intros <-. congruence.
Qed.

Lemma try_cofactors_spec d ms cs c map : try_cofactors d ms cs = Some (c, map) -> c ∈ cs /\ place c d ms ∅ = Some map.
Proof.
  induction cs as [|c0 cs IH]; cbn; [done|]. destruct (place c0 d ms ∅) eqn:E.
  - intros [= -> ->]. split; [left|done].
  - intros Ht. apply IH in Ht as [? ?]. split; [by right|done].
Qed.

Lemma grow_ok left prev e ms t : (left <= 31)%nat -> grow left prev e ms = Ok t -> tree_ok t /\ tree_messages t = ms.
Proof.
  revert prev. induction left as [|left IH]; intros prev Hl; cbn [grow].
  all: case_match eqn:E; [destruct p as [c map]; intros [= <-]|try done].
  3: { intros Hg. eapply IH; [lia|done]. }
  all: case_match; [|done]; apply try_cofactors_spec in E as [Hc Hp]; apply elem_of_seqZ in Hc;
    split; [|done]; constructor; cbn [tree_depth tree_cofactor tree_map tree_messages]; [lia|lia|];
    intros pos p m; rewrite (place_spec _ _ _ _ _ Hp), lookup_empty; naive_solver.
Qed.

Lemma try_commit_ok random source t : 0 <= min_depth source -> try_commit random source = Ok t ->
  tree_ok t /\ tree_messages t = src_messages source.
Proof.
  intros Hd. unfold try_commit. repeat case_match; try done. apply grow_ok. lia.
Qed.

(** ** The hash of a full tree *)

(** The hash of a subtree at the depth [d] with [2 ^ h] leaves in a tree of the depth
    [D], by recursion *)
Fixpoint subtree (D d : Z) (h : nat) (hashes : list MerkleHash) : MerkleHash :=
  match h with
  | O => default "" (head hashes)
  | S h' =>
      hash_branches d (2 ^ D) (subtree D (d + 1) h' (take (2 ^ h') hashes)) (subtree D (d + 1) h' (drop (2 ^ h') hashes))
  end.

(** A list of nodes at the lowest depth is a cut. *)
Lemma full_cut D d h l : 0 <= d -> d + Z.of_nat h = D -> length l = (2 ^ h)%nat ->
  Forall (fun n => depth_or n D = D) l -> cut D d l (subtree D d h (to_merkle_node <$> l)).
Proof.
  revert d l. induction h as [|h IH]; intros d l Hd HD Hl Hn.
  - destruct l as [|n [|]]; try done. apply Forall_inv in Hn. replace d with D by lia.
    destruct n as [d' hash|p m]; cbn in Hn |- *; [rewrite Hn|]; constructor; lia.
  - rewrite <- (take_drop (2 ^ h) l) at 1. cbn [subtree]. rewrite <- fmap_take, <- fmap_drop.
    rewrite Nat.pow_succ_r' in Hl. constructor; [lia|..]; apply IH; rewrite ?length_take, ?length_drop; try lia.
    + by apply Forall_take.
    + by apply Forall_drop.
Qed.

Lemma merklize_subtree D d h left nodes : d = 31 - Z.of_nat left -> (h <= left)%nat -> length nodes = (2 ^ S h)%nat ->
  merklize_ left nodes (2 ^ Z.of_nat (S h)) (2 ^ D) = Ok (subtree D d (S h) nodes).
Proof.
  intros ->. revert left nodes. induction h as [|h IH]; intros left nodes Hh Hl.
  - destruct nodes as [|a [|b [|]]]; try done. by destruct left.
  - rewrite Nat.pow_succ_r' in Hl. destruct left as [|left]; [lia|].
    assert (2 ^ Z.of_nat (S (S h)) = 2 * 2 ^ Z.of_nat (S h)) as Ep.
    { rewrite (Nat2Z.inj_succ (S h)), Z.pow_succ_r by lia. done. }
    assert (2 <= 2 ^ Z.of_nat (S h)) as Hge by (apply (Z.pow_le_mono_r 2 1); lia).
    cbn [merklize_]. rewrite Ep. rewrite (proj2 (Z.leb_gt _ 2)) by lia.
    rewrite (Z.mul_comm 2), Z.div_mul, Z.mod_mul, Z.add_0_r by lia.
    replace (2 ^ Z.of_nat (S h) * 2 - 2 ^ Z.of_nat (S h)) with (2 ^ Z.of_nat (S h)) by lia.
    assert (Z.to_nat (2 ^ Z.of_nat (S h)) = (2 ^ S h)%nat) as -> by (rewrite <- (Nat2Z.inj_pow 2); lia).
    rewrite !IH by (rewrite ?length_take, ?length_drop; lia). cbn [mbind result_bind].
    replace (31 - Z.of_nat left) with (31 - Z.of_nat (S left) + 1) by lia. done.
Qed.

Context (t : MerkleTree) (Ht : tree_ok t).

Definition tree_hash : MerkleHash :=
  subtree (tree_depth t) 0 (Z.to_nat (tree_depth t)) (leaf_id ∘ tree_leaf t <$> seqZ 0 (tree_width t)).

Lemma width_nat : Z.to_nat (tree_width t) = (2 ^ Z.to_nat (tree_depth t))%nat.
Proof.
  destruct Ht as [Hd _ _]. unfold tree_width. rewrite <- (Z2Nat.id (tree_depth t)) at 1 by lia.
  rewrite <- (Nat2Z.inj_pow 2). lia.
Qed.

Lemma tree_block_ok : block_ok (tree_block t) tree_hash.
Proof.
  destruct Ht as [Hd _ _]. split; [done|]. cbn [tree_block mb_depth cross_section].
  assert (leaf_id ∘ tree_leaf t <$> seqZ 0 (tree_width t) = to_merkle_node <$> (tree_node t <$> seqZ 0 (tree_width t))) as E.
  { rewrite <- list_fmap_compose. apply list_fmap_ext. intros _ pos _. unfold compose, tree_leaf, tree_node.
    by destruct (tree_map t !! pos) as [[]|]. }
  unfold tree_hash. rewrite E. apply full_cut; [lia|lia|by rewrite length_fmap, length_seqZ, width_nat|].
  apply Forall_fmap, Forall_true. intros pos. cbn. unfold tree_node. by destruct (tree_map t !! pos) as [[]|].
Qed.

Lemma tree_root_hash : tree_root t = Ok tree_hash.
Proof.
  pose proof width_nat as Hw. destruct Ht as [Hd _ _]. unfold tree_root, merklize, tree_hash.
  rewrite length_fmap, length_fmap, length_seqZ, <- list_fmap_compose, Hw.
  assert (Z.of_nat (2 ^ Z.to_nat (tree_depth t)) = 2 ^ tree_depth t) as Ew by (rewrite (Nat2Z.inj_pow 2); f_equal; lia).
  assert (1 <= 2 ^ tree_depth t <= 2 ^ 31) as Hr.
  { split; [apply (Z.pow_le_mono_r 2 0)|apply Z.pow_le_mono_r]; lia. }
  rewrite Ew. assert (is_uint 32 (2 ^ tree_depth t) = true) as ->.
  { unfold is_uint, umax. apply andb_true_intro. split; apply Z.leb_le; lia. }
  cbn [negb]. destruct (Z.to_nat (tree_depth t)) as [|h] eqn:Eh.
  - assert (tree_depth t = 0) as E0 by lia. unfold tree_width. by rewrite E0.
  - rewrite (proj2 (Z.eqb_neq _ 1)).
    2:{ assert (2 ^ 1 <= 2 ^ tree_depth t) by (apply Z.pow_le_mono_r; lia). lia. }
    replace (2 ^ tree_depth t) with (2 ^ Z.of_nat (S h)) at 1 by (f_equal; lia).
    apply (merklize_subtree _ 0); [done|lia|]. by rewrite length_fmap, length_seqZ, Hw.
Qed.

(** ** The leaves of a tree *)

Definition placed_at (pos : Z) : option (Z * (ProtocolId * Message)) := (pos,.) <$> tree_map t !! pos.

Lemma tree_offsets o n : offsets (tree_depth t) o (tree_node t <$> seqZ o (Z.of_nat n)) = omap placed_at (seqZ o (Z.of_nat n)).
Proof.
  revert o. induction n as [|n IH]; intros o; [done|]. rewrite seqZ_cons by lia.
  replace (Z.pred (Z.of_nat (S n))) with (Z.of_nat n) by lia. cbn [fmap list_fmap omap list_omap offsets].
  assert (node_size (tree_depth t) (tree_node t o) = 1) as ->.
  { unfold node_size, tree_node. destruct (tree_map t !! o) as [[]|]; cbn; by rewrite Z.sub_diag. }
  change (o + 1) with (Z.succ o). rewrite IH. unfold placed_at at 2, tree_node. by destruct (tree_map t !! o) as [[]|].
Qed.

Lemma others_filtered p ps : protocol_id_pos p (tree_cofactor t) (tree_depth t) ∉ ps ->
  filter (fun x => x.2.1 ∈ [p]) (omap placed_at ps) = [].
Proof.
  induction ps as [|pos ps IH]; intros Hn; [done|]. apply not_elem_of_cons in Hn as [Hne Hn].
  cbn [omap list_omap]. unfold placed_at at 1. destruct (tree_map t !! pos) as [[p' m']|] eqn:E; [|by apply IH].
  cbn [fmap option_fmap option_map]. rewrite filter_cons_False; [by apply IH|]. cbn. intros ->%list_elem_of_singleton.
  apply (to_map _ Ht) in E as [_ ->]. done.
Qed.

Lemma tree_leaf_found p m : (p, m) ∈ tree_messages t ->
  filter (fun x => x.2.1 ∈ [p]) (offsets (tree_depth t) 0 (cross_section (tree_block t)))
  = [(protocol_id_pos p (tree_cofactor t) (tree_depth t), (p, m))].
Proof.
  intros Hin. cbn [tree_block cross_section]. set (pos := protocol_id_pos p (tree_cofactor t) (tree_depth t)).
  assert (tree_map t !! pos = Some (p, m)) as Hpos by (by apply (to_map _ Ht)).
  pose proof (protocol_id_pos_range p (tree_cofactor t) (tree_depth t) (to_cofactor _ Ht) (to_depth _ Ht)) as Hr.
  fold pos in Hr. rewrite <- (Z2Nat.id (tree_width t)) by (unfold tree_width; lia). rewrite tree_offsets, Z2Nat.id by (unfold tree_width; lia).
  assert (pos ∈ seqZ 0 (tree_width t)) as Hin' by (apply elem_of_seqZ; unfold tree_width; lia).
  pose proof (NoDup_seqZ 0 (tree_width t)) as Hnd. apply list_elem_of_split in Hin' as (l1 & l2 & El). rewrite El in *.
  apply NoDup_app in Hnd as (_ & Hd1 & [Hd2 _]%NoDup_cons).
  rewrite omap_app, filter_app. cbn [omap list_omap]. unfold placed_at at 2. rewrite Hpos. cbn [fmap option_fmap option_map].
  rewrite filter_cons_True by (cbn; left). rewrite !others_filtered; [done|done|]. intros Hx. eapply Hd1; [exact Hx|left].
Qed.

(** The proof of a message of the tree *)
Lemma tree_proof_exists p m : (p, m) ∈ tree_messages t ->
  exists proof, to_merkle_proof (tree_block t) p = Ok proof /\
    convolve proof p m = Ok (concealed_id (mkConcealed (tree_depth t) (tree_cofactor t) tree_hash)).
Proof.
  intros Hin. destruct (to_merkle_proof_spec _ _ _ _ _ tree_block_ok (tree_leaf_found p m Hin)) as (path & HL & Ho & Hp & Er).
  cbn [tree_block mb_depth mb_cofactor] in *. pose proof (to_depth _ Ht) as Hd. eexists. split; [exact Hp|].
  rewrite convolve_spec by (cbn; lia). unfold proof_expected, proof_root. cbn [proof_path proof_pos proof_cofactor].
  by rewrite HL, Z.eqb_refl, <- Er.
Qed.

Lemma tree_commit_spec {E} :
  tree_commit_id (E := E) t = Ok (concealed_id (mkConcealed (tree_depth t) (tree_cofactor t) tree_hash)).
Proof. unfold tree_commit_id, tree_conceal. by rewrite (block_conceal_spec _ _ tree_block_ok). Qed.
End tree.

(** ** Binding *)

Section binding.
Context `{MerkleIds}.
Context (node_inj : forall a b, node_id a = node_id b -> a = b)
        (leaf_inj : forall a b, leaf_id a = leaf_id b -> a = b)
        (concealed_inj : forall a b, concealed_id a = concealed_id b -> a = b).

Lemma branches_inj d w a b a' b' : hash_branches d w a b = hash_branches d w a' b' -> a = a' /\ b = b'.
Proof. intros E. apply node_inj in E. by injection E. Qed.

Lemma path_root_inj D d pos path path' a a' : length path = length path' ->
  path_root D d pos path a = path_root D d pos path' a' -> path = path' /\ a = a'.
Proof.
  revert d pos path'. induction path as [|hash path IH]; intros d pos [|hash' path'] HL; try done.
  cbn in HL |- *. injection HL as HL. rewrite <- HL. destruct (_ <=? pos); intros [E1 E2]%branches_inj.
  - destruct (IH _ _ _ HL E2) as [-> ->]. by rewrite E1.
  - destruct (IH _ _ _ HL E1) as [-> ->]. by rewrite E2.
Qed.

Lemma path_root_leaf D d h pos path leaf hashes : length path = h -> length hashes = (2 ^ h)%nat ->
  0 <= pos < 2 ^ Z.of_nat h -> path_root D d pos path leaf = subtree D d h hashes -> hashes !! Z.to_nat pos = Some leaf.
Proof.
  revert d h pos hashes. induction path as [|hash path IH]; intros d h pos hashes <- Hl Hp.
  - destruct hashes as [|x [|]]; try done. replace pos with 0 by (cbn in Hp; lia). cbn. by intros ->.
  - cbn [length path_root subtree] in *. rewrite Nat.pow_succ_r' in Hl. rewrite Nat2Z.inj_succ, Z.pow_succ_r in Hp by lia.
    set (half := (2 ^ length path)%nat) in *.
    assert (2 ^ Z.of_nat (length path) = Z.of_nat half) as Eh by (unfold half; by rewrite (Nat2Z.inj_pow 2)).
    rewrite Eh in *. destruct (Z.leb_spec (Z.of_nat half) pos); intros [E1 E2]%branches_inj.
    + apply IH in E2; [|done|rewrite length_drop; lia|lia]. rewrite lookup_drop in E2. rewrite <- E2. f_equal. lia.
    + apply IH in E1; [|done|rewrite length_take; lia|lia]. by apply lookup_take_Some in E1 as [? _].
Qed.

(** What an accepted proof says *)
Lemma convolve_Ok proof p m c : convolve proof p m = Ok c ->
  (length (proof_path proof) <= 31)%nat /\ proof_expected proof p = proof_pos proof /\
  c = concealed_id (mkConcealed (Z.of_nat (length (proof_path proof))) (proof_cofactor proof) (proof_root proof p m)).
Proof.
  intros Hc. assert (length (proof_path proof) <= 31)%nat as HL.
  { destruct (decide (length (proof_path proof) <= 31)%nat) as [|Hn]; [done|exfalso]. revert Hc.
    unfold convolve, block_with, proof_depth, u5_with. by rewrite (proj2 (Z.leb_gt _ 31)) by lia. }
  rewrite convolve_spec in Hc by done. destruct (Z.eqb_spec (proof_expected proof p) (proof_pos proof)); [|done].
  by injection Hc as <-.
Qed.

(** A commitment is binding: two merkle proofs that convolve to one commitment under one
    protocol are the same proof of the same message. *)
Lemma convolve_binding proof proof' p m m' c : convolve proof p m = Ok c -> convolve proof' p m' = Ok c ->
  m = m' /\ proof = proof'.
Proof.
  intros (HL & He & ->)%convolve_Ok (HL' & He' & E)%convolve_Ok. apply concealed_inj in E as [= Elen%Nat2Z.inj Ec Er].
  unfold proof_expected in *. rewrite <- Elen, <- Ec, He in He'. unfold proof_root in Er. rewrite <- Elen, <- He' in Er.
  apply path_root_inj in Er as [Epath [= <-]%leaf_inj]; [|done]. split; [done|].
  destruct proof, proof'. cbn in *. congruence.
Qed.

(** C7. The tree that [try_commit] makes commits to exactly the messages of its source:
    its commitment exists, and a merkle proof convolves to it with a message exactly when
    the message is one of the tree; for those, the proof is the one that the block of the
    tree gives. *)
Theorem tree_proofs random source t : 0 <= min_depth source -> try_commit random source = Ok t ->
  exists c, tree_commit_id (E := InvalidProof) t = Ok c /\
    (forall p m, (exists proof, convolve proof p m = Ok c) <-> (p, m) ∈ src_messages source) /\
    (forall p m, (p, m) ∈ src_messages source -> exists proof,
       to_merkle_proof (tree_block t) p = Ok proof /\ convolve proof p m = Ok c).
Proof.
  intros Hd Hc. destruct (try_commit_ok _ _ _ Hd Hc) as [Ht Em]. rewrite <- Em.
  eexists. split; [exact (tree_commit_spec t Ht)|]. split.
  - intros p m. split; [|intros Hin; destruct (tree_proof_exists t Ht p m Hin) as (proof & _ & ?); by exists proof].
    intros (proof & (HL & He & E)%convolve_Ok). apply concealed_inj in E as [= Ed Ef Er]. unfold proof_root, tree_hash in Er.
    unfold proof_expected in He. pose proof (to_depth _ Ht) as Hdt. pose proof (width_nat t Ht) as Hw.
    pose proof (protocol_id_pos_range p (tree_cofactor t) (tree_depth t) (to_cofactor _ Ht) Hdt) as Hr.
    rewrite <- Ed, <- Ef in He. rewrite He in Hr. rewrite <- Ed in Er. symmetry in Er. apply path_root_leaf in Er.
    + rewrite list_lookup_fmap, lookup_seqZ_lt in Er by (unfold tree_width; lia). cbn in Er. injection Er as Er%leaf_inj.
      rewrite Z2Nat.id, Z.add_0_l in Er by lia. unfold tree_leaf in Er.
      destruct (tree_map t !! proof_pos proof) as [[p' m']|] eqn:Epos; [|done]. injection Er as -> ->.
      by apply (to_map _ Ht) in Epos as [? _].
    + lia.
    + by rewrite length_fmap, length_seqZ, Hw.
    + rewrite Z2Nat.id by lia. exact Hr.
  - intros p m Hin. by apply tree_proof_exists.
Qed.

(** The concealed block of a tree has the root that merklization of its leaves gives. *)
Theorem tree_root_concealed random source t : 0 <= min_depth source -> try_commit random source = Ok t ->
  exists r, tree_root t = Ok r /\ tree_conceal (E := False) t = Ok (mkConcealed (tree_depth t) (tree_cofactor t) r).
Proof.
  intros Hd Hc. destruct (try_commit_ok _ _ _ Hd Hc) as [Ht _]. exists (tree_hash t). split; [by apply tree_root_hash|].
  unfold tree_conceal. by rewrite (block_conceal_spec _ _ (tree_block_ok t Ht)).
Qed.
End binding.

(** A path may have 32 hashes, but a tree of that depth is a panic. *)
Lemma convolve_panics `{MerkleIds} proof p m : length (proof_path proof) = 32%nat ->
  convolve proof p m = Err (Panics "u5 out of range").
Proof. intros HL. unfold convolve, block_with, proof_depth. by rewrite HL. Qed.
