(* ===== verification/MpcMerge.v ===== *)
(** * Multi-protocol commitments: merging blocks (commit_verify/mpc/block.rs)

    [merge_reveal] joins what two blocks of one commitment reveal, walking both
    cross-sections at once.  Where one block shows a concealed subtree and the other its
    parts, a [MerkleBuoy] tells how many parts make up the subtree.  The theorem is
    that two blocks with one commitment always merge, past every assertion, into a block
    with that commitment that reveals what either reveals. *)

From S2P Require Import Prelude MpcMerkle MpcBlock MpcTree.
Local Open Scope Z_scope.

(** [b.by_ref().take_while(..)] with the buoy: the nodes taken, and what is left of the
    iterator with the node that ended the loop in front *)
Fixpoint take_covered (D limit : Z) (buoy : MerkleBuoy) (stop : bool) (l : list TreeNode)
    : list TreeNode * list TreeNode :=
  match l with
  | [] => ([], [])
  | n :: l' =>
      if stop then ([], n :: l') else
      let buoy' := (buoy_push buoy (depth_or n D)).1 in
      let '(taken, rest) := take_covered D limit buoy' (buoy_level buoy' <=? limit) l' in
      (n :: taken, rest)
  end.

(** The [while let] loop; [la] is [last_a] followed by the iterator [a].  A node that
    is left in [last_a] or [last_b] when the other side ends is dropped. *)
Fixpoint merge_loop {E} (fuel : nat) (D : Z) (la lb acc : list TreeNode) : result (Fault E) (list TreeNode) :=
  match la, lb with
  | n1 :: a, n2 :: b =>
      match fuel with
      | O => Err (Panics "fuel")
      | S fuel' =>
          let n1_depth := depth_or n1 D in
          let n2_depth := depth_or n2 D in
          match n1_depth ?= n2_depth with
          | Eq =>
              if decide (n1 = n2) then merge_loop fuel' D a b (acc ++ [n1]) else
              match is_leaf n1, is_leaf n2 with
              | true, false => merge_loop fuel' D a b (acc ++ [n1])
              | false, true => merge_loop fuel' D a b (acc ++ [n2])
              | false, false => merge_loop fuel' D a b acc
              | true, true => Err (Panics "two MerkleBlock's with equal commitment failed to merge")
              end
          | Lt =>
              let '(taken, rest) := take_covered D n1_depth (buoy_new n2_depth) false b in
              merge_loop fuel' D a rest (acc ++ n2 :: taken)
          | Gt =>
              let '(taken, rest) := take_covered D n2_depth (buoy_new n1_depth) false a in
              merge_loop fuel' D rest b (acc ++ n1 :: taken)
          end
      end
  | _, _ => Ok (acc ++ tail la ++ tail lb)
  end.

(** [.map(|height| 2u32.pow(height)).sum::<u32>()] *)
Fixpoint sum_spans {E} (D acc : Z) (l : list TreeNode) : result (Fault E) Z :=
  match l with
  | [] => Ok acc
  | n :: l' => s ← span D (depth_or n D); acc' ← add_offset acc s; sum_spans D acc' l'
  end.

Section merge.
Context `{MerkleIds}.

Definition merge_reveal (b other : MerkleBlock) : result (Fault MergeError) (MerkleBlock * Z) :=
  base_root ← block_commit_id b;
  merged_root ← block_commit_id other;
  if negb (String.eqb base_root merged_root) then Err (Fails (ME_UnrelatedBlocks base_root merged_root)) else
  l ← merge_loop (length (cross_section b) + length (cross_section other)) (mb_depth b)
        (cross_section b) (cross_section other) [];
  if (length l =? 0)%nat then Err (Panics "tree width guarantees are broken") else
  let b' := set_section l b in
  total ← sum_spans (mb_depth b) 0 l;
  if negb (total =? width_limit b) then Err (Panics "LNPBP-4 merge-reveal procedure is broken") else
  root ← block_commit_id b';
  if negb (String.eqb base_root root) then Err (Panics "LNPBP-4 merge-reveal procedure is broken") else
  Ok (b', Z.of_nat (length l) mod 65536).

Definition merge_reveal_path (b : MerkleBlock) (proof : MerkleProof) (protocol_id : ProtocolId) (message : Message)
    : result (Fault MergeError) (MerkleBlock * Z) :=
  other ← fault_map ME_InvalidProof (block_with proof protocol_id message);
  merge_reveal b other.
End merge.

(** ** The buoy *)

Lemma push_deeper B x : 0 < x -> buoy_level B < x ->
  (buoy_push B x).2 = false /\ buoy_level (buoy_push B x).1 = x.
Proof.
  intros Hx. induction B as [b|b st IH]; cbn [buoy_level buoy_push]; intros Hl.
  - unfold push_bare. by rewrite (proj2 (Z.eqb_neq x 0)), (proj2 (Z.eqb_neq x b)) by lia.
  - rewrite (proj2 (Z.eqb_neq x 0)) by lia. destruct (IH Hl) as [Hs Hv]. destruct (buoy_push st x) as [st' s].
    cbn in Hs, Hv. by rewrite Hs.
Qed.

(** The two halves of a subtree that starts at or below the innermost level have the
    effect of one node. *)
Lemma buoy_halves B e : 1 <= e -> buoy_level B <= e ->
  buoy_push (buoy_push B (e + 1)).1 (e + 1) = buoy_push B e.
Proof.
  intros He. induction B as [b|b st IH]; cbn [buoy_level]; intros Hl.
  - assert ((buoy_push (Afloat b) (e + 1)).1 = Stacked b (Afloat (e + 1))) as ->.
    { cbn. unfold push_bare. by rewrite (proj2 (Z.eqb_neq (e + 1) 0)), (proj2 (Z.eqb_neq (e + 1) b)) by lia. }
    cbn [buoy_push]. unfold push_bare at 1. rewrite (proj2 (Z.eqb_neq (e + 1) 0)), Z.eqb_refl by lia. cbn.
    by rewrite Z.add_simpl_r.
  - destruct (push_deeper st (e + 1)) as [Hs _]; [lia..|]. specialize (IH Hl). cbn [buoy_push].
    rewrite (proj2 (Z.eqb_neq (e + 1) 0)), (proj2 (Z.eqb_neq e 0)) by lia.
    destruct (buoy_push st (e + 1)) as [st' s] eqn:E. cbn in Hs. subst s. cbn [fst buoy_push] in IH |- *.
    rewrite (proj2 (Z.eqb_neq (e + 1) 0)) by lia. by rewrite IH.
Qed.

Section run.
Context `{MerkleIds} (D : Z).

Definition run (B : MerkleBuoy) (l : list TreeNode) : MerkleBuoy :=
  foldl (fun B n => (buoy_push B (depth_or n D)).1) B l.

(** The level stays above [d] until the last node. *)
Fixpoint above (d : Z) (B : MerkleBuoy) (l : list TreeNode) : Prop :=
  match l with
  | [] => True
  | n :: l' =>
      let B' := (buoy_push B (depth_or n D)).1 in
      (l' <> [] -> d < buoy_level B') /\ above d B' l'
  end.

Lemma above_app d B l1 l2 : above d B l1 -> (l1 <> [] -> d < buoy_level (run B l1)) -> above d (run B l1) l2 ->
  above d B (l1 ++ l2).
Proof.
  revert B. induction l1 as [|n l1 IH]; intros B H1 Hl H2; [done|]. cbn [app above] in *. destruct H1 as [Hn H1].
  specialize (Hl ltac:(done)). cbn [run foldl] in *. split.
  - intros _. destruct l1; [done|by apply Hn].
  - apply IH; [done|by intros _|done].
Qed.

Lemma above_mono d d' B l : d <= d' -> above d' B l -> above d B l.
Proof.
  intros Hd. revert B. induction l as [|n l IH]; intros B; cbn; [done|]. intros [Hn Hl]. split; [|by apply IH].
  intros Hne. specialize (Hn Hne). lia.
Qed.

(** A subtree that starts at or below the innermost level has the effect of one node of
    its depth. *)
Lemma run_cut e l r : cut D e l r -> forall B, 1 <= e -> buoy_level B <= e ->
  run B l = (buoy_push B e).1 /\ above e B l.
Proof.
  induction 1 as [p m|e h|e l1 l2 r1 r2 He H1 IH1 H2 IH2]; intros B He1 Hl; [done..|].
  destruct (IH1 B) as [E1 A1]; [lia..|]. destruct (push_deeper B (e + 1)) as [_ Hv]; [lia..|].
  destruct (IH2 (run B l1)) as [E2 A2]; [lia|rewrite E1; lia|]. split.
  - unfold run in *. rewrite foldl_app, E2, E1. by rewrite buoy_halves.
  - apply above_app; [by eapply above_mono; [|exact A1]; lia| |by eapply above_mono; [|exact A2]; lia].
    intros _. rewrite E1. lia.
Qed.

(** From its first node, a subtree brings the buoy to its depth. *)
Lemma run_start e n l r : cut D e (n :: l) r -> run (buoy_new (depth_or n D)) l = Afloat e /\ above e (buoy_new (depth_or n D)) l.
Proof.
  remember (n :: l) as l0 eqn:El. intros Hc. revert n l El.
  induction Hc as [p m|e h|e l1 l2 r1 r2 He H1 IH1 H2 _]; intros n l El; [by simplify_eq/=..|].
  destruct l1 as [|n1 l1]; [by apply cut_nonempty in H1|]. injection El as <- <-.
  destruct (IH1 n1 l1 eq_refl) as [E1 A1]. destruct (run_cut _ _ _ H2 (Afloat (e + 1))) as [E2 A2]; [lia|done|].
  split.
  - unfold run in *. rewrite foldl_app, E1, E2. cbn. unfold push_bare.
    rewrite (proj2 (Z.eqb_neq (e + 1) 0)), Z.eqb_refl by lia. cbn. by rewrite Z.add_simpl_r.
  - apply above_app; [by eapply above_mono; [|exact A1]; lia| |].
    + intros _. rewrite E1. cbn. lia.
    + rewrite E1. eapply above_mono; [|exact A2]. lia.
Qed.

Lemma take_covered_run d B l rest : l <> [] -> above d B l -> buoy_level (run B l) <= d ->
  take_covered D d B false (l ++ rest) = (l, rest).
Proof.
  revert B. induction l as [|n l IH]; intros B Hne Ha Hl; [done|]. cbn [app take_covered above] in *.
  destruct Ha as [Hn Ha]. destruct l as [|n2 l].
  - cbn in Hl. rewrite (proj2 (Z.leb_le _ _) Hl). by destruct rest.
  - rewrite (proj2 (Z.leb_gt _ _)) by (by apply Hn). by rewrite IH.
Qed.

(** The parts of a subtree, taken from its first node on *)
Lemma take_subtree d l1 l2 r1 r2 n l rest : 0 <= d < D -> cut D (d + 1) l1 r1 -> cut D (d + 1) l2 r2 ->
  l1 ++ l2 = n :: l -> take_covered D d (buoy_new (depth_or n D)) false (l ++ rest) = (l, rest).
Proof.
  intros Hd H1 H2 El. assert (cut D d (n :: l) (hash_branches d (2 ^ D) r1 r2)) as Hc by (rewrite <- El; by constructor).
  destruct (run_start _ _ _ _ Hc) as [E A]. apply take_covered_run; [|done|rewrite E; done].
  apply cut_nonempty in H1, H2. destruct l1 as [|? [|]], l2; try done; injection El as <- <-; done.
Qed.
End run.

(** ** Merging two cuts of one subtree *)

Section merging.
Context `{MerkleIds}.
Context (node_inj : forall a b, node_id a = node_id b -> a = b)
        (leaf_inj : forall a b, leaf_id a = leaf_id b -> a = b).
Context (D : Z).

(** [lm] is what the loop makes of [la] and [lb], whatever follows them. *)
Definition merges_to {E} (la lb lm : list TreeNode) : Prop :=
  exists k, (k <= length la + length lb)%nat /\ forall fuel ra rb acc,
    merge_loop (E := E) (k + fuel) D (la ++ ra) (lb ++ rb) acc = merge_loop fuel D ra rb (acc ++ lm).

(** [lm] reveals what [la] or [lb] reveals. *)
Definition reveals_both (la lb lm : list TreeNode) : Prop :=
  forall o x, x ∈ offsets D o lm <-> x ∈ offsets D o la \/ x ∈ offsets D o lb.

Lemma merges_app {E} la1 la2 lb1 lb2 lm1 lm2 :
  merges_to (E := E) la1 lb1 lm1 -> merges_to (E := E) la2 lb2 lm2 ->
  merges_to (E := E) (la1 ++ la2) (lb1 ++ lb2) (lm1 ++ lm2).
Proof.
  intros (k1 & Hk1 & H1) (k2 & Hk2 & H2). exists (k1 + k2)%nat. split; [rewrite !length_app; lia|].
  intros fuel ra rb acc. by rewrite <- Nat.add_assoc, <- !(assoc_L (++)), H1, H2, <- (assoc_L (++)).
Qed.

Lemma reveals_app la1 la2 lb1 lb2 lm1 lm2 : size D la1 = size D lb1 -> size D la1 = size D lm1 ->
  reveals_both la1 lb1 lm1 -> reveals_both la2 lb2 lm2 -> reveals_both (la1 ++ la2) (lb1 ++ lb2) (lm1 ++ lm2).
Proof.
  intros E1 E2 H1 H2 o x. rewrite !offsets_app, !elem_of_app, <- E2, <- E1.
  specialize (H1 o x). specialize (H2 (o + size D la1) x). naive_solver.
Qed.

Lemma merges_same {E} n : merges_to (E := E) [n] [n] [n].
Proof.
  exists 1%nat. split; [cbn; lia|]. intros fuel ra rb acc. cbn. rewrite Z.compare_refl. by rewrite decide_True.
Qed.

Lemma merges_leaf_left {E} p m h : merges_to (E := E) [CommitmentLeaf p m] [ConcealedNode D h] [CommitmentLeaf p m].
Proof. exists 1%nat. split; [cbn; lia|]. intros fuel ra rb acc. cbn. by rewrite Z.compare_refl, decide_False. Qed.

Lemma merges_leaf_right {E} p m h : merges_to (E := E) [ConcealedNode D h] [CommitmentLeaf p m] [CommitmentLeaf p m].
Proof. exists 1%nat. split; [cbn; lia|]. intros fuel ra rb acc. cbn. by rewrite Z.compare_refl, decide_False. Qed.

(** A concealed node on one side, its parts on the other *)
Lemma merges_parts {E} d l1 l2 r1 r2 h : 0 <= d < D -> cut D (d + 1) l1 r1 -> cut D (d + 1) l2 r2 ->
  merges_to (E := E) [ConcealedNode d h] (l1 ++ l2) (l1 ++ l2) /\
  merges_to (E := E) (l1 ++ l2) [ConcealedNode d h] (l1 ++ l2).
Proof.
  intros Hd H1 H2. destruct (l1 ++ l2) as [|n l] eqn:El; [apply app_eq_nil in El as [El _]; by apply cut_nonempty in H1|].
  assert (d < depth_or n D) as Hn.
  { assert (n ∈ l1 ++ l2) as [Hin|Hin]%elem_of_app by (rewrite El; left).
    - destruct (cut_depths _ _ _ _ n H1 Hin). lia.
    - destruct (cut_depths _ _ _ _ n H2 Hin). lia. }
  pose proof (take_subtree D d l1 l2 r1 r2 n l) as Ht.
  split; exists 1%nat; (split; [cbn; lia|]); intros fuel ra rb acc; cbn [Nat.add app merge_loop];
    change (depth_or (ConcealedNode d h) D) with d.
  - rewrite (proj2 (Z.compare_lt_iff _ _) Hn). by rewrite Ht.
  - rewrite (proj2 (Z.compare_gt_iff _ _) Hn). by rewrite Ht.
Qed.

Lemma cut_cases d l r : cut D d l r ->
  (exists p m, d = D /\ l = [CommitmentLeaf p m] /\ r = leaf_id (Inhabited p m)) \/
  l = [ConcealedNode d r] \/
  (exists l1 l2 r1 r2, 0 <= d < D /\ l = l1 ++ l2 /\ r = hash_branches d (2 ^ D) r1 r2 /\
     cut D (d + 1) l1 r1 /\ cut D (d + 1) l2 r2).
Proof. intros []; [left; eauto|right; left; done|right; right]. by exists l1, l2, r1, r2. Qed.

Lemma merge_cuts {E} d la r : cut D d la r -> forall lb, cut D d lb r ->
  exists lm, cut D d lm r /\ reveals_both la lb lm /\ merges_to (E := E) la lb lm.
Proof.
  induction 1 as [p m HD|d h Hd|d l1 l2 r1 r2 Hd H1 IH1 H2 IH2]; intros lb Hb;
    destruct (cut_cases _ _ _ Hb) as [(p' & m' & Ed & -> & Er)|[->|(l1' & l2' & r1' & r2' & Hd' & -> & Er & H1' & H2')]]; try lia.
  - apply leaf_inj in Er as [= -> ->]. eexists. split_and!; [exact Hb| |apply merges_same]. intros o x. tauto.
  - eexists. split_and!; [by apply cut_leaf| |apply merges_leaf_left]. intros o x. cbn. set_solver.
  - subst d. eexists. split_and!; [exact Hb| |apply merges_leaf_right]. intros o x. cbn. set_solver.
  - eexists. split_and!; [exact Hb| |apply merges_same]. intros o x. tauto.
  - eexists. split_and!; [exact Hb| |by eapply merges_parts]. intros o x. cbn. set_solver.
  - eexists. split_and!; [by apply cut_branch| |by eapply merges_parts]. intros o x. cbn. set_solver.
  - apply (branches_inj node_inj) in Er as [-> ->].
    destruct (IH1 l1' H1') as (m1 & Hm1 & Hr1 & Hg1), (IH2 l2' H2') as (m2 & Hm2 & Hr2 & Hg2).
    pose proof (cut_size _ _ _ _ H1). pose proof (cut_size _ _ _ _ H1'). pose proof (cut_size _ _ _ _ Hm1).
    exists (m1 ++ m2). split_and!; [by apply cut_branch| |by apply merges_app].
    apply reveals_app; [congruence..|done|done].
Qed.
End merging.

Section theorem.
Context `{MerkleIds}.
Context (node_inj : forall a b, node_id a = node_id b -> a = b)
        (leaf_inj : forall a b, leaf_id a = leaf_id b -> a = b)
        (concealed_inj : forall a b, concealed_id a = concealed_id b -> a = b).

Lemma sum_spans_size {E} D acc l : 0 <= D <= 31 -> section_ok D l -> acc + size D l <= 2 ^ D ->
  sum_spans (E := E) D acc l = Ok (acc + size D l).
Proof.
  intros HD. revert acc. induction l as [|n l IH]; intros acc Hok Hs.
  - by rewrite size_nil, Z.add_0_r.
  - apply section_ok_cons in Hok as [Hn Hl]. rewrite size_cons in *. cbn [sum_spans].
    pose proof (size_nonneg _ HD _ Hl). rewrite span_ok by lia. cbn [mbind result_bind].
    change (2 ^ (D - depth_or n D)) with (node_size D n). rewrite (add_offset_ok D HD) by lia. cbn [mbind result_bind].
    rewrite IH by (done || lia). by rewrite Z.add_assoc.
Qed.

(** C8. Blocks of one commitment always merge: when two well-formed blocks have the same
    commitment, [merge_reveal] passes all its assertions and answers a well-formed block
    of the same tree that reveals, at the same positions, exactly the messages that one
    of the two reveals; blocks of different commitments are refused. *)
Theorem merge_reveal_spec b other r r' c c' : block_ok b r -> block_ok other r' ->
  block_commit_id (E := MergeError) b = Ok c -> block_commit_id (E := MergeError) other = Ok c' ->
  if String.eqb c c' then
    exists b', merge_reveal b other = Ok (b', Z.of_nat (length (cross_section b')) mod 65536) /\
      block_ok b' r /\ block_commit_id (E := MergeError) b' = Ok c /\
      (forall x, x ∈ offsets (mb_depth b) 0 (cross_section b') <->
         x ∈ offsets (mb_depth b) 0 (cross_section b) \/ x ∈ offsets (mb_depth b) 0 (cross_section other))
  else merge_reveal b other = Err (Fails (ME_UnrelatedBlocks c c')).
Proof.
  intros Hb Ho Ec Ec'. unfold merge_reveal. rewrite Ec, Ec'. cbn [mbind result_bind].
  destruct (String.eqb_spec c c') as [<-|Hne]; cbn [negb]; [|done].
  rewrite (block_commit_spec _ _ Hb) in Ec. rewrite (block_commit_spec _ _ Ho), <- Ec in Ec'.
  injection Ec' as [= Ed Ef ->]%concealed_inj. destruct Hb as [HD Hc], Ho as [_ Hc']. rewrite Ed in Hc'.
  destruct (merge_cuts node_inj leaf_inj (E := MergeError) (mb_depth b) 0 _ _ Hc _ Hc') as (lm & Hm & Hr & k & Hk & Hg).
  specialize (Hg (length (cross_section b) + length (cross_section other) - k)%nat [] [] []).
  rewrite Nat.add_comm, Nat.sub_add, !app_nil_r in Hg by done. rewrite Hg.
  assert (forall fuel, merge_loop (E := MergeError) fuel (mb_depth b) [] [] lm = Ok (lm ++ [])) as Hend by (by intros []).
  cbn [app]. rewrite Hend, app_nil_r. cbn [mbind result_bind].
  pose proof (cut_nonempty _ _ _ _ Hm) as Hne. rewrite (proj2 (Nat.eqb_neq (length lm) 0)) by (by destruct lm).
  pose proof (cut_size _ _ _ _ Hm) as Hs. rewrite Z.sub_0_r in Hs.
  rewrite sum_spans_size by (done || lia || by eapply cut_ok). cbn [mbind result_bind]. unfold width_limit.
  rewrite Hs, Z.add_0_l, Z.eqb_refl. cbn [negb].
  assert (block_ok (set_section lm b) r) as Hb' by done.
  rewrite (block_commit_spec _ _ Hb'). cbn [mbind result_bind set_section mb_depth mb_cofactor].
  injection Ec as <-. rewrite String.eqb_refl. cbn [negb]. exists (set_section lm b). split; [done|].
  split_and!; [done|exact (block_commit_spec _ _ Hb')|exact (Hr 0)].
Qed.
End theorem.
