(* ===== verification/MpcDemo.v ===== *)
(** * Multi-protocol commitments, evaluated

    Identifiers without collisions, which spell out what they identify, and a tree of
    two messages.  The theorems on trees and blocks are applied to it. *)

From stdpp Require Import pretty.
From S2P Require Import Prelude MpcMerkle MpcBlock MpcTree MpcMerge.
Local Open Scope Z_scope.

(** A string with its end marked *)
Fixpoint quoted (s : string) : string :=
  match s with
  | EmptyString => "."
  | String c s' => String (Ascii.ascii_of_nat 120) (String c (quoted s'))
  end.

Lemma quoted_inj s s' t t' : quoted s +:+ t = quoted s' +:+ t' -> s = s' /\ t = t'.
Proof.
  revert s'. induction s as [|c s IH]; intros [|c' s']; cbn; rewrite ?append_cons; intros E; try done.
  - by injection E.
  - injection E as -> E. apply IH in E as [-> ->]. done.
Qed.

Definition quoted_Z (n : Z) : string := quoted (pretty n).

Lemma quoted_Z_inj n n' t t' : quoted_Z n +:+ t = quoted_Z n' +:+ t' -> n = n' /\ t = t'.
Proof. intros [E ->]%quoted_inj. by apply (inj pretty) in E. Qed.

Definition spell_node (n : MerkleNode) : string :=
  (match branching n with NB_Void => "V" | NB_Single => "S" | NB_Branch => "B" end) +:+
  (quoted_Z (node_depth n) +:+ (quoted_Z (node_width n) +:+ (quoted (node1 n) +:+ quoted (node2 n)))).

Definition spell_leaf (l : Leaf) : string :=
  match l with
  | Inhabited p m => "I" +:+ (quoted p +:+ quoted m)
  | Entropy e pos => "E" +:+ (quoted_Z e +:+ quoted_Z pos)
  end.

Definition spell_concealed (c : MerkleConcealed) : string :=
  quoted_Z (mc_depth c) +:+ (quoted_Z (mc_cofactor c) +:+ quoted (mc_root c)).

#[export] Instance spelled : MerkleIds := {| node_id := spell_node; leaf_id := spell_leaf; concealed_id := spell_concealed |}.

Lemma quoted_last s s' : quoted s = quoted s' -> s = s'.
Proof. intros E. apply (quoted_inj s s' "" ""). by rewrite E. Qed.

Lemma spell_node_inj a b : node_id a = node_id b -> a = b.
Proof.
  destruct a as [k d w n1 n2], b as [k' d' w' n1' n2']. cbn. unfold spell_node. cbn [branching node_depth node_width node1 node2].
  intros E. assert (k = k' /\ quoted_Z d +:+ (quoted_Z w +:+ (quoted n1 +:+ quoted n2)) =
    quoted_Z d' +:+ (quoted_Z w' +:+ (quoted n1' +:+ quoted n2'))) as [-> E'] by (destruct k, k'; by injection E).
  apply quoted_Z_inj in E' as [-> [-> [-> ->%quoted_last]%quoted_inj]%quoted_Z_inj]. done.
Qed.

Lemma spell_leaf_inj a b : leaf_id a = leaf_id b -> a = b.
Proof.
  destruct a as [p m|e pos], b as [p' m'|e' pos']; cbn; intros E; try done; injection E as E.
  - by apply quoted_inj in E as [-> ->%quoted_last].
  - apply quoted_Z_inj in E as [-> E%quoted_last]. by apply (inj pretty) in E as ->.
Qed.

Lemma spell_concealed_inj a b : concealed_id a = concealed_id b -> a = b.
Proof.
  destruct a as [d c r], b as [d' c' r']. cbn. unfold spell_concealed. cbn [mc_depth mc_cofactor mc_root].
  intros [-> [-> ->%quoted_last]%quoted_Z_inj]%quoted_Z_inj. done.
Qed.

(** ** A tree *)

Definition demo_source : MultiSource := mkSource 1 [("A", "one"); ("B", "two")] (Some 9).
Definition demo_tree : MerkleTree :=
  match try_commit 0 demo_source with Ok t => t | Err _ => mkTree 0 0 0 [] ∅ end.

Lemma demo_tree_made : try_commit 0 demo_source = Ok demo_tree.
Proof. vm_compute. reflexivity. Qed.

Lemma tree_proofs_witness : exists c, tree_commit_id (E := InvalidProof) demo_tree = Ok c /\
  (exists proof, convolve proof "A" "one" = Ok c) /\ ~ (exists proof, convolve proof "C" "one" = Ok c).
Proof.
  destruct (tree_proofs spell_node_inj spell_leaf_inj spell_concealed_inj 0 demo_source demo_tree) as (c & Hc & Hp & _);
    [discriminate|exact demo_tree_made|].
  exists c. split; [exact Hc|]. split.
  - apply Hp. left.
  - intros Hin. apply Hp, list_elem_of_In in Hin. cbn in Hin. destruct Hin as [Hin|[Hin|[]]]; discriminate Hin.
Defined.

(** The blocks that show one message each merge into the one that shows both. *)
Definition demo_block (p : string) : MerkleBlock :=
  match conceal_except [p] (tree_block demo_tree) with Ok (b, _) => b | Err _ => tree_block demo_tree end.
Definition demo_root : MerkleHash :=
  hash_branches 0 2 (leaf_id (Inhabited "B" "two")) (leaf_id (Inhabited "A" "one")).
Definition demo_commitment : string := concealed_id (mkConcealed 1 0 demo_root).

Lemma demo_block_A : block_ok (demo_block "A") demo_root.
Proof.
  split; [split; discriminate|]. apply (cut_branch 1 0 [_] [_]); [done|apply (cut_node 1 1); done|by apply (cut_leaf 1)].
Qed.

Lemma demo_block_B : block_ok (demo_block "B") demo_root.
Proof.
  split; [split; discriminate|]. apply (cut_branch 1 0 [_] [_]); [done|by apply (cut_leaf 1)|apply (cut_node 1 1); done].
Qed.

Lemma merge_reveal_spec_witness : exists b', merge_reveal (demo_block "A") (demo_block "B") =
    Ok (b', Z.of_nat (length (cross_section b')) mod 65536) /\ block_ok b' demo_root /\
  block_commit_id (E := MergeError) b' = Ok demo_commitment /\
  (forall x, x ∈ offsets 1 0 (cross_section b') <->
     x ∈ offsets 1 0 (cross_section (demo_block "A")) \/ x ∈ offsets 1 0 (cross_section (demo_block "B"))).
Proof.
  exact (merge_reveal_spec spell_node_inj spell_leaf_inj spell_concealed_inj (demo_block "A") (demo_block "B")
    demo_root demo_root demo_commitment demo_commitment demo_block_A demo_block_B
    ltac:(vm_compute; reflexivity) ltac:(vm_compute; reflexivity)).
Defined.
