(* ===== verification/AluReg.v ===== *)
(** * AluVM: registers and flags

    crates/rgb-aluvm/src/reg/indexes.rs, reg/families.rs and isa/flags.rs: the
    families and indexes of registers and the flags of instructions, with the
    conversions from and to the small integers that the bytecode stores, and the
    textual form of the flags.

    A Rust conversion [From<uN>] that ends in [unreachable!()] is a function to
    [option] here; [None] is the panic. *)

From Stdlib Require Import Ascii.
From S2P Require Import Prelude.
Local Open Scope Z_scope.

(** ** The wire form of an instruction field *)

(** [to_bits] is the [Into<uN>] conversion, [of_bits] the [From<uN>] one. *)
Class Bits (A : Type) := { to_bits : A -> Z; of_bits : Z -> option A }.

(** What the encoder promises the decoder: a valid field fits [w] bits and is
    read back. *)
Class Wire (w : Z) (A : Type) `{Bits A} := {
  valid : A -> Prop;
  wire_range : forall a, valid a -> 0 <= to_bits a < 2 ^ w;
  wire_back : forall a, valid a -> of_bits (to_bits a) = Some a;
}.

(** ** Register families *)

Inductive RegA :=
| A8 | A16 | A32 | A64 | A128 | A256 | A512 | A1024.

Definition RegA_as_u8 (r : RegA) : Z :=
  match r with
  | A8 => 0 | A16 => 1 | A32 => 2 | A64 => 3 | A128 => 4 | A256 => 5 | A512 => 6 | A1024 => 7
  end.

Definition RegA_from (val : Z) : option RegA :=
  match val with
  | 0 => Some A8 | 1 => Some A16 | 2 => Some A32 | 3 => Some A64 | 4 => Some A128
  | 5 => Some A256 | 6 => Some A512 | 7 => Some A1024
  | _ => None
  end.

Inductive RegA2 :=
| A2_8 | A2_16.

Definition RegA2_as_u8 (r : RegA2) : Z :=
  match r with
  | A2_8 => 0 | A2_16 => 1
  end.

Definition RegA2_from (val : Z) : option RegA2 :=
  match val with
  | 0 => Some A2_8 | 1 => Some A2_16
  | _ => None
  end.

Inductive RegF :=
| F16B | F16 | F32 | F64 | F80 | F128 | F256 | F512.

Definition RegF_as_u8 (r : RegF) : Z :=
  match r with
  | F16B => 0 | F16 => 1 | F32 => 2 | F64 => 3 | F80 => 4 | F128 => 5 | F256 => 6 | F512 => 7
  end.

Definition RegF_from (val : Z) : option RegF :=
  match val with
  | 0 => Some F16B | 1 => Some F16 | 2 => Some F32 | 3 => Some F64 | 4 => Some F80
  | 5 => Some F128 | 6 => Some F256 | 7 => Some F512
  | _ => None
  end.

Inductive RegR :=
| R128 | R160 | R256 | R512 | R1024 | R2048 | R4096 | R8192.

Definition RegR_as_u8 (r : RegR) : Z :=
  match r with
  | R128 => 0 | R160 => 1 | R256 => 2 | R512 => 3 | R1024 => 4 | R2048 => 5 | R4096 => 6
  | R8192 => 7
  end.

Definition RegR_from (val : Z) : option RegR :=
  match val with
  | 0 => Some R128 | 1 => Some R160 | 2 => Some R256 | 3 => Some R512 | 4 => Some R1024
  | 5 => Some R2048 | 6 => Some R4096 | 7 => Some R8192
  | _ => None
  end.

Inductive RegAF := AF_A (a : RegA) | AF_F (f : RegF).

Definition RegAF_as_u4 (r : RegAF) : Z :=
  match r with AF_A a => RegA_as_u8 a | AF_F f => RegF_as_u8 f + 8 end.
Definition RegAF_from (val : Z) : option RegAF :=
  if val <=? 7 then AF_A <$> RegA_from val else AF_F <$> RegF_from (val - 8).

Inductive RegAR := AR_A (a : RegA) | AR_R (r : RegR).

Definition RegAR_as_u4 (r : RegAR) : Z :=
  match r with AR_A a => RegA_as_u8 a | AR_R r => RegR_as_u8 r + 8 end.
Definition RegAR_from (val : Z) : option RegAR :=
  if val <=? 7 then AR_A <$> RegA_from val else AR_R <$> RegR_from (val - 8).

Inductive RegBlockAR := BlockA | BlockR.

(** Sizes in bytes ([NumericRegister::bytes]). *)
Definition RegA_bytes (r : RegA) : Z :=
  match r with
  | A8 => 1 | A16 => 2 | A32 => 4 | A64 => 8 | A128 => 16 | A256 => 32 | A512 => 64 | A1024 => 128
  end.
Definition RegF_bytes (r : RegF) : Z :=
  match r with
  | F16B => 2 | F16 => 2 | F32 => 4 | F64 => 8 | F80 => 10 | F128 => 16 | F256 => 32 | F512 => 64
  end.
Definition RegR_bytes (r : RegR) : Z :=
  match r with
  | R128 => 16 | R160 => 20 | R256 => 32 | R512 => 64 | R1024 => 128 | R2048 => 256
  | R4096 => 512 | R8192 => 1024
  end.

(** ** Register indexes *)

Inductive Reg32 :=
| Reg32_0 | Reg32_1 | Reg32_2 | Reg32_3 | Reg32_4 | Reg32_5 | Reg32_6 | Reg32_7 | Reg32_8
| Reg32_9 | Reg32_10 | Reg32_11 | Reg32_12 | Reg32_13 | Reg32_14 | Reg32_15 | Reg32_16
| Reg32_17 | Reg32_18 | Reg32_19 | Reg32_20 | Reg32_21 | Reg32_22 | Reg32_23 | Reg32_24
| Reg32_25 | Reg32_26 | Reg32_27 | Reg32_28 | Reg32_29 | Reg32_30 | Reg32_31.

Definition Reg32_as_u8 (r : Reg32) : Z :=
  match r with
  | Reg32_0 => 0 | Reg32_1 => 1 | Reg32_2 => 2 | Reg32_3 => 3 | Reg32_4 => 4 | Reg32_5 => 5
  | Reg32_6 => 6 | Reg32_7 => 7 | Reg32_8 => 8 | Reg32_9 => 9 | Reg32_10 => 10 | Reg32_11 => 11
  | Reg32_12 => 12 | Reg32_13 => 13 | Reg32_14 => 14 | Reg32_15 => 15 | Reg32_16 => 16
  | Reg32_17 => 17 | Reg32_18 => 18 | Reg32_19 => 19 | Reg32_20 => 20 | Reg32_21 => 21
  | Reg32_22 => 22 | Reg32_23 => 23 | Reg32_24 => 24 | Reg32_25 => 25 | Reg32_26 => 26
  | Reg32_27 => 27 | Reg32_28 => 28 | Reg32_29 => 29 | Reg32_30 => 30 | Reg32_31 => 31
  end.

Definition Reg32_from (val : Z) : option Reg32 :=
  match val with
  | 0 => Some Reg32_0 | 1 => Some Reg32_1 | 2 => Some Reg32_2 | 3 => Some Reg32_3
  | 4 => Some Reg32_4 | 5 => Some Reg32_5 | 6 => Some Reg32_6 | 7 => Some Reg32_7
  | 8 => Some Reg32_8 | 9 => Some Reg32_9 | 10 => Some Reg32_10 | 11 => Some Reg32_11
  | 12 => Some Reg32_12 | 13 => Some Reg32_13 | 14 => Some Reg32_14 | 15 => Some Reg32_15
  | 16 => Some Reg32_16 | 17 => Some Reg32_17 | 18 => Some Reg32_18 | 19 => Some Reg32_19
  | 20 => Some Reg32_20 | 21 => Some Reg32_21 | 22 => Some Reg32_22 | 23 => Some Reg32_23
  | 24 => Some Reg32_24 | 25 => Some Reg32_25 | 26 => Some Reg32_26 | 27 => Some Reg32_27
  | 28 => Some Reg32_28 | 29 => Some Reg32_29 | 30 => Some Reg32_30 | 31 => Some Reg32_31
  | _ => None
  end.

Inductive Reg16 :=
| Reg16_0 | Reg16_1 | Reg16_2 | Reg16_3 | Reg16_4 | Reg16_5 | Reg16_6 | Reg16_7 | Reg16_8
| Reg16_9 | Reg16_10 | Reg16_11 | Reg16_12 | Reg16_13 | Reg16_14 | Reg16_15.

Definition Reg16_as_u8 (r : Reg16) : Z :=
  match r with
  | Reg16_0 => 0 | Reg16_1 => 1 | Reg16_2 => 2 | Reg16_3 => 3 | Reg16_4 => 4 | Reg16_5 => 5
  | Reg16_6 => 6 | Reg16_7 => 7 | Reg16_8 => 8 | Reg16_9 => 9 | Reg16_10 => 10 | Reg16_11 => 11
  | Reg16_12 => 12 | Reg16_13 => 13 | Reg16_14 => 14 | Reg16_15 => 15
  end.

Definition Reg16_from (val : Z) : option Reg16 :=
  match val with
  | 0 => Some Reg16_0 | 1 => Some Reg16_1 | 2 => Some Reg16_2 | 3 => Some Reg16_3
  | 4 => Some Reg16_4 | 5 => Some Reg16_5 | 6 => Some Reg16_6 | 7 => Some Reg16_7
  | 8 => Some Reg16_8 | 9 => Some Reg16_9 | 10 => Some Reg16_10 | 11 => Some Reg16_11
  | 12 => Some Reg16_12 | 13 => Some Reg16_13 | 14 => Some Reg16_14 | 15 => Some Reg16_15
  | _ => None
  end.

Inductive Reg8 :=
| Reg8_0 | Reg8_1 | Reg8_2 | Reg8_3 | Reg8_4 | Reg8_5 | Reg8_6 | Reg8_7.

Definition Reg8_as_u8 (r : Reg8) : Z :=
  match r with
  | Reg8_0 => 0 | Reg8_1 => 1 | Reg8_2 => 2 | Reg8_3 => 3 | Reg8_4 => 4 | Reg8_5 => 5
  | Reg8_6 => 6 | Reg8_7 => 7
  end.

Definition Reg8_from (val : Z) : option Reg8 :=
  match val with
  | 0 => Some Reg8_0 | 1 => Some Reg8_1 | 2 => Some Reg8_2 | 3 => Some Reg8_3
  | 4 => Some Reg8_4 | 5 => Some Reg8_5 | 6 => Some Reg8_6 | 7 => Some Reg8_7
  | _ => None
  end.

(** The index of a string register, a [u4]. *)
Record RegS := mkRegS { s_index : Z }.

Definition RegS_from_u8 (val : Z) : RegS := mkRegS (val mod 16).

(** ** Flags *)

Inductive SignFlag :=
| Unsigned | Signed.

Definition SignFlag_as_u8 (r : SignFlag) : Z :=
  match r with
  | Unsigned => 0 | Signed => 1
  end.

Definition SignFlag_from (val : Z) : option SignFlag :=
  match val with
  | 0 => Some Unsigned | 1 => Some Signed
  | _ => None
  end.

Inductive NoneEqFlag :=
| NonEqual | Equal.

Definition NoneEqFlag_as_u8 (r : NoneEqFlag) : Z :=
  match r with
  | NonEqual => 0 | Equal => 1
  end.

Definition NoneEqFlag_from (val : Z) : option NoneEqFlag :=
  match val with
  | 0 => Some NonEqual | 1 => Some Equal
  | _ => None
  end.

Inductive FloatEqFlag :=
| Exact | Rounding.

Definition FloatEqFlag_as_u8 (r : FloatEqFlag) : Z :=
  match r with
  | Exact => 0 | Rounding => 1
  end.

Definition FloatEqFlag_from (val : Z) : option FloatEqFlag :=
  match val with
  | 0 => Some Exact | 1 => Some Rounding
  | _ => None
  end.

Inductive RoundingFlag :=
| TowardsZero | TowardsNearest | Floor | Ceil.

Definition RoundingFlag_as_u8 (r : RoundingFlag) : Z :=
  match r with
  | TowardsZero => 0 | TowardsNearest => 1 | Floor => 2 | Ceil => 3
  end.

Definition RoundingFlag_from (val : Z) : option RoundingFlag :=
  match val with
  | 0 => Some TowardsZero | 1 => Some TowardsNearest | 2 => Some Floor | 3 => Some Ceil
  | _ => None
  end.

Record IntFlags := { signed : bool; wrap : bool }.

(** [signed | wrap << 1] *)
Definition IntFlags_as_u2 (f : IntFlags) : Z :=
  Z.lor (Z.b2z (signed f)) (Z.shiftl (Z.b2z (wrap f)) 1).
(** [val & 0x01 == 1] and [val & (0x02 >> 1) == 1] *)
Definition IntFlags_from_u2 (val : Z) : IntFlags := {|
  signed := Z.land val 1 =? 1;
  wrap := Z.land val (Z.shiftr 2 1) =? 1 |}.

Inductive MergeFlag :=
| MergeSet | MergeAdd | MergeAnd | MergeOr.

Definition MergeFlag_as_u8 (r : MergeFlag) : Z :=
  match r with
  | MergeSet => 0 | MergeAdd => 1 | MergeAnd => 2 | MergeOr => 3
  end.

Definition MergeFlag_from (val : Z) : option MergeFlag :=
  match val with
  | 0 => Some MergeSet | 1 => Some MergeAdd | 2 => Some MergeAnd | 3 => Some MergeOr
  | _ => None
  end.

Inductive ExtendFlag :=
| ExtendExtend | ExtendFail.

Definition ExtendFlag_as_u8 (r : ExtendFlag) : Z :=
  match r with
  | ExtendExtend => 0 | ExtendFail => 1
  end.

Definition ExtendFlag_from (val : Z) : option ExtendFlag :=
  match val with
  | 0 => Some ExtendExtend | 1 => Some ExtendFail
  | _ => None
  end.

Inductive SplitFlag :=
| NoneNone | NoneNoneOnEmpty | NoneZeroOnEmpty | ZeroZeroOnEmpty | CutNone | CutZero
| ZeroNone | ZeroZero.

Definition SplitFlag_as_u8 (r : SplitFlag) : Z :=
  match r with
  | NoneNone => 0 | NoneNoneOnEmpty => 1 | NoneZeroOnEmpty => 2 | ZeroZeroOnEmpty => 3
  | CutNone => 4 | CutZero => 5 | ZeroNone => 6 | ZeroZero => 7
  end.

Definition SplitFlag_from (val : Z) : option SplitFlag :=
  match val with
  | 0 => Some NoneNone | 1 => Some NoneNoneOnEmpty | 2 => Some NoneZeroOnEmpty
  | 3 => Some ZeroZeroOnEmpty | 4 => Some CutNone | 5 => Some CutZero | 6 => Some ZeroNone
  | 7 => Some ZeroZero
  | _ => None
  end.

Inductive InsertFlag :=
| InsFailOnLen | InsFailOnOffset | InsFailOnOffsetLen | InsExtend | InsAppend
| InsExtendCut | InsCut | InsShorten.

Definition InsertFlag_as_u8 (r : InsertFlag) : Z :=
  match r with
  | InsFailOnLen => 0 | InsFailOnOffset => 1 | InsFailOnOffsetLen => 2 | InsExtend => 3
  | InsAppend => 4 | InsExtendCut => 5 | InsCut => 6 | InsShorten => 7
  end.

Definition InsertFlag_from (val : Z) : option InsertFlag :=
  match val with
  | 0 => Some InsFailOnLen | 1 => Some InsFailOnOffset | 2 => Some InsFailOnOffsetLen
  | 3 => Some InsExtend | 4 => Some InsAppend | 5 => Some InsExtendCut | 6 => Some InsCut
  | 7 => Some InsShorten
  | _ => None
  end.

Inductive DeleteFlag :=
| DelNone | DelZero | DelCut | DelExtend.

Definition DeleteFlag_as_u8 (r : DeleteFlag) : Z :=
  match r with
  | DelNone => 0 | DelZero => 1 | DelCut => 2 | DelExtend => 3
  end.

Definition DeleteFlag_from (val : Z) : option DeleteFlag :=
  match val with
  | 0 => Some DelNone | 1 => Some DelZero | 2 => Some DelCut | 3 => Some DelExtend
  | _ => None
  end.

(** ** Instances *)

#[export] Instance RegA_eq_dec : EqDecision RegA.
Proof. solve_decision. Defined.
#[export] Instance RegA2_eq_dec : EqDecision RegA2.
Proof. solve_decision. Defined.
#[export] Instance RegF_eq_dec : EqDecision RegF.
Proof. solve_decision. Defined.
#[export] Instance RegR_eq_dec : EqDecision RegR.
Proof. solve_decision. Defined.
#[export] Instance Reg32_eq_dec : EqDecision Reg32.
Proof. solve_decision. Defined.
#[export] Instance Reg16_eq_dec : EqDecision Reg16.
Proof. solve_decision. Defined.
#[export] Instance Reg8_eq_dec : EqDecision Reg8.
Proof. solve_decision. Defined.
#[export] Instance SignFlag_eq_dec : EqDecision SignFlag.
Proof. solve_decision. Defined.
#[export] Instance NoneEqFlag_eq_dec : EqDecision NoneEqFlag.
Proof. solve_decision. Defined.
#[export] Instance FloatEqFlag_eq_dec : EqDecision FloatEqFlag.
Proof. solve_decision. Defined.
#[export] Instance RoundingFlag_eq_dec : EqDecision RoundingFlag.
Proof. solve_decision. Defined.
#[export] Instance MergeFlag_eq_dec : EqDecision MergeFlag.
Proof. solve_decision. Defined.
#[export] Instance ExtendFlag_eq_dec : EqDecision ExtendFlag.
Proof. solve_decision. Defined.
#[export] Instance SplitFlag_eq_dec : EqDecision SplitFlag.
Proof. solve_decision. Defined.
#[export] Instance InsertFlag_eq_dec : EqDecision InsertFlag.
Proof. solve_decision. Defined.
#[export] Instance DeleteFlag_eq_dec : EqDecision DeleteFlag.
Proof. solve_decision. Defined.
#[export] Instance RegAF_eq_dec : EqDecision RegAF.
Proof. solve_decision. Defined.
#[export] Instance RegAR_eq_dec : EqDecision RegAR.
Proof. solve_decision. Defined.
#[export] Instance RegBlockAR_eq_dec : EqDecision RegBlockAR.
Proof. solve_decision. Defined.
#[export] Instance RegS_eq_dec : EqDecision RegS.
Proof. solve_decision. Defined.
#[export] Instance IntFlags_eq_dec : EqDecision IntFlags.
Proof. solve_decision. Defined.

(** Enumerations are always valid. *)
Ltac enum_wire := exists (fun _ => True); intros []; intros _; vm_compute; (done || split; congruence).

#[export] Instance RegA_bits : Bits RegA := {| to_bits := RegA_as_u8; of_bits := RegA_from |}.
#[export] Instance RegA_wire : Wire 3 RegA.
Proof. enum_wire. Defined.
#[export] Instance RegA2_bits : Bits RegA2 := {| to_bits := RegA2_as_u8; of_bits := RegA2_from |}.
#[export] Instance RegA2_wire : Wire 1 RegA2.
Proof. enum_wire. Defined.
#[export] Instance RegF_bits : Bits RegF := {| to_bits := RegF_as_u8; of_bits := RegF_from |}.
#[export] Instance RegF_wire : Wire 3 RegF.
Proof. enum_wire. Defined.
#[export] Instance RegR_bits : Bits RegR := {| to_bits := RegR_as_u8; of_bits := RegR_from |}.
#[export] Instance RegR_wire : Wire 3 RegR.
Proof. enum_wire. Defined.
#[export] Instance Reg32_bits : Bits Reg32 := {| to_bits := Reg32_as_u8; of_bits := Reg32_from |}.
#[export] Instance Reg32_wire : Wire 5 Reg32.
Proof. enum_wire. Defined.
#[export] Instance Reg16_bits : Bits Reg16 := {| to_bits := Reg16_as_u8; of_bits := Reg16_from |}.
#[export] Instance Reg16_wire : Wire 4 Reg16.
Proof. enum_wire. Defined.
#[export] Instance Reg8_bits : Bits Reg8 := {| to_bits := Reg8_as_u8; of_bits := Reg8_from |}.
#[export] Instance Reg8_wire : Wire 3 Reg8.
Proof. enum_wire. Defined.
#[export] Instance SignFlag_bits : Bits SignFlag := {| to_bits := SignFlag_as_u8; of_bits := SignFlag_from |}.
#[export] Instance SignFlag_wire : Wire 1 SignFlag.
Proof. enum_wire. Defined.
#[export] Instance NoneEqFlag_bits : Bits NoneEqFlag := {| to_bits := NoneEqFlag_as_u8; of_bits := NoneEqFlag_from |}.
#[export] Instance NoneEqFlag_wire : Wire 1 NoneEqFlag.
Proof. enum_wire. Defined.
#[export] Instance FloatEqFlag_bits : Bits FloatEqFlag := {| to_bits := FloatEqFlag_as_u8; of_bits := FloatEqFlag_from |}.
#[export] Instance FloatEqFlag_wire : Wire 1 FloatEqFlag.
Proof. enum_wire. Defined.
#[export] Instance RoundingFlag_bits : Bits RoundingFlag := {| to_bits := RoundingFlag_as_u8; of_bits := RoundingFlag_from |}.
#[export] Instance RoundingFlag_wire : Wire 2 RoundingFlag.
Proof. enum_wire. Defined.
#[export] Instance MergeFlag_bits : Bits MergeFlag := {| to_bits := MergeFlag_as_u8; of_bits := MergeFlag_from |}.
#[export] Instance MergeFlag_wire : Wire 2 MergeFlag.
Proof. enum_wire. Defined.
#[export] Instance ExtendFlag_bits : Bits ExtendFlag := {| to_bits := ExtendFlag_as_u8; of_bits := ExtendFlag_from |}.
#[export] Instance ExtendFlag_wire : Wire 1 ExtendFlag.
Proof. enum_wire. Defined.
#[export] Instance SplitFlag_bits : Bits SplitFlag := {| to_bits := SplitFlag_as_u8; of_bits := SplitFlag_from |}.
#[export] Instance SplitFlag_wire : Wire 3 SplitFlag.
Proof. enum_wire. Defined.
#[export] Instance InsertFlag_bits : Bits InsertFlag := {| to_bits := InsertFlag_as_u8; of_bits := InsertFlag_from |}.
#[export] Instance InsertFlag_wire : Wire 3 InsertFlag.
Proof. enum_wire. Defined.
#[export] Instance DeleteFlag_bits : Bits DeleteFlag := {| to_bits := DeleteFlag_as_u8; of_bits := DeleteFlag_from |}.
#[export] Instance DeleteFlag_wire : Wire 2 DeleteFlag.
Proof. enum_wire. Defined.

#[export] Instance RegAF_bits : Bits RegAF := {| to_bits := RegAF_as_u4; of_bits := RegAF_from |}.
#[export] Instance RegAF_wire : Wire 4 RegAF.
Proof. exists (fun _ => True); intros [[]|[]]; intros _; vm_compute; (done || split; congruence). Defined.
#[export] Instance RegAR_bits : Bits RegAR := {| to_bits := RegAR_as_u4; of_bits := RegAR_from |}.
#[export] Instance RegAR_wire : Wire 4 RegAR.
Proof. exists (fun _ => True); intros [[]|[]]; intros _; vm_compute; (done || split; congruence). Defined.
#[export] Instance bool_bits : Bits bool := {| to_bits := Z.b2z; of_bits v := Some (v =? 1) |}.
#[export] Instance bool_wire : Wire 1 bool.
Proof. enum_wire. Defined.

(** [RegS] is written as 4 bits or as a whole byte. *)
#[export] Instance RegS_bits : Bits RegS := {| to_bits := s_index; of_bits v := Some (RegS_from_u8 v) |}.
Definition RegS_ok (r : RegS) : Prop := 0 <= s_index r < 16.
Lemma RegS_back r : RegS_ok r -> of_bits (to_bits r) = Some r.
Proof. intros H. cbn. unfold RegS_from_u8. rewrite Z.mod_small by done. by destruct r. Qed.
#[export] Instance RegS_wire4 : Wire 4 RegS.
Proof. exists RegS_ok; [done|apply RegS_back]. Defined.
#[export] Instance RegS_wire8 : Wire 8 RegS.
Proof. exists RegS_ok; [unfold RegS_ok; cbn; lia|apply RegS_back]. Defined.

(** The integer flags survive only when both are equal: see
    [int_flags_roundtrip]. *)
#[export] Instance IntFlags_bits : Bits IntFlags :=
  {| to_bits := IntFlags_as_u2; of_bits v := Some (IntFlags_from_u2 v) |}.
#[export] Instance IntFlags_wire : Wire 2 IntFlags.
Proof.
  exists (fun f => signed f = wrap f); intros [[] []]; cbn; intros; (done || lia || discriminate).
Defined.

(** ** The text of flags *)

Inductive ParseFlagError :=
| UnknownFlag (desc : string) (c : ascii)
| UnknownFlags (desc flags : string)
| MutuallyExclusiveFlags (desc : string) (a b : ascii)
| RequiredFlagAbsent (desc : string)
| DuplicatedFlags (desc flags : string).

(** The outcome of a [from_str] that may index out of bounds. *)
Inductive flag_fault := FlagPanic | FlagErr (e : ParseFlagError).

Fixpoint str_contains (c : ascii) (s : string) : bool :=
  match s with EmptyString => false | String d s' => Ascii.eqb d c || str_contains c s' end.
(** [s.replace(&[..][..], "")] *)
Fixpoint str_remove (cs : list ascii) (s : string) : string :=
  match s with
  | EmptyString => EmptyString
  | String d s' => if existsb (Ascii.eqb d) cs then str_remove cs s' else String d (str_remove cs s')
  end.
(** [s.as_bytes()[n]] *)
Definition byte_at (s : string) (n : nat) : result flag_fault ascii :=
  match String.get n s with Some c => Ok c | None => Err FlagPanic end.

(** Flags given by one of two letters. *)
Definition two_way {A} (desc : string) (a b : ascii) (fa fb : A) (s : string) : result flag_fault A :=
  if str_is_empty s then Err (FlagErr (RequiredFlagAbsent desc)) else
  let filtered := str_remove [a; b] s in
  if negb (str_is_empty filtered) then Err (FlagErr (UnknownFlags desc filtered)) else
  match str_contains a s, str_contains b s with
  | true, false => Ok fa
  | false, true => Ok fb
  | true, true => Err (FlagErr (MutuallyExclusiveFlags desc a b))
  | false, false => Err (FlagErr (RequiredFlagAbsent desc))
  end.

Definition SignFlag_from_str := two_way "integer sign" "u" "s" Unsigned Signed.
Definition NoneEqFlag_from_str := two_way "none-equality" "e" "n" Equal NonEqual.
Definition FloatEqFlag_from_str := two_way "float equality" "e" "r" Exact Rounding.
Definition ExtendFlag_from_str := two_way "extension flag" "e" "f" ExtendExtend ExtendFail.

Definition RoundingFlag_from_str (s : string) : result flag_fault RoundingFlag :=
  if str_is_empty s then Err (FlagErr (RequiredFlagAbsent "float rounding")) else
  let filtered := str_remove ["n"; "z"; "c"; "f"]%char s in
  if negb (str_is_empty filtered) then Err (FlagErr (UnknownFlags "float rounding" filtered)) else
  if 1 <? str_len s then
    a ← byte_at s 0; b ← byte_at s 1; Err (FlagErr (MutuallyExclusiveFlags "float rounding" a b))
  else if str_contains "n" s then Ok TowardsNearest
  else if str_contains "z" s then Ok TowardsZero
  else if str_contains "c" s then Ok Ceil
  else if str_contains "f" s then Ok Floor
  else a ← byte_at s 0; Err (FlagErr (UnknownFlag "float rounding" a)).

Definition IntFlags_from_str (s : string) : result flag_fault IntFlags :=
  sg ← match str_contains "s" s, str_contains "u" s with
    | true, false => Ok true
    | false, true => Ok false
    | true, true => Err (FlagErr (MutuallyExclusiveFlags "integer serialization" "s" "u"))
    | false, false => Err (FlagErr (RequiredFlagAbsent "integer serialization"))
    end;
  wr ← match str_contains "w" s, str_contains "c" s with
    | true, false => Ok true
    | false, true => Ok false
    | true, true => Err (FlagErr (MutuallyExclusiveFlags "overflow" "w" "c"))
    | false, false => Err (FlagErr (RequiredFlagAbsent "overflow"))
    end;
  if 2 <? str_len s
  then Err (FlagErr (UnknownFlags "integer serialization" (str_remove ["s"; "u"; "c"; "w"]%char s)))
  else Ok {| signed := sg; wrap := wr |}.

Definition MergeFlag_from_str (s : string) : result flag_fault MergeFlag :=
  if str_is_empty s then Err (FlagErr (RequiredFlagAbsent "merge operation")) else
  let filtered := str_remove ["s"; "a"; "n"; "o"]%char s in
  if negb (str_is_empty filtered) then Err (FlagErr (UnknownFlags "merge operation" filtered)) else
  if 1 <? str_len s then
    a ← byte_at s 0; b ← byte_at s 1; Err (FlagErr (MutuallyExclusiveFlags "merge" a b))
  else if str_contains "s" s then Ok MergeSet
  else if str_contains "a" s then Ok MergeAdd
  else if str_contains "n" s then Ok MergeAnd
  else if str_contains "o" s then Ok MergeOr
  else a ← byte_at s 0; Err (FlagErr (UnknownFlag "merge operation" a)).

Definition SplitFlag_from_str (s : string) : result flag_fault SplitFlag :=
  if str_is_empty s then Err (FlagErr (RequiredFlagAbsent "split operation")) else
  if String.eqb s "n" then Ok NoneNone
  else if String.eqb s "nn" then Ok NoneNoneOnEmpty
  else if String.eqb s "nz" then Ok NoneZeroOnEmpty
  else if String.eqb s "ee" then Ok ZeroZeroOnEmpty
  else if String.eqb s "cn" then Ok CutNone
  else if String.eqb s "cz" then Ok CutZero
  else if String.eqb s "zn" then Ok ZeroNone
  else if String.eqb s "zz" then Ok ZeroZero
  else Err (FlagErr (UnknownFlags "split operation" s)).

(** The letter is looked up in what is left after the known letters have been
    removed, which is empty by then. *)
Definition InsertFlag_from_str (s : string) : result flag_fault InsertFlag :=
  if str_is_empty s then Err (FlagErr (RequiredFlagAbsent "insert operation")) else
  let filtered := str_remove ["l"; "o"; "f"; "e"; "a"; "x"; "c"; "s"]%char s in
  if negb (str_is_empty filtered) then Err (FlagErr (UnknownFlags "insert operation" filtered)) else
  if 1 <? str_len filtered then Err (FlagErr (DuplicatedFlags "insert operation" filtered)) else
  c ← byte_at filtered 0;
  if Ascii.eqb c "l" then Ok InsFailOnLen
  else if Ascii.eqb c "o" then Ok InsFailOnOffset
  else if Ascii.eqb c "f" then Ok InsFailOnOffsetLen
  else if Ascii.eqb c "e" then Ok InsExtend
  else if Ascii.eqb c "a" then Ok InsAppend
  else if Ascii.eqb c "x" then Ok InsExtendCut
  else if Ascii.eqb c "c" then Ok InsCut
  else if Ascii.eqb c "s" then Ok InsShorten
  else Err FlagPanic.

Definition DeleteFlag_from_str (s : string) : result flag_fault DeleteFlag :=
  if str_is_empty s then Err (FlagErr (RequiredFlagAbsent "delete operation")) else
  let filtered := str_remove ["n"; "z"; "c"; "e"]%char s in
  if negb (str_is_empty filtered) then Err (FlagErr (UnknownFlags "delete operation" filtered)) else
  if 1 <? str_len filtered then Err (FlagErr (DuplicatedFlags "delete operation" filtered)) else
  c ← byte_at filtered 0;
  if Ascii.eqb c "n" then Ok DelNone
  else if Ascii.eqb c "z" then Ok DelZero
  else if Ascii.eqb c "c" then Ok DelCut
  else if Ascii.eqb c "e" then Ok DelExtend
  else Err FlagPanic.

(** The [Display] form of the flags. *)
Definition SignFlag_display (f : SignFlag) : string :=
  match f with Unsigned => "u" | Signed => "s" end.
Definition NoneEqFlag_display (f : NoneEqFlag) : string :=
  match f with Equal => "e" | NonEqual => "n" end.
Definition FloatEqFlag_display (f : FloatEqFlag) : string :=
  match f with Exact => "e" | Rounding => "r" end.
Definition RoundingFlag_display (f : RoundingFlag) : string :=
  match f with TowardsZero => "z" | TowardsNearest => "n" | Floor => "f" | Ceil => "c" end.
Definition IntFlags_display (f : IntFlags) : string :=
  (if signed f then "s" else "u") +:+ (if wrap f then "w" else "c").
Definition MergeFlag_display (f : MergeFlag) : string :=
  match f with MergeSet => "s" | MergeAdd => "a" | MergeAnd => "n" | MergeOr => "o" end.
Definition ExtendFlag_display (f : ExtendFlag) : string :=
  match f with ExtendExtend => "e" | ExtendFail => "f" end.
Definition SplitFlag_display (f : SplitFlag) : string :=
  match f with
  | NoneNone => "n" | NoneNoneOnEmpty => "nn" | NoneZeroOnEmpty => "nz" | ZeroZeroOnEmpty => "ee"
  | CutNone => "cn" | CutZero => "cz" | ZeroNone => "zn" | ZeroZero => "zz"
  end.
Definition InsertFlag_display (f : InsertFlag) : string :=
  match f with
  | InsFailOnLen => "l" | InsFailOnOffset => "o" | InsFailOnOffsetLen => "f" | InsExtend => "e"
  | InsAppend => "a" | InsExtendCut => "x" | InsCut => "c" | InsShorten => "s"
  end.
Definition DeleteFlag_display (f : DeleteFlag) : string :=
  match f with DelNone => "n" | DelZero => "z" | DelCut => "c" | DelExtend => "e" end.

(** Every flag but the insert and delete ones is read back from the text
    it is printed as. *)
Theorem flag_text_roundtrip :
  (forall f, SignFlag_from_str (SignFlag_display f) = Ok f) /\
  (forall f, NoneEqFlag_from_str (NoneEqFlag_display f) = Ok f) /\
  (forall f, FloatEqFlag_from_str (FloatEqFlag_display f) = Ok f) /\
  (forall f, RoundingFlag_from_str (RoundingFlag_display f) = Ok f) /\
  (forall f, IntFlags_from_str (IntFlags_display f) = Ok f) /\
  (forall f, MergeFlag_from_str (MergeFlag_display f) = Ok f) /\
  (forall f, ExtendFlag_from_str (ExtendFlag_display f) = Ok f) /\
  (forall f, SplitFlag_from_str (SplitFlag_display f) = Ok f).
Proof. split_and!; intros []; try done. by destruct signed0, wrap0. Qed.

(** The insert and delete flags are never parsed: the letter is looked up
    after all known letters have been removed from the text, so a text made of
    known letters, such as the printed form of any flag, makes [from_str]
    panic and any other text is refused. *)
Theorem insert_delete_flags_unparsable :
  (forall s f, InsertFlag_from_str s <> Ok f) /\ (forall s f, DeleteFlag_from_str s <> Ok f) /\
  (forall f, InsertFlag_from_str (InsertFlag_display f) = Err FlagPanic) /\
  (forall f, DeleteFlag_from_str (DeleteFlag_display f) = Err FlagPanic).
Proof.
  split_and!; try by intros [].
  - intros s f. unfold InsertFlag_from_str. destruct (str_is_empty s); [done|].
    by destruct (str_remove _ s).
  - intros s f. unfold DeleteFlag_from_str. destruct (str_is_empty s); [done|].
    by destruct (str_remove _ s).
Qed.

(** The two integer flags share one bit when they are decoded: a flag
    set is read back exactly when "signed" and "wrap" are equal, so a signed
    checked operation is decoded as a wrapping one and an unsigned wrapping one
    as a checked one. *)
Theorem int_flags_roundtrip f :
  IntFlags_from_u2 (IntFlags_as_u2 f) = f <-> signed f = wrap f.
Proof. destruct f as [[] []]; cbn; split; (done || discriminate). Qed.
