(* ===== verification/AluNumber.v ===== *)
(** * AluVM: numbers (crates/rgb-aluvm/src/data/number.rs, arithm.rs, bitwise.rs)

    A [Number] is a layout and a 1024-byte array; the array is kept as the
    little-endian integer it spells ([raw]), so that byte [i] is bits
    [8 i, 8 i + 8).  The 1024-bit integers the arithmetic goes through come from
    a third-party crate and are the class [Wide]; floating point is the record
    [Floats].  Assertions, [todo!] and [unimplemented!] are the error [Abort]. *)

From S2P Require Import Prelude AluReg.
Local Open Scope Z_scope.

(** ** Panics *)

Inductive panic := Abort (why : string).

Abbreviation P := (result panic).

Definition assert_ (b : bool) (why : string) : P unit := ensure b (Abort why).

(** ** Layouts *)

Record IntLayout := mkInt { il_signed : bool; il_bytes : Z }.

Inductive FloatLayout :=
| BFloat16 | IeeeHalf | IeeeSingle | IeeeDouble | X87DoubleExt | IeeeQuad | IeeeOct | FloatTapered.

Inductive Layout := Integer (il : IntLayout) | Float (fl : FloatLayout).

#[export] Instance IntLayout_eq_dec : EqDecision IntLayout.
Proof. solve_decision. Defined.
#[export] Instance FloatLayout_eq_dec : EqDecision FloatLayout.
Proof. solve_decision. Defined.
#[export] Instance Layout_eq_dec : EqDecision Layout.
Proof. solve_decision. Defined.

Definition signed_layout (bytes : Z) : Layout := Integer (mkInt true bytes).
Definition unsigned_layout (bytes : Z) : Layout := Integer (mkInt false bytes).

Definition FloatLayout_bytes (fl : FloatLayout) : Z :=
  match fl with
  | BFloat16 | IeeeHalf => 2 | IeeeSingle => 4 | IeeeDouble => 8 | X87DoubleExt => 10
  | IeeeQuad => 16 | IeeeOct => 32 | FloatTapered => 64
  end.

Definition Layout_bytes (l : Layout) : Z :=
  match l with Integer il => il_bytes il | Float fl => FloatLayout_bytes fl end.

Definition is_signed_int (l : Layout) : bool :=
  match l with Integer (mkInt s _) => s | Float _ => false end.
Definition is_unsigned_int (l : Layout) : bool :=
  match l with Integer (mkInt s _) => negb s | Float _ => false end.
Definition is_integer (l : Layout) : bool :=
  match l with Integer _ => true | Float _ => false end.
Definition is_float (l : Layout) : bool := negb (is_integer l).

(** [Layout::into_signed], [Layout::into_unsigned] *)
Definition with_sign (s : bool) (l : Layout) : Layout :=
  match l with Integer il => Integer (mkInt s (il_bytes il)) | Float _ => l end.

(** [IntLayout::using_sign] *)
Definition int_using_sign (self other : IntLayout) : IntLayout :=
  mkInt (il_signed other) (il_bytes self).

(** [Layout::using_sign]: the source applies [il2.using_sign(il2)]. *)
Definition using_sign (self other : Layout) : Layout :=
  match self, other with
  | Integer il, Integer il2 => Integer (int_using_sign il2 il2)
  | _, _ => self
  end.

Definition sign_byte (l : Layout) : Z := Layout_bytes l - 1.

(** [NumericRegister::layout] *)
Definition RegF_float (r : RegF) : FloatLayout :=
  match r with
  | F16B => BFloat16 | F16 => IeeeHalf | F32 => IeeeSingle | F64 => IeeeDouble
  | F80 => X87DoubleExt | F128 => IeeeQuad | F256 => IeeeOct | F512 => FloatTapered
  end.
Definition RegA_layout (r : RegA) : Layout := unsigned_layout (RegA_bytes r).
Definition RegF_layout (r : RegF) : Layout := Float (RegF_float r).
Definition RegR_layout (r : RegR) : Layout := unsigned_layout (RegR_bytes r).

(** ** Numbers *)

Record Number := mkNumber { layout : Layout; raw : Z }.

#[export] Instance Number_eq_dec : EqDecision Number.
Proof. solve_decision. Defined.

(** [Number::len] *)
Definition nlen (n : Number) : Z := Layout_bytes (layout n).

(** Byte [i] of the array, and [Index<u16>] with its assertion. *)
Definition byte_of_raw (r i : Z) : Z := Z.shiftr r (8 * i) mod 256.
Definition index (n : Number) (i : Z) : P Z :=
  if (0 <=? i) && (i <? nlen n) then Ok (byte_of_raw (raw n) i) else Err (Abort "index").

(** The first [k] bytes of the array as an integer: [&self.bytes[..k]]. *)
Definition low_bytes (k r : Z) : Z := r mod 2 ^ (8 * k).

Definition zero (l : Layout) : Number := mkNumber l 0.
Definition default_number : Number := zero (unsigned_layout 1).
Definition masked_bit (bit_no : Z) (l : Layout) : Number := mkNumber l (Z.shiftl 1 bit_no).

(** [Number::to_clean] *)
Definition to_clean (n : Number) : Number := mkNumber (layout n) (low_bytes (nlen n) (raw n)).

Definition into_signed (n : Number) : Number := mkNumber (with_sign true (layout n)) (raw n).
Definition into_unsigned (n : Number) : Number := mkNumber (with_sign false (layout n)) (raw n).

(** [Number::with] on the bytes of a slice *)
Fixpoint le (bs : list Z) : Z :=
  match bs with [] => 0 | b :: bs' => b + 256 * le bs' end.
Fixpoint le_bytes (k : nat) (r : Z) : list Z :=
  match k with O => [] | S k' => r mod 256 :: le_bytes k' (r / 256) end.

Definition number_with (slice : list Z) (l : Layout) : option Number :=
  if Z.of_nat (length slice) =? Layout_bytes l then Some (mkNumber l (le slice)) else None.

(** [&self[..]] *)
Definition number_bytes (n : Number) : list Z := le_bytes (Z.to_nat (nlen n)) (raw n).

Definition bitlen (z : Z) : Z := if z <=? 0 then 0 else Z.log2 z + 1.

(** [u8::leading_zeros] and [u8::leading_ones] *)
Definition leading_zeros (b : Z) : Z := 8 - bitlen b.
Definition leading_ones (b : Z) : Z := leading_zeros (255 - b).

(** [u8::count_ones], summed by [Number::count_ones] *)
Fixpoint ones (k : nat) (z : Z) : Z :=
  match k with O => 0 | S k' => Z.b2z (Z.odd z) + ones k' (z / 2) end.
Definition count_ones (n : Number) : Z := ones (8 * Z.to_nat (nlen n)) (raw n).

(** [applying_sign(false)] on a float clears the sign bit. *)
Definition clear_float_sign (n : Number) : Number :=
  mkNumber (layout n) (Z.clearbit (raw n) (8 * sign_byte (layout n) + 7)).

Definition is_zero (n : Number) : bool :=
  let clean := to_clean n in
  let clean := if is_float (layout n) then clear_float_sign clean else clean in
  raw clean =? 0.

Definition is_positive (n : Number) : bool :=
  if is_unsigned_int (layout n) then true
  else if is_zero n then false
  else negb (Z.testbit (byte_of_raw (raw n) (sign_byte (layout n))) 7).

Definition is_negative (n : Number) : bool := negb (is_zero n) && negb (is_positive n).

(** How many of the top bytes equal [b] ([take_while] from the end). *)
Fixpoint run_top (k : nat) (b r : Z) : Z :=
  match k with
  | O => 0
  | S k' => if byte_of_raw r (Z.of_nat k') =? b then 1 + run_top k' b r else 0
  end.

Definition min_bit_len (n : Number) : Z :=
  if is_float (layout n) then 8 * nlen n
  else if nlen n =? 0 then 0
  else
    let empty_bytes := run_top (Z.to_nat (nlen n)) (if is_negative n then 255 else 0) (raw n) in
    let index := if empty_bytes <? nlen n then nlen n - empty_bytes - 1 else 0 in
    let b := byte_of_raw (raw n) index in
    let head_bits := if is_negative n then 8 - leading_ones b else 8 - leading_zeros b in
    index * 8 + head_bits + Z.b2z (is_signed_int (layout n)).

(** ** Integers of the machine and of the amplify crate *)

(** [From<Number> for [u8; len]]: only the bytes below the bit length are
    copied. *)
Definition to_array (len : Z) (n : Number) : P Z :=
  let l := (min_bit_len n + 7) / 8 in
  assert_ (l <=? len) "byte array with incorrect length" ;;
  Ok (low_bytes l (raw n)).

(** [From<Number>] for an unsigned type of [len] bytes *)
Definition to_uint (len : Z) (n : Number) : P Z :=
  assert_ (min_bit_len n <=? len * 8) "type with lower bit dimension" ;;
  to_array len n.

(** The signed value of [len] bytes. *)
Definition to_signed (len z : Z) : Z := if z <? 2 ^ (8 * len - 1) then z else z - 2 ^ (8 * len).

(** [From<Number>] for a signed type of [len] bytes: the sign byte of the layout
    decides the fill, then every byte of the layout is stored. *)
Definition to_int (len : Z) (n : Number) : P Z :=
  assert_ (min_bit_len n <=? len * 8) "type with lower bit dimension" ;;
  b ← index n (sign_byte (layout n));
  assert_ (nlen n <=? len) "index out of bounds" ;;
  let fill := if Z.testbit b 7 then 2 ^ (8 * len) - 2 ^ (8 * nlen n) else 0 in
  Ok (to_signed len (low_bytes (nlen n) (raw n) + fill)).

(** [From] of an unsigned or signed type of [len] bytes *)
Definition from_uint (len z : Z) : Number := mkNumber (unsigned_layout len) z.
Definition from_int (len z : Z) : Number := mkNumber (signed_layout len) (z mod 2 ^ (8 * len)).

(** The operations of [u1024] and [i1024]. *)
Class Wide := {
  u_checked_add : Z -> Z -> option Z;
  u_checked_sub : Z -> Z -> option Z;
  u_checked_mul : Z -> Z -> option Z;
  u_checked_div : Z -> Z -> option Z;
  i_checked_add : Z -> Z -> option Z;
  i_checked_sub : Z -> Z -> option Z;
  i_checked_mul : Z -> Z -> option Z;
  i_checked_div : Z -> Z -> option Z;
  i_checked_div_euclid : Z -> Z -> option Z;
  u_rem : Z -> Z -> Z;
  u_and : Z -> Z -> Z;
  u_or : Z -> Z -> Z;
  u_xor : Z -> Z -> Z;
  u_checked_shl : Z -> Z -> option Z;
  u_checked_shr : Z -> Z -> option Z;
  i_checked_shl : Z -> Z -> option Z;
  i_checked_shr : Z -> Z -> option Z;
}.

Definition in_u1024 (z : Z) : Prop := 0 <= z < 2 ^ 1024.
Definition in_i1024 (z : Z) : Prop := - 2 ^ 1023 <= z < 2 ^ 1023.

Definition fit_u (z : Z) : option Z := if (0 <=? z) && (z <? 2 ^ 1024) then Some z else None.
Definition fit_i (z : Z) : option Z :=
  if (- 2 ^ 1023 <=? z) && (z <? 2 ^ 1023) then Some z else None.

(** The quotient that leaves a remainder that is not negative. *)
Definition div_euclid (a b : Z) : Z :=
  let q := Z.quot a b in
  if Z.rem a b <? 0 then (if 0 <? b then q - 1 else q + 1) else q.

(** The documented behaviour of these types: exact results, [None] outside of
    the range; the shifts answer [None] from the width on. *)
Class WideLaws (W : Wide) := {
  u_add_law a b : in_u1024 a -> in_u1024 b -> u_checked_add a b = fit_u (a + b);
  u_sub_law a b : in_u1024 a -> in_u1024 b -> u_checked_sub a b = fit_u (a - b);
  u_mul_law a b : in_u1024 a -> in_u1024 b -> u_checked_mul a b = fit_u (a * b);
  u_div_law a b : in_u1024 a -> in_u1024 b -> b <> 0 -> u_checked_div a b = Some (a / b);
  i_add_law a b : in_i1024 a -> in_i1024 b -> i_checked_add a b = fit_i (a + b);
  i_sub_law a b : in_i1024 a -> in_i1024 b -> i_checked_sub a b = fit_i (a - b);
  i_mul_law a b : in_i1024 a -> in_i1024 b -> i_checked_mul a b = fit_i (a * b);
  i_div_law a b : in_i1024 a -> in_i1024 b -> b <> 0 -> i_checked_div a b = fit_i (Z.quot a b);
  i_div_euclid_law a b : in_i1024 a -> in_i1024 b -> b <> 0 ->
    i_checked_div_euclid a b = fit_i (div_euclid a b);
  u_rem_law a b : in_u1024 a -> in_u1024 b -> b <> 0 -> u_rem a b = a mod b;
  u_and_law a b : in_u1024 a -> in_u1024 b -> u_and a b = Z.land a b;
  u_or_law a b : in_u1024 a -> in_u1024 b -> u_or a b = Z.lor a b;
  u_xor_law a b : in_u1024 a -> in_u1024 b -> u_xor a b = Z.lxor a b;
  u_shl_law a k : in_u1024 a -> 0 <= k ->
    u_checked_shl a k = if k <? 1024 then Some (Z.shiftl a k mod 2 ^ 1024) else None;
  u_shr_law a k : in_u1024 a -> 0 <= k ->
    u_checked_shr a k = if k <? 1024 then Some (Z.shiftr a k) else None;
}.

(** An implementation of these laws. *)
Definition exact_wide : Wide := {|
  u_checked_add a b := fit_u (a + b);
  u_checked_sub a b := fit_u (a - b);
  u_checked_mul a b := fit_u (a * b);
  u_checked_div a b := if b =? 0 then None else Some (a / b);
  i_checked_add a b := fit_i (a + b);
  i_checked_sub a b := fit_i (a - b);
  i_checked_mul a b := fit_i (a * b);
  i_checked_div a b := if b =? 0 then None else fit_i (Z.quot a b);
  i_checked_div_euclid a b := if b =? 0 then None else fit_i (div_euclid a b);
  u_rem a b := a mod b;
  u_and := Z.land;
  u_or := Z.lor;
  u_xor := Z.lxor;
  u_checked_shl a k := if k <? 1024 then Some (Z.shiftl a k mod 2 ^ 1024) else None;
  u_checked_shr a k := if k <? 1024 then Some (Z.shiftr a k) else None;
  i_checked_shl a k :=
    if k <? 1024 then Some (to_signed 128 (Z.shiftl a k mod 2 ^ 1024)) else None;
  i_checked_shr a k := if k <? 1024 then Some (Z.shiftr a k) else None;
|}.

#[export] Instance exact_wide_laws : WideLaws exact_wide.
Proof.
  constructor; intros; try done; cbn; by destruct (Z.eqb_spec b 0).
Qed.

(** The operations of the floating point crates, on the bit patterns of a
    layout. *)
Record Floats := {
  (** [MaybeNumber::from] of the value with these bits: [None] for NaN *)
  f_number : FloatLayout -> Z -> option Z;
  (** conversion through the decimal text *)
  f_convert : FloatLayout -> FloatLayout -> Z -> option Z;
  (** [to_i256(256)]: the value and whether the status is OK *)
  f_to_i256 : FloatLayout -> Z -> Z * bool;
  f_is_nan : FloatLayout -> Z -> bool;
  f_cmp : FloatLayout -> Z -> Z -> option comparison;
  f_add : FloatLayout -> RoundingFlag -> Z -> Z -> option Z;
  f_sub : FloatLayout -> RoundingFlag -> Z -> Z -> option Z;
  f_mul : FloatLayout -> RoundingFlag -> Z -> Z -> option Z;
  f_div : FloatLayout -> RoundingFlag -> Z -> Z -> option Z;
}.

(** ** Changing the layout *)

(** The integer cases of [Number::reshape]. *)
Definition reshape_int (n : Number) (from to : IntLayout) : Number * bool :=
  if bool_decide (from = to) then (n, true)
  else if il_signed from && il_signed to && negb (is_positive n) && (il_bytes from <? il_bytes to)
  then
    (mkNumber (Integer to)
       (Z.lor (low_bytes (il_bytes from) (raw n))
          (Z.shiftl (Z.ones (8 * (il_bytes to - il_bytes from))) (8 * il_bytes from))), true)
  else
    (to_clean (mkNumber (Integer to) (raw n)), min_bit_len n <=? il_bytes to * 8).

(** Layouts of floats that cannot be converted. *)
Definition convertible (fl : FloatLayout) : bool :=
  match fl with IeeeOct | FloatTapered => false | _ => true end.

Definition reshape (fs : Floats) (n : Number) (to : Layout) : P (Number * bool) :=
  match layout n, to with
  | Integer from, Integer to => Ok (reshape_int n from to)
  | Float l1, Float l2 =>
      if bool_decide (l1 = l2) then Ok (n, true) else
      assert_ (convertible l1) "unimplemented" ;;
      assert_ (convertible l2) "unimplemented" ;;
      bits ← ok_or (f_convert fs l1 l2 (low_bytes (nlen n) (raw n))) (Abort "float layout conversion");
      Ok (mkNumber (Float l2) bits, false)
  | Float fl, Integer il =>
      assert_ (negb (bool_decide (fl = BFloat16 \/ fl = FloatTapered))) "todo" ;;
      let '(value, ok) := f_to_i256 fs fl (low_bytes (nlen n) (raw n)) in
      Ok ((reshape_int (from_int 32 value) (mkInt true 32) il).1, ok)
  | Integer _, Float _ => Err (Abort "todo")
  end.

(** [Number::reshaped] between integer layouts *)
Definition reshaped_int (n : Number) (from to : IntLayout) (wrap : bool) : option Number :=
  let '(n', ok) := reshape_int n from to in if ok || wrap then Some n' else None.

(** ** Integer arithmetic *)

Section arithmetic.
Context `{Wide}.

Definition to_u1024 (n : Number) : P Z := to_uint 128 (to_clean n).
Definition to_i1024 (n : Number) : P Z := to_int 128 (to_clean n).

(** [Number::from(wide).reshaped(signed(128), true)] and the reshape to the
    layout of the operands, which may fail unless [wrap] is set. *)
Definition narrow (s : bool) (bytes : Z) (wrap : bool) (n : Number) : option Number :=
  match layout n with
  | Integer il =>
      n1 ← reshaped_int n il (mkInt s (il_bytes il)) true;
      reshaped_int n1 (mkInt s (il_bytes il)) (mkInt s bytes) wrap
  | Float _ => None
  end.

(** [int_add], [int_sub] and [int_mul] differ in the wide operation only. *)
Definition int_op (u i : Z -> Z -> option Z) (a b : Number) (f : IntFlags) : P (option Number) :=
  assert_ (bool_decide (layout a = layout b)) "numbers with different layout" ;;
  match layout a with
  | Float _ => Err (Abort "integer operation on floats")
  | Integer il =>
      if signed f then
        x ← to_i1024 a; y ← to_i1024 b;
        Ok (z ← i x y; narrow true (il_bytes il) (wrap f) (from_int 128 z))
      else
        x ← to_u1024 a; y ← to_u1024 b;
        Ok (z ← u x y; narrow false (il_bytes il) (wrap f) (from_uint 128 z))
  end.

Definition int_add : Number -> Number -> IntFlags -> P (option Number) :=
  int_op u_checked_add i_checked_add.
Definition int_sub : Number -> Number -> IntFlags -> P (option Number) :=
  int_op u_checked_sub i_checked_sub.
Definition int_mul : Number -> Number -> IntFlags -> P (option Number) :=
  int_op u_checked_mul i_checked_mul.

Definition int_div (a b : Number) (f : IntFlags) : P (option Number) :=
  assert_ (bool_decide (layout a = layout b)) "dividing numbers with different layout" ;;
  if is_zero b then Ok None
  else if is_zero a then Ok (Some (zero (layout a)))
  else match layout a with
  | Float _ => Err (Abort "integer division of float numbers")
  | Integer il =>
      if signed f then
        x ← to_i1024 a; y ← to_i1024 b;
        Ok (z ← (if wrap f then i_checked_div_euclid x y else i_checked_div x y);
            narrow true (il_bytes il) false (from_int 128 z))
      else
        x ← to_u1024 a; y ← to_u1024 b;
        Ok (z ← u_checked_div x y;
            reshaped_int (from_uint 128 z) (mkInt false 128) (mkInt true (il_bytes il)) false)
  end.

(** [Not for Number]: the bytes of the layout are inverted. *)
Definition num_not (n : Number) : Number :=
  mkNumber (layout n) (Z.lxor (raw n) (Z.ones (8 * nlen n))).

Definition applying_sign (n : Number) (sign : bool) : P (option Number) :=
  match layout n with
  | Integer (mkInt true bytes) =>
      if negb (is_positive n) && (count_ones n =? 1) then Ok None
      else if xorb (negb (is_positive n)) sign then
        let one_ := (reshape_int (from_uint 1 1) (mkInt false 1) (mkInt true bytes)).1 in
        int_add (num_not n) one_ {| signed := true; wrap := true |}
      else Ok (Some n)
  | Integer (mkInt false _) => Ok None
  | Float _ =>
      let bit := 8 * sign_byte (layout n) + 7 in
      Ok (Some (mkNumber (layout n)
        (if sign then Z.setbit (raw n) bit else Z.clearbit (raw n) bit)))
  end.

Definition num_neg (n : Number) : P (option Number) := applying_sign n (is_positive n).
Definition num_abs (n : Number) : P (option Number) :=
  if is_positive n then Ok (Some n) else applying_sign n false.

(** [Rem for Number] *)
Definition num_rem (a b : Number) : P (option Number) :=
  if is_zero b then Ok None else
  match layout a with
  | Integer (mkInt true _) =>
      x ← to_u1024 a; y ← to_u1024 b; Ok (Some (from_uint 128 (u_rem x y)))
  | Integer (mkInt false bytes) =>
      if 8 * bytes <=? 128 then
        x ← to_int 16 a; y ← to_int 16 b;
        (* [%] of [i128] panics on [MIN % -1] *)
        if (x =? - 2 ^ 127) && (y =? -1) then Err (Abort "overflow") else
        Ok (Some (from_int 16 (Z.rem x y)))
      else Err (Abort "todo")
  | Float _ => Err (Abort "modulo division of float number")
  end.

(** ** Comparison *)

(** [PartialEq for Number] *)
Definition num_eq (a b : Number) : bool :=
  (bool_decide (layout a = layout b)
   || (is_signed_int (layout a) && is_unsigned_int (layout b))
   || (is_unsigned_int (layout a) && is_signed_int (layout b)))
  && (nlen a =? nlen b) && (raw (to_clean a) =? raw (to_clean b)).

(** [Ord for Number] *)
Definition num_cmp (fs : Floats) (a b : Number) : P comparison :=
  assert_ (bool_decide (layout a = layout b)) "comparing numbers with different layout" ;;
  match layout a with
  | Integer _ =>
      match is_positive a, is_positive b with
      | true, false => Ok Gt
      | false, true => Ok Lt
      | _, _ => x ← to_u1024 a; y ← to_u1024 b; Ok (x ?= y)
      end
  | Float fl =>
      assert_ (convertible fl) "unimplemented" ;;
      ok_or (f_cmp fs fl (low_bytes (nlen a) (raw a)) (low_bytes (nlen b) (raw b)))
        (Abort "number value contains NaN")
  end.

(** ** Bitwise operations *)

(** [BitAnd], [BitOr] and [BitXor for Number]: the result has the layout of
    [u1024]. *)
Definition bit_op (op : Z -> Z -> Z) (a b : Number) : P Number :=
  x ← to_u1024 a; y ← to_u1024 b; Ok (from_uint 128 (op x y)).

Definition num_and : Number -> Number -> P Number := bit_op u_and.
Definition num_or : Number -> Number -> P Number := bit_op u_or.
Definition num_xor : Number -> Number -> P Number := bit_op u_xor.

(** [Shl] and [Shr for Number] *)
Definition shift_op (u i : Z -> Z -> option Z) (a k : Number) : P Number :=
  match layout a with
  | Float _ => Err (Abort "bit shifting float number")
  | Integer il =>
      k' ← to_uint 2 k;
      if il_signed il then
        x ← to_i1024 a;
        Ok (reshape_int (from_int 128 (default 0 (i x k'))) (mkInt true 128) il).1
      else
        x ← to_u1024 a;
        Ok (reshape_int (from_uint 128 (default 0 (u x k'))) (mkInt false 128) il).1
  end.

Definition num_shl : Number -> Number -> P Number := shift_op u_checked_shl i_checked_shl.
Definition num_shr : Number -> Number -> P Number := shift_op u_checked_shr i_checked_shr.

(** [Number::scl] and [Number::scr] *)
Definition cycle_op (main back : Number -> Number -> P Number) (a k : Number) : P Number :=
  match layout a with
  | Float _ => Err (Abort "bit shifting float number")
  | Integer il =>
      let bits := nlen a * 8 in
      let lhs := into_unsigned a in
      k' ← to_uint 2 k;
      let excess := k' mod bits in
      residue ← back lhs (from_uint 2 (bits - excess));
      shifted ← main lhs (from_uint 2 excess);
      n ← num_or shifted residue;
      ok_or (reshaped_int n (mkInt false 128) il true) (Abort "restoring layout")
  end.

Definition scl : Number -> Number -> P Number := cycle_op num_shl num_shr.
Definition scr : Number -> Number -> P Number := cycle_op num_shr num_shl.

(** The [k] low bits of [z], reversed. *)
Fixpoint rev_bits (k : nat) (z : Z) : Z :=
  match k with
  | O => 0
  | S k' => Z.shiftl (Z.b2z (Z.odd z)) (Z.of_nat k') + rev_bits k' (z / 2)
  end.

(** [reverse_bits]: the bytes in reverse order, each with its bits reversed. *)
Definition reverse_bits (n : Number) : P Number :=
  assert_ (is_integer (layout n)) "reversing bit order of float" ;;
  let bs := map (rev_bits 8) (rev (number_bytes n)) in
  Ok (mkNumber (layout n) (raw n - low_bytes (nlen n) (raw n) + le bs)).
End arithmetic.

(** Equality and rounding comparison of floats *)
Definition significand_end (fl : FloatLayout) : option Z :=
  match fl with
  | BFloat16 => Some 7 | IeeeHalf => Some 10 | IeeeSingle => Some 23 | IeeeDouble => Some 52
  | X87DoubleExt => Some 64 | IeeeQuad => Some 112 | IeeeOct => Some 236 | FloatTapered => None
  end.

Definition rounding_cmp `{Wide} (fs : Floats) (a b : Number) : P comparison :=
  assert_ (bool_decide (layout a = layout b)) "comparing numbers with different layout" ;;
  match layout a with
  | Integer _ => num_cmp fs a b
  | Float fl =>
      e ← ok_or (significand_end fl) (Abort "unimplemented");
      let last_bit := masked_bit e (layout a) in
      x ← num_xor a last_bit; y ← num_xor b last_bit;
      num_cmp fs x y
  end.

(** ** The bit length of an integer *)

Lemma pow2_pos k : 0 <= k -> 0 < 2 ^ k.
Proof. intros. by apply Z.pow_pos_nonneg. Qed.
#[local] Hint Resolve pow2_pos : core.

Lemma byte_of_raw_range r i : 0 <= byte_of_raw r i < 256.
Proof. unfold byte_of_raw. apply Z.mod_pos_bound. lia. Qed.

Lemma pow256_succ k : 0 <= k -> 2 ^ (8 * (k + 1)) = 256 * 2 ^ (8 * k).
Proof. intros. replace (8 * (k + 1)) with (8 + 8 * k) by lia. by rewrite Z.pow_add_r by lia. Qed.

(** The top byte of an array of [k + 1] bytes. *)
Lemma top_byte k r :
  0 <= k -> 0 <= r < 2 ^ (8 * (k + 1)) -> byte_of_raw r k = r / 2 ^ (8 * k).
Proof.
  intros Hk Hr. unfold byte_of_raw. rewrite Z.shiftr_div_pow2 by lia.
  rewrite pow256_succ in Hr by done. apply Z.mod_small. split; [by apply Z.div_pos; auto with lia|].
  apply Z.div_lt_upper_bound; [auto with lia|]. lia.
Qed.

Lemma bitlen_0 : bitlen 0 = 0.
Proof. done. Qed.

Lemma bitlen_nonneg z : 0 <= bitlen z.
Proof. unfold bitlen. destruct (Z.leb_spec z 0); [lia|]. pose proof (Z.log2_nonneg z). lia. Qed.

Lemma bitlen_le z k : 0 <= z -> 0 <= k -> bitlen z <= k <-> z < 2 ^ k.
Proof.
  intros Hz Hk. unfold bitlen. destruct (Z.leb_spec z 0).
  - assert (z = 0) as -> by lia. split; intros; [auto with lia|lia].
  - rewrite (Z.log2_lt_pow2 z k) by done. lia.
Qed.

Lemma bitlen_unique z k :
  0 <= z -> 0 <= k -> z < 2 ^ k -> (0 < k -> 2 ^ (k - 1) <= z) -> bitlen z = k.
Proof.
  intros Hz Hk Hlt Hge. assert (bitlen z <= k) by (by apply bitlen_le).
  destruct (Z.eq_dec k 0) as [->|]; [pose proof (bitlen_nonneg z); lia|].
  assert (~ bitlen z <= k - 1); [|lia]. rewrite bitlen_le by lia. specialize (Hge ltac:(lia)). lia.
Qed.

Lemma bitlen_bounds z : 0 < z -> 2 ^ (bitlen z - 1) <= z < 2 ^ bitlen z.
Proof.
  intros Hz. unfold bitlen. destruct (Z.leb_spec z 0); [lia|].
  replace (Z.log2 z + 1 - 1) with (Z.log2 z) by lia.
  pose proof (Z.log2_spec z Hz). by rewrite Z.add_1_r.
Qed.

(** A top part [h] above [8 k] bits. *)
Lemma bitlen_high h l k : 0 < h -> 0 <= k -> 0 <= l < 2 ^ k -> bitlen (h * 2 ^ k + l) = k + bitlen h.
Proof.
  intros Hh Hk Hl. destruct (bitlen_bounds h Hh) as [Hlo Hhi].
  assert (1 <= bitlen h).
  { pose proof (bitlen_nonneg h). destruct (Z.eq_dec (bitlen h) 0) as [E|]; [|lia].
    rewrite E in Hhi. change (2 ^ 0) with 1 in Hhi. lia. }
  apply bitlen_unique; [nia|lia|..].
  - rewrite Z.pow_add_r by lia. nia.
  - intros _. replace (k + bitlen h - 1) with (k + (bitlen h - 1)) by lia.
    rewrite Z.pow_add_r by lia. nia.
Qed.

(** The bytes that [min_bit_len] skips and the one it looks into. *)
Lemma run_top_bitlen (k : nat) r :
  (0 < k)%nat -> 0 <= r < 2 ^ (8 * Z.of_nat k) ->
  let e := run_top k 0 r in
  let i := if e <? Z.of_nat k then Z.of_nat k - e - 1 else 0 in
  i * 8 + bitlen (byte_of_raw r i) = bitlen r.
Proof.
  intros Hk. cbn zeta. induction k as [|k IH]; [lia|]. intros Hr. cbn [run_top].
  assert (Z.of_nat (S k) = Z.of_nat k + 1) as E by lia. rewrite E in Hr |- *.
  pose proof (top_byte (Z.of_nat k) r ltac:(lia) Hr) as Ht.
  rewrite pow256_succ in Hr by lia.
  assert (0 < 2 ^ (8 * Z.of_nat k)) by auto with lia.
  pose proof (Z.div_mod r (2 ^ (8 * Z.of_nat k)) ltac:(lia)) as Hd.
  pose proof (Z.mod_pos_bound r (2 ^ (8 * Z.of_nat k)) ltac:(lia)).
  destruct (Z.eqb_spec (byte_of_raw r (Z.of_nat k)) 0) as [Hb|Hb].
  - rewrite <- Ht, Hb in Hd. destruct k as [|k].
    + cbn in *. assert (r = 0) as -> by lia. done.
    + rewrite <- IH by lia. destruct (Z.ltb_spec (run_top (S k) 0 r) (Z.of_nat (S k))).
      * destruct (Z.ltb_spec (1 + run_top (S k) 0 r) (Z.of_nat (S k) + 1)); [|lia].
        replace (Z.of_nat (S k) + 1 - (1 + run_top (S k) 0 r) - 1)
          with (Z.of_nat (S k) - run_top (S k) 0 r - 1) by lia. done.
      * destruct (Z.ltb_spec (1 + run_top (S k) 0 r) (Z.of_nat (S k) + 1)); [lia|done].
  - destruct (Z.ltb_spec 0 (Z.of_nat k + 1)); [|lia].
    replace (Z.of_nat k + 1 - 0 - 1) with (Z.of_nat k) by lia.
    pose proof (byte_of_raw_range r (Z.of_nat k)). rewrite Ht in *.
    rewrite Hd at 2. rewrite Z.mul_comm with (n := 2 ^ (8 * Z.of_nat k)).
    rewrite bitlen_high by lia. lia.
Qed.

(** The complement turns ones into zeros, byte by byte. *)
Definition complement (k r : Z) : Z := 2 ^ (8 * k) - 1 - r.

Lemma byte_complement k r i :
  0 <= i < k -> byte_of_raw (complement k r) i = 255 - byte_of_raw r i.
Proof.
  intros Hi. unfold byte_of_raw, complement. rewrite !Z.shiftr_div_pow2 by lia.
  set (d := 2 ^ (8 * i)). assert (0 < d) by (unfold d; auto with lia).
  assert (2 ^ (8 * k) = 256 * 2 ^ (8 * (k - i - 1)) * d) as ->.
  { unfold d. rewrite <- Z.mul_assoc, <- Z.pow_add_r by lia. change 256 with (2 ^ 8).
    rewrite <- Z.pow_add_r by lia. f_equal. lia. }
  set (m := 2 ^ (8 * (k - i - 1))).
  pose proof (Z.div_mod r d ltac:(lia)). pose proof (Z.mod_pos_bound r d ltac:(lia)).
  assert ((256 * m * d - 1 - r) / d = 256 * m - 1 - r / d) as ->.
  { symmetry. apply (Z.div_unique _ _ _ (d - 1 - r mod d)); [lia|nia]. }
  set (q := r / d).
  pose proof (Z.div_mod q 256 ltac:(lia)). pose proof (Z.mod_pos_bound q 256 ltac:(lia)).
  symmetry. apply (Z.mod_unique _ _ (m - 1 - q / 256)); lia.
Qed.

Lemma run_top_complement k r (j : nat) :
  Z.of_nat j <= k -> run_top j 255 r = run_top j 0 (complement k r).
Proof.
  induction j as [|j IH]; [done|]. intros Hj. cbn [run_top]. rewrite byte_complement by lia.
  rewrite IH by lia. pose proof (byte_of_raw_range r (Z.of_nat j)).
  destruct (Z.eqb_spec (byte_of_raw r (Z.of_nat j)) 255),
    (Z.eqb_spec (255 - byte_of_raw r (Z.of_nat j)) 0); lia.
Qed.

(** Numbers of an integer layout whose unused bytes are zero. *)
Definition int_number (s : bool) (k r : Z) : Number := mkNumber (Integer (mkInt s k)) r.

Arguments int_number : simpl never.
Arguments min_bit_len : simpl never.

Definition fits (k r : Z) : Prop := 0 < k /\ 0 <= r < 2 ^ (8 * k).

Lemma clean_int s k r : fits k r -> to_clean (int_number s k r) = int_number s k r.
Proof. intros [_ ?]. unfold to_clean, low_bytes. cbn. by rewrite Z.mod_small. Qed.

Lemma is_zero_int s k r : fits k r -> is_zero (int_number s k r) = (r =? 0).
Proof. intros. unfold is_zero. by rewrite clean_int. Qed.

(** The sign bit of a layout of [k] bytes. *)
Lemma sign_bit k r : fits k r ->
  Z.testbit (byte_of_raw r (k - 1)) 7 = (2 ^ (8 * k - 1) <=? r).
Proof.
  intros [Hk Hr]. rewrite top_byte by (replace (k - 1 + 1) with k by lia; lia).
  rewrite <- Z.shiftr_div_pow2, Z.shiftr_spec by lia.
  replace (7 + 8 * (k - 1)) with (8 * k - 1) by lia.
  rewrite Z.testbit_odd, Z.shiftr_div_pow2 by lia.
  assert (2 ^ (8 * k) = 2 * 2 ^ (8 * k - 1)) as E.
  { replace (8 * k) with (1 + (8 * k - 1)) at 1 by lia. by rewrite Z.pow_add_r by lia. }
  rewrite E in Hr. assert (0 < 2 ^ (8 * k - 1)) by auto with lia.
  destruct (Z.leb_spec (2 ^ (8 * k - 1)) r).
  - replace (r / 2 ^ (8 * k - 1)) with 1; [done|]. apply (Z.div_unique _ _ _ (r - 2 ^ (8 * k - 1))); lia.
  - by rewrite Z.div_small by lia.
Qed.

Lemma is_negative_int s k r : fits k r ->
  is_negative (int_number s k r) = s && (2 ^ (8 * k - 1) <=? r).
Proof.
  intros H. unfold is_negative, is_positive. rewrite is_zero_int by done.
  change (sign_byte (layout (int_number s k r))) with (k - 1).
  change (raw (int_number s k r)) with r. rewrite sign_bit by done.
  change (is_unsigned_int _) with (negb s).
  destruct s; cbn; [|by destruct (r =? 0)].
  destruct (Z.eqb_spec r 0) as [->|]; cbn; [|by rewrite negb_involutive].
  destruct (Z.leb_spec (2 ^ (8 * k - 1)) 0); [|done].
  destruct H as [? _]. assert (0 < 2 ^ (8 * k - 1)) by auto with lia. lia.
Qed.

(** The signed value: the bits as a two's complement number. *)
Lemma to_signed_range k r : fits k r ->
  - 2 ^ (8 * k - 1) <= to_signed k r < 2 ^ (8 * k - 1).
Proof.
  intros [Hk Hr]. unfold to_signed.
  assert (2 ^ (8 * k) = 2 * 2 ^ (8 * k - 1)) as E.
  { replace (8 * k) with (1 + (8 * k - 1)) at 1 by lia. by rewrite Z.pow_add_r by lia. }
  assert (0 < 2 ^ (8 * k - 1)) by auto with lia.
  destruct (Z.ltb_spec r (2 ^ (8 * k - 1))); lia.
Qed.

(** The number of bits of the magnitude of a two's complement number. *)
Definition magnitude (s : bool) (k r : Z) : Z :=
  if s && (2 ^ (8 * k - 1) <=? r) then complement k r else r.

Lemma min_bit_len_int s k r : fits k r ->
  min_bit_len (int_number s k r) = bitlen (magnitude s k r) + Z.b2z s.
Proof.
  intros H. unfold min_bit_len. rewrite is_negative_int by done.
  change (is_float _) with false. change (nlen (int_number s k r)) with k.
  change (raw (int_number s k r)) with r. change (is_signed_int _) with s.
  destruct (Z.eqb_spec k 0); [destruct H; lia|]. unfold magnitude.
  destruct H as [Hk Hr].
  assert (Z.of_nat (Z.to_nat k) = k) as Ek by lia.
  destruct (s && (2 ^ (8 * k - 1) <=? r)) eqn:Es.
  - rewrite (run_top_complement k r (Z.to_nat k)) by lia.
    pose proof (run_top_bitlen (Z.to_nat k) (complement k r) ltac:(lia)) as Hb.
    rewrite Ek in Hb. unfold complement at 1 2 in Hb. specialize (Hb ltac:(lia)).
    rewrite <- Hb. unfold leading_ones, leading_zeros.
    set (e := run_top _ 0 _) in *. destruct (Z.ltb_spec e k).
    + assert (0 <= e). { unfold e. clear. generalize (complement k r). intros z.
        induction (Z.to_nat k) as [|j IH]; cbn [run_top]; [lia|]. case_match; lia. }
      rewrite byte_complement by lia. lia.
    + rewrite byte_complement by lia. lia.
  - pose proof (run_top_bitlen (Z.to_nat k) r ltac:(lia)) as Hb. rewrite Ek in Hb.
    rewrite <- Hb by lia. unfold leading_zeros. lia.
Qed.

(** ** Values and ranges *)

Definition value (s : bool) (k r : Z) : Z := if s then to_signed k r else r.

Definition in_range (s : bool) (k v : Z) : bool :=
  if s then (- 2 ^ (8 * k - 1) <=? v) && (v <? 2 ^ (8 * k - 1))
  else (0 <=? v) && (v <? 2 ^ (8 * k)).

Lemma pow_half k : 0 < k -> 2 ^ (8 * k) = 2 * 2 ^ (8 * k - 1) /\ 0 < 2 ^ (8 * k - 1).
Proof.
  intros. split; [|auto with lia]. replace (8 * k) with (1 + (8 * k - 1)) at 1 by lia.
  by rewrite Z.pow_add_r by lia.
Qed.

Lemma pow_bytes_le j k : 0 <= j <= k -> 2 ^ (8 * j) <= 2 ^ (8 * k).
Proof. intros. apply Z.pow_le_mono_r; lia. Qed.

Lemma fits_mod k z : 0 < k -> fits k (z mod 2 ^ (8 * k)).
Proof. intros. split; [done|]. apply Z.mod_pos_bound. auto with lia. Qed.

Lemma fits_le j k r : fits j r -> j <= k -> fits k r.
Proof. intros [? ?] ?. pose proof (pow_bytes_le j k). split; lia. Qed.

Lemma value_range s k r : fits k r -> in_range s k (value s k r) = true.
Proof.
  intros H. unfold in_range, value. destruct s.
  - pose proof (to_signed_range k r H). lia.
  - destruct H. lia.
Qed.

Lemma to_signed_mod k z : 0 < k -> in_range true k z = true -> to_signed k (z mod 2 ^ (8 * k)) = z.
Proof.
  intros Hk Hz. unfold in_range in Hz. destruct (pow_half k Hk) as [E ?]. unfold to_signed.
  destruct (Z.ltb_spec z 0).
  - replace (z mod 2 ^ (8 * k)) with (z + 2 ^ (8 * k)) by (apply (Z.mod_unique _ _ (-1)); lia).
    destruct (Z.ltb_spec (z + 2 ^ (8 * k)) (2 ^ (8 * k - 1))); lia.
  - rewrite Z.mod_small by lia. destruct (Z.ltb_spec z (2 ^ (8 * k - 1))); lia.
Qed.

(** Truncation does not see the sign. *)
Lemma to_signed_congr k m r : 0 < m <= k -> to_signed k r mod 2 ^ (8 * m) = r mod 2 ^ (8 * m).
Proof.
  intros Hm. unfold to_signed. destruct (r <? 2 ^ (8 * k - 1)); [done|].
  replace (2 ^ (8 * k)) with (2 ^ (8 * (k - m)) * 2 ^ (8 * m)).
  2: { rewrite <- Z.pow_add_r by lia. f_equal. lia. }
  rewrite <- Zminus_mod_idemp_r, Z.mod_mul by (pose proof (pow2_pos (8 * m)); lia).
  by rewrite Z.sub_0_r.
Qed.

(** [min_bit_len] says how many bytes hold the value. *)
Lemma min_bit_len_range s k m r : fits k r -> 0 < m ->
  (min_bit_len (int_number s k r) <=? m * 8) = in_range s m (value s k r).
Proof.
  intros H Hm. rewrite min_bit_len_int by done. unfold magnitude, in_range, value, to_signed.
  destruct H as [Hk Hr]. destruct (pow_half k Hk) as [E ?], (pow_half m Hm) as [E' ?].
  rewrite (Z.mul_comm m 8). destruct s; cbn [andb Z.b2z].
  - destruct (Z.leb_spec (2 ^ (8 * k - 1)) r), (Z.ltb_spec r (2 ^ (8 * k - 1))); try lia.
    + unfold complement. pose proof (bitlen_le (2 ^ (8 * k) - 1 - r) (8 * m - 1)).
      destruct (Z.leb_spec (bitlen (2 ^ (8 * k) - 1 - r) + 1) (8 * m)); lia.
    + pose proof (bitlen_le r (8 * m - 1)). destruct (Z.leb_spec (bitlen r + 1) (8 * m)); lia.
  - pose proof (bitlen_le r (8 * m)). destruct (Z.leb_spec (bitlen r + 0) (8 * m)); lia.
Qed.

(** Disjoint bits add up. *)
Lemma lor_high r x a : 0 <= a -> 0 <= r < 2 ^ a -> Z.lor r (Z.shiftl x a) = r + x * 2 ^ a.
Proof.
  intros Ha Hr. rewrite <- Z.shiftl_mul_pow2 by done. rewrite Z.add_nocarry_lxor, Z.lxor_lor; [done|..].
  all: apply Z.bits_inj'; intros n Hn; rewrite Z.land_spec, Z.bits_0.
  all: destruct (Z.ltb_spec n a); [by rewrite Z.shiftl_spec_low, andb_false_r|].
  all: destruct (Z.eq_dec r 0) as [->|]; [by rewrite Z.bits_0|].
  all: rewrite (Z.bits_above_log2 r); [done|lia|].
  all: apply Z.lt_le_trans with a; [apply Z.log2_lt_pow2; lia|done].
Qed.

(** Changing the width of an integer keeps its value modulo the new width and
    tells whether it still fits.  A signed zero is the exception: see
    [reshape_signed_zero]. *)
Lemma reshape_int_spec s k m r : fits k r -> 0 < m -> (s = true -> k < m -> r <> 0) ->
  reshape_int (int_number s k r) (mkInt s k) (mkInt s m)
  = (int_number s m (value s k r mod 2 ^ (8 * m)), in_range s m (value s k r)).
Proof.
  intros H Hm Hz. unfold reshape_int. cbn [il_signed il_bytes]. case_bool_decide as E.
  - injection E as <-. rewrite value_range by done. f_equal. f_equal. destruct H.
    destruct s; cbn [value]; [rewrite to_signed_congr by lia|]; by rewrite Z.mod_small.
  - assert (k <> m) by congruence. clear E.
    unfold is_positive at 1. rewrite is_zero_int by done.
    change (sign_byte (layout (int_number s k r))) with (k - 1).
    change (raw (int_number s k r)) with r. rewrite sign_bit by done.
    rewrite min_bit_len_range by done.
    destruct s; cbn [value]; [|done].
    change (is_unsigned_int _) with false. cbn iota.
    destruct H as [Hk Hr]. destruct (pow_half k Hk) as [E ?], (pow_half m Hm) as [E' ?].
    destruct (Z.ltb_spec k m) as [Hlt|Hge].
    + destruct (Z.eqb_spec r 0) as [->|]; [by specialize (Hz eq_refl Hlt)|].
      destruct (Z.leb_spec (2 ^ (8 * k - 1)) r); cbn [negb andb].
      * unfold to_signed. destruct (Z.ltb_spec r (2 ^ (8 * k - 1))); [lia|].
        pose proof (pow_bytes_le k m). unfold low_bytes. rewrite Z.mod_small by done.
        replace (in_range _ _ _) with true by (unfold in_range; lia). f_equal. f_equal.
        rewrite lor_high by lia. rewrite Z.ones_equiv.
        replace (8 * (m - k)) with (8 * m - 8 * k) by lia.
        assert (2 ^ (8 * m) = 2 ^ (8 * m - 8 * k) * 2 ^ (8 * k)) as Em.
        { rewrite <- Z.pow_add_r by lia. f_equal. lia. }
        apply (Z.mod_unique _ _ (-1)); nia.
      * cbn. unfold to_signed. destruct (Z.ltb_spec r (2 ^ (8 * k - 1))); [done|lia].
    + rewrite andb_false_r. rewrite to_signed_congr by lia. done.
Qed.

(** ** Conversions to the wide integers *)

Lemma low_bitlen z : 0 <= z -> low_bytes ((bitlen z + 7) / 8) z = z.
Proof.
  intros Hz. unfold low_bytes. apply Z.mod_small. split; [done|].
  pose proof (bitlen_nonneg z). apply bitlen_le; [done|..];
    pose proof (Z.div_mod (bitlen z + 7) 8); pose proof (Z.mod_pos_bound (bitlen z + 7) 8); lia.
Qed.

Lemma to_uint_unsigned k m r : fits k r -> 0 < m -> r < 2 ^ (8 * m) ->
  to_uint m (int_number false k r) = Ok r.
Proof.
  intros H Hm Hr. unfold to_uint, to_array, assert_, ensure. rewrite min_bit_len_range by done.
  destruct H as [Hk H]. replace (in_range _ _ _) with true by (unfold in_range; cbn; lia). cbn.
  rewrite min_bit_len_int by done. unfold magnitude. cbn [andb Z.b2z].
  rewrite Z.add_0_r. destruct (Z.leb_spec ((bitlen r + 7) / 8) m) as [|Hbad]; cbn.
  - f_equal. apply low_bitlen. lia.
  - exfalso. pose proof (proj2 (bitlen_le r (8 * m) ltac:(lia) ltac:(lia)) Hr).
    pose proof (Z.div_mod (bitlen r + 7) 8). pose proof (Z.mod_pos_bound (bitlen r + 7) 8). lia.
Qed.

Lemma to_u1024_unsigned k r : fits k r -> k <= 128 -> to_u1024 (int_number false k r) = Ok r.
Proof.
  intros H Hk. unfold to_u1024. rewrite clean_int by done. apply to_uint_unsigned; [done..|].
  destruct H. pose proof (pow_bytes_le k 128). lia.
Qed.

(** Sign extension to [m] bytes. *)
Lemma to_signed_extend k m r : fits k r -> k <= m ->
  to_signed m (r + (if 2 ^ (8 * k - 1) <=? r then 2 ^ (8 * m) - 2 ^ (8 * k) else 0)) = to_signed k r.
Proof.
  intros [Hk Hr] Hm. unfold to_signed. destruct (pow_half k Hk) as [E ?], (pow_half m) as [E' ?]; [lia|].
  pose proof (pow_bytes_le k m).
  assert (2 ^ (8 * k - 1) <= 2 ^ (8 * m - 1)) by (apply Z.pow_le_mono_r; lia).
  destruct (Z.leb_spec (2 ^ (8 * k - 1)) r).
  - destruct (Z.ltb_spec r (2 ^ (8 * k - 1))); [lia|].
    destruct (Z.ltb_spec (r + (2 ^ (8 * m) - 2 ^ (8 * k))) (2 ^ (8 * m - 1))); lia.
  - rewrite Z.add_0_r. destruct (Z.ltb_spec r (2 ^ (8 * k - 1))); [|lia].
    destruct (Z.ltb_spec r (2 ^ (8 * m - 1))); lia.
Qed.

Lemma in_range_mono s k m v : 0 < k <= m -> in_range s k v = true -> in_range s m v = true.
Proof.
  intros Hk. pose proof (pow_bytes_le k m). unfold in_range.
  assert (2 ^ (8 * k - 1) <= 2 ^ (8 * m - 1)) by (apply Z.pow_le_mono_r; lia).
  destruct s; lia.
Qed.

Lemma to_int_signed s k m r : fits k r -> k <= m -> to_int m (int_number s k r) = Ok (to_signed k r).
Proof.
  intros H Hm. unfold to_int, assert_, ensure. rewrite min_bit_len_range by (destruct H; lia || done).
  rewrite (in_range_mono s k m) by (first [destruct H; lia|by apply value_range]).
  cbn [mbind result_bind].
  unfold index. change (nlen (int_number s k r)) with k.
  change (sign_byte (layout (int_number s k r))) with (k - 1).
  change (raw (int_number s k r)) with r.
  replace ((0 <=? k - 1) && (k - 1 <? k)) with true by (destruct H; lia).
  cbn [mbind result_bind]. destruct (Z.leb_spec k m); [|lia]. cbn [mbind result_bind]. rewrite sign_bit by done.
  unfold low_bytes. rewrite (Z.mod_small r) by apply H. by rewrite to_signed_extend.
Qed.

Lemma to_i1024_signed s k r : fits k r -> k <= 128 -> to_i1024 (int_number s k r) = Ok (to_signed k r).
Proof. intros H Hk. unfold to_i1024. rewrite clean_int by done. by apply to_int_signed. Qed.

(** ** Results of the width of the operands *)

(** What the flags make of an exact result. *)
Definition deliver (s : bool) (k : Z) (wrap : bool) (z : Z) : option Number :=
  if in_range s k z || wrap then Some (int_number s k (z mod 2 ^ (8 * k))) else None.

Lemma narrow_spec s k w z : 0 < k <= 128 -> in_range s 128 z = true ->
  narrow s k w (int_number s 128 (z mod 2 ^ (8 * 128))) = deliver s k w z.
Proof.
  intros Hk Hz. unfold narrow. change (layout (int_number s 128 (z mod 2 ^ (8 * 128)))) with (Integer (mkInt s 128)).
  cbn [il_bytes]. unfold reshaped_int.
  assert (fits 128 (z mod 2 ^ (8 * 128))) as Hf by (by apply fits_mod).
  rewrite (reshape_int_spec s 128 128) by (done || lia).
  rewrite value_range by done. cbn [orb mbind option_bind].
  assert (value s 128 (z mod 2 ^ (8 * 128)) = z) as Ev.
  { destruct s; cbn [value]; [by apply to_signed_mod|]. unfold in_range in Hz. apply Z.mod_small. lia. }
  rewrite Ev, (reshape_int_spec s 128 k) by (done || lia). by rewrite Ev.
Qed.

Section arith_spec.
Context `{HW : !WideLaws W}.

(** The exact result of an operation on two registers of [k] bytes. *)
Definition exact_int (op : Z -> Z -> Z) (k : Z) (f : IntFlags) (a b : Z) : option Number :=
  let s := signed f in
  let z := op (value s k a) (value s k b) in
  if in_range s 128 z then deliver s k (wrap f) z else None.

Lemma int_op_spec op u i k f a b :
  (forall x y, in_u1024 x -> in_u1024 y -> u x y = fit_u (op x y)) ->
  (forall x y, in_i1024 x -> in_i1024 y -> i x y = fit_i (op x y)) ->
  fits k a -> fits k b -> k <= 128 ->
  int_op u i (int_number false k a) (int_number false k b) f = Ok (exact_int op k f a b).
Proof.
  intros Hu Hi Ha Hb Hk. unfold int_op, assert_, ensure. rewrite bool_decide_true by done.
  cbn [mbind result_bind]. change (layout (int_number false k a)) with (Integer (mkInt false k)).
  cbn [il_bytes]. unfold exact_int.
  destruct (signed f); cbn [value].
  - rewrite !to_i1024_signed by done. cbn. rewrite Hi.
    2, 3: pose proof (to_signed_range k a Ha); pose proof (to_signed_range k b Hb);
      assert (2 ^ (8 * k - 1) <= 2 ^ 1023) by (apply Z.pow_le_mono_r; lia);
      unfold in_i1024; lia.
    f_equal. unfold fit_i. change (2 ^ 1023) with (2 ^ (8 * 128 - 1)).
    fold (in_range true 128 (op (to_signed k a) (to_signed k b))).
    destruct (in_range true 128 _) eqn:E; [|done].
    apply narrow_spec; [destruct Ha; lia|done].
  - rewrite !to_u1024_unsigned by done. cbn. rewrite Hu.
    2, 3: pose proof (pow_bytes_le k 128); destruct Ha, Hb; unfold in_u1024;
      change (2 ^ 1024) with (2 ^ (8 * 128)); lia.
    f_equal. unfold fit_u. change (2 ^ 1024) with (2 ^ (8 * 128)).
    fold (in_range false 128 (op a b)). destruct (in_range false 128 _) eqn:E; [|done].
    cbn [mbind option_bind]. rewrite <- narrow_spec by (first [destruct Ha; lia|done]).
    unfold in_range in E. rewrite Z.mod_small by lia. done.
Qed.

(** Integer addition, subtraction and multiplication of two registers of
    the same size are exact: whichever way the flags ask to read the bits, the
    result is the true one reduced to the register, or nothing when it does not
    fit the register and wrapping is off, or does not fit 1024 bits. *)
Theorem register_arithmetic (r : RegA) f a b :
  let k := RegA_bytes r in
  fits k a -> fits k b ->
  int_add (int_number false k a) (int_number false k b) f = Ok (exact_int Z.add k f a b) /\
  int_sub (int_number false k a) (int_number false k b) f = Ok (exact_int Z.sub k f a b) /\
  int_mul (int_number false k a) (int_number false k b) f = Ok (exact_int Z.mul k f a b).
Proof.
  intros k Ha Hb. assert (k <= 128) by (destruct r; cbn; lia).
  split_and!; apply int_op_spec; try done; intros x y Hx Hy;
    [by apply u_add_law|by apply i_add_law|by apply u_sub_law|by apply i_sub_law
    |by apply u_mul_law|by apply i_mul_law].
Qed.

(** The quotient of two registers: nothing on a zero divisor or when the signed
    quotient does not fit. *)
Definition exact_div (k : Z) (f : IntFlags) (a b : Z) : option Number :=
  if b =? 0 then None
  else if a =? 0 then Some (int_number false k 0)
  else if signed f then
    deliver true k false
      ((if wrap f then div_euclid else Z.quot) (to_signed k a) (to_signed k b))
  else Some (int_number true k (a / b)).

Lemma to_signed_0 k r : fits k r -> to_signed k r = 0 -> r = 0.
Proof.
  intros [Hk Hr]. unfold to_signed. destruct (Z.ltb_spec r (2 ^ (8 * k - 1))); lia.
Qed.

Lemma deliver_fit k z : 0 < k <= 128 ->
  (fit_i z ≫= fun z => narrow true k false (from_int 128 z)) = deliver true k false z.
Proof.
  intros Hk. unfold fit_i. change (2 ^ 1023) with (2 ^ (8 * 128 - 1)).
  fold (in_range true 128 z). destruct (in_range true 128 z) eqn:E.
  - cbn [mbind option_bind]. by apply narrow_spec.
  - cbn [mbind option_bind]. unfold deliver. destruct (in_range true k z) eqn:E'; [|done].
    by rewrite (in_range_mono true k 128) in E.
Qed.

(** Integer division of two registers of the same size never aborts and is
    exact on every branch, the Euclidean and the truncating one included. *)
Theorem register_division (r : RegA) f a b :
  let k := RegA_bytes r in
  fits k a -> fits k b ->
  int_div (int_number false k a) (int_number false k b) f = Ok (exact_div k f a b).
Proof.
  intros k Ha Hb. assert (0 < k <= 128) as Hk by (destruct r; cbn; lia).
  unfold int_div, assert_, ensure. rewrite bool_decide_true by done. cbn [mbind result_bind].
  rewrite !is_zero_int by done. unfold exact_div.
  destruct (Z.eqb_spec b 0); [done|]. destruct (Z.eqb_spec a 0); [done|].
  change (layout (int_number false k a)) with (Integer (mkInt false k)). cbn [il_bytes].
  assert (in_u1024 a /\ in_u1024 b) as [].
  { pose proof (pow_bytes_le k 128). destruct Ha, Hb. unfold in_u1024.
    change (2 ^ 1024) with (2 ^ (8 * 128)). lia. }
  destruct (signed f).
  - rewrite !to_i1024_signed by (done || lia). cbn [mbind result_bind]. f_equal.
    assert (to_signed k b <> 0) by (intros ?%to_signed_0; done).
    assert (forall x, fits k x -> in_i1024 (to_signed k x)) as Hi.
    { intros x Hx. pose proof (to_signed_range k x Hx).
      assert (2 ^ (8 * k - 1) <= 2 ^ 1023) by (apply Z.pow_le_mono_r; lia). unfold in_i1024. lia. }
    destruct (wrap f); [rewrite i_div_euclid_law by auto|rewrite i_div_law by auto];
      by apply deliver_fit.
  - rewrite !to_u1024_unsigned by (done || lia). cbn [mbind result_bind]. f_equal.
    rewrite u_div_law by done. cbn [mbind option_bind].
    assert (0 <= a / b <= a) by (destruct Ha, Hb; split; [apply Z.div_pos; lia|];
      apply Z.div_le_upper_bound; nia).
    assert (fits 128 (a / b)) as Hq by (eapply fits_le; [|apply Hk]; destruct Ha; split; lia).
    unfold reshaped_int, reshape_int. rewrite bool_decide_false by (intros [=]).
    cbn [il_signed il_bytes andb]. fold (int_number false 128 (a / b)).
    change (mkNumber (Integer (mkInt true k)) (raw (from_uint 128 (a / b))))
      with (int_number true k (a / b)).
    change (from_uint 128 (a / b)) with (int_number false 128 (a / b)).
    rewrite min_bit_len_range, clean_int by (done || lia || (destruct Ha; split; lia)).
    unfold in_range, value. destruct Ha.
    replace ((0 <=? a / b) && (a / b <? 2 ^ (8 * k))) with true by lia. done.
Qed.


(** ** Shifts and comparison of registers *)

Lemma fits_u1024 k a : fits k a -> k <= 128 -> in_u1024 a.
Proof.
  intros [? ?] ?. pose proof (pow_bytes_le k 128). unfold in_u1024.
  change (2 ^ 1024) with (2 ^ (8 * 128)). lia.
Qed.

Lemma mod_pow_le z j k : 0 <= j <= k -> (z mod 2 ^ (8 * k)) mod 2 ^ (8 * j) = z mod 2 ^ (8 * j).
Proof.
  intros. apply Z.mod_mod_divide.
  exists (2 ^ (8 * k - 8 * j)). rewrite <- Z.pow_add_r by lia. f_equal. lia.
Qed.

Lemma shift_mod a s k : 0 <= s -> 0 <= k <= 128 ->
  (if s <? 1024 then Z.shiftl a s mod 2 ^ 1024 else 0) mod 2 ^ (8 * k) = (a * 2 ^ s) mod 2 ^ (8 * k).
Proof.
  intros Hs Hk. rewrite <- Z.shiftl_mul_pow2 by done. destruct (Z.ltb_spec s 1024).
  - change (2 ^ 1024) with (2 ^ (8 * 128)). by apply mod_pow_le.
  - rewrite Z.mod_0_l by (pose proof (pow2_pos (8 * k)); lia). symmetry.
    rewrite Z.shiftl_mul_pow2 by done. replace s with (s - 8 * k + 8 * k) by lia.
    rewrite Z.pow_add_r, Z.mul_assoc by lia. apply Z.mod_mul. pose proof (pow2_pos (8 * k)). lia.
Qed.

Lemma num_shl_spec k j a s : fits k a -> k <= 128 -> fits j s -> s < 65536 ->
  num_shl (int_number false k a) (int_number false j s)
  = Ok (int_number false k ((a * 2 ^ s) mod 2 ^ (8 * k))).
Proof.
  intros Ha Hk Hj Hs. unfold num_shl, shift_op.
  change (layout (int_number false k a)) with (Integer (mkInt false k)). cbn [il_signed].
  rewrite to_uint_unsigned by (done || lia). cbn [mbind result_bind].
  rewrite to_u1024_unsigned by done. cbn [mbind result_bind].
  pose proof (fits_u1024 k a Ha Hk). destruct Hj. rewrite u_shl_law by lia || done.
  set (z := default 0 _).
  assert (z = (if s <? 1024 then Z.shiftl a s mod 2 ^ 1024 else 0)) as Ez
    by (unfold z; by destruct (s <? 1024)).
  assert (fits 128 z) as Hz.
  { rewrite Ez. split; [lia|]. destruct (s <? 1024); [|lia].
    apply (Z.mod_pos_bound _ (2 ^ 1024)). lia. }
  change (from_uint 128 z) with (int_number false 128 z).
  rewrite reshape_int_spec by (done || (destruct Ha; lia) || done).
  cbn [value fst]. rewrite Ez, shift_mod by (destruct Ha; lia). done.
Qed.

Lemma num_shr_spec k j a s : fits k a -> k <= 128 -> fits j s -> s < 65536 ->
  num_shr (int_number false k a) (int_number false j s)
  = Ok (int_number false k (a / 2 ^ s)).
Proof.
  intros Ha Hk Hj Hs. unfold num_shr, shift_op.
  change (layout (int_number false k a)) with (Integer (mkInt false k)). cbn [il_signed].
  rewrite to_uint_unsigned by (done || lia). cbn [mbind result_bind].
  rewrite to_u1024_unsigned by done. cbn [mbind result_bind].
  pose proof (fits_u1024 k a Ha Hk) as Hu. destruct Hj. rewrite u_shr_law by lia || done.
  assert (0 < 2 ^ s) by auto with lia.
  assert (default 0 (if s <? 1024 then Some (Z.shiftr a s) else None) = a / 2 ^ s) as ->.
  { destruct (Z.ltb_spec s 1024); cbn; [by apply Z.shiftr_div_pow2; lia|].
    symmetry. apply Z.div_small. unfold in_u1024 in Hu.
    assert (2 ^ 1024 <= 2 ^ s) by (apply Z.pow_le_mono_r; lia). lia. }
  assert (0 <= a / 2 ^ s <= a).
  { destruct Ha. split; [by apply Z.div_pos; lia|]. apply Z.div_le_upper_bound; nia. }
  assert (fits 128 (a / 2 ^ s)) as Hz by (eapply fits_le; [|apply Hk]; destruct Ha; split; lia).
  change (from_uint 128 (a / 2 ^ s)) with (int_number false 128 (a / 2 ^ s)).
  rewrite reshape_int_spec by (done || (destruct Ha; lia) || done).
  cbn [value fst]. rewrite Z.mod_small by (destruct Ha; lia). done.
Qed.

(** Rotation of [bits] bits to the left by [e]. *)
Definition rotl (bits e a : Z) : Z := (a * 2 ^ e) mod 2 ^ bits + a / 2 ^ (bits - e).

Lemma rot_or bits e a : 0 <= e <= bits -> 0 <= a < 2 ^ bits ->
  Z.lor ((a * 2 ^ e) mod 2 ^ bits) (a / 2 ^ (bits - e)) = rotl bits e a.
Proof.
  intros He Ha. unfold rotl.
  assert (0 < 2 ^ e) by auto with lia. assert (0 < 2 ^ (bits - e)) by auto with lia.
  assert (2 ^ bits = 2 ^ (bits - e) * 2 ^ e) as Eb by (rewrite <- Z.pow_add_r by lia; f_equal; lia).
  rewrite Eb at 1 2. rewrite Z.mul_mod_distr_r by lia. rewrite Z.lor_comm.
  rewrite <- (Z.shiftl_mul_pow2 _ e) by lia. rewrite lor_high; [|lia|].
  - rewrite Z.shiftl_mul_pow2 by lia. lia.
  - split; [by apply Z.div_pos; lia|]. apply Z.div_lt_upper_bound; lia.
Qed.

Lemma rotl_range bits e a : 0 <= e <= bits -> 0 <= a < 2 ^ bits -> 0 <= rotl bits e a < 2 ^ bits.
Proof.
  intros He Ha. unfold rotl.
  assert (0 < 2 ^ e) by auto with lia. assert (0 < 2 ^ (bits - e)) by auto with lia.
  assert (2 ^ bits = 2 ^ (bits - e) * 2 ^ e) as Eb by (rewrite <- Z.pow_add_r by lia; f_equal; lia).
  assert (0 <= a / 2 ^ (bits - e) < 2 ^ e)
    by (split; [by apply Z.div_pos; lia|]; apply Z.div_lt_upper_bound; lia).
  rewrite Eb. rewrite Z.mul_mod_distr_r by lia.
  pose proof (Z.mod_pos_bound a (2 ^ (bits - e)) ltac:(lia)). nia.
Qed.

Lemma num_or_spec k a b : fits k a -> fits k b -> k <= 128 ->
  num_or (int_number false k a) (int_number false k b) = Ok (int_number false 128 (Z.lor a b)).
Proof.
  intros Ha Hb Hk. unfold num_or, bit_op. rewrite !to_u1024_unsigned by done. cbn [mbind result_bind].
  rewrite u_or_law by eauto using fits_u1024. done.
Qed.

(** The cyclic shifts rotate: for every register and every 16-bit distance,
    [scl] moves the bits that leave at the top back in at the bottom, and [scr]
    is the rotation by the complementary distance. *)
Theorem cyclic_shift_rotates (r : RegA) j a s :
  let k := RegA_bytes r in
  fits k a -> fits j s -> s < 65536 ->
  scl (int_number false k a) (int_number false j s)
  = Ok (int_number false k (rotl (8 * k) (s mod (8 * k)) a)) /\
  scr (int_number false k a) (int_number false j s)
  = Ok (int_number false k (rotl (8 * k) (8 * k - s mod (8 * k)) a)).
Proof.
  intros k Ha Hj Hs. assert (0 < k <= 128) as Hk by (destruct r; cbn; lia).
  unfold scl, scr, cycle_op.
  change (layout (int_number false k a)) with (Integer (mkInt false k)).
  change (nlen (int_number false k a)) with k.
  change (into_unsigned (int_number false k a)) with (int_number false k a).
  rewrite (Z.mul_comm k 8), !to_uint_unsigned by (done || lia). cbn [mbind result_bind].
  pose proof (Z.mod_pos_bound s (8 * k) ltac:(lia)) as He. set (e := s mod (8 * k)) in *.
  change (from_uint 2 (8 * k - e)) with (int_number false 2 (8 * k - e)).
  change (from_uint 2 e) with (int_number false 2 e).
  assert (fits 2 e /\ fits 2 (8 * k - e)) as [].
  { change (2 ^ (8 * 2)) with 65536. split; (split; [lia|]); cbn; lia. }
  rewrite (num_shr_spec k 2 a (8 * k - e)), (num_shl_spec k 2 a e), (num_shl_spec k 2 a (8 * k - e)),
    (num_shr_spec k 2 a e) by (assumption || lia).
  cbn [mbind result_bind].
  assert (forall x, 0 <= x <= 8 * k -> fits k (a / 2 ^ x)) as Hd.
  { intros x Hx. destruct Ha. split; [lia|]. assert (0 < 2 ^ x) by auto with lia.
    split; [apply Z.div_pos; lia|]. apply Z.le_lt_trans with a; [|lia].
    apply Z.div_le_upper_bound; nia. }
  assert (forall x, fits k ((a * 2 ^ x) mod 2 ^ (8 * k))) as Hm by (intros; apply fits_mod; lia).
  rewrite !num_or_spec by (first [apply Hd; lia|apply Hm|lia]). cbn [mbind result_bind].
  assert (forall x, 0 <= x <= 8 * k -> fits k (rotl (8 * k) x a)) as Hr.
  { intros x Hx. destruct Ha. split; [lia|]. by apply rotl_range. }
  rewrite (rot_or (8 * k) e a) by (destruct Ha; lia).
  assert (Z.lor (a / 2 ^ e) ((a * 2 ^ (8 * k - e)) mod 2 ^ (8 * k)) = rotl (8 * k) (8 * k - e) a) as ->.
  { rewrite Z.lor_comm, <- (rot_or (8 * k) (8 * k - e) a) by (destruct Ha; lia).
    by replace (8 * k - (8 * k - e)) with e by lia. }
  unfold reshaped_int.
  rewrite !reshape_int_spec by (first [lia|intros ?; discriminate|eapply fits_le; [apply Hr; lia|lia]]).
  cbn [value]. rewrite !orb_true_r. cbn [ok_or].
  by rewrite !Z.mod_small by (apply Hr; lia).
Qed.

(** Unsigned comparison of two registers is the order of their values. *)
Theorem unsigned_comparison fs (r : RegA) a b :
  let k := RegA_bytes r in
  fits k a -> fits k b ->
  num_cmp fs (int_number false k a) (int_number false k b) = Ok (a ?= b) /\
  num_eq (int_number false k a) (int_number false k b) = (a =? b).
Proof.
  intros k Ha Hb. assert (k <= 128) by (destruct r; cbn; lia). split.
  - unfold num_cmp, assert_, ensure. rewrite bool_decide_true by done. cbn [mbind result_bind].
    change (layout (int_number false k a)) with (Integer (mkInt false k)).
    change (is_positive (int_number false k a)) with true.
    change (is_positive (int_number false k b)) with true. cbn iota.
    by rewrite !to_u1024_unsigned.
  - unfold num_eq. rewrite bool_decide_true, !clean_int by done.
    change (nlen (int_number false k a)) with k. change (nlen (int_number false k b)) with k.
    rewrite Z.eqb_refl. done.
Qed.
End arith_spec.

(** ** Signed zero *)

(** Widening a signed zero does not keep it: the sign fill is applied to
    every number that is not positive, zero included, so the result is
    [- 2 ^ (8 k)] and is reported as exact. *)
Theorem reshape_signed_zero k m : 0 < k < m ->
  reshape_int (int_number true k 0) (mkInt true k) (mkInt true m)
  = (int_number true m ((- 2 ^ (8 * k)) mod 2 ^ (8 * m)), true) /\
  value true k 0 = 0 /\
  value true m ((- 2 ^ (8 * k)) mod 2 ^ (8 * m)) = - 2 ^ (8 * k).
Proof.
  intros Hk. destruct (pow_half m) as [Em ?]; [lia|].
  assert (0 < 2 ^ (8 * k)) by auto with lia. assert (0 < 2 ^ (8 * k - 1)) by auto with lia.
  assert (fits k 0) as Hf by (split; lia).
  assert (2 ^ (8 * k) <= 2 ^ (8 * m - 1)) by (apply Z.pow_le_mono_r; lia).
  split_and!.
  - unfold reshape_int. rewrite bool_decide_false by (intros [=]; lia). cbn [il_signed il_bytes].
    unfold is_positive. rewrite is_zero_int by done. change (is_unsigned_int _) with false.
    cbn [Z.eqb negb andb]. destruct (Z.ltb_spec k m); [|lia]. f_equal.
    unfold int_number. f_equal. change (raw _) with 0. unfold low_bytes.
    rewrite Z.mod_0_l, Z.lor_0_l, Z.shiftl_mul_pow2, Z.ones_equiv by lia.
    assert (2 ^ (8 * m) = 2 ^ (8 * (m - k)) * 2 ^ (8 * k)) as E.
    { rewrite <- Z.pow_add_r by lia. f_equal. lia. }
    apply (Z.mod_unique _ _ (-1)); nia.
  - cbn [value]. unfold to_signed. destruct (Z.ltb_spec 0 (2 ^ (8 * k - 1))); lia.
  - cbn [value]. apply to_signed_mod; [lia|]. unfold in_range. lia.
Qed.

(** ** Witnesses *)

#[local] Existing Instance exact_wide.

(** Floats none of whose values is a number. *)
Definition no_floats : Floats := {|
  f_number _ _ := None; f_convert _ _ _ := None; f_to_i256 _ _ := (0, false);
  f_is_nan _ _ := true; f_cmp _ _ _ := None;
  f_add _ _ _ _ := None; f_sub _ _ _ _ := None; f_mul _ _ _ _ := None; f_div _ _ _ _ := None |}.

Lemma register_arithmetic_witness :
  int_sub (int_number false 2 1) (int_number false 2 3) {| signed := true; wrap := false |}
  = Ok (Some (int_number true 2 65534)).
Proof.
  pose proof (register_arithmetic A16 {| signed := true; wrap := false |} 1 3) as H.
  destruct H as (_ & H & _); [split; cbn; lia..|]. exact H.
Defined.

Lemma register_division_witness :
  int_div (int_number false 1 249) (int_number false 1 4) {| signed := true; wrap := true |}
  = Ok (Some (int_number true 1 254)).
Proof.
  pose proof (register_division A8 {| signed := true; wrap := true |} 249 4) as H.
  apply H; split; cbn; lia.
Defined.

Lemma cyclic_shift_rotates_witness :
  scl (int_number false 1 131) (int_number false 1 9) = Ok (int_number false 1 7) /\
  scr (int_number false 1 129) (int_number false 1 9) = Ok (int_number false 1 192).
Proof.
  split.
  - exact (proj1 (cyclic_shift_rotates A8 1 131 9 ltac:(split; cbn; lia) ltac:(split; cbn; lia)
      ltac:(lia))).
  - exact (proj2 (cyclic_shift_rotates A8 1 129 9 ltac:(split; cbn; lia) ltac:(split; cbn; lia)
      ltac:(lia))).
Defined.

Lemma unsigned_comparison_witness :
  num_cmp no_floats (int_number false 8 7) (int_number false 8 (2 ^ 63)) = Ok Lt.
Proof. 
  destruct (unsigned_comparison no_floats A64 7 (2 ^ 63)) as [H _]; [split; cbn; lia..|].
  cbn [RegA_bytes] in H. rewrite H. reflexivity.
Defined.

Lemma reshape_signed_zero_witness :
  reshape_int (int_number true 1 0) (mkInt true 1) (mkInt true 2) = (int_number true 2 65280, true).
Proof. exact (proj1 (reshape_signed_zero 1 2 ltac:(lia))). Defined.
