(* ===== verification/AluCursor.v ===== *)
(** * AluVM: the bytecode cursor (crates/rgb-aluvm/src/library/cursor.rs)

    Bit-granular reading and writing of the code segment and access to the data
    and library segments.  The methods are the loops of the source over bytes;
    [read_spec] and [write_spec] relate them to the little-endian integer that
    the code segment spells. *)

From S2P Require Import Prelude AluReg AluNumber.
Local Open Scope Z_scope.

Definition DATA_SEGMENT_MAX_LEN : Z := 65535.

Inductive WriteError :=
| CodeNotFittingSegment
| DataExceedsLimit (size : Z)
| DataNotFittingSegment
| LibAbsent (lib : string).

(** The errors of reading and of encoding, and a panic. *)
Inductive vm_err :=
| CodeEofError
| Write (e : WriteError)
| PutNoNumber
| VmPanic (p : panic).

Record Cursor := mkCursor {
  bytecode : list Z;
  byte_pos : Z;
  bit_pos : Z;
  cdata : list Z;
  libs : list string;
}.

Abbreviation CM := (SE Cursor vm_err).

Definition set_pos (byte bit : Z) (c : Cursor) : Cursor :=
  mkCursor (bytecode c) byte bit (cdata c) (libs c).
Definition set_code (code : list Z) (c : Cursor) : Cursor :=
  mkCursor code (byte_pos c) (bit_pos c) (cdata c) (libs c).
Definition set_data (d : list Z) (c : Cursor) : Cursor :=
  mkCursor (bytecode c) (byte_pos c) (bit_pos c) d (libs c).

Definition len {A} (l : list A) : Z := Z.of_nat (length l).

(** [Cursor::new] and [Cursor::with] (its length checks are [assert!]s on
    segments that the types bound already) *)
Definition cursor_new (code : list Z) (ls : list string) : Cursor := mkCursor code 0 0 [] ls.
Definition cursor_with (code data : list Z) (ls : list string) : Cursor := mkCursor code 0 0 data ls.

Definition is_eof (c : Cursor) : bool := len (bytecode c) <=? byte_pos c.

Definition inc_bytes_inner (n : Z) : CM unit := fun c =>
  match checked_add 16 (byte_pos c) n with
  | Some p => (set_pos p (bit_pos c) c, Ok tt)
  | None => (c, Err CodeEofError)
  end.

Definition inc_bits (n : Z) : CM unit := fun c =>
  let pos := bit_pos c + n in
  inc_bytes_inner (pos / 8) (set_pos (byte_pos c) (pos mod 8) c).

(** The [assert_eq!] on the alignment is a panic. *)
Definition inc_bytes (n : Z) : CM unit := fun c =>
  if bit_pos c =? 0 then inc_bytes_inner n c else (c, Err (VmPanic (Abort "alignment"))).

(** The loop of [read]: [cnt] bits are left of [bit_count]. *)
Fixpoint read_loop (fuel : nat) (bit_count cnt ret : Z) : CM Z :=
  match fuel with
  | O => mret ret
  | S fuel' => fun c =>
      if cnt =? 0 then (c, Ok ret) else
      if is_eof c then (c, Err CodeEofError) else
      let byte := bytecode c !!! Z.to_nat (byte_pos c) in
      let remaining_bits := 8 - bit_pos c in
      let mask :=
        if remaining_bits <? cnt
        then Z.land (Z.shiftl 255 (bit_pos c)) 255
        else Z.land (Z.shiftl (Z.shiftl 1 cnt - 1) (bit_pos c)) 255 in
      let value := Z.shiftr (Z.land byte mask) (bit_pos c) in
      let ret' := Z.lor ret (Z.shiftl value (bit_count - cnt)) in
      (let k := Z.min remaining_bits cnt in
       (if k =? 8 then inc_bytes 1 else inc_bits k) ;;
       read_loop fuel' bit_count (Z.max 0 (cnt - remaining_bits)) ret') c
  end.

Definition read_bits (bit_count : Z) : CM Z :=
  read_loop (Z.to_nat bit_count) bit_count bit_count 0.

Definition peek_u8 : CM Z := fun c =>
  if is_eof c then (c, Err CodeEofError)
  else (c, Ok (bytecode c !!! Z.to_nat (byte_pos c))).

Definition seek (p : Z) : CM Z := fun c =>
  if len (bytecode c) <=? p then (c, Err CodeEofError)
  else (set_pos p (bit_pos c) c, Ok (byte_pos c)).

(** The loop of [write] over the bytes of [value << bit_pos]. *)
Fixpoint write_loop (n_bytes : nat) (value cnt : Z) : CM unit :=
  match n_bytes with
  | O => mret tt
  | S n' => fun c =>
      if is_eof c then (c, Err CodeEofError) else
      let i := Z.to_nat (byte_pos c) in
      let byte := bytecode c !!! i in
      let c1 := set_code (<[i := Z.lor byte (Z.land value 255)]> (bytecode c)) c in
      let used := Z.min cnt (8 - bit_pos c) in
      ((if (bit_pos c =? 0) && (8 <=? cnt) then inc_bytes 1 else inc_bits used) ;;
       write_loop n' (Z.shiftr value 8) (Z.max 0 (cnt - used))) c1
  end.

Definition write_bits (value bit_count : Z) : CM unit := fun c =>
  write_loop (Z.to_nat ((bit_count + bit_pos c + 7) / 8))
    (Z.shiftl value (bit_pos c)) bit_count c.

(** [self.write(..).map_err(WriteError::from)] *)
Definition write_field (w v : Z) : CM unit := fun c =>
  let '(c', r) := write_bits v w c in
  (c', map_err (fun e => match e with CodeEofError => Write CodeNotFittingSegment | e => e end) r).

(** [write_i8]: the value is sign-extended to 32 bits first. *)
Definition write_i8 (v : Z) : CM unit := write_field 8 (v mod 2 ^ 32).

Definition read_u8 : CM Z := read_bits 8.
Definition read_u16 : CM Z := read_bits 16.
Definition read_i8 : CM Z := v ← read_bits 8; mret (to_signed 1 v).

(** [LibSeg::at] and [LibSeg::index]; a library id is 32 bytes, the default one
    is zero. *)
Definition default_lib : string := String.string_of_list_ascii (repeat Ascii.zero 32).
Definition lib_index (ls : list string) (lib : string) : option Z :=
  (fun p => Z.of_nat p.1) <$> list_find (fun l => l = lib) ls.

Definition write_lib (lib : string) : CM unit := fun c =>
  match lib_index (libs c) lib with
  | Some i => write_field 8 i c
  | None => (c, Err (Write (LibAbsent lib)))
  end.

Definition read_lib : CM string :=
  i ← read_u8; c ← get; mret (default default_lib (libs c !! Z.to_nat i)).

(** [windows(len).position(..)] *)
Fixpoint find_window (bytes data : list Z) (at_ : Z) : option Z :=
  if len data <? len bytes then None
  else if bool_decide (take (length bytes) data = bytes) then Some at_
  else match data with [] => None | _ :: data' => find_window bytes data' (at_ + 1) end.

Definition write_unique (bytes : list Z) : CM Z := fun c =>
  let offset := len (cdata c) in
  if len bytes =? 0 then (c, Ok offset)
  else match find_window bytes (cdata c) 0 with
  | Some o => (c, Ok o)
  | None =>
      if DATA_SEGMENT_MAX_LEN <? offset + len bytes then (c, Err (Write DataNotFittingSegment))
      else (set_data (cdata c ++ bytes) c, Ok offset)
  end.

Definition write_data (bytes : list Z) : CM unit :=
  if 65535 <=? len bytes then fail (Write (DataExceedsLimit (len bytes)))
  else offset ← write_unique bytes; write_field 16 offset ;; write_field 16 (len bytes).

(** The slice of [read_data] panics when it leaves the data segment. *)
Definition slice {A} (from to : Z) (l : list A) : list A :=
  take (Z.to_nat (to - from)) (drop (Z.to_nat from) l).

Definition read_data : CM (list Z * bool) :=
  offset ← read_u16; n ← read_u16; c ← get;
  let end_ := offset + n in
  let max := DATA_SEGMENT_MAX_LEN in
  let st0 := len (cdata c) <? end_ in
  if len (cdata c) <? Z.min end_ max then fail (VmPanic (Abort "slice index"))
  else mret (slice (Z.min offset max) (Z.min end_ max) (cdata c), st0).

(** [read_number] and [write_number] for a register of a layout. *)
Definition read_number (reg : Layout) : CM Number :=
  offset ← read_u16; c ← get;
  let end_ := offset + Layout_bytes reg in
  if len (cdata c) <? end_ then fail CodeEofError
  else match number_with (slice offset end_ (cdata c)) reg with
  | Some n => mret n
  | None => fail (VmPanic (Abort "read_number is broken"))
  end.

Definition write_number (fs : Floats) (reg : Layout) (v : Number) : CM unit :=
  if Layout_bytes reg <? nlen v then fail (VmPanic (Abort "larger bit length than the register"))
  else
    r ← lift (map_err VmPanic (reshape fs v (using_sign reg (layout v))));
    offset ← write_unique (number_bytes r.1);
    write_field 16 offset.

(** ** The code segment as an integer *)

Definition bytes_ok (l : list Z) : Prop := Forall (fun b => 0 <= b < 256) l.

Lemma pow8 : 2 ^ 8 = 256.
Proof. done. Qed.

Lemma le_cons b l : 0 <= b < 256 -> le (b :: l) = Z.lor b (Z.shiftl (le l) 8).
Proof. intros. cbn [le]. rewrite lor_high by (rewrite ?pow8; lia). rewrite pow8. lia. Qed.

Lemma le_range l : bytes_ok l -> 0 <= le l < 2 ^ (8 * len l).
Proof.
  induction 1 as [|b l Hb Hl IH]; [done|]. cbn [le]. unfold len in *. cbn [length].
  replace (8 * Z.of_nat (S (length l))) with (8 + 8 * Z.of_nat (length l)) by lia.
  rewrite Z.pow_add_r by lia. change (2 ^ 8) with 256. nia.
Qed.

Lemma le_lookup l i b : bytes_ok l -> l !! i = Some b -> b = (le l / 2 ^ (8 * Z.of_nat i)) mod 256.
Proof.
  intros Hl. revert i. induction Hl as [|x l Hx Hl IH]; intros [|i]; [done..| |]; cbn [le lookup list_lookup].
  - intros [= ->]. change (8 * Z.of_nat 0) with 0. rewrite Z.div_1_r.
    apply (Z.mod_unique _ _ (le l)); lia.
  - intros Hi. rewrite (IH _ Hi). replace (8 * Z.of_nat (S i)) with (8 + 8 * Z.of_nat i) by lia.
    rewrite Z.pow_add_r, <- Z.div_div by (lia || (pose proof (pow2_pos (8 * Z.of_nat i)); lia)).
    change (2 ^ 8) with 256. do 2 f_equal. apply (Z.div_unique _ _ _ x); lia.
Qed.

Lemma lor_byte b x : 0 <= b < 256 -> 0 <= x < 256 -> 0 <= Z.lor b x < 256.
Proof.
  intros Hb Hx. split; [by apply Z.lor_nonneg; lia|].
  destruct (Z.eq_dec (Z.lor b x) 0) as [->|]; [lia|].
  change 256 with (2 ^ 8). apply Z.log2_lt_pow2; [pose proof (proj2 (Z.lor_nonneg b x)); lia|].
  rewrite Z.log2_lor by lia.
  assert (forall y, 0 <= y < 256 -> Z.log2 y < 8) as H8.
  { intros y Hy. destruct (Z.eq_dec y 0) as [->|]; [done|]. apply Z.log2_lt_pow2; cbn; lia. }
  apply Z.max_lub_lt; auto.
Qed.

Lemma le_insert l i b x : bytes_ok l -> 0 <= x < 256 -> l !! i = Some b ->
  le (<[i := Z.lor b x]> l) = Z.lor (le l) (Z.shiftl x (8 * Z.of_nat i)).
Proof.
  intros Hl Hx. revert i. induction Hl as [|y l Hy Hl IH]; intros [|i]; [done..| |].
  - intros [= ->]. cbn [insert list_insert].
    rewrite !le_cons by (done || by apply lor_byte). change (8 * Z.of_nat 0) with 0.
    rewrite Z.shiftl_0_r, <- !Z.lor_assoc. f_equal. apply Z.lor_comm.
  - intros Hi. change (<[S i := Z.lor b x]> (y :: l)) with (y :: <[i := Z.lor b x]> l).
    rewrite !le_cons, (IH i Hi) by done.
    rewrite Z.shiftl_lor, Z.shiftl_shiftl, Z.lor_assoc by lia. do 2 f_equal. lia.
Qed.

Lemma bytes_ok_insert l i b : bytes_ok l -> 0 <= b < 256 -> bytes_ok (<[i := b]> l).
Proof. intros. by apply Forall_insert. Qed.

(** A cursor in use: bytes in the segment, a position of bits below 8, and a
    segment that is not longer than [u16] allows. *)
Record cursor_ok (c : Cursor) : Prop := {
  ok_bytes : bytes_ok (bytecode c);
  ok_len : len (bytecode c) <= 65535;
  ok_byte : 0 <= byte_pos c;
  ok_bit : 0 <= bit_pos c < 8;
}.

(** The position in bits, and a move by [n] bits. *)
Definition pos (c : Cursor) : Z := 8 * byte_pos c + bit_pos c.
Definition moved (n : Z) (c : Cursor) : Cursor :=
  set_pos ((pos c + n) / 8) ((pos c + n) mod 8) c.

(** The [n] bits from [p] on. *)
Definition bits_at (z p n : Z) : Z := (z / 2 ^ p) mod 2 ^ n.

Lemma bits_at_split z p i k : 0 <= p -> 0 <= i -> 0 <= k ->
  bits_at z p (i + k) = Z.lor (bits_at z p i) (Z.shiftl (bits_at z (p + i) k) i).
Proof.
  intros. unfold bits_at. pose proof (pow2_pos i). pose proof (pow2_pos k). pose proof (pow2_pos p).
  rewrite lor_high by (lia || (apply Z.mod_pos_bound; lia)).
  rewrite (Z.pow_add_r 2 p i), <- Z.div_div by lia. rewrite Z.pow_add_r by lia.
  rewrite Z.rem_mul_r by lia. lia.
Qed.

Lemma moved_pos n c : pos (moved n c) = pos c + n.
Proof. unfold moved, pos. cbn. pose proof (Z.div_mod (8 * byte_pos c + bit_pos c + n) 8). lia. Qed.

Lemma moved_moved a b c : moved b (moved a c) = moved (a + b) c.
Proof. unfold moved at 1 3. rewrite moved_pos, Z.add_assoc. done. Qed.

Lemma moved_ok n c : cursor_ok c -> 0 <= n -> cursor_ok (moved n c).
Proof.
  intros [] ?. constructor; cbn; try done.
  - apply Z.div_pos; unfold pos; lia.
  - by apply Z.mod_pos_bound.
Qed.

Lemma moved_0 c : cursor_ok c -> moved 0 c = c.
Proof.
  intros []. destruct c as [code B b d l]. unfold moved, pos, set_pos in *. cbn in *.
  rewrite Z.add_0_r. f_equal; symmetry; [apply (Z.div_unique _ _ _ b)|apply (Z.mod_unique _ _ B)]; lia.
Qed.

Lemma umax16 : umax 16 = 65535.
Proof. done. Qed.

(** Both ways to advance agree when the step stays within the byte. *)
Lemma inc_spec c k : cursor_ok c -> is_eof c = false -> 0 <= k <= 8 - bit_pos c ->
  (if k =? 8 then inc_bytes 1 else inc_bits k) c = (moved k c, Ok tt).
Proof.
  intros [_ Hlen Hb Hbit] He Hk. unfold is_eof in He. apply Z.leb_gt in He.
  unfold moved, pos. destruct (Z.eqb_spec k 8).
  - assert (bit_pos c = 0) as E0 by lia. unfold inc_bytes. rewrite E0. cbn [Z.eqb].
    unfold inc_bytes_inner, checked_add. rewrite umax16. destruct (Z.leb_spec (byte_pos c + 1) 65535); [|lia].
    rewrite E0. do 2 f_equal; [apply (Z.div_unique _ _ _ 0)|apply (Z.mod_unique _ _ (byte_pos c + 1))];
      lia.
  - unfold inc_bits, inc_bytes_inner, checked_add. cbn [byte_pos bit_pos set_pos]. rewrite umax16.
    pose proof (Z.div_mod (bit_pos c + k) 8 ltac:(lia)).
    pose proof (Z.mod_pos_bound (bit_pos c + k) 8 ltac:(lia)).
    destruct (Z.leb_spec (byte_pos c + (bit_pos c + k) / 8) 65535); [|lia].
    unfold set_pos. cbn. do 2 f_equal;
      [apply (Z.div_unique _ _ _ ((bit_pos c + k) mod 8))|
       apply (Z.mod_unique _ _ (byte_pos c + (bit_pos c + k) / 8))]; lia.
Qed.

(** The masked part of the current byte. *)
Lemma read_value byte_ bp cnt :
  0 <= byte_ < 256 -> 0 <= bp < 8 -> 0 < cnt ->
  Z.shiftr (Z.land byte_
    (if 8 - bp <? cnt then Z.land (Z.shiftl 255 bp) 255
     else Z.land (Z.shiftl (Z.shiftl 1 cnt - 1) bp) 255)) bp
  = (byte_ / 2 ^ bp) mod 2 ^ Z.min (8 - bp) cnt.
Proof.
  intros Hb Hp Hc. change 255 with (Z.ones 8) at 1 2 3.
  assert (forall m, Z.land byte_ (Z.land m (Z.ones 8)) = Z.land byte_ m) as E8.
  { intros m. rewrite (Z.land_comm m), Z.land_assoc, Z.land_ones, Z.mod_small by (cbn; lia). done. }
  assert (forall n, 0 <= n -> Z.shiftr (Z.land byte_ (Z.shiftl (Z.ones n) bp)) bp = (byte_ / 2 ^ bp) mod 2 ^ n) as En.
  { intros n Hn. rewrite Z.shiftr_land, Z.shiftr_shiftl_l by lia. replace (bp - bp) with 0 by lia.
    rewrite Z.shiftl_0_r, Z.land_ones, Z.shiftr_div_pow2 by lia. done. }
  destruct (Z.ltb_spec (8 - bp) cnt); rewrite E8.
  - rewrite En by lia. rewrite Z.min_l by lia.
    assert (0 <= byte_ / 2 ^ bp < 2 ^ (8 - bp)).
    { pose proof (pow2_pos bp). split; [apply Z.div_pos; lia|]. apply Z.div_lt_upper_bound; [lia|].
      rewrite <- Z.pow_add_r by lia. replace (bp + (8 - bp)) with 8 by lia. cbn. lia. }
    rewrite !Z.mod_small; [done|lia|]. assert (2 ^ (8 - bp) <= 2 ^ 8) by (apply Z.pow_le_mono_r; lia). lia.
  - rewrite Z.shiftl_1_l. replace (2 ^ cnt - 1) with (Z.ones cnt) by (rewrite Z.ones_equiv; lia).
    rewrite En by lia. by rewrite Z.min_r by lia.
Qed.

(** The current byte, from the bit position on. *)
Lemma byte_bits c k : cursor_ok c -> is_eof c = false -> 0 <= k <= 8 - bit_pos c ->
  ((bytecode c !!! Z.to_nat (byte_pos c)) / 2 ^ bit_pos c) mod 2 ^ k
  = bits_at (le (bytecode c)) (pos c) k /\
  0 <= bytecode c !!! Z.to_nat (byte_pos c) < 256.
Proof.
  intros [Hb _ Hp Hbit] He Hk. unfold is_eof, len in He. apply Z.leb_gt in He.
  destruct (lookup_lt_is_Some_2 (bytecode c) (Z.to_nat (byte_pos c))) as [b Hl]; [lia|].
  rewrite (list_lookup_total_correct _ _ _ Hl). split; [|exact (Forall_lookup_1 _ _ _ _ Hb Hl)].
  rewrite (le_lookup _ _ _ Hb Hl), Z2Nat.id by done. unfold bits_at, pos.
  set (x := le (bytecode c)). set (i := byte_pos c) in *. set (j := bit_pos c) in *.
  rewrite Z.pow_add_r, <- Z.div_div by (lia || (pose proof (pow2_pos (8 * i)); pose proof (pow2_pos j); lia)).
  set (y := x / 2 ^ (8 * i)).
  change 256 with (2 ^ 8). replace (2 ^ 8) with (2 ^ j * 2 ^ (8 - j)).
  2: { rewrite <- Z.pow_add_r by lia. f_equal. lia. }
  pose proof (pow2_pos j). pose proof (pow2_pos (8 - j)).
  rewrite Z.rem_mul_r, Z.mul_comm, Z.div_add, Z.div_small by (lia || (apply Z.mod_pos_bound; lia)).
  rewrite Z.add_0_l. apply Z.mod_mod_divide. exists (2 ^ (8 - j - k)).
  rewrite <- Z.pow_add_r by lia. f_equal. lia.
Qed.

Lemma not_eof c n : cursor_ok c -> 0 < n -> pos c + n <= 8 * len (bytecode c) -> is_eof c = false.
Proof. intros [] ??. unfold is_eof, pos in *. apply Z.leb_gt. lia. Qed.

Lemma read_loop_step fuel n cnt ret c : cursor_ok c -> 0 < cnt <= n -> is_eof c = false ->
  read_loop (S fuel) n cnt ret c =
  read_loop fuel n (Z.max 0 (cnt - (8 - bit_pos c)))
    (Z.lor ret (Z.shiftl (bits_at (le (bytecode c)) (pos c) (Z.min (8 - bit_pos c) cnt)) (n - cnt)))
    (moved (Z.min (8 - bit_pos c) cnt) c).
Proof.
  intros Hok Hc He. cbn [read_loop]. destruct (Z.eqb_spec cnt 0); [lia|]. rewrite He.
  pose proof (ok_bit c Hok). set (k := Z.min (8 - bit_pos c) cnt).
  destruct (byte_bits c k Hok He ltac:(unfold k; lia)) as [Eb Hb].
  rewrite read_value by lia. fold k. rewrite Eb.
  unfold mbind at 1, SE_bind at 1. rewrite inc_spec by (done || (unfold k; lia)). done.
Qed.

Lemma read_loop_spec fuel n cnt ret c :
  cursor_ok c -> 0 <= cnt <= n -> cnt <= Z.of_nat fuel -> n - cnt <= pos c ->
  pos c + cnt <= 8 * len (bytecode c) ->
  ret = bits_at (le (bytecode c)) (pos c - (n - cnt)) (n - cnt) ->
  read_loop fuel n cnt ret c
  = (moved cnt c, Ok (bits_at (le (bytecode c)) (pos c - (n - cnt)) n)).
Proof.
  revert cnt ret c. induction fuel as [|fuel IH]; intros cnt ret c Hok Hc Hf Hp Hlen Hret.
  - assert (cnt = 0) as -> by lia. rewrite moved_0 by done. subst ret. cbn. by rewrite Z.sub_0_r.
  - destruct (Z.eq_dec cnt 0) as [->|].
    + cbn [read_loop Z.eqb]. rewrite moved_0 by done. subst ret. by rewrite Z.sub_0_r.
    + assert (is_eof c = false) as He by (apply (not_eof c cnt); [done|lia..]).
      rewrite read_loop_step by (done || lia). pose proof (ok_bit c Hok).
      set (k := Z.min (8 - bit_pos c) cnt).
      assert (Z.max 0 (cnt - (8 - bit_pos c)) = cnt - k) as -> by (unfold k; lia).
      rewrite IH.
      * rewrite moved_moved, moved_pos. replace (k + (cnt - k)) with cnt by lia.
        by replace (pos c + k - (n - (cnt - k))) with (pos c - (n - cnt)) by lia.
      * apply moved_ok; [done|unfold k; lia].
      * unfold k. lia.
      * unfold k. lia.
      * rewrite moved_pos. lia.
      * rewrite moved_pos. change (bytecode (moved k c)) with (bytecode c). lia.
      * rewrite moved_pos. change (bytecode (moved k c)) with (bytecode c). subst ret.
        replace (n - (cnt - k)) with (n - cnt + k) by lia. rewrite (bits_at_split _ _ (n - cnt) k) by (unfold k; lia).
        replace (pos c + k - (n - cnt + k)) with (pos c - (n - cnt)) by lia.
        by replace (pos c - (n - cnt) + (n - cnt)) with (pos c) by lia.
Qed.

Lemma read_loop_eof fuel n cnt ret c :
  cursor_ok c -> 0 <= cnt <= n -> cnt <= Z.of_nat fuel ->
  8 * len (bytecode c) < pos c + cnt -> pos c <= 8 * len (bytecode c) ->
  (read_loop fuel n cnt ret c).2 = Err CodeEofError.
Proof.
  revert cnt ret c. induction fuel as [|fuel IH]; intros cnt ret c Hok Hc Hf Hlen Hpos; [lia|].
  destruct (is_eof c) eqn:He.
  - cbn [read_loop]. destruct (Z.eqb_spec cnt 0); [lia|]. by rewrite He.
  - rewrite read_loop_step by (done || lia). pose proof (ok_bit c Hok).
    set (k := Z.min (8 - bit_pos c) cnt).
    unfold is_eof in He. apply Z.leb_gt in He.
    apply IH; rewrite ?moved_pos; change (bytecode (moved k c)) with (bytecode c); unfold k, pos in *;
      first [apply moved_ok; [done|lia]|lia].
Qed.

(** Reading returns the bits at the position and moves past them; it fails
    exactly when the segment has not enough of them left. *)
Lemma read_spec n c : cursor_ok c -> 0 <= n -> pos c + n <= 8 * len (bytecode c) ->
  read_bits n c = (moved n c, Ok (bits_at (le (bytecode c)) (pos c) n)).
Proof.
  intros Hok Hn Hlen. unfold read_bits. rewrite read_loop_spec; [|done|lia|lia|..].
  - by replace (pos c - (n - n)) with (pos c) by lia.
  - unfold pos. destruct Hok. lia.
  - done.
  - replace (n - n) with 0 by lia. unfold bits_at. by rewrite Z.mod_1_r.
Qed.

(** The segment [code] with [v] written over the bits from [p] on. *)
Definition written (code : list Z) (v p : Z) (code' : list Z) : Prop :=
  le code' = Z.lor (le code) (Z.shiftl v p) /\ length code' = length code /\ bytes_ok code'.

Lemma write_loop_step m V cnt c : cursor_ok c -> is_eof c = false -> 0 < cnt ->
  exists code1, written (bytecode c) (Z.land V 255) (8 * byte_pos c) code1 /\
  write_loop (S m) V cnt c =
  write_loop m (Z.shiftr V 8) (cnt - Z.min cnt (8 - bit_pos c))
    (moved (Z.min cnt (8 - bit_pos c)) (set_code code1 c)).
Proof.
  intros Hok He Hc. pose proof Hok as [Hb Hlen Hp Hbit]. cbn [write_loop]. rewrite He.
  unfold is_eof, len in He. apply Z.leb_gt in He.
  destruct (lookup_lt_is_Some_2 (bytecode c) (Z.to_nat (byte_pos c))) as [b Hl]; [lia|].
  rewrite (list_lookup_total_correct _ _ _ Hl). set (k := Z.min cnt (8 - bit_pos c)).
  assert (0 <= b < 256) as Hb' by exact (Forall_lookup_1 _ _ _ _ Hb Hl).
  assert (0 <= Z.land V 255 < 256) as HV.
  { change 255 with (Z.ones 8). rewrite Z.land_ones by lia. by apply Z.mod_pos_bound. }
  set (code1 := <[_ := _]> _). exists code1.
  assert (written (bytecode c) (Z.land V 255) (8 * byte_pos c) code1) as Hw.
  { unfold code1. split_and!; [|by rewrite length_insert|by apply bytes_ok_insert, lor_byte].
    rewrite (le_insert _ _ b) by done. by rewrite Z2Nat.id. }
  split; [done|]. destruct Hw as (_ & Hl1 & Hok1).
  assert (cursor_ok (set_code code1 c)) as Hok'.
  { constructor; cbn; [done|unfold len; by rewrite Hl1|done..]. }
  replace ((bit_pos c =? 0) && (8 <=? cnt)) with (k =? 8).
  2: { unfold k. destruct (Z.eqb_spec (bit_pos c) 0), (Z.leb_spec 8 cnt); cbn; apply Z.eqb_eq || apply Z.eqb_neq; lia. }
  change (bit_pos c) with (bit_pos (set_code code1 c)) in k.
  unfold mbind at 1, SE_bind at 1. rewrite inc_spec.
  - replace (Z.max 0 (cnt - k)) with (cnt - k) by (unfold k; cbn; lia). done.
  - done.
  - unfold is_eof, len. cbn. rewrite Hl1. apply Z.leb_gt. lia.
  - unfold k. cbn. lia.
Qed.

Lemma written_trans code V p code1 code2 :
  0 <= p -> written code (Z.land V 255) p code1 -> written code1 (Z.shiftr V 8) (p + 8) code2 ->
  written code V p code2.
Proof.
  intros Hp (E1 & L1 & _) (E2 & L2 & ?). split_and!; [|congruence|done].
  rewrite E2, E1, <- Z.lor_assoc. f_equal.
  rewrite (Z.add_comm p 8), <- Z.shiftl_shiftl, <- Z.shiftl_lor by lia. f_equal.
  change 255 with (Z.ones 8). apply Z.bits_inj'. intros i Hi.
  rewrite Z.lor_spec, Z.land_spec, Z.testbit_ones_nonneg by lia.
  destruct (Z.ltb_spec i 8).
  - rewrite Z.shiftl_spec_low, andb_true_r, orb_false_r by lia. done.
  - rewrite Z.shiftl_spec_high, Z.shiftr_spec, andb_false_r by lia. cbn. f_equal. lia.
Qed.

Lemma write_loop_spec m V cnt c :
  cursor_ok c -> 0 <= V < 2 ^ (bit_pos c + cnt) -> pos c + cnt <= 8 * len (bytecode c) ->
  (m = O /\ cnt = 0 /\ V = 0) \/ (0 < cnt /\ Z.of_nat m = (cnt + bit_pos c + 7) / 8) ->
  exists code', written (bytecode c) V (8 * byte_pos c) code' /\
  write_loop m V cnt c = (moved cnt (set_code code' c), Ok tt).
Proof.
  revert V cnt c. induction m as [|m IH]; intros V cnt c Hok HV Hlen Hm.
  - destruct Hm as [(_ & -> & ->)|[Hc Hm]].
    + exists (bytecode c). split.
      * split_and!; [by rewrite Z.shiftl_0_l, Z.lor_0_r|done|apply Hok].
      * cbn [write_loop]. rewrite moved_0 by (destruct Hok; by constructor). by destruct c.
    + pose proof (ok_bit c Hok). pose proof (Z.div_mod (cnt + bit_pos c + 7) 8).
      pose proof (Z.mod_pos_bound (cnt + bit_pos c + 7) 8). lia.
  - destruct Hm as [[? _]|[Hc Hm]]; [done|]. pose proof (ok_bit c Hok) as Hbit.
    assert (is_eof c = false) as He by (by apply (not_eof c cnt)).
    destruct (write_loop_step m V cnt c Hok He Hc) as (code1 & Hw & ->).
    set (k := Z.min cnt (8 - bit_pos c)) in *. pose proof Hw as (_ & Hl1 & Hok1).
    set (c1 := moved k (set_code code1 c)).
    assert (cursor_ok (set_code code1 c)) as Hoks.
    { destruct Hok. constructor; cbn; [done|unfold len; by rewrite Hl1|done..]. }
    assert (cursor_ok c1) as Hokc1 by (apply moved_ok; [done|unfold k; lia]).
    assert (pos c1 = pos c + k) as Hpos by (unfold c1; rewrite moved_pos; done).
    assert (bytecode c1 = code1) as Hcode by done.
    pose proof (Z.div_mod (cnt + bit_pos c + 7) 8). pose proof (Z.mod_pos_bound (cnt + bit_pos c + 7) 8).
    destruct (Z.le_gt_cases cnt (8 - bit_pos c)) as [Hlast|Hmore].
    + assert (k = cnt) as Ek by (unfold k; lia). assert (m = O) as -> by lia.
      exists code1. rewrite Ek, Z.sub_diag. cbn [write_loop]. split; [|unfold c1; by rewrite Ek].
      eapply written_trans; [destruct Hok; lia|exact Hw|].
      assert (Z.shiftr V 8 = 0) as ->.
      { rewrite Z.shiftr_div_pow2 by lia. apply Z.div_small.
        assert (2 ^ (bit_pos c + cnt) <= 2 ^ 8) by (apply Z.pow_le_mono_r; lia). lia. }
      split_and!; [by rewrite Z.shiftl_0_l, Z.lor_0_r|done|done].
    + assert (k = 8 - bit_pos c) as Ek by (unfold k; lia).
      assert (byte_pos c1 = byte_pos c + 1 /\ bit_pos c1 = 0) as [EB Eb].
      { unfold pos in Hpos. pose proof (ok_bit c1 Hokc1). lia. }
      destruct (IH (Z.shiftr V 8) (cnt - k) c1) as (code2 & Hw2 & ->).
      * done.
      * rewrite Eb. rewrite Z.shiftr_div_pow2 by lia. split; [by apply Z.div_pos; lia|].
        apply Z.div_lt_upper_bound; [lia|]. rewrite <- Z.pow_add_r by lia.
        replace (8 + (0 + (cnt - k))) with (bit_pos c + cnt) by lia. lia.
      * rewrite Hpos, Hcode. unfold len in *. rewrite Hl1. lia.
      * right. rewrite Eb. split; [lia|]. 
        pose proof (Z.div_mod (cnt - k + 0 + 7) 8). pose proof (Z.mod_pos_bound (cnt - k + 0 + 7) 8). lia.
      * exists code2. rewrite EB, Hcode in Hw2. split.
        -- eapply written_trans; [destruct Hok; lia|exact Hw|].
           by replace (8 * byte_pos c + 8) with (8 * (byte_pos c + 1)) by lia.
        -- f_equal. unfold c1.
           change (set_code code2 (moved k (set_code code1 c))) with (moved k (set_code code2 c)).
           rewrite moved_moved. f_equal. lia.
Qed.

Lemma written_ok code v p code' c : written code v p code' -> bytecode c = code ->
  cursor_ok c -> cursor_ok (set_code code' c).
Proof.
  intros (_ & Hl & Hb) Hc []. constructor; cbn; [done|unfold len in *; rewrite Hl; congruence|done..].
Qed.

(** Writing puts the value over the bits at the position and moves past them. *)
Lemma write_spec w v c : cursor_ok c -> 0 < w -> 0 <= v < 2 ^ w -> pos c + w <= 8 * len (bytecode c) ->
  exists code', written (bytecode c) v (pos c) code' /\
  write_field w v c = (moved w (set_code code' c), Ok tt).
Proof.
  intros Hok Hw Hv Hlen. pose proof (ok_bit c Hok) as Hb. pose proof (ok_byte c Hok).
  destruct (write_loop_spec (Z.to_nat ((w + bit_pos c + 7) / 8)) (Z.shiftl v (bit_pos c)) w c)
    as (code' & (He & Hl & Hbs) & Hrun); [done| |done| |].
  - rewrite Z.shiftl_mul_pow2, Z.pow_add_r by lia. pose proof (pow2_pos (bit_pos c)). nia.
  - right. split; [done|]. apply Z2Nat.id, Z.div_pos; lia.
  - exists code'. split.
    + split_and!; [|done..]. rewrite He, Z.shiftl_shiftl by lia. unfold pos. do 2 f_equal. lia.
    + unfold write_field, write_bits. by rewrite Hrun.
Qed.

(** ** Sequences of fields *)

Definition total (fs : list (Z * Z)) : Z := sumZ (fst <$> fs).

(** The fields [(width, value)] one after the other, the first lowest. *)
Fixpoint pack (fs : list (Z * Z)) : Z :=
  match fs with [] => 0 | (w, v) :: fs' => Z.lor v (Z.shiftl (pack fs') w) end.

Definition field_ok (f : Z * Z) : Prop := 0 < f.1 /\ 0 <= f.2 < 2 ^ f.1.

Fixpoint writes (fs : list (Z * Z)) : CM unit :=
  match fs with [] => mret tt | (w, v) :: fs' => write_field w v ;; writes fs' end.

Lemma total_nonneg fs : Forall field_ok fs -> 0 <= total fs.
Proof. unfold total, sumZ, field_ok. induction 1; cbn in *; lia. Qed.

Lemma total_app fs gs : total (fs ++ gs) = total fs + total gs.
Proof. unfold total, sumZ. induction fs as [|f fs IH]; cbn in *; lia. Qed.

Lemma pack_app fs gs : Forall field_ok fs ->
  pack (fs ++ gs) = Z.lor (pack fs) (Z.shiftl (pack gs) (total fs)).
Proof.
  unfold total, sumZ. induction 1 as [|[w v] fs [Hw _] Hf IH]; cbn [pack app fmap list_fmap foldr fst].
  - by rewrite Z.shiftl_0_r.
  - rewrite IH, Z.shiftl_lor, Z.shiftl_shiftl, Z.lor_assoc by (done || apply (total_nonneg fs Hf)).
    do 2 f_equal. cbn. lia.
Qed.

Lemma written_app code v1 p n v2 code1 code2 : 0 <= p -> 0 <= n ->
  written code v1 p code1 -> written code1 v2 (p + n) code2 ->
  written code (Z.lor v1 (Z.shiftl v2 n)) p code2.
Proof.
  intros ?? (E1 & L1 & _) (E2 & L2 & B2). split_and!; [|congruence|done].
  rewrite E2, E1, Z.shiftl_lor, Z.shiftl_shiftl, Z.lor_assoc by lia. by rewrite (Z.add_comm n).
Qed.

Lemma writes_spec fs c : cursor_ok c -> Forall field_ok fs -> pos c + total fs <= 8 * len (bytecode c) ->
  exists code', written (bytecode c) (pack fs) (pos c) code' /\
  writes fs c = (moved (total fs) (set_code code' c), Ok tt).
Proof.
  intros Hok Hfs. revert c Hok. induction Hfs as [|[w v] fs [Hw Hv] Hfs IH]; intros c Hok Hlen.
  - exists (bytecode c). split.
    + split_and!; [by rewrite Z.shiftl_0_l, Z.lor_0_r|done|apply Hok].
    + change (total []) with 0. rewrite moved_0 by (by destruct Hok). by destruct c.
  - pose proof (total_nonneg fs Hfs). change (total ((w, v) :: fs)) with (w + total fs) in *. cbn in Hw, Hv.
    destruct (write_spec w v c Hok Hw Hv ltac:(lia)) as (code1 & W1 & R1).
    pose proof (written_ok _ _ _ _ c W1 eq_refl Hok) as Hok1.
    destruct (IH (moved w (set_code code1 c))) as (code2 & W2 & R2).
    + apply moved_ok; [done|lia].
    + rewrite moved_pos. change (pos (set_code code1 c)) with (pos c). unfold len in *.
      change (bytecode (moved w (set_code code1 c))) with code1. destruct W1 as (_ & -> & _). lia.
    + exists code2. rewrite moved_pos in W2. split.
      * cbn [pack]. eapply written_app; [..|exact W1|exact W2]; [destruct Hok; unfold pos; lia|lia].
      * cbn [writes]. unfold mbind, SE_bind. rewrite R1, R2.
        change (set_code code2 (moved w (set_code code1 c))) with (moved w (set_code code2 c)).
        by rewrite moved_moved.
Qed.

(** ** What a computation emits and reads *)

Lemma pack_range fs : Forall field_ok fs -> 0 <= pack fs < 2 ^ total fs.
Proof.
  induction 1 as [|[w v] fs [Hw Hv] Hf IH]; [done|]. cbn in Hw, Hv. pose proof (total_nonneg fs Hf).
  change (total ((w, v) :: fs)) with (w + total fs). cbn [pack].
  rewrite lor_high, Z.pow_add_r by lia. nia.
Qed.

Lemma bits_at_written code v p code' n : bytes_ok code -> 0 <= p -> 0 <= n -> 0 <= v < 2 ^ n ->
  le code < 2 ^ p -> written code v p code' -> bits_at (le code') p n = v.
Proof.
  intros Hb Hp Hn Hv Hclean (-> & _ & _). pose proof (le_range code Hb). pose proof (pow2_pos p).
  unfold bits_at. rewrite lor_high by lia.
  rewrite Z.div_add, Z.div_small, Z.add_0_l by lia. by apply Z.mod_small.
Qed.

Lemma bits_at_kept code v p code' q n : 0 <= q -> 0 <= n -> q + n <= p ->
  written code v p code' -> bits_at (le code') q n = bits_at (le code) q n.
Proof.
  intros Hq Hn Hp (-> & _ & _). unfold bits_at.
  rewrite <- !Z.land_ones, <- !Z.shiftr_div_pow2 by lia.
  apply Z.bits_inj'. intros i Hi. rewrite !Z.land_spec, Z.testbit_ones_nonneg by lia.
  destruct (Z.ltb_spec i n); [|by rewrite !andb_false_r].
  rewrite !andb_true_r, !Z.shiftr_spec, Z.lor_spec, Z.shiftl_spec_low, orb_false_r by lia. done.
Qed.

Lemma written_below code v p n code' : bytes_ok code -> 0 <= p -> 0 <= n -> 0 <= v < 2 ^ n ->
  le code < 2 ^ p -> written code v p code' -> le code' < 2 ^ (p + n).
Proof.
  intros Hb Hp Hn Hv Hc (-> & _ & _). pose proof (le_range code Hb).
  rewrite lor_high, Z.pow_add_r by lia. nia.
Qed.

Lemma digits_eq m a b a' b' : 0 <= a < m -> 0 <= a' < m -> a + b * m = a' + b' * m -> a = a' /\ b = b'.
Proof. intros. destruct (Z.div_mod_unique m b b' a a'); [lia..|]. done. Qed.

(** The bits at the position spell the fields [fs]. *)
Definition holds (fs : list (Z * Z)) (c : Cursor) : Prop :=
  cursor_ok c /\ pos c + total fs <= 8 * len (bytecode c) /\
  bits_at (le (bytecode c)) (pos c) (total fs) = pack fs.

Lemma holds_app fs gs c : Forall field_ok fs -> Forall field_ok gs -> holds (fs ++ gs) c ->
  holds fs c /\ holds gs (moved (total fs) c).
Proof.
  intros Hfs Hgs (Hok & Hlen & Hbits).
  pose proof (total_nonneg fs Hfs). pose proof (total_nonneg gs Hgs). pose proof (pack_range fs Hfs).
  rewrite total_app in *. rewrite pack_app in Hbits by done.
  assert (0 <= pos c) by (destruct Hok; unfold pos; lia).
  rewrite bits_at_split in Hbits by lia.
  assert (0 <= bits_at (le (bytecode c)) (pos c) (total fs) < 2 ^ total fs)
    by (apply Z.mod_pos_bound, pow2_pos; lia).
  rewrite !lor_high in Hbits by lia.
  assert (bits_at (le (bytecode c)) (pos c) (total fs) = pack fs /\
          bits_at (le (bytecode c)) (pos c + total fs) (total gs) = pack gs) as [E1 E2]
    by (by apply (digits_eq (2 ^ total fs)); try lia).
  split; split_and!; rewrite ?moved_pos; [done|lia|done|by apply moved_ok|cbn; lia|done].
Qed.

Lemma holds_cons w v fs c : field_ok (w, v) -> Forall field_ok fs -> holds ((w, v) :: fs) c ->
  read_bits w c = (moved w c, Ok v) /\ holds fs (moved w c).
Proof.
  intros Hf Hfs Hh. assert (Forall field_ok [(w, v)]) as H1 by by constructor.
  destruct (holds_app [(w, v)] fs c H1 Hfs Hh) as [(Hok & Hlen & Hbits) Hh'].
  assert (total [(w, v)] = w) as Ht by (unfold total, sumZ; cbn; lia).
  assert (pack [(w, v)] = v) as Hp by (cbn; by rewrite Z.shiftl_0_l, Z.lor_0_r).
  rewrite Ht in *. rewrite Hp in Hbits. split; [|done]. destruct Hf as [Hw _]. cbn in Hw.
  rewrite read_spec by (done || lia). by rewrite Hbits.
Qed.

(** [reads ls d fs m a]: over the libraries [ls] and a data segment that starts
    with [d], the computation [m] consumes the fields [fs] and returns [a]. *)
Definition reads {A} (ls : list string) (d : list Z) (fs : list (Z * Z)) (m : CM A) (a : A) : Prop :=
  Forall field_ok fs /\ forall c, libs c = ls -> d `prefix_of` cdata c -> holds fs c ->
  m c = (moved (total fs) c, Ok a).

(** [emits ls b d m fs d']: from the bit [b] of a byte on, [m] writes the fields
    [fs] and turns the data segment [d] into [d']. *)
Definition emits (ls : list string) (b : Z) (d : list Z) (m : CM unit) (fs : list (Z * Z)) (d' : list Z) : Prop :=
  Forall field_ok fs /\ forall c, cursor_ok c -> bit_pos c = b -> libs c = ls -> cdata c = d ->
  pos c + total fs <= 8 * len (bytecode c) ->
  exists code', written (bytecode c) (pack fs) (pos c) code' /\
  m c = (moved (total fs) (set_data d' (set_code code' c)), Ok tt).

Section programs.
Context (ls : list string).

Lemma reads_ret {A} d (a : A) : reads ls d [] (mret a) a.
Proof. split; [done|]. intros c _ _ (Hok & _). change (total []) with 0. by rewrite moved_0. Qed.

Lemma reads_bits {A} d w v fs (f : Z -> CM A) a : field_ok (w, v) ->
  reads ls d fs (f v) a -> reads ls d ((w, v) :: fs) (read_bits w ≫= f) a.
Proof.
  intros Hf [Hfs Hr]. split; [by constructor|]. intros c Hl Hd Hh.
  destruct (holds_cons _ _ _ _ Hf Hfs Hh) as [E Hh']. unfold mbind, SE_bind. rewrite E.
  rewrite (Hr (moved w c)) by done. by rewrite moved_moved.
Qed.

Lemma reads_get {A} d fs (f : Cursor -> CM A) a :
  (forall c, libs c = ls -> d `prefix_of` cdata c -> reads ls d fs (f c) a) -> Forall field_ok fs ->
  reads ls d fs (get ≫= f) a.
Proof. intros H Hfs. split; [done|]. intros c Hl Hd Hh. by apply (H c). Qed.

Lemma reads_bind {A B} d fs gs (m : CM A) (f : A -> CM B) a b :
  reads ls d fs m a -> reads ls d gs (f a) b -> reads ls d (fs ++ gs) (m ≫= f) b.
Proof.
  intros [Hfs Hm] [Hgs Hf]. split; [by apply Forall_app|]. intros c Hl Hd Hh.
  destruct (holds_app fs gs c Hfs Hgs Hh) as [H1 H2].
  unfold mbind, SE_bind. rewrite Hm, Hf by done. by rewrite moved_moved, total_app.
Qed.

Lemma emits_writes b d fs : Forall field_ok fs -> emits ls b d (writes fs) fs d.
Proof.
  intros Hfs. split; [done|]. intros c Hok _ _ Hd Hlen.
  destruct (writes_spec fs c Hok Hfs Hlen) as (code' & W & E). exists code'. split; [done|].
  rewrite E. by destruct c; cbn in *; subst.
Qed.

Lemma emits_bind b d m1 fs1 d1 m2 fs2 d2 :
  emits ls b d m1 fs1 d1 -> emits ls ((b + total fs1) mod 8) d1 m2 fs2 d2 ->
  emits ls b d (m1 ;; m2) (fs1 ++ fs2) d2.
Proof.
  intros [F1 E1] [F2 E2]. split; [by apply Forall_app|]. intros c Hok Hb Hl Hd Hlen.
  pose proof (total_nonneg _ F1). pose proof (total_nonneg _ F2). rewrite total_app in *.
  destruct (E1 c Hok Hb Hl Hd ltac:(lia)) as (code1 & W1 & R1).
  set (c1 := moved (total fs1) (set_data d1 (set_code code1 c))) in *.
  assert (pos c1 = pos c + total fs1) as Hp by (unfold c1; by rewrite moved_pos).
  destruct (E2 c1) as (code2 & W2 & R2); [| |done..| |].
  - apply moved_ok; [|done]. pose proof (written_ok _ _ _ _ c W1 eq_refl Hok) as []. by constructor.
  - unfold c1, moved, pos. cbn. rewrite <- Hb, (Z.mul_comm 8), <- Z.add_assoc, Z.add_comm. apply Z.mod_add. lia.
  - rewrite Hp. change (bytecode c1) with code1. unfold len in *. destruct W1 as (_ & -> & _). lia.
  - exists code2. rewrite Hp in W2. split.
    + rewrite pack_app by done. eapply written_app; [..|exact W1|exact W2];
        [destruct Hok; unfold pos; lia|done].
    + unfold mbind, SE_bind. rewrite R1, R2.
      change (set_data d2 (set_code code2 c1)) with (moved (total fs1) (set_data d2 (set_code code2 c))).
      by rewrite moved_moved.
Qed.

End programs.

(** ** Typed fields *)

Definition fld (w : Z) {A} `{Bits A} (a : A) : Z * Z := (w, to_bits a).

(** [reader.read_uN()?.into()]: the conversion of a value out of range panics. *)
Definition read_as {A} `{Bits A} (w : Z) : CM A :=
  v ← read_bits w;
  match of_bits v with Some a => mret a | None => fail (VmPanic (Abort "unreachable")) end.

Lemma fld_ok w {A} `{Wire w A} (a : A) : 0 < w -> valid a -> field_ok (fld w a).
Proof. intros. split; [done|]. by apply (wire_range (w := w)). Qed.

Lemma reads_field {A} w `{Wire w A} {B} ls d (a : A) fs (f : A -> CM B) b : 0 < w -> valid a ->
  reads ls d fs (f a) b -> reads ls d (fld w a :: fs) (read_as w ≫= f) b.
Proof.
  intros Hw Ha Hr.
  assert (reads ls d [fld w a] (read_as w) a) as Ha'.
  { unfold read_as. apply reads_bits; [by apply (fld_ok w)|]. rewrite (wire_back (w := w)) by done. apply reads_ret. }
  exact (reads_bind ls d [fld w a] fs _ _ _ _ Ha' Hr).
Qed.

(** ** The library and data segments *)

Lemma lib_index_lookup ls lib i : lib_index ls lib = Some i -> 0 <= i /\ ls !! Z.to_nat i = Some lib.
Proof.
  unfold lib_index. destruct (list_find _ ls) as [[n l]|] eqn:E; [|done].
  apply list_find_Some in E as (Hl & -> & _). cbn. intros [= <-]. rewrite Nat2Z.id. split; [lia|done].
Qed.

Lemma emits_lib ls b d lib i : lib_index ls lib = Some i -> i < 256 -> emits ls b d (write_lib lib) [(8, i)] d.
Proof.
  intros Hi Hlt. destruct (lib_index_lookup _ _ _ Hi).
  destruct (emits_writes ls b d [(8, i)]) as [Hf He]; [repeat constructor; cbn; lia|].
  split; [done|]. intros c Hok Hb Hl Hd Hlen. destruct (He c Hok Hb Hl Hd Hlen) as (code' & W & E).
  exists code'. split; [done|]. unfold write_lib. rewrite Hl, Hi. rewrite <- E.
  cbn [writes]. unfold mbind, SE_bind. by destruct (write_field 8 i c) as [? [[]|]].
Qed.

Lemma reads_lib ls d lib i : lib_index ls lib = Some i -> i < 256 -> reads ls d [(8, i)] read_lib lib.
Proof.
  intros Hi Hlt. destruct (lib_index_lookup _ _ _ Hi) as [Hp Hl].
  unfold read_lib, read_u8. apply reads_bits; [split; cbn; lia|].
  apply reads_get; [|done]. intros c -> _. rewrite Hl. apply reads_ret.
Qed.

Lemma slice_prefix {A} (d e : list A) a b : 0 <= a -> b <= len d -> d `prefix_of` e -> slice a b e = slice a b d.
Proof.
  intros Ha Hb [k ->]. unfold slice, len in *.
  destruct (Z.le_gt_cases a b).
  - rewrite drop_app_le by lia. rewrite take_app_le; [done|]. rewrite length_drop. lia.
  - by replace (Z.to_nat (b - a)) with O by lia.
Qed.

Lemma find_window_spec bytes data at_ o : find_window bytes data at_ = Some o ->
  at_ <= o /\ o - at_ + len bytes <= len data /\ slice (o - at_) (o - at_ + len bytes) data = bytes.
Proof.
  assert (forall (data : list Z) at_, take (length bytes) data = bytes -> at_ <= at_ /\
    (at_ - at_ + len bytes <= len data \/ len data < len bytes) /\
    slice (at_ - at_) (at_ - at_ + len bytes) data = bytes) as Here.
  { intros l a Ht. rewrite Z.sub_diag. split_and!; [lia|lia|]. unfold slice, len.
    rewrite Z.add_0_l, Z.sub_0_r, Nat2Z.id. by rewrite drop_0. }
  revert at_. induction data as [|x data IH]; intros at_; cbn [find_window];
    (match goal with |- context [?a <? ?b] => destruct (Z.ltb_spec a b) as [|Hle]; [done|] end);
    (case_bool_decide as Ht; [intros [= ->]; destruct (Here _ o Ht) as (? & [?|?] & ?); [done|lia]|]).
  - done.
  - intros (H1 & H2 & H3)%IH. unfold len in *. cbn [length]. split_and!; [lia|lia|].
    rewrite <- H3 at 2. unfold slice. f_equal; [lia|].
    replace (Z.to_nat (o - at_)) with (S (Z.to_nat (o - (at_ + 1)))) by lia. done.
Qed.

(** Data that is stored can be found again at the offset. *)
Lemma write_unique_spec d bytes : len d + len bytes <= 65535 ->
  exists off d', (forall c, cdata c = d -> write_unique bytes c = (set_data d' c, Ok off)) /\
  d `prefix_of` d' /\ len d' <= len d + len bytes /\ 0 <= off < 2 ^ 16 /\
  off + len bytes <= len d' /\ slice off (off + len bytes) d' = bytes.
Proof.
  intros Hroom. unfold write_unique. pose proof (Nat2Z.is_nonneg (length d)).
  pose proof (Nat2Z.is_nonneg (length bytes)).
  assert (forall c, cdata c = d -> c = set_data d c) as Hid by (intros [] <-; done).
  destruct (Z.eqb_spec (len bytes) 0) as [E|E].
  { exists (len d), d. unfold len in *. split_and!; try done; try lia.
    - intros c Hc. rewrite Hc. by rewrite <- Hid.
    - destruct bytes; [|cbn in *; lia]. unfold slice. cbn. rewrite Z.add_0_r, Z.sub_diag. done. }
  destruct (find_window bytes d 0) as [o|] eqn:Ew.
  - destruct (find_window_spec _ _ _ _ Ew) as (? & ? & ?). rewrite Z.sub_0_r in *.
    exists o, d. unfold len in *. split_and!; try done; try lia.
    intros c Hc. rewrite Hc, Ew. by rewrite <- Hid.
  - exists (len d), (d ++ bytes). split_and!.
    + intros c Hc. rewrite Hc, Ew. unfold DATA_SEGMENT_MAX_LEN.
      destruct (Z.ltb_spec 65535 (len d + len bytes)); [lia|done].
    + by exists bytes.
    + unfold len. rewrite length_app. lia.
    + unfold len. lia.
    + unfold len in *. lia.
    + unfold len. rewrite length_app. lia.
    + unfold slice, len. rewrite Nat2Z.id, drop_app_length.
      replace (Z.to_nat _) with (length bytes) by lia. by rewrite take_ge.
Qed.

Lemma length_le_bytes k r : length (le_bytes k r) = k.
Proof. revert r. induction k as [|k IH]; intros r; cbn; [done|]. by rewrite IH. Qed.

Lemma le_le_bytes k r : 0 <= r < 2 ^ (8 * Z.of_nat k) -> le (le_bytes k r) = r.
Proof.
  revert r. induction k as [|k IH]; intros r Hr; cbn [le_bytes le].
  - change (2 ^ (8 * Z.of_nat 0)) with 1 in Hr. lia.
  - replace (8 * Z.of_nat (S k)) with (8 * (Z.of_nat k + 1)) in Hr by lia. rewrite pow256_succ in Hr by lia.
    rewrite IH; [pose proof (Z.div_mod r 256); lia|].
    split; [apply Z.div_pos; lia|apply Z.div_lt_upper_bound; lia].
Qed.

(** An offset and fields after it, once the data is stored. *)
Lemma emits_offset ls b d bytes off d' fs (k : Z -> CM unit) :
  (forall c, cdata c = d -> write_unique bytes c = (set_data d' c, Ok off)) ->
  emits ls b d' (k off) fs d' -> emits ls b d (write_unique bytes ≫= k) fs d'.
Proof.
  intros Hu [Hf He]. split; [done|]. intros c Hok Hb Hl Hd Hlen.
  unfold mbind, SE_bind. rewrite Hu by done.
  destruct (He (set_data d' c)) as (code' & W & E); [by destruct Hok|done..|].
  exists code'. split; [done|]. by rewrite E.
Qed.

Lemma writes_last w v : forall c, writes [(w, v)] c = write_field w v c.
Proof. intros c. cbn [writes]. unfold mbind, SE_bind. by destruct (write_field w v c) as [? [[]|]]. Qed.

Lemma emits_ext ls b d m m' fs d' : (forall c, bit_pos c = b -> m c = m' c) ->
  emits ls b d m fs d' -> emits ls b d m' fs d'.
Proof.
  intros He [Hf H]. split; [done|]. intros c ?????. rewrite <- He by done. by apply H.
Qed.

Lemma emits_field ls b d w v : field_ok (w, v) -> emits ls b d (write_field w v) [(w, v)] d.
Proof.
  intros. apply (emits_ext _ _ _ (writes [(w, v)])); [intros; apply writes_last|]. apply emits_writes. by constructor.
Qed.

(** A number of the layout of its register is stored and read back. *)
Lemma number_stored fs ls b d l r : 0 < Layout_bytes l -> 0 <= r < 2 ^ (8 * Layout_bytes l) ->
  len d + Layout_bytes l <= 65535 ->
  exists off d', emits ls b d (write_number fs l (mkNumber l r)) [(16, off)] d' /\
  reads ls d' [(16, off)] (read_number l) (mkNumber l r) /\
  d `prefix_of` d' /\ len d' <= len d + Layout_bytes l.
Proof.
  intros Hl Hr Hroom. set (bytes := le_bytes (Z.to_nat (Layout_bytes l)) r).
  assert (len bytes = Layout_bytes l) as Hlen.
  { unfold len, bytes. rewrite length_le_bytes. lia. }
  destruct (write_unique_spec d bytes) as (off & d' & Hu & Hp & Hd' & Hoff & Hend & Hs); [lia|].
  rewrite Hlen in *. exists off, d'. split_and!; [| |done|done].
  - apply (emits_ext _ _ _ (write_unique bytes ≫= write_field 16)).
    + intros c _. unfold write_number, nlen. cbn [layout]. destruct (Z.ltb_spec (Layout_bytes l) (Layout_bytes l)); [lia|].
      replace (reshape fs (mkNumber l r) (using_sign l l)) with (Ok (E := panic) (mkNumber l r, true)); [done|].
      unfold reshape, using_sign, int_using_sign, reshape_int. cbn [layout].
      destruct l as [[]|]; by rewrite bool_decide_true.
    + eapply emits_offset; [done|]. by apply emits_field.
  - unfold read_number, read_u16. apply reads_bits; [done|]. apply reads_get; [|done].
    intros c _ Hc.
    assert (len d' <= len (cdata c)) by (unfold len; apply prefix_length in Hc; lia).
    destruct (Z.ltb_spec (len (cdata c)) (off + Layout_bytes l)); [lia|].
    rewrite (slice_prefix d') by (done || lia). rewrite Hs. unfold number_with.
    fold (len bytes). rewrite Hlen, Z.eqb_refl. unfold bytes. rewrite le_le_bytes by (rewrite Z2Nat.id; lia).
    apply reads_ret.
Qed.

(** A byte string is stored and read back, all of it. *)
Lemma data_stored ls b d bytes : len d + len bytes < 65535 ->
  exists off d', emits ls b d (write_data bytes) [(16, off); (16, len bytes)] d' /\
  reads ls d' [(16, off); (16, len bytes)] read_data (bytes, false) /\
  d `prefix_of` d' /\ len d' <= len d + len bytes.
Proof.
  intros Hroom. pose proof (Nat2Z.is_nonneg (length bytes)). pose proof (Nat2Z.is_nonneg (length d)).
  destruct (write_unique_spec d bytes) as (off & d' & Hu & Hp & Hd' & Hoff & Hend & Hs); [lia|].
  assert (field_ok (16, len bytes)) as Hfl by (split; cbn; unfold len in *; lia).
  exists off, d'. split_and!; [| |done|done].
  - unfold write_data. destruct (Z.leb_spec 65535 (len bytes)); [unfold len in *; lia|].
    eapply emits_offset; [done|].
    apply (emits_bind ls b d' _ [(16, off)] d' _ [(16, len bytes)]); by apply emits_field.
  - unfold read_data, read_u16. apply reads_bits; [done|]. apply reads_bits; [done|].
    apply reads_get; [|done]. intros c _ Hc.
    assert (len d' <= len (cdata c)) by (unfold len; apply prefix_length in Hc; lia).
    unfold DATA_SEGMENT_MAX_LEN. rewrite !Z.min_l by lia.
    destruct (Z.ltb_spec (len (cdata c)) (off + len bytes)); [lia|].
    rewrite (slice_prefix d') by (done || lia). rewrite Hs. apply reads_ret.
Qed.

(** At the start of a byte the sign extension of [write_i8] does no harm. *)
Lemma emits_i8 ls d v : emits ls 0 d (write_i8 v) [(8, v mod 256)] d.
Proof.
  apply (emits_ext _ _ _ (write_field 8 (v mod 256))).
  - intros c Hb. unfold write_i8, write_field, write_bits. rewrite Hb, !Z.shiftl_0_r.
    change (Z.to_nat ((8 + 0 + 7) / 8)) with 1%nat. cbn [write_loop].
    replace (Z.land (v mod 2 ^ 32) 255) with (Z.land (v mod 256) 255); [done|].
    change 255 with (Z.ones 8). rewrite !Z.land_ones by lia. change (2 ^ 8) with 256.
    rewrite Z.mod_mod by lia. symmetry. apply Z.mod_mod_divide. by exists (2 ^ 24).
  - apply emits_field. split; [done|]. by apply Z.mod_pos_bound.
Qed.

Lemma reads_i8 ls d v : -128 <= v < 128 -> reads ls d [(8, v mod 256)] read_i8 v.
Proof.
  intros Hv. unfold read_i8. apply reads_bits; [split; [done|]; by apply Z.mod_pos_bound|].
  replace (to_signed 1 (v mod 256)) with v; [apply reads_ret|].
  symmetry. apply (to_signed_mod 1 v); [lia|]. unfold in_range. cbn. lia.
Qed.

(** [reads] from the start of a byte. *)
Definition decodes {A} (ls : list string) (d : list Z) (fs : list (Z * Z)) (m : CM A) (a : A) : Prop :=
  Forall field_ok fs /\ forall c, bit_pos c = 0 -> libs c = ls -> d `prefix_of` cdata c -> holds fs c ->
  m c = (moved (total fs) c, Ok a).

Lemma reads_decodes {A} ls d fs (m : CM A) a : reads ls d fs m a -> decodes ls d fs m a.
Proof. intros [Hf H]. split; auto. Qed.

Lemma decodes_peek {A} ls d v fs (f : Z -> CM A) a :
  decodes ls d ((8, v) :: fs) (f v) a -> decodes ls d ((8, v) :: fs) (peek_u8 ≫= f) a.
Proof.
  intros [Hf H]. split; [done|]. intros c Hb Hl Hd Hh. pose proof Hh as (Hok & Hlen & _).
  inversion Hf as [|?? Hv Hfs]; subst. destruct (holds_cons _ _ _ _ Hv Hfs Hh) as [E _].
  change (total ((8, v) :: fs)) with (8 + total fs) in Hlen. pose proof (total_nonneg fs Hfs).
  assert (is_eof c = false) as He by (apply (not_eof c 8); [done|lia..]).
  rewrite read_spec in E by (done || lia). injection E as E.
  unfold mbind, SE_bind, peek_u8. rewrite He.
  destruct (byte_bits c 8 Hok He ltac:(lia)) as [Eb Hr]. rewrite Hb, Z.div_1_r, E, Z.mod_small in Eb by done.
  rewrite Eb. by apply H.
Qed.

Lemma decodes_fmap {A B} ls d fs (m : CM A) (g : A -> B) a :
  decodes ls d fs m a -> decodes ls d fs (x ← m; mret (g x)) (g a).
Proof.
  intros [Hf H]. split; [done|]. intros c ????. unfold mbind, SE_bind. by rewrite H.
Qed.

#[export] Instance Z_bits : Bits Z := {| to_bits z := z; of_bits z := Some z |}.
#[export] Instance Z_wire w : Wire w Z.
Proof. by refine {| valid (z : Z) := 0 <= z < 2 ^ w |}. Defined.
