(* ===== verification/AluInstr.v ===== *)
(** * AluVM: the instruction set (crates/rgb-aluvm/src/isa/instr.rs, isa/opcodes.rs)

    The families of instructions with the constructors of the source, one module
    per family because families share constructor names, and the opcode table.

    A library id is a string, an [s] register index a [RegS], [Step] its [i8];
    [ByteStr] is the list of its bytes and [MaybeNumber] an optional number. *)

From S2P Require Import Prelude AluReg AluNumber.
Local Open Scope Z_scope.

(** [LibSite] *)
Record LibSite := mkSite { site_lib : string; site_pos : Z }.
#[export] Instance LibSite_eq_dec : EqDecision LibSite.
Proof. solve_decision. Defined.

Module CF.
Inductive ControlFlowOp :=
| Fail
| Test
| Jmp (pos : Z)
| Jif (pos : Z)
| Routine (pos : Z)
| Call (site : LibSite)
| Exec (site : LibSite)
| Ret.
End CF.

Module PU.
Inductive PutOp :=
| ClrA (reg : RegA) (idx : Reg32)
| ClrF (reg : RegF) (idx : Reg32)
| ClrR (reg : RegR) (idx : Reg32)
| PutA (reg : RegA) (idx : Reg32) (val : option Number)
| PutF (reg : RegF) (idx : Reg32) (val : option Number)
| PutR (reg : RegR) (idx : Reg32) (val : option Number)
| PutIfA (reg : RegA) (idx : Reg32) (val : option Number)
| PutIfR (reg : RegR) (idx : Reg32) (val : option Number).
End PU.

Module MV.
Inductive MoveOp :=
| MovA (reg : RegA) (idx1 idx2 : Reg32)
| DupA (reg : RegA) (idx1 idx2 : Reg32)
| SwpA (reg : RegA) (idx1 idx2 : Reg32)
| MovF (reg : RegF) (idx1 idx2 : Reg32)
| DupF (reg : RegF) (idx1 idx2 : Reg32)
| SwpF (reg : RegF) (idx1 idx2 : Reg32)
| MovR (reg : RegR) (idx1 idx2 : Reg32)
| DupR (reg : RegR) (idx1 idx2 : Reg32)
| CpyA (sreg : RegA) (sidx : Reg32) (dreg : RegA) (didx : Reg32)
| CnvA (sreg : RegA) (sidx : Reg32) (dreg : RegA) (didx : Reg32)
| CnvF (sreg : RegF) (sidx : Reg32) (dreg : RegF) (didx : Reg32)
| CpyR (sreg : RegR) (sidx : Reg32) (dreg : RegR) (didx : Reg32)
| SpyAR (sreg : RegA) (sidx : Reg32) (dreg : RegR) (didx : Reg32)
| CnvAF (sreg : RegA) (sidx : Reg32) (dreg : RegF) (didx : Reg32)
| CnvFA (sreg : RegF) (sidx : Reg32) (dreg : RegA) (didx : Reg32).
End MV.

Module CP.
Inductive CmpOp :=
| GtA (flag : SignFlag) (reg : RegA) (idx1 idx2 : Reg32)
| LtA (flag : SignFlag) (reg : RegA) (idx1 idx2 : Reg32)
| GtF (flag : FloatEqFlag) (reg : RegF) (idx1 idx2 : Reg32)
| LtF (flag : FloatEqFlag) (reg : RegF) (idx1 idx2 : Reg32)
| GtR (reg : RegR) (idx1 idx2 : Reg32)
| LtR (reg : RegR) (idx1 idx2 : Reg32)
| EqA (flag : NoneEqFlag) (reg : RegA) (idx1 idx2 : Reg32)
| EqF (flag : FloatEqFlag) (reg : RegF) (idx1 idx2 : Reg32)
| EqR (flag : NoneEqFlag) (reg : RegR) (idx1 idx2 : Reg32)
| IfZA (reg : RegA) (idx : Reg32)
| IfZR (reg : RegR) (idx : Reg32)
| IfNA (reg : RegA) (idx : Reg32)
| IfNR (reg : RegR) (idx : Reg32)
| St (flag : MergeFlag) (reg : RegA) (idx : Reg8)
| StInv.
End CP.

Module AR.
Inductive ArithmeticOp :=
| AddA (flags : IntFlags) (reg : RegA) (src1 src2 : Reg32)
| AddF (flag : RoundingFlag) (reg : RegF) (src1 src2 : Reg32)
| SubA (flags : IntFlags) (reg : RegA) (src1 src2 : Reg32)
| SubF (flag : RoundingFlag) (reg : RegF) (src1 src2 : Reg32)
| MulA (flags : IntFlags) (reg : RegA) (src1 src2 : Reg32)
| MulF (flag : RoundingFlag) (reg : RegF) (src1 src2 : Reg32)
| DivA (flags : IntFlags) (reg : RegA) (src1 src2 : Reg32)
| DivF (flag : RoundingFlag) (reg : RegF) (src1 src2 : Reg32)
| Rem (reg1 : RegA) (src1 : Reg32) (reg2 : RegA) (src2 : Reg32)
| Stp (reg : RegA) (idx : Reg32) (step : Z)
| Neg (reg : RegAF) (idx : Reg16)
| Abs (reg : RegAF) (idx : Reg16).
End AR.

Module BW.
Inductive BitwiseOp :=
| And (reg : RegAR) (src1 src2 dst : Reg16)
| Or (reg : RegAR) (src1 src2 dst : Reg16)
| Xor (reg : RegAR) (src1 src2 dst : Reg16)
| Not (reg : RegAR) (idx : Reg16)
| Shl (a2 : RegA2) (shift : Reg32) (reg : RegAR) (idx : Reg32)
| ShrA (sign : SignFlag) (a2 : RegA2) (shift : Reg16) (reg : RegA) (idx : Reg32)
| ShrR (a2 : RegA2) (shift : Reg32) (reg : RegR) (idx : Reg32)
| Scl (a2 : RegA2) (shift : Reg32) (reg : RegAR) (idx : Reg32)
| Scr (a2 : RegA2) (shift : Reg32) (reg : RegAR) (idx : Reg32)
| RevA (reg : RegA) (idx : Reg32)
| RevR (reg : RegR) (idx : Reg32).
End BW.

Module BY.
Inductive BytesOp :=
| Put (reg : RegS) (bytes : list Z) (st0 : bool)
| Mov (reg1 reg2 : RegS)
| Swp (reg1 reg2 : RegS)
| Fill (reg : RegS) (offset1 offset2 value : Reg32) (flag : ExtendFlag)
| Len (src : RegS) (reg : RegA) (dst : Reg32)
| Cnt (src : RegS) (byte cnt : Reg16)
| Eq (reg1 reg2 : RegS)
| Con (reg1 reg2 : RegS) (no offset length : Reg32)
| Find (reg1 reg2 : RegS)
| Extr (src : RegS) (dst : RegAR) (index offset : Reg16)
| Inj (src : RegS) (dst : RegAR) (index offset : Reg16)
| Join (src1 src2 dst : RegS)
| Splt (flag : SplitFlag) (offset : Reg32) (src dst1 dst2 : RegS)
| Ins (flag : InsertFlag) (offset : Reg32) (src dst : RegS)
| Del (flag : DeleteFlag) (reg1 : RegA2) (offset1 : Reg32) (reg2 : RegA2) (offset2 : Reg32)
    (flag1 flag2 : bool) (src dst : RegS)
| Rev (reg1 reg2 : RegS).
End BY.

Module DG.
Inductive DigestOp :=
| Ripemd (src : RegS) (dst : Reg16)
| Sha256 (src : RegS) (dst : Reg16)
| Sha512 (src : RegS) (dst : Reg16)
| Blake3 (src : RegS) (dst : Reg16).
End DG.

Module SP.
Inductive Secp256k1Op :=
| Gen (src : Reg32) (dst : Reg8)
| Mul (reg : RegBlockAR) (scal src dst : Reg32)
| Add (src : Reg32) (srcdst : Reg8)
| Neg (src : Reg32) (dst : Reg8).
End SP.

Module ED.
Inductive Curve25519Op :=
| Gen (src : Reg32) (dst : Reg8)
| Mul (reg : RegBlockAR) (scal src dst : Reg32)
| Add (src1 src2 dst : Reg32) (overflow : bool)
| Neg (src : Reg32) (dst : Reg8).
End ED.

Inductive OutstackOp := Outr (reg : Z).

Inductive ReservedOp := mkReserved (code : Z).

Export CF(ControlFlowOp) PU(PutOp) MV(MoveOp) CP(CmpOp) AR(ArithmeticOp) BW(BitwiseOp) BY(BytesOp).
Export DG(DigestOp) SP(Secp256k1Op) ED(Curve25519Op).

Inductive Instr (Extension : Type) :=
| ControlFlow (op : ControlFlowOp)
| Put (op : PutOp)
| Move (op : MoveOp)
| Cmp (op : CmpOp)
| Arithmetic (op : ArithmeticOp)
| Bitwise (op : BitwiseOp)
| Bytes (op : BytesOp)
| Digest (op : DigestOp)
| Secp256k1 (op : Secp256k1Op)
| Curve25519 (op : Curve25519Op)
| Outstack (op : OutstackOp)
| ExtensionCodes (op : Extension)
| ReservedInstruction (op : ReservedOp)
| Nop.

Arguments ControlFlow {Extension} op.
Arguments Put {Extension} op.
Arguments Move {Extension} op.
Arguments Cmp {Extension} op.
Arguments Arithmetic {Extension} op.
Arguments Bitwise {Extension} op.
Arguments Bytes {Extension} op.
Arguments Digest {Extension} op.
Arguments Secp256k1 {Extension} op.
Arguments Curve25519 {Extension} op.
Arguments Outstack {Extension} op.
Arguments ExtensionCodes {Extension} op.
Arguments ReservedInstruction {Extension} op.
Arguments Nop {Extension}.

(** ** Opcodes (isa/opcodes.rs) *)

(** Control-flow instructions *)
Abbreviation INSTR_FAIL := 0 (only parsing).
Abbreviation INSTR_TEST := 1 (only parsing).
Abbreviation INSTR_JMP := 2 (only parsing).
Abbreviation INSTR_JIF := 3 (only parsing).
Abbreviation INSTR_ROUTINE := 4 (only parsing).
Abbreviation INSTR_CALL := 5 (only parsing).
Abbreviation INSTR_EXEC := 6 (only parsing).
Abbreviation INSTR_RET := 7 (only parsing).
(** Instructions setting register values *)
Abbreviation INSTR_CLRA := 8 (only parsing).
Abbreviation INSTR_CLRF := 9 (only parsing).
Abbreviation INSTR_CLRR := 10 (only parsing).
Abbreviation INSTR_PUTA := 11 (only parsing).
Abbreviation INSTR_PUTF := 12 (only parsing).
Abbreviation INSTR_PUTR := 13 (only parsing).
Abbreviation INSTR_PUTIFA := 14 (only parsing).
Abbreviation INSTR_PUTIFR := 15 (only parsing).
(** Instructions moving and swapping register values *)
Abbreviation INSTR_MOV := 16 (only parsing).
Abbreviation INSTR_CPA := 17 (only parsing).
Abbreviation INSTR_CNA := 18 (only parsing).
Abbreviation INSTR_CNF := 19 (only parsing).
Abbreviation INSTR_CPR := 20 (only parsing).
Abbreviation INSTR_SPY := 21 (only parsing).
Abbreviation INSTR_CAF := 22 (only parsing).
Abbreviation INSTR_CFA := 23 (only parsing).
(** Instructions comparing register values *)
Abbreviation INSTR_LGT := 24 (only parsing).
Abbreviation INSTR_CMP := 25 (only parsing).
Abbreviation INSTR_IFZA := 26 (only parsing).
Abbreviation INSTR_IFZR := 27 (only parsing).
Abbreviation INSTR_IFNA := 28 (only parsing).
Abbreviation INSTR_IFNR := 29 (only parsing).
Abbreviation INSTR_ST := 30 (only parsing).
Abbreviation INSTR_STINV := 31 (only parsing).
(** Arithmetic instructions *)
Abbreviation INSTR_ADD := 32 (only parsing).
Abbreviation INSTR_SUB := 33 (only parsing).
Abbreviation INSTR_MUL := 34 (only parsing).
Abbreviation INSTR_DIV := 35 (only parsing).
Abbreviation INSTR_STP := 36 (only parsing).
Abbreviation INSTR_NEG := 37 (only parsing).
Abbreviation INSTR_ABS := 38 (only parsing).
Abbreviation INSTR_REM := 39 (only parsing).
(** Bit operations & boolean algebra instructions *)
Abbreviation INSTR_AND := 40 (only parsing).
Abbreviation INSTR_OR := 41 (only parsing).
Abbreviation INSTR_XOR := 42 (only parsing).
Abbreviation INSTR_NOT := 43 (only parsing).
Abbreviation INSTR_SHF := 44 (only parsing).
Abbreviation INSTR_SHC := 45 (only parsing).
Abbreviation INSTR_REVA := 46 (only parsing).
Abbreviation INSTR_REVR := 47 (only parsing).
(** Operations on byte strings *)
Abbreviation INSTR_PUT := 48 (only parsing).
Abbreviation INSTR_MVS := 49 (only parsing).
Abbreviation INSTR_SWP := 50 (only parsing).
Abbreviation INSTR_FILL := 51 (only parsing).
Abbreviation INSTR_LEN := 52 (only parsing).
Abbreviation INSTR_CNT := 53 (only parsing).
Abbreviation INSTR_EQ := 54 (only parsing).
Abbreviation INSTR_CON := 55 (only parsing).
Abbreviation INSTR_FIND := 56 (only parsing).
Abbreviation INSTR_EXTR := 57 (only parsing).
Abbreviation INSTR_INJ := 58 (only parsing).
Abbreviation INSTR_JOIN := 59 (only parsing).
Abbreviation INSTR_SPLT := 60 (only parsing).
Abbreviation INSTR_INS := 61 (only parsing).
Abbreviation INSTR_DEL := 62 (only parsing).
Abbreviation INSTR_REV := 63 (only parsing).
(** No-operation instruction *)
Abbreviation INSTR_NOP := 255 (only parsing).
(** Reserved operations which can be used by future AluVM versions *)
Abbreviation INSTR_RESV_FROM := 64 (only parsing).
Abbreviation INSTR_RESV_TO := 127 (only parsing).
Abbreviation INSTR_OUTSTACK_FROM := 144 (only parsing).
Abbreviation INSTR_OUTSTACK_TO := 159 (only parsing).
Abbreviation INSTR_OUTR := INSTR_OUTSTACK_FROM (only parsing).
Abbreviation INSTR_RIPEMD := 128 (only parsing).
Abbreviation INSTR_SHA256 := 129 (only parsing).
Abbreviation INSTR_SHA512 := 130 (only parsing).
Abbreviation INSTR_BLAKE3 := 132 (only parsing).
Abbreviation INSTR_SECP_GEN := 136 (only parsing).
Abbreviation INSTR_SECP_MUL := 137 (only parsing).
Abbreviation INSTR_SECP_ADD := 138 (only parsing).
Abbreviation INSTR_SECP_NEG := 139 (only parsing).
Abbreviation INSTR_ED_GEN := 140 (only parsing).
Abbreviation INSTR_ED_MUL := 141 (only parsing).
Abbreviation INSTR_ED_ADD := 142 (only parsing).
Abbreviation INSTR_ED_NEG := 143 (only parsing).
(** Opcodes with may be used by ISA extensions *)
Abbreviation INSTR_ISAE_FROM := 128 (only parsing).
Abbreviation INSTR_ISAE_TO := 254 (only parsing).
