(* ===== verification/AluBytecode.v ===== *)
(** * AluVM: instructions as bytecode (crates/rgb-aluvm/src/isa/bytecode.rs)

    [Bytecode] is the trait of the source, with one instance per family of
    instructions.  [BytecodeLaws] states what an instance promises to the code
    that embeds it: an encodable instruction writes a sequence of fields that
    [decode] reads back.  The laws are proved for each family and for [Instr]
    over any extension that satisfies them; [program_roundtrip] lifts them to
    sequences of instructions.

    A list of fields [fld w a] stands for the consecutive [write_uN] calls of the
    source. *)

From S2P Require Import Prelude AluReg AluNumber AluCursor AluInstr.
Local Open Scope Z_scope.

Existing Class Floats.

Class Bytecode (A : Type) := {
  instr_range : Z * Z;
  instr_byte : A -> Z;
  encode_args : A -> CM unit;
  decode : CM A;
  try_decode_extension_prefix : CM (option A);
  call_site : A -> option LibSite;
}.

Definition contains (r : Z * Z) (b : Z) : bool := (r.1 <=? b) && (b <=? r.2).

Definition encode {A} `{Bytecode A} (i : A) : CM unit :=
  write_field 8 (instr_byte i) ;; encode_args i.

(** [reg.into()] on the bits read before, and the [unreachable!] arms. *)
Definition into {A} `{Bits A} (v : Z) : CM A :=
  match of_bits v with Some a => mret a | None => fail (VmPanic (Abort "unreachable")) end.
Definition unreachable {A} : CM A := fail (VmPanic (Abort "unreachable")).

(** ** Control flow *)

Definition ControlFlow_byte (op : ControlFlowOp) : Z :=
  match op with
  | CF.Fail => INSTR_FAIL
  | CF.Test => INSTR_TEST
  | CF.Jmp _ => INSTR_JMP
  | CF.Jif _ => INSTR_JIF
  | CF.Routine _ => INSTR_ROUTINE
  | CF.Call _ => INSTR_CALL
  | CF.Exec _ => INSTR_EXEC
  | CF.Ret => INSTR_RET
  end.

Definition ControlFlow_args (op : ControlFlowOp) : CM unit :=
  match op with
  | CF.Fail | CF.Test | CF.Ret => mret tt
  | CF.Jmp pos | CF.Jif pos | CF.Routine pos => writes [fld 16 pos]
  | CF.Call site | CF.Exec site => write_field 16 (site_pos site) ;; write_lib (site_lib site)
  end.

Definition read_site : CM LibSite := pos ← read_u16; lib ← read_lib; mret (mkSite lib pos).

Definition ControlFlow_decode : CM ControlFlowOp :=
  instr ← read_u8;
  match instr with
  | INSTR_FAIL => mret CF.Fail
  | INSTR_TEST => mret CF.Test
  | INSTR_JMP => pos ← read_u16; mret (CF.Jmp pos)
  | INSTR_JIF => pos ← read_u16; mret (CF.Jif pos)
  | INSTR_ROUTINE => pos ← read_u16; mret (CF.Routine pos)
  | INSTR_CALL => site ← read_site; mret (CF.Call site)
  | INSTR_EXEC => site ← read_site; mret (CF.Exec site)
  | INSTR_RET => mret CF.Ret
  | _ => unreachable
  end.

Definition ControlFlow_call_site (op : ControlFlowOp) : option LibSite :=
  match op with CF.Call site | CF.Exec site => Some site | _ => None end.

#[export] Instance ControlFlow_bytecode : Bytecode ControlFlowOp := {|
  instr_range := (INSTR_FAIL, INSTR_RET);
  instr_byte := ControlFlow_byte;
  encode_args := ControlFlow_args;
  decode := ControlFlow_decode;
  try_decode_extension_prefix := mret None;
  call_site := ControlFlow_call_site;
|}.

(** ** Putting values into registers *)

Definition Put_byte (op : PutOp) : Z :=
  match op with
  | PU.ClrA _ _ => INSTR_CLRA
  | PU.ClrF _ _ => INSTR_CLRF
  | PU.ClrR _ _ => INSTR_CLRR
  | PU.PutA _ _ _ => INSTR_PUTA
  | PU.PutF _ _ _ => INSTR_PUTF
  | PU.PutR _ _ _ => INSTR_PUTR
  | PU.PutIfA _ _ _ => INSTR_PUTIFA
  | PU.PutIfR _ _ _ => INSTR_PUTIFR
  end.

Definition put_number `{fs : Floats} (reg : Layout) (val : option Number) : CM unit :=
  match val with Some v => write_number fs reg v | None => fail PutNoNumber end.

Definition Put_args `{fs : Floats} (op : PutOp) : CM unit :=
  match op with
  | PU.ClrA reg idx => writes [fld 3 reg; fld 5 idx]
  | PU.ClrF reg idx => writes [fld 3 reg; fld 5 idx]
  | PU.ClrR reg idx => writes [fld 3 reg; fld 5 idx]
  | PU.PutA reg idx val | PU.PutIfA reg idx val =>
      writes [fld 3 reg; fld 5 idx] ;; put_number (RegA_layout reg) val
  | PU.PutF reg idx val =>
      writes [fld 3 reg; fld 5 idx] ;; put_number (RegF_layout reg) val
  | PU.PutR reg idx val | PU.PutIfR reg idx val =>
      writes [fld 3 reg; fld 5 idx] ;; put_number (RegR_layout reg) val
  end.

(** [reader.read_number(reg).map(MaybeNumber::some).unwrap_or_default()] *)
Definition maybe_number (reg : Layout) : CM (option Number) := fun c =>
  match read_number reg c with
  | (c', Ok n) => (c', Ok (Some n))
  | (c', Err (VmPanic p)) => (c', Err (VmPanic p))
  | (c', Err _) => (c', Ok None)
  end.

Definition Put_decode : CM PutOp :=
  instr ← read_u8; r ← read_bits 3; index ← read_as 5;
  match instr with
  | INSTR_CLRA => reg ← into r; mret (PU.ClrA reg index)
  | INSTR_CLRF => reg ← into r; mret (PU.ClrF reg index)
  | INSTR_CLRR => reg ← into r; mret (PU.ClrR reg index)
  | INSTR_PUTA => reg ← into r; value ← maybe_number (RegA_layout reg); mret (PU.PutA reg index value)
  | INSTR_PUTF => reg ← into r; value ← maybe_number (RegF_layout reg); mret (PU.PutF reg index value)
  | INSTR_PUTR => reg ← into r; value ← maybe_number (RegR_layout reg); mret (PU.PutR reg index value)
  | INSTR_PUTIFA => reg ← into r; value ← maybe_number (RegA_layout reg); mret (PU.PutIfA reg index value)
  | INSTR_PUTIFR => reg ← into r; value ← maybe_number (RegR_layout reg); mret (PU.PutIfR reg index value)
  | _ => unreachable
  end.

#[export] Instance Put_bytecode `{Floats} : Bytecode PutOp := {|
  instr_range := (INSTR_CLRA, INSTR_PUTIFR);
  instr_byte := Put_byte;
  encode_args := Put_args;
  decode := Put_decode;
  try_decode_extension_prefix := mret None;
  call_site _ := None;
|}.

(** ** Moving values between registers *)

Definition Move_byte (op : MoveOp) : Z :=
  match op with
  | MV.MovA _ _ _ | MV.DupA _ _ _ | MV.SwpA _ _ _ | MV.MovF _ _ _ | MV.DupF _ _ _
  | MV.SwpF _ _ _ | MV.MovR _ _ _ | MV.DupR _ _ _ => INSTR_MOV
  | MV.CpyA _ _ _ _ => INSTR_CPA
  | MV.CnvA _ _ _ _ => INSTR_CNA
  | MV.CnvF _ _ _ _ => INSTR_CNF
  | MV.CpyR _ _ _ _ => INSTR_CPR
  | MV.SpyAR _ _ _ _ => INSTR_SPY
  | MV.CnvAF _ _ _ _ => INSTR_CAF
  | MV.CnvFA _ _ _ _ => INSTR_CFA
  end.

Definition Move_args (op : MoveOp) : CM unit :=
  match op with
  | MV.MovA reg idx1 idx2 => writes [(3, 0); fld 5 idx1; fld 5 idx2; fld 3 reg]
  | MV.DupA reg idx1 idx2 => writes [(3, 1); fld 5 idx1; fld 5 idx2; fld 3 reg]
  | MV.SwpA reg idx1 idx2 => writes [(3, 2); fld 5 idx1; fld 5 idx2; fld 3 reg]
  | MV.MovF reg idx1 idx2 => writes [(3, 3); fld 5 idx1; fld 5 idx2; fld 3 reg]
  | MV.DupF reg idx1 idx2 => writes [(3, 4); fld 5 idx1; fld 5 idx2; fld 3 reg]
  | MV.SwpF reg idx1 idx2 => writes [(3, 5); fld 5 idx1; fld 5 idx2; fld 3 reg]
  | MV.MovR reg idx1 idx2 => writes [(3, 6); fld 5 idx1; fld 5 idx2; fld 3 reg]
  | MV.DupR reg idx1 idx2 => writes [(3, 7); fld 5 idx1; fld 5 idx2; fld 3 reg]
  | MV.CpyA sreg sidx dreg didx => writes [fld 3 sreg; fld 5 sidx; fld 3 dreg; fld 5 didx]
  | MV.CnvA sreg sidx dreg didx => writes [fld 3 sreg; fld 5 sidx; fld 3 dreg; fld 5 didx]
  | MV.CnvF sreg sidx dreg didx => writes [fld 3 sreg; fld 5 sidx; fld 3 dreg; fld 5 didx]
  | MV.CpyR sreg sidx dreg didx => writes [fld 3 sreg; fld 5 sidx; fld 3 dreg; fld 5 didx]
  | MV.SpyAR sreg sidx dreg didx => writes [fld 3 sreg; fld 5 sidx; fld 3 dreg; fld 5 didx]
  | MV.CnvAF sreg sidx dreg didx => writes [fld 3 sreg; fld 5 sidx; fld 3 dreg; fld 5 didx]
  | MV.CnvFA sreg sidx dreg didx => writes [fld 3 sreg; fld 5 sidx; fld 3 dreg; fld 5 didx]
  end.

Definition Move_decode : CM MoveOp :=
  instr ← read_u8;
  if instr =? INSTR_MOV then
    code ← read_bits 3; idx1 ← read_as 5; idx2 ← read_as 5; r ← read_bits 3;
    match code with
    | 0 => reg ← into r; mret (MV.MovA reg idx1 idx2)
    | 1 => reg ← into r; mret (MV.DupA reg idx1 idx2)
    | 2 => reg ← into r; mret (MV.SwpA reg idx1 idx2)
    | 3 => reg ← into r; mret (MV.MovF reg idx1 idx2)
    | 4 => reg ← into r; mret (MV.DupF reg idx1 idx2)
    | 5 => reg ← into r; mret (MV.SwpF reg idx1 idx2)
    | 6 => reg ← into r; mret (MV.MovR reg idx1 idx2)
    | 7 => reg ← into r; mret (MV.DupR reg idx1 idx2)
    | _ => unreachable
    end
  else
    s ← read_bits 3; sidx ← read_as 5; t ← read_bits 3; didx ← read_as 5;
    match instr with
    | INSTR_CPA => sreg ← into s; dreg ← into t; mret (MV.CpyA sreg sidx dreg didx)
    | INSTR_CNA => sreg ← into s; dreg ← into t; mret (MV.CnvA sreg sidx dreg didx)
    | INSTR_CNF => sreg ← into s; dreg ← into t; mret (MV.CnvF sreg sidx dreg didx)
    | INSTR_CPR => sreg ← into s; dreg ← into t; mret (MV.CpyR sreg sidx dreg didx)
    | INSTR_SPY => sreg ← into s; dreg ← into t; mret (MV.SpyAR sreg sidx dreg didx)
    | INSTR_CAF => sreg ← into s; dreg ← into t; mret (MV.CnvAF sreg sidx dreg didx)
    | INSTR_CFA => sreg ← into s; dreg ← into t; mret (MV.CnvFA sreg sidx dreg didx)
    | _ => unreachable
    end.

#[export] Instance Move_bytecode : Bytecode MoveOp := {|
  instr_range := (INSTR_MOV, INSTR_CFA);
  instr_byte := Move_byte;
  encode_args := Move_args;
  decode := Move_decode;
  try_decode_extension_prefix := mret None;
  call_site _ := None;
|}.

(** ** Comparing registers *)

Definition Cmp_byte (op : CmpOp) : Z :=
  match op with
  | CP.GtA _ _ _ _ | CP.LtA _ _ _ _ | CP.GtF _ _ _ _ | CP.LtF _ _ _ _ => INSTR_LGT
  | CP.GtR _ _ _ | CP.LtR _ _ _ | CP.EqA _ _ _ _ | CP.EqF _ _ _ _ | CP.EqR _ _ _ _ => INSTR_CMP
  | CP.IfZA _ _ => INSTR_IFZA
  | CP.IfZR _ _ => INSTR_IFZR
  | CP.IfNA _ _ => INSTR_IFNA
  | CP.IfNR _ _ => INSTR_IFNR
  | CP.St _ _ _ => INSTR_ST
  | CP.StInv => INSTR_STINV
  end.

Definition Cmp_args (op : CmpOp) : CM unit :=
  match op with
  | CP.GtA flag reg idx1 idx2 => writes [(2, 0); fld 1 flag; fld 5 idx1; fld 5 idx2; fld 3 reg]
  | CP.LtA flag reg idx1 idx2 => writes [(2, 1); fld 1 flag; fld 5 idx1; fld 5 idx2; fld 3 reg]
  | CP.GtF flag reg idx1 idx2 => writes [(2, 2); fld 1 flag; fld 5 idx1; fld 5 idx2; fld 3 reg]
  | CP.LtF flag reg idx1 idx2 => writes [(2, 3); fld 1 flag; fld 5 idx1; fld 5 idx2; fld 3 reg]
  | CP.GtR reg idx1 idx2 => writes [(2, 0); (1, 0); fld 5 idx1; fld 5 idx2; fld 3 reg]
  | CP.LtR reg idx1 idx2 => writes [(2, 0); (1, 1); fld 5 idx1; fld 5 idx2; fld 3 reg]
  | CP.EqA flag reg idx1 idx2 => writes [(2, 1); fld 1 flag; fld 5 idx1; fld 5 idx2; fld 3 reg]
  | CP.EqF flag reg idx1 idx2 => writes [(2, 2); fld 1 flag; fld 5 idx1; fld 5 idx2; fld 3 reg]
  | CP.EqR flag reg idx1 idx2 => writes [(2, 3); fld 1 flag; fld 5 idx1; fld 5 idx2; fld 3 reg]
  | CP.IfZA reg idx | CP.IfNA reg idx => writes [fld 3 reg; fld 5 idx]
  | CP.IfZR reg idx | CP.IfNR reg idx => writes [fld 3 reg; fld 5 idx]
  | CP.St flag reg idx => writes [fld 2 flag; fld 3 reg; fld 3 idx]
  | CP.StInv => mret tt
  end.

Definition Cmp_decode : CM CmpOp :=
  instr ← read_u8;
  if (instr =? INSTR_LGT) || (instr =? INSTR_CMP) then
    code ← read_bits 2; f ← read_bits 1; idx1 ← read_as 5; idx2 ← read_as 5; r ← read_bits 3;
    match instr, code, f with
    | INSTR_LGT, 0, _ => flag ← into f; reg ← into r; mret (CP.GtA flag reg idx1 idx2)
    | INSTR_LGT, 1, _ => flag ← into f; reg ← into r; mret (CP.LtA flag reg idx1 idx2)
    | INSTR_LGT, 2, _ => flag ← into f; reg ← into r; mret (CP.GtF flag reg idx1 idx2)
    | INSTR_LGT, 3, _ => flag ← into f; reg ← into r; mret (CP.LtF flag reg idx1 idx2)
    | INSTR_CMP, 0, 0 => reg ← into r; mret (CP.GtR reg idx1 idx2)
    | INSTR_CMP, 0, 1 => reg ← into r; mret (CP.LtR reg idx1 idx2)
    | INSTR_CMP, 1, _ => flag ← into f; reg ← into r; mret (CP.EqA flag reg idx1 idx2)
    | INSTR_CMP, 2, _ => flag ← into f; reg ← into r; mret (CP.EqF flag reg idx1 idx2)
    | INSTR_CMP, 3, _ => flag ← into f; reg ← into r; mret (CP.EqR flag reg idx1 idx2)
    | _, _, _ => unreachable
    end
  else if instr =? INSTR_STINV then mret CP.StInv
  else if instr =? INSTR_ST then
    flag ← read_as 2; reg ← read_as 3; idx ← read_as 3; mret (CP.St flag reg idx)
  else
    r ← read_bits 3; idx ← read_as 5;
    match instr with
    | INSTR_IFZA => reg ← into r; mret (CP.IfZA reg idx)
    | INSTR_IFNA => reg ← into r; mret (CP.IfNA reg idx)
    | INSTR_IFZR => reg ← into r; mret (CP.IfZR reg idx)
    | INSTR_IFNR => reg ← into r; mret (CP.IfNR reg idx)
    | _ => unreachable
    end.

#[export] Instance Cmp_bytecode : Bytecode CmpOp := {|
  instr_range := (INSTR_LGT, INSTR_STINV);
  instr_byte := Cmp_byte;
  encode_args := Cmp_args;
  decode := Cmp_decode;
  try_decode_extension_prefix := mret None;
  call_site _ := None;
|}.

(** ** Arithmetic *)

Definition Arithmetic_byte (op : ArithmeticOp) : Z :=
  match op with
  | AR.AddF _ _ _ _ | AR.AddA _ _ _ _ => INSTR_ADD
  | AR.SubF _ _ _ _ | AR.SubA _ _ _ _ => INSTR_SUB
  | AR.MulF _ _ _ _ | AR.MulA _ _ _ _ => INSTR_MUL
  | AR.DivF _ _ _ _ | AR.DivA _ _ _ _ => INSTR_DIV
  | AR.Rem _ _ _ _ => INSTR_REM
  | AR.Stp _ _ _ => INSTR_STP
  | AR.Neg _ _ => INSTR_NEG
  | AR.Abs _ _ => INSTR_ABS
  end.

Definition Arithmetic_args (op : ArithmeticOp) : CM unit :=
  match op with
  | AR.Neg reg idx | AR.Abs reg idx => writes [fld 4 reg; fld 4 idx]
  | AR.Stp reg idx step => writes [fld 3 reg; fld 5 idx] ;; write_i8 step
  | AR.AddA flags reg src1 src2 | AR.SubA flags reg src1 src2
  | AR.MulA flags reg src1 src2 | AR.DivA flags reg src1 src2 =>
      writes [(1, 0); fld 2 flags; fld 5 src1; fld 5 src2; fld 3 reg]
  | AR.AddF flag reg src1 src2 | AR.SubF flag reg src1 src2
  | AR.MulF flag reg src1 src2 | AR.DivF flag reg src1 src2 =>
      writes [(1, 1); fld 2 flag; fld 5 src1; fld 5 src2; fld 3 reg]
  | AR.Rem reg1 src1 reg2 src2 => writes [fld 3 reg1; fld 5 src1; fld 3 reg2; fld 5 src2]
  end.

Definition Arithmetic_decode : CM ArithmeticOp :=
  instr ← read_u8;
  if contains (INSTR_ADD, INSTR_DIV) instr then
    code ← read_bits 1; f ← read_bits 2; src1 ← read_as 5; src2 ← read_as 5; r ← read_bits 3;
    match code, instr with
    | 0, INSTR_ADD => flags ← into f; reg ← into r; mret (AR.AddA flags reg src1 src2)
    | 0, INSTR_SUB => flags ← into f; reg ← into r; mret (AR.SubA flags reg src1 src2)
    | 0, INSTR_MUL => flags ← into f; reg ← into r; mret (AR.MulA flags reg src1 src2)
    | 0, INSTR_DIV => flags ← into f; reg ← into r; mret (AR.DivA flags reg src1 src2)
    | 1, INSTR_ADD => flag ← into f; reg ← into r; mret (AR.AddF flag reg src1 src2)
    | 1, INSTR_SUB => flag ← into f; reg ← into r; mret (AR.SubF flag reg src1 src2)
    | 1, INSTR_MUL => flag ← into f; reg ← into r; mret (AR.MulF flag reg src1 src2)
    | 1, INSTR_DIV => flag ← into f; reg ← into r; mret (AR.DivF flag reg src1 src2)
    | _, _ => unreachable
    end
  else
    match instr with
    | INSTR_NEG => reg ← read_as 4; idx ← read_as 4; mret (AR.Neg reg idx)
    | INSTR_STP => reg ← read_as 3; idx ← read_as 5; step ← read_i8; mret (AR.Stp reg idx step)
    | INSTR_REM =>
        reg1 ← read_as 3; src1 ← read_as 5; reg2 ← read_as 3; src2 ← read_as 5;
        mret (AR.Rem reg1 src1 reg2 src2)
    | INSTR_ABS => reg ← read_as 4; idx ← read_as 4; mret (AR.Abs reg idx)
    | _ => unreachable
    end.

#[export] Instance Arithmetic_bytecode : Bytecode ArithmeticOp := {|
  instr_range := (INSTR_ADD, INSTR_REM);
  instr_byte := Arithmetic_byte;
  encode_args := Arithmetic_args;
  decode := Arithmetic_decode;
  try_decode_extension_prefix := mret None;
  call_site _ := None;
|}.

(** ** Bit operations *)

Definition Bitwise_byte (op : BitwiseOp) : Z :=
  match op with
  | BW.And _ _ _ _ => INSTR_AND
  | BW.Or _ _ _ _ => INSTR_OR
  | BW.Xor _ _ _ _ => INSTR_XOR
  | BW.Not _ _ => INSTR_NOT
  | BW.Shl _ _ _ _ | BW.ShrA _ _ _ _ _ | BW.ShrR _ _ _ _ => INSTR_SHF
  | BW.Scl _ _ _ _ | BW.Scr _ _ _ _ => INSTR_SHC
  | BW.RevA _ _ => INSTR_REVA
  | BW.RevR _ _ => INSTR_REVR
  end.

Definition Bitwise_args (op : BitwiseOp) : CM unit :=
  match op with
  | BW.And reg idx1 idx2 idx3 | BW.Or reg idx1 idx2 idx3 | BW.Xor reg idx1 idx2 idx3 =>
      writes [fld 4 reg; fld 4 idx1; fld 4 idx2; fld 4 idx3]
  | BW.Not reg idx => writes [fld 4 reg; fld 4 idx]
  | BW.Shl a2 shift reg idx => writes [(1, 0); fld 1 a2; fld 5 shift; fld 4 reg; fld 5 idx]
  | BW.ShrA sign a2 shift reg idx =>
      writes [(1, 1); fld 1 a2; fld 4 shift; fld 1 sign; (1, 0); fld 3 reg; fld 5 idx]
  | BW.ShrR a2 shift reg idx => writes [(1, 1); fld 1 a2; fld 5 shift; (1, 1); fld 3 reg; fld 5 idx]
  | BW.Scl a2 shift reg idx => writes [(1, 0); fld 1 a2; fld 5 shift; fld 4 reg; fld 5 idx]
  | BW.Scr a2 shift reg idx => writes [(1, 1); fld 1 a2; fld 5 shift; fld 4 reg; fld 5 idx]
  | BW.RevA reg idx => writes [fld 3 reg; fld 5 idx]
  | BW.RevR reg idx => writes [fld 3 reg; fld 5 idx]
  end.

Definition Bitwise_decode : CM BitwiseOp :=
  instr ← read_u8;
  if contains (INSTR_AND, INSTR_XOR) instr then
    reg ← read_as 4; src1 ← read_as 4; src2 ← read_as 4; dst ← read_as 4;
    match instr with
    | INSTR_AND => mret (BW.And reg src1 src2 dst)
    | INSTR_OR => mret (BW.Or reg src1 src2 dst)
    | INSTR_XOR => mret (BW.Xor reg src1 src2 dst)
    | _ => unreachable
    end
  else if instr =? INSTR_SHC then
    code ← read_bits 1; a2 ← read_as 1; shift ← read_as 5; reg ← read_as 4; idx ← read_as 5;
    match code with
    | 0 => mret (BW.Scl a2 shift reg idx)
    | 1 => mret (BW.Scr a2 shift reg idx)
    | _ => unreachable
    end
  else if instr =? INSTR_SHF then
    code ← read_bits 1; a2 ← read_as 1;
    match code with
    | 0 => shift ← read_as 5; reg ← read_as 4; idx ← read_as 5; mret (BW.Shl a2 shift reg idx)
    | 1 =>
        s ← read_bits 4; g ← read_bits 1; block ← read_bits 1; r ← read_bits 3; idx ← read_as 5;
        match block with
        | 0 => sign ← into g; shift ← into s; reg ← into r; mret (BW.ShrA sign a2 shift reg idx)
        | 1 => shift2 ← into (Z.lor (Z.shiftl g 4) s); reg ← into r; mret (BW.ShrR a2 shift2 reg idx)
        | _ => unreachable
        end
    | _ => unreachable
    end
  else
    match instr with
    | INSTR_NOT => reg ← read_as 4; idx ← read_as 4; mret (BW.Not reg idx)
    | INSTR_REVA => reg ← read_as 3; idx ← read_as 5; mret (BW.RevA reg idx)
    | INSTR_REVR => reg ← read_as 3; idx ← read_as 5; mret (BW.RevR reg idx)
    | _ => unreachable
    end.

#[export] Instance Bitwise_bytecode : Bytecode BitwiseOp := {|
  instr_range := (INSTR_AND, INSTR_REVR);
  instr_byte := Bitwise_byte;
  encode_args := Bitwise_args;
  decode := Bitwise_decode;
  try_decode_extension_prefix := mret None;
  call_site _ := None;
|}.

(** ** Byte strings *)

Definition Bytes_byte (op : BytesOp) : Z :=
  match op with
  | BY.Put _ _ _ => INSTR_PUT
  | BY.Mov _ _ => INSTR_MVS
  | BY.Swp _ _ => INSTR_SWP
  | BY.Fill _ _ _ _ _ => INSTR_FILL
  | BY.Len _ _ _ => INSTR_LEN
  | BY.Cnt _ _ _ => INSTR_CNT
  | BY.Eq _ _ => INSTR_EQ
  | BY.Con _ _ _ _ _ => INSTR_CON
  | BY.Find _ _ => INSTR_FIND
  | BY.Extr _ _ _ _ => INSTR_EXTR
  | BY.Inj _ _ _ _ => INSTR_INJ
  | BY.Join _ _ _ => INSTR_JOIN
  | BY.Splt _ _ _ _ _ => INSTR_SPLT
  | BY.Ins _ _ _ _ => INSTR_INS
  | BY.Del _ _ _ _ _ _ _ _ _ => INSTR_DEL
  | BY.Rev _ _ => INSTR_REV
  end.

Definition Bytes_args (op : BytesOp) : CM unit :=
  match op with
  | BY.Put reg bytes _ => writes [fld 8 reg] ;; write_data bytes
  | BY.Mov reg1 reg2 | BY.Swp reg1 reg2 | BY.Find reg1 reg2 | BY.Rev reg1 reg2 =>
      writes [fld 4 reg1; fld 4 reg2]
  | BY.Fill reg offset1 offset2 value flag =>
      writes [fld 8 reg; fld 5 offset1; fld 5 offset2; fld 5 value; fld 1 flag]
  | BY.Len src reg dst => writes [fld 8 src; fld 3 reg; fld 5 dst]
  | BY.Cnt src byte cnt => writes [fld 8 src; fld 4 byte; fld 4 cnt]
  | BY.Eq reg1 reg2 => writes [fld 4 reg1; fld 4 reg2]
  | BY.Con reg1 reg2 no offset len =>
      writes [fld 4 reg1; fld 4 reg2; fld 5 no; fld 5 offset; fld 5 len; fld 1 false]
  | BY.Extr src dst index offset | BY.Inj src dst index offset =>
      writes [fld 4 src; fld 4 dst; fld 4 index; fld 4 offset]
  | BY.Join src1 src2 dst => writes [fld 4 src1; fld 4 src2; fld 8 dst]
  | BY.Splt flag offset src dst1 dst2 =>
      writes [fld 3 flag; fld 5 offset; fld 8 src; fld 4 dst1; fld 4 dst2]
  | BY.Ins flag offset src dst => writes [fld 3 flag; fld 5 offset; fld 4 src; fld 4 dst]
  | BY.Del flag reg1 offset1 reg2 offset2 flag1 flag2 src dst =>
      writes [fld 2 flag; fld 1 reg1; fld 5 offset1; fld 1 reg2; fld 5 offset2;
              fld 1 flag1; fld 1 flag2; fld 4 src; fld 4 dst]
  end.

Definition Bytes_decode : CM BytesOp :=
  instr ← read_u8;
  match instr with
  | INSTR_PUT => index ← read_as 8; r ← read_data; mret (BY.Put index r.1 r.2)
  | INSTR_MVS => a ← read_as 4; b ← read_as 4; mret (BY.Mov a b)
  | INSTR_SWP => a ← read_as 4; b ← read_as 4; mret (BY.Swp a b)
  | INSTR_FIND => a ← read_as 4; b ← read_as 4; mret (BY.Find a b)
  | INSTR_REV => a ← read_as 4; b ← read_as 4; mret (BY.Rev a b)
  | INSTR_FILL =>
      a ← read_as 8; b ← read_as 5; c ← read_as 5; d ← read_as 5; e ← read_as 1;
      mret (BY.Fill a b c d e)
  | INSTR_LEN => a ← read_as 8; b ← read_as 3; c ← read_as 5; mret (BY.Len a b c)
  | INSTR_CNT => a ← read_as 8; b ← read_as 4; c ← read_as 4; mret (BY.Cnt a b c)
  | INSTR_EQ => a ← read_as 4; b ← read_as 4; mret (BY.Eq a b)
  | INSTR_CON =>
      a ← read_as 4; b ← read_as 4; c ← read_as 5; d ← read_as 5; e ← read_as 5;
      _ ← read_as (A := bool) 1; mret (BY.Con a b c d e)
  | INSTR_EXTR => a ← read_as 4; b ← read_as 4; c ← read_as 4; d ← read_as 4; mret (BY.Extr a b c d)
  | INSTR_INJ => a ← read_as 4; b ← read_as 4; c ← read_as 4; d ← read_as 4; mret (BY.Inj a b c d)
  | INSTR_JOIN => a ← read_as 4; b ← read_as 4; c ← read_as 8; mret (BY.Join a b c)
  | INSTR_SPLT =>
      a ← read_as 3; b ← read_as 5; c ← read_as 8; d ← read_as 4; e ← read_as 4;
      mret (BY.Splt a b c d e)
  | INSTR_INS => a ← read_as 3; b ← read_as 5; c ← read_as 4; d ← read_as 4; mret (BY.Ins a b c d)
  | INSTR_DEL =>
      a ← read_as 2; b ← read_as 1; c ← read_as 5; d ← read_as 1; e ← read_as 5;
      f ← read_as 1; g ← read_as 1; h ← read_as 4; i ← read_as 4;
      mret (BY.Del a b c d e f g h i)
  | _ => unreachable
  end.

#[export] Instance Bytes_bytecode : Bytecode BytesOp := {|
  instr_range := (INSTR_PUT, INSTR_REV);
  instr_byte := Bytes_byte;
  encode_args := Bytes_args;
  decode := Bytes_decode;
  try_decode_extension_prefix := mret None;
  call_site _ := None;
|}.

(** ** Digests *)

Definition Digest_byte (op : DigestOp) : Z :=
  match op with
  | DG.Ripemd _ _ => INSTR_RIPEMD
  | DG.Sha256 _ _ => INSTR_SHA256
  | DG.Sha512 _ _ => INSTR_SHA512
  | DG.Blake3 _ _ => INSTR_BLAKE3
  end.

Definition Digest_args (op : DigestOp) : CM unit :=
  match op with
  | DG.Ripemd src dst | DG.Sha256 src dst | DG.Blake3 src dst | DG.Sha512 src dst =>
      writes [fld 4 src; fld 4 dst]
  end.

Definition Digest_decode : CM DigestOp :=
  instr ← read_u8; src ← read_as 4; dst ← read_as 4;
  match instr with
  | INSTR_RIPEMD => mret (DG.Ripemd src dst)
  | INSTR_SHA256 => mret (DG.Sha256 src dst)
  | INSTR_BLAKE3 => mret (DG.Blake3 src dst)
  | INSTR_SHA512 => mret (DG.Sha512 src dst)
  | _ => unreachable
  end.

#[export] Instance Digest_bytecode : Bytecode DigestOp := {|
  instr_range := (INSTR_RIPEMD, INSTR_SHA512);
  instr_byte := Digest_byte;
  encode_args := Digest_args;
  decode := Digest_decode;
  try_decode_extension_prefix := mret None;
  call_site _ := None;
|}.

(** ** Elliptic curves *)

(** The flag that tells the block of the scalar: whether it is [A]; and back. *)
Definition block_flag (r : RegBlockAR) : bool := bool_decide (r = BlockA).

Definition block_of (r : bool) : RegBlockAR := if r then BlockA else BlockR.

Definition Secp_byte (op : Secp256k1Op) : Z :=
  match op with
  | SP.Gen _ _ => INSTR_SECP_GEN
  | SP.Mul _ _ _ _ => INSTR_SECP_MUL
  | SP.Add _ _ => INSTR_SECP_ADD
  | SP.Neg _ _ => INSTR_SECP_NEG
  end.

Definition Secp_args (op : Secp256k1Op) : CM unit :=
  match op with
  | SP.Gen src dst => writes [fld 5 src; fld 3 dst]
  | SP.Mul reg scal src dst => writes [fld 1 (block_flag reg); fld 5 scal; fld 5 src; fld 5 dst]
  | SP.Add src srcdst => writes [fld 5 src; fld 3 srcdst]
  | SP.Neg src dst => writes [fld 5 src; fld 3 dst]
  end.

Definition Secp_decode : CM Secp256k1Op :=
  instr ← read_u8;
  match instr with
  | INSTR_SECP_GEN => a ← read_as 5; b ← read_as 3; mret (SP.Gen a b)
  | INSTR_SECP_MUL =>
      r ← read_as (A := bool) 1; a ← read_as 5; b ← read_as 5; c ← read_as 5;
      mret (SP.Mul (block_of r) a b c)
  | INSTR_SECP_ADD => a ← read_as 5; b ← read_as 3; mret (SP.Add a b)
  | INSTR_SECP_NEG => a ← read_as 5; b ← read_as 3; mret (SP.Neg a b)
  | _ => unreachable
  end.

#[export] Instance Secp_bytecode : Bytecode Secp256k1Op := {|
  instr_range := (INSTR_SECP_GEN, INSTR_SECP_NEG);
  instr_byte := Secp_byte;
  encode_args := Secp_args;
  decode := Secp_decode;
  try_decode_extension_prefix := mret None;
  call_site _ := None;
|}.

Definition Curve_byte (op : Curve25519Op) : Z :=
  match op with
  | ED.Gen _ _ => INSTR_ED_GEN
  | ED.Mul _ _ _ _ => INSTR_ED_MUL
  | ED.Add _ _ _ _ => INSTR_ED_ADD
  | ED.Neg _ _ => INSTR_ED_NEG
  end.

Definition Curve_args (op : Curve25519Op) : CM unit :=
  match op with
  | ED.Gen src dst => writes [fld 5 src; fld 3 dst]
  | ED.Mul reg scal src dst => writes [fld 1 (block_flag reg); fld 5 scal; fld 5 src; fld 5 dst]
  | ED.Add src1 src2 dst overflow => writes [fld 5 src1; fld 5 src2; fld 5 dst; fld 1 overflow]
  | ED.Neg src dst => writes [fld 5 src; fld 3 dst]
  end.

Definition Curve_decode : CM Curve25519Op :=
  instr ← read_u8;
  match instr with
  | INSTR_ED_GEN => a ← read_as 5; b ← read_as 3; mret (ED.Gen a b)
  | INSTR_ED_MUL =>
      r ← read_as (A := bool) 1; a ← read_as 5; b ← read_as 5; c ← read_as 5;
      mret (ED.Mul (block_of r) a b c)
  | INSTR_ED_ADD => a ← read_as 5; b ← read_as 5; c ← read_as 5; o ← read_as 1; mret (ED.Add a b c o)
  | INSTR_ED_NEG => a ← read_as 5; b ← read_as 3; mret (ED.Neg a b)
  | _ => unreachable
  end.

#[export] Instance Curve_bytecode : Bytecode Curve25519Op := {|
  instr_range := (INSTR_ED_GEN, INSTR_ED_NEG);
  instr_byte := Curve_byte;
  encode_args := Curve_args;
  decode := Curve_decode;
  try_decode_extension_prefix := mret None;
  call_site _ := None;
|}.

(** ** Output and reserved instructions *)

Definition Outstack_decode : CM OutstackOp :=
  opcode ← read_u8;
  if opcode =? INSTR_OUTR then reg ← read_u8; mret (Outr reg)
  else if contains (INSTR_OUTSTACK_FROM, INSTR_OUTSTACK_TO) opcode then fail CodeEofError
  else unreachable.

#[export] Instance Outstack_bytecode : Bytecode OutstackOp := {|
  instr_range := (INSTR_OUTSTACK_FROM, INSTR_OUTSTACK_TO);
  instr_byte op := match op with Outr _ => INSTR_OUTR end;
  encode_args op := let 'Outr reg := op in writes [fld 8 reg];
  decode := Outstack_decode;
  try_decode_extension_prefix := mret None;
  call_site _ := None;
|}.

#[export] Instance Reserved_bytecode : Bytecode ReservedOp := {|
  instr_range := (INSTR_RESV_FROM, INSTR_ISAE_TO);
  instr_byte op := let 'mkReserved code := op in code;
  encode_args op := match op with mkReserved _ => mret tt end;
  decode := code ← read_u8; mret (mkReserved code);
  try_decode_extension_prefix := mret None;
  call_site _ := None;
|}.

(** ** The instruction *)

Section instr.
Context `{Floats} {Ext : Type} `{Bytecode Ext}.

Definition Instr_byte (i : Instr Ext) : Z :=
  match i with
  | ControlFlow op => instr_byte op
  | Put op => instr_byte op
  | Move op => instr_byte op
  | Cmp op => instr_byte op
  | Arithmetic op => instr_byte op
  | Bitwise op => instr_byte op
  | Bytes op => instr_byte op
  | Digest op => instr_byte op
  | Secp256k1 op => instr_byte op
  | Curve25519 op => instr_byte op
  | Outstack op => instr_byte op
  | ExtensionCodes op => instr_byte op
  | ReservedInstruction op => instr_byte op
  | Nop => 1
  end.

Definition Instr_args (i : Instr Ext) : CM unit :=
  match i with
  | ControlFlow op => encode_args op
  | Put op => encode_args op
  | Move op => encode_args op
  | Cmp op => encode_args op
  | Arithmetic op => encode_args op
  | Bitwise op => encode_args op
  | Bytes op => encode_args op
  | Digest op => encode_args op
  | Secp256k1 op => encode_args op
  | Curve25519 op => encode_args op
  | Outstack op => encode_args op
  | ExtensionCodes op => encode_args op
  | ReservedInstruction op => encode_args op
  | Nop => mret tt
  end.

(** The family whose range holds the opcode decodes the instruction. *)
Definition Instr_classify (instr : Z) : CM (Instr Ext) :=
  if contains (instr_range (A := ControlFlowOp)) instr then op ← decode; mret (ControlFlow op)
  else if contains (instr_range (A := PutOp)) instr then op ← decode; mret (Put op)
  else if contains (instr_range (A := MoveOp)) instr then op ← decode; mret (Move op)
  else if contains (instr_range (A := CmpOp)) instr then op ← decode; mret (Cmp op)
  else if contains (instr_range (A := ArithmeticOp)) instr then op ← decode; mret (Arithmetic op)
  else if contains (instr_range (A := BitwiseOp)) instr then op ← decode; mret (Bitwise op)
  else if contains (instr_range (A := BytesOp)) instr then op ← decode; mret (Bytes op)
  else if contains (instr_range (A := DigestOp)) instr then op ← decode; mret (Digest op)
  else if contains (instr_range (A := Secp256k1Op)) instr then op ← decode; mret (Secp256k1 op)
  else if contains (instr_range (A := Curve25519Op)) instr then op ← decode; mret (Curve25519 op)
  else if contains (instr_range (A := OutstackOp)) instr then op ← decode; mret (Outstack op)
  else if contains (INSTR_RESV_FROM, INSTR_RESV_TO) instr then op ← decode; mret (ReservedInstruction op)
  else if instr =? INSTR_NOP then mret Nop
  else if contains (INSTR_ISAE_FROM, INSTR_ISAE_TO) instr then op ← decode; mret (ExtensionCodes op)
  else unreachable.

Definition Instr_decode : CM (Instr Ext) :=
  ext ← try_decode_extension_prefix;
  match ext with
  | Some ext => mret (ExtensionCodes ext)
  | None => instr ← peek_u8; Instr_classify instr
  end.

Definition Instr_call_site (i : Instr Ext) : option LibSite :=
  match i with
  | ControlFlow op => call_site op
  | Put op => call_site op
  | Move op => call_site op
  | Cmp op => call_site op
  | Arithmetic op => call_site op
  | Bitwise op => call_site op
  | Bytes op => call_site op
  | Digest op => call_site op
  | Secp256k1 op => call_site op
  | Curve25519 op => call_site op
  | Outstack op => call_site op
  | ExtensionCodes op => call_site op
  | ReservedInstruction op => call_site op
  | Nop => None
  end.

#[export] Instance Instr_bytecode : Bytecode (Instr Ext) := {|
  instr_range := (0, 255);
  instr_byte := Instr_byte;
  encode_args := Instr_args;
  decode := Instr_decode;
  try_decode_extension_prefix := mret None;
  call_site := Instr_call_site;
|}.

End instr.

(** ** What an instance promises *)

(** The instruction [i] is written as [fs] after its opcode, over the data
    segment [d], and is read back from there. *)
Definition coded {A} `{Bytecode A} (ls : list string) (d : list Z) (i : A) (fs : list (Z * Z))
    (d' : list Z) : Prop :=
  emits ls 0 d (encode_args i) fs d' /\ decodes ls d' ((8, instr_byte i) :: fs) decode i /\
  d `prefix_of` d'.

Class BytecodeLaws (A : Type) `{Bytecode A} := {
  encodable : list string -> A -> Prop;
  data_need : A -> Z;
  arg_bits : A -> Z;
  data_need_nonneg : forall i, 0 <= data_need i;
  no_prefix : forall c, try_decode_extension_prefix (A := A) c = (c, Ok None);
  bytecode_law : forall ls d i, encodable ls i -> len d + data_need i <= 65535 ->
    exists fs d', coded ls d i fs d' /\ total fs = arg_bits i /\ len d' <= len d + data_need i;
}.

Lemma coded_plain {A} `{Bytecode A} ls d (i : A) fs :
  encode_args i = writes fs -> reads ls d ((8, instr_byte i) :: fs) decode i -> coded ls d i fs d.
Proof.
  intros Hw Hr. split_and!; [|by apply reads_decodes|done].
  rewrite Hw. apply emits_writes. destruct Hr as [Hf _]. by inversion Hf.
Qed.

Lemma reads_into {A} w `{Wire w A} {B} ls d fs (a : A) (f : A -> CM B) b : valid a ->
  reads ls d fs (f a) b -> reads ls d fs (into (to_bits a) ≫= f) b.
Proof. intros Ha Hr. unfold into. by rewrite (wire_back (w := w)). Qed.

(** Proofs about one instruction: the opcode is computed, the decoder unfolded
    down to its reads, and each read consumes the field in front. *)
Create HintDb decoders.
#[export] Hint Unfold decode ControlFlow_bytecode ControlFlow_decode read_site Put_bytecode Put_decode
  Move_bytecode Move_decode Cmp_bytecode Cmp_decode Arithmetic_bytecode Arithmetic_decode
  Bitwise_bytecode Bitwise_decode Bytes_bytecode Bytes_decode Digest_bytecode Digest_decode
  Secp_bytecode Secp_decode Curve_bytecode Curve_decode Outstack_bytecode Outstack_decode
  Reserved_bytecode read_u8 read_u16 : decoders.

Ltac opcode :=
  match goal with |- context [instr_byte ?i] =>
    let b := eval cbv in (instr_byte i) in change (instr_byte i) with b end.
Ltac side := cbn; first [exact I | lia | assumption | split; lia | tauto].
Ltac on_opcode :=
  cbn beta iota delta [Z.eqb Pos.eqb orb andb contains fst snd Z.leb Z.compare Pos.compare Pos.compare_cont].
Ltac reads_step :=
  lazymatch goal with
  | |- reads _ _ [] (mret _) _ => apply reads_ret
  | |- reads _ _ (_ :: _) (@read_as ?A _ ?w ≫= _) _ => apply (reads_field (A := A) w); [side|side|]
  | |- reads _ _ (fld ?w _ :: _) (read_bits _ ≫= _) _ => apply reads_bits; [apply (fld_ok w); side|]
  | |- reads _ _ (_ :: _) (read_bits _ ≫= _) _ => apply reads_bits; [split; side|]
  | |- reads _ _ _ (@into ?A _ _ ≫= _) _ => eapply (reads_into (A := A)); [side|]
  end; on_opcode.
Ltac plain :=
  apply coded_plain; [reflexivity|]; opcode; autounfold with decoders; cbn beta iota; repeat reads_step.

Ltac plain_law := do 2 eexists; (split; [plain|split; [reflexivity|lia]]).

(** ** The families keep the promise *)

#[export] Instance Move_laws : BytecodeLaws MoveOp.
Proof.
  refine {| encodable _ _ := True; data_need _ := 0; arg_bits _ := 16 |}; [done..|].
  intros ls d op _ _. destruct op; plain_law.
Defined.

#[export] Instance Cmp_laws : BytecodeLaws CmpOp.
Proof.
  refine {|
    encodable _ _ := True; data_need _ := 0;
    arg_bits op := match op with
      | CP.IfZA _ _ | CP.IfZR _ _ | CP.IfNA _ _ | CP.IfNR _ _ | CP.St _ _ _ => 8
      | CP.StInv => 0 | _ => 16 end |}; [done..|].
  intros ls d op _ _. destruct op; [plain_law..|].
  exists [], d. split; [plain|split; [reflexivity|lia]].
Defined.

#[export] Instance Digest_laws : BytecodeLaws DigestOp.
Proof.
  refine {|
    encodable _ op := match op with
      DG.Ripemd src _ | DG.Sha256 src _ | DG.Sha512 src _ | DG.Blake3 src _ => RegS_ok src end;
    data_need _ := 0; arg_bits _ := 8 |}; [done..|].
  intros ls d op Hop _. destruct op; plain_law.
Defined.

#[export] Instance Secp_laws : BytecodeLaws Secp256k1Op.
Proof.
  refine {|
    encodable _ _ := True; data_need _ := 0;
    arg_bits op := match op with SP.Mul _ _ _ _ => 16 | _ => 8 end |}; [done..|].
  intros ls d op _ _. destruct op as [|reg| |]; [plain_law|destruct reg; plain_law|plain_law..].
Defined.

#[export] Instance Curve_laws : BytecodeLaws Curve25519Op.
Proof.
  refine {|
    encodable _ _ := True; data_need _ := 0;
    arg_bits op := match op with ED.Mul _ _ _ _ | ED.Add _ _ _ _ => 16 | _ => 8 end |}; [done..|].
  intros ls d op _ _. destruct op as [|reg| |]; [plain_law|destruct reg; plain_law|plain_law..].
Defined.

#[export] Instance Outstack_laws : BytecodeLaws OutstackOp.
Proof.
  refine {| encodable _ op := let 'Outr reg := op in 0 <= reg < 256; data_need _ := 0; arg_bits _ := 8 |}; [done..|].
  intros ls d [reg] Hreg _. plain_law.
Defined.

#[export] Instance Reserved_laws : BytecodeLaws ReservedOp.
Proof.
  refine {| encodable _ op := let 'mkReserved code := op in 0 <= code < 256; data_need _ := 0; arg_bits _ := 0 |}; [done..|].
  intros ls d [code] Hcode _. exists [], d. split; [|split; [reflexivity|lia]].
  apply coded_plain; [reflexivity|]. cbn [instr_byte Reserved_bytecode decode]. unfold read_u8.
  by repeat reads_step.
Defined.

(** Instructions with fields that are not plain after the header. *)
Lemma coded_tail {A} `{Bytecode A} ls d (i : A) hdr m tl d' :
  encode_args i = (writes hdr ;; m) -> emits ls (total hdr mod 8) d m tl d' ->
  reads ls d' ((8, instr_byte i) :: hdr ++ tl) decode i -> d `prefix_of` d' -> coded ls d i (hdr ++ tl) d'.
Proof.
  intros Hw Hm Hr Hd. split_and!; [|by apply reads_decodes|done]. rewrite Hw.
  eapply emits_bind; [|by rewrite Z.add_0_l].
  apply emits_writes. destruct Hr as [Hf _]. apply Forall_cons in Hf as [_ Hf]. by apply Forall_app in Hf as [].
Qed.

Lemma reads_last {A B} ls d fs (m : CM A) (f : A -> CM B) a b :
  reads ls d fs m a -> f a = mret b -> reads ls d fs (m ≫= f) b.
Proof.
  intros Hm Hf. rewrite <- (app_nil_r fs). eapply reads_bind; [done|]. rewrite Hf. apply reads_ret.
Qed.

Ltac bare_law := eexists [], _; (split; [plain|split; [reflexivity|lia]]).

(** ** Control flow *)

Definition site_ok (ls : list string) (site : LibSite) : Prop :=
  0 <= site_pos site < 2 ^ 16 /\ exists i, lib_index ls (site_lib site) = Some i /\ i < 256.

Lemma site_emits ls b d site i : 0 <= site_pos site < 2 ^ 16 ->
  lib_index ls (site_lib site) = Some i -> i < 256 ->
  emits ls b d (write_field 16 (site_pos site) ;; write_lib (site_lib site)) [(16, site_pos site); (8, i)] d.
Proof.
  intros. apply (emits_bind ls b d _ [(16, site_pos site)] d _ [(8, i)]);
    [by apply emits_field|by apply emits_lib].
Qed.

Lemma site_reads {B} ls d site i (f : LibSite -> CM B) b : 0 <= site_pos site < 2 ^ 16 ->
  lib_index ls (site_lib site) = Some i -> i < 256 -> f site = mret b ->
  reads ls d [(16, site_pos site); (8, i)] (read_site ≫= f) b.
Proof.
  intros Hp Hi Hlt Hf. eapply reads_last; [|done]. unfold read_site, read_u16.
  apply reads_bits; [done|]. eapply reads_last; [by apply reads_lib|]. by destruct site.
Qed.

#[export] Instance ControlFlow_laws : BytecodeLaws ControlFlowOp.
Proof.
  refine {|
    encodable ls op := match op with
      | CF.Jmp p | CF.Jif p | CF.Routine p => 0 <= p < 2 ^ 16
      | CF.Call site | CF.Exec site => site_ok ls site
      | _ => True end;
    data_need _ := 0;
    arg_bits op := match op with
      | CF.Jmp _ | CF.Jif _ | CF.Routine _ => 16
      | CF.Call _ | CF.Exec _ => 24
      | _ => 0 end |}; [done..|].
  intros ls d op Hop _. destruct op as [| |p|p|p|site|site|];
    [bare_law|bare_law|plain_law|plain_law|plain_law| | |bare_law];
    destruct Hop as (Hp & i & Hi & Hlt);
    exists [(16, site_pos site); (8, i)], d; (split; [|split; [reflexivity|lia]]);
    (split_and!; [by apply site_emits| |done]);
    apply reads_decodes; opcode; cbn [decode ControlFlow_bytecode]; unfold ControlFlow_decode, read_u8;
    reads_step; by eapply site_reads.
Defined.

(** ** Putting values into registers *)

(** A number of the layout of the register. *)
Definition put_ok (l : Layout) (val : option Number) : Prop :=
  exists r, val = Some (mkNumber l r) /\ 0 <= r < 2 ^ (8 * Layout_bytes l).

Lemma reads_maybe_number {B} ls d fs l n (f : option Number -> CM B) b :
  reads ls d fs (read_number l) n -> f (Some n) = mret b -> reads ls d fs (maybe_number l ≫= f) b.
Proof.
  intros [Hf Hr]. apply reads_last. split; [done|]. intros c ???. unfold maybe_number. by rewrite Hr.
Qed.

Ltac put_law F ls d reg Hop Hd :=
  let r := fresh "r" in let Hr := fresh "Hr" in destruct Hop as (r & -> & Hr);
  match goal with |- context [mkNumber ?l r] =>
    destruct (number_stored F ls 0 d l r) as (off & d' & He & Hn & Hp & Hlen);
    [by destruct reg|exact Hr|exact Hd|];
    eexists (_ ++ [(16, off)]), d'; (split; [|split; [|exact Hlen]]);
    [eapply coded_tail; [reflexivity|exact He| |exact Hp];
       opcode; cbn [decode Put_bytecode app]; unfold Put_decode, read_u8; repeat reads_step;
       by eapply reads_maybe_number
    |reflexivity] end.

#[export] Instance Put_laws `{F : Floats} : BytecodeLaws PutOp.
Proof.
  refine {|
    encodable _ op := match op with
      | PU.PutA reg _ val | PU.PutIfA reg _ val => put_ok (RegA_layout reg) val
      | PU.PutF reg _ val => put_ok (RegF_layout reg) val
      | PU.PutR reg _ val | PU.PutIfR reg _ val => put_ok (RegR_layout reg) val
      | _ => True end;
    data_need op := match op with
      | PU.PutA reg _ _ | PU.PutIfA reg _ _ => Layout_bytes (RegA_layout reg)
      | PU.PutF reg _ _ => Layout_bytes (RegF_layout reg)
      | PU.PutR reg _ _ | PU.PutIfR reg _ _ => Layout_bytes (RegR_layout reg)
      | _ => 0 end;
    arg_bits op := match op with PU.ClrA _ _ | PU.ClrF _ _ | PU.ClrR _ _ => 8 | _ => 24 end |}; [|done|].
  { by intros [| | |[]|[]|[]|[]|[]]. }
  intros ls d op Hop Hd. destruct op as [| | |reg ? val|reg ? val|reg ? val|reg ? val|reg ? val];
    [plain_law..|put_law F ls d reg Hop Hd|put_law F ls d reg Hop Hd|put_law F ls d reg Hop Hd|put_law F ls d reg Hop Hd|put_law F ls d reg Hop Hd].
Defined.

(** ** Arithmetic *)

#[export] Instance Arithmetic_laws : BytecodeLaws ArithmeticOp.
Proof.
  refine {|
    encodable _ op := match op with
      | AR.AddA flags _ _ _ | AR.SubA flags _ _ _ | AR.MulA flags _ _ _ | AR.DivA flags _ _ _ =>
          signed flags = wrap flags
      | AR.Stp _ _ step => -128 <= step < 128
      | _ => True end;
    data_need _ := 0;
    arg_bits op := match op with AR.Neg _ _ | AR.Abs _ _ => 8 | _ => 16 end |}; [done..|].
  intros ls d op Hop _. destruct op as [| | | | | | | | |reg idx step| |]; [plain_law..| |plain_law|plain_law].
  exists ([fld 3 reg; fld 5 idx] ++ [(8, step mod 256)]), d. split; [|split; [reflexivity|lia]].
  eapply coded_tail; [reflexivity|apply emits_i8| |done].
  opcode; cbn [decode Arithmetic_bytecode app]; unfold Arithmetic_decode, read_u8; repeat reads_step.
  eapply reads_last; [by apply reads_i8|done].
Defined.

(** ** Bit operations *)

(** A field that the decoder reads in pieces. *)
Lemma emits_pieces ls b d m pre x mid post d' :
  Forall field_ok mid -> pack [x] = pack mid -> total [x] = total mid ->
  emits ls b d m (pre ++ [x] ++ post) d' -> emits ls b d m (pre ++ mid ++ post) d'.
Proof.
  intros Hmid Hp Ht [Hf He].
  apply Forall_app in Hf as [Hpre [Hx Hpost]%Forall_app].
  assert (pack (pre ++ [x] ++ post) = pack (pre ++ mid ++ post)) as Ep.
  { rewrite !pack_app by done. by rewrite Hp, Ht. }
  assert (total (pre ++ [x] ++ post) = total (pre ++ mid ++ post)) as Et by (rewrite !total_app, Ht; done).
  split; [by repeat apply Forall_app_2|]. rewrite <- Ep, <- Et. done.
Qed.

Lemma ShrR_law ls d a2 shift reg idx :
  exists fs d', coded ls d (BW.ShrR a2 shift reg idx) fs d' /\ total fs = 16 /\ len d' <= len d + 0.
Proof.
  set (s := to_bits shift).
  exists ([(1, 1); fld 1 a2] ++ [(4, s mod 16); (1, s / 16)] ++ [(1, 1); fld 3 reg; fld 5 idx]), d.
  assert (Forall field_ok [(4, s mod 16); (1, s / 16)]) as Hmid
    by (unfold s; rewrite !Forall_cons, Forall_nil; unfold field_ok; destruct shift; vm_compute; repeat split; congruence).
  split; [|split; [reflexivity|lia]]. split_and!; [| |done].
  - apply (emits_pieces _ _ _ _ _ (fld 5 shift)); [done|unfold s; by destruct shift|done|].
    apply emits_writes. repeat constructor; try done; by apply (fld_ok _ _).
  - apply reads_decodes. opcode. cbn [decode Bitwise_bytecode app]. unfold Bitwise_decode, read_u8.
    inversion Hmid as [|?? H1 H2]; inversion H2 as [|?? H3 _]; subst.
    reads_step. reads_step. reads_step.
    apply reads_bits; [done|]. apply reads_bits; [done|]. repeat reads_step.
    replace (Z.lor _ _) with (to_bits shift) by (unfold s; by destruct shift). repeat reads_step.
Qed.

#[export] Instance Bitwise_laws : BytecodeLaws BitwiseOp.
Proof.
  refine {|
    encodable _ _ := True; data_need _ := 0;
    arg_bits op := match op with BW.Not _ _ | BW.RevA _ _ | BW.RevR _ _ => 8 | _ => 16 end |}; [done..|].
  intros ls d op _ _. destruct op; [plain_law..|apply ShrR_law|plain_law|plain_law|plain_law|plain_law].
Defined.

(** ** Byte strings *)

#[export] Instance Bytes_laws : BytecodeLaws BytesOp.
Proof.
  refine {|
    encodable _ op := match op with
      | BY.Put reg bytes st0 => RegS_ok reg /\ st0 = false
      | BY.Mov a b | BY.Swp a b | BY.Eq a b | BY.Find a b | BY.Rev a b | BY.Con a b _ _ _
      | BY.Ins _ _ a b | BY.Del _ _ _ _ _ _ _ a b => RegS_ok a /\ RegS_ok b
      | BY.Fill a _ _ _ _ | BY.Len a _ _ | BY.Cnt a _ _ | BY.Extr a _ _ _ | BY.Inj a _ _ _ => RegS_ok a
      | BY.Join a b c | BY.Splt _ _ a b c => RegS_ok a /\ RegS_ok b /\ RegS_ok c end;
    data_need op := match op with BY.Put _ bytes _ => len bytes + 1 | _ => 0 end;
    arg_bits op := match op with
      | BY.Put _ _ _ => 40
      | BY.Fill _ _ _ _ _ | BY.Con _ _ _ _ _ | BY.Splt _ _ _ _ _ | BY.Del _ _ _ _ _ _ _ _ _ => 24
      | BY.Len _ _ _ | BY.Cnt _ _ _ | BY.Extr _ _ _ _ | BY.Inj _ _ _ _ | BY.Join _ _ _ | BY.Ins _ _ _ _ => 16
      | _ => 8 end |}; [|done|].
  { intros op; destruct op; (lia || (unfold len; lia)). }
  intros ls d op Hop Hd. destruct op as [reg bytes st0| | | | | | | | | | | | | | |]; [|plain_law..].
  destruct Hop as [Hreg ->].
  destruct (data_stored ls 0 d bytes ltac:(lia)) as (off & d' & He & Hr & Hp & Hl).
  exists ([fld 8 reg] ++ [(16, off); (16, len bytes)]), d'. split; [|split; [reflexivity|lia]].
  eapply coded_tail; [reflexivity|exact He| |exact Hp].
  opcode; cbn [decode Bytes_bytecode app]; unfold Bytes_decode, read_u8; repeat reads_step.
  by eapply reads_last.
Defined.

(** ** Any instruction *)

Section instr_laws.
Context `{Floats} {Ext : Type} `{BytecodeLaws Ext}.

(** The opcodes that the decoder hands to the extension. *)
Definition ext_opcode (b : Z) : Prop :=
  INSTR_SHA512 < b < INSTR_SECP_GEN \/ INSTR_OUTSTACK_TO < b <= INSTR_ISAE_TO.

Definition Instr_encodable (ls : list string) (i : Instr Ext) : Prop :=
  match i with
  | ControlFlow op => encodable ls op
  | Put op => encodable ls op
  | Move op => encodable ls op
  | Cmp op => encodable ls op
  | Arithmetic op => encodable ls op
  | Bitwise op => encodable ls op
  | Bytes op => encodable ls op
  | Digest (DG.Blake3 _ _) => False
  | Digest op => encodable ls op
  | Secp256k1 op => encodable ls op
  | Curve25519 op => encodable ls op
  | Outstack op => encodable ls op
  | ExtensionCodes op => encodable ls op /\ ext_opcode (instr_byte op)
  | ReservedInstruction (mkReserved code) => INSTR_RESV_FROM <= code <= INSTR_RESV_TO
  | Nop => False
  end.

Definition Instr_need (i : Instr Ext) : Z :=
  match i with Put op => data_need op | Bytes op => data_need op | ExtensionCodes op => data_need op | _ => 0 end.

Definition Instr_bits (i : Instr Ext) : Z :=
  match i with
  | ControlFlow op => arg_bits op
  | Put op => arg_bits op
  | Move op => arg_bits op
  | Cmp op => arg_bits op
  | Arithmetic op => arg_bits op
  | Bitwise op => arg_bits op
  | Bytes op => arg_bits op
  | Digest op => arg_bits op
  | Secp256k1 op => arg_bits op
  | Curve25519 op => arg_bits op
  | Outstack op => arg_bits op
  | ExtensionCodes op => arg_bits op
  | ReservedInstruction op => arg_bits op
  | Nop => 0
  end.

(** The classification sends an opcode of the range of a family to it. *)
Lemma classified {A} `{Bytecode A} (C : A -> Instr Ext) ls d (op : A) fs d' :
  coded ls d op fs d' -> Instr_byte (C op) = instr_byte op -> Instr_args (C op) = encode_args op ->
  Instr_classify (instr_byte op) = (x ← decode; mret (C x)) -> coded ls d (C op) fs d'.
Proof.
  intros (He & Hd & Hp) Eb Ea Ec. split_and!; [by cbn [encode_args Instr_bytecode]; rewrite Ea| |done].
  cbn [instr_byte decode Instr_bytecode]. rewrite Eb.
  assert (decodes ls d' ((8, instr_byte op) :: fs) (peek_u8 ≫= Instr_classify) (C op)) as [Hf Hr].
  { apply decodes_peek. rewrite Ec. by apply decodes_fmap. }
  split; [done|]. intros c ????. unfold Instr_decode, mbind at 1, SE_bind at 1. rewrite no_prefix.
  by apply Hr.
Qed.

Lemma classify_ext b : ext_opcode b -> Instr_classify b = (x ← decode; mret (ExtensionCodes x)).
Proof.
  intros Hb. unfold ext_opcode, Instr_classify, contains in *. cbn [instr_range fst snd
    ControlFlow_bytecode Put_bytecode Move_bytecode Cmp_bytecode Arithmetic_bytecode Bitwise_bytecode
    Bytes_bytecode Digest_bytecode Secp_bytecode Curve_bytecode Outstack_bytecode].
  repeat (rewrite bool_if_false by lia). by rewrite bool_if_true by lia.
Qed.

Lemma classify_reserved b : INSTR_RESV_FROM <= b <= INSTR_RESV_TO ->
  Instr_classify b = (x ← decode; mret (ReservedInstruction x)).
Proof.
  intros Hb. unfold Instr_classify, contains. cbn [instr_range fst snd
    ControlFlow_bytecode Put_bytecode Move_bytecode Cmp_bytecode Arithmetic_bytecode Bitwise_bytecode
    Bytes_bytecode Digest_bytecode Secp_bytecode Curve_bytecode Outstack_bytecode].
  repeat (rewrite bool_if_false by lia). by rewrite bool_if_true by lia.
Qed.

Ltac family_law Hop Hd :=
  match goal with |- context [coded ?ls ?d (?C ?op)] =>
    destruct (bytecode_law ls d op Hop Hd) as (fs & d' & Hc & Ht & Hl);
    exists fs, d'; (split; [|split; [exact Ht|exact Hl]]);
    apply (classified C); [exact Hc|reflexivity|reflexivity|first [reflexivity|by destruct op]] end.

#[export] Instance Instr_laws : BytecodeLaws (Instr Ext).
Proof.
  refine {| encodable := Instr_encodable; data_need := Instr_need; arg_bits := Instr_bits |}; [|done|].
  { intros i; destruct i; cbn [Instr_need]; (done || apply data_need_nonneg). }
  intros ls d i Hop Hd. destruct i as [op|op|op|op|op|op|op|op|op|op|op|op|op|]; cbn [Instr_encodable Instr_need] in *;
    [family_law Hop Hd..| |family_law Hop Hd|family_law Hop Hd|family_law Hop Hd| | |done].
  - destruct op; [family_law Hop Hd..|done].
  - destruct Hop as [Hop Hx]. destruct (bytecode_law ls d op Hop Hd) as (fs & d' & Hc & Ht & Hl).
    exists fs, d'. split; [|done]. apply (classified ExtensionCodes); [done..|by apply classify_ext].
  - destruct op as [code]. destruct (bytecode_law ls d (mkReserved code)) as (fs & d' & Hc & Ht & Hl);
      [cbn; lia|done|].
    exists fs, d'. split; [|done]. apply (classified ReservedInstruction); [done..|by apply classify_reserved].
Defined.

End instr_laws.
