(* ===== verification/AluLib.v ===== *)
(** * AluVM: libraries (crates/rgb-aluvm/src/library/lib.rs, library/segs.rs)

    A library is its ISA names, its code and data segments and the ids of the
    libraries it calls.  [assemble] writes a program into it, [disassemble] reads
    it back; the main result is that the second undoes the first. *)

From S2P Require Import Prelude AluReg AluNumber AluCursor AluInstr AluBytecode.
Local Open Scope Z_scope.

Record Lib := mkLib {
  lib_isae : string;
  lib_code : list Z;
  lib_data : list Z;
  lib_libs : list string;
}.

Inductive AssemblerError :=
| Bytecode_ (e : vm_err)
| LibSegOverflow.

Definition LIBS_SEGMENT_MAX_COUNT : Z := 255.
Definition CODE_SEGMENT_MAX_LEN : Z := 65535.

(** [LibSeg::try_from_iter]: an ordered set of ids *)
Definition lib_seg (ids : list string) : list string :=
  merge_sort (fun a b => str_leb a b) (remove_dups ids).
Definition LibSeg_try_from_iter (ids : list string) : result AssemblerError (list string) :=
  let seg := lib_seg ids in
  if LIBS_SEGMENT_MAX_COUNT <? len seg then Err LibSegOverflow else Ok seg.

(** [ByteStr::default()]: the buffer the code is written to *)
Definition code_buffer : list Z := repeat 0 (Z.to_nat CODE_SEGMENT_MAX_LEN).

Section lib.
Context {A : Type} `{Bytecode A} (isa_ids : string).

Definition assemble (code : list A) : result AssemblerError Lib :=
  libs ← LibSeg_try_from_iter (site_lib <$> omap call_site code);
  match for_each code encode (cursor_new code_buffer libs) with
  | (w, Ok _) => Ok (mkLib isa_ids (take (Z.to_nat (byte_pos w)) (bytecode w)) (cdata w) libs)
  | (_, Err e) => Err (Bytecode_ e)
  end.

(** The loop of [disassemble]; [None] is a loop that has not ended. *)
Fixpoint disassemble_loop (fuel : nat) (c : Cursor) : option (result vm_err (list A)) :=
  if is_eof c then Some (Ok []) else
  match fuel with
  | O => None
  | S fuel' =>
      match decode (A := A) c with
      | (c', Ok i) =>
          match disassemble_loop fuel' c' with
          | Some (Ok l) => Some (Ok (i :: l))
          | r => r
          end
      | (_, Err e) => Some (Err e)
      end
  end.

Definition disassemble (fuel : nat) (lib : Lib) : option (result vm_err (list A)) :=
  disassemble_loop fuel (cursor_with (lib_code lib) (lib_data lib) (lib_libs lib)).

End lib.
Arguments assemble {A _} isa_ids code.

(** ** Reading a program back *)

Section roundtrip.
Context {A : Type} `{BytecodeLaws A}.

Definition needs (code : list A) : Z := sumZ (data_need <$> code).
Definition code_bits (code : list A) : Z := sumZ ((fun i => 8 + arg_bits i) <$> code).

Lemma needs_nonneg code : 0 <= needs code.
Proof.
  unfold needs, sumZ. induction code as [|i code IH]; cbn; [done|]. pose proof (data_need_nonneg i). lia.
Qed.

(** One instruction with its opcode. *)
Lemma encode_coded ls d (i : A) : encodable ls i -> len d + data_need i <= 65535 ->
  exists fs d', emits ls 0 d (encode i) fs d' /\ decodes ls d' fs decode i /\ d `prefix_of` d' /\
  total fs = 8 + arg_bits i /\ 0 < total fs /\ len d' <= len d + data_need i.
Proof.
  intros Hi Hd. destruct (bytecode_law ls d i Hi Hd) as (fs & d' & (He & Hr & Hp) & Ht & Hl).
  exists ((8, instr_byte i) :: fs), d'. destruct Hr as [Hf Hr]. apply Forall_cons in Hf as [Hb Hf].
  pose proof (total_nonneg fs Hf). change (total ((8, instr_byte i) :: fs)) with (8 + total fs).
  split_and!; [|split; [by constructor|done]|done|by rewrite <- Ht|lia|done].
  apply (emits_bind ls 0 d _ [(8, instr_byte i)] d _ fs); [by apply emits_field|done].
Qed.

Lemma bit_pos_moved n c : bit_pos c = 0 -> n mod 8 = 0 -> bit_pos (moved n c) = 0.
Proof.
  intros Hb Hn. unfold moved, pos. cbn. rewrite Hb, Z.add_0_r, Z.mul_comm, Z.add_comm, Z.mod_add by lia. done.
Qed.

Lemma program_coded ls d (code : list A) :
  Forall (encodable ls) code -> Forall (fun i => arg_bits i mod 8 = 0) code ->
  len d + needs code <= 65535 ->
  exists fs d', emits ls 0 d (for_each code encode) fs d' /\ d `prefix_of` d' /\ total fs = code_bits code /\
  forall fuel c, bit_pos c = 0 -> libs c = ls -> d' `prefix_of` cdata c -> holds fs c ->
    pos c + total fs = 8 * len (bytecode c) -> (length code <= fuel)%nat ->
    disassemble_loop fuel c = Some (Ok code).
Proof.
  intros Henc. revert d. induction Henc as [|i code Hi Hcode IH]; intros d Hal Hneed.
  - exists [], d. split_and!; [apply (emits_writes ls 0 d []); constructor|done|done|].
    intros fuel c Hb _ _ _ Hpos _. change (total []) with 0 in Hpos. unfold pos in Hpos.
    destruct fuel; cbn; unfold is_eof; by rewrite (proj2 (Z.leb_le _ _)) by lia.
  - apply Forall_cons in Hal as [Ha Hal]. pose proof (needs_nonneg code).
    change (needs (i :: code)) with (data_need i + needs code) in Hneed.
    destruct (encode_coded ls d i Hi) as (fs1 & d1 & He1 & [Hf1 Hr1] & Hp1 & Ht1 & Hlt & Hl1); [lia|].
    destruct (IH d1 Hal ltac:(lia)) as (fs2 & d2 & He2 & Hp2 & Ht2 & Hr2).
    assert (total fs1 mod 8 = 0) as Hm by (rewrite Ht1, <- Ha, Z.add_comm; by apply (Z.mod_add _ 1 8)).
    assert (Forall field_ok fs2) as Hf2 by apply He2.
    exists (fs1 ++ fs2), d2. split_and!; [|by trans d1|rewrite total_app, Ht1, Ht2; done|].
    + cbn [for_each]. eapply emits_bind; [done|]. by rewrite Z.add_0_l, Hm.
    + intros fuel c Hb Hl Hd Hh Hpos Hfuel. destruct fuel as [|fuel]; cbn [length] in Hfuel; [lia|].
      destruct (holds_app fs1 fs2 c Hf1 Hf2 Hh) as [Hh1 Hh2]. rewrite total_app in Hpos.
      pose proof (total_nonneg fs2 Hf2). cbn [disassemble_loop].
      destruct Hh as (Hok & _ & _). rewrite (not_eof c (total fs1)) by (done || lia).
      rewrite Hr1; [|done|done|by trans d2|done].
      rewrite Hr2; [done|by apply bit_pos_moved|done|done|done| |lia].
      rewrite moved_pos. cbn. lia.
Qed.

Lemma code_bits_aligned (code : list A) : Forall (fun i => arg_bits i mod 8 = 0) code ->
  code_bits code mod 8 = 0.
Proof.
  unfold code_bits, sumZ. induction 1 as [|i code Hi Hc IH]; cbn; [done|].
  Z.to_euclidean_division_equations. lia.
Qed.

Lemma le_zeros n : le (repeat 0 n) = 0.
Proof. induction n as [|n IH]; cbn; [done|]. by rewrite IH. Qed.

Lemma le_take l n : bytes_ok l -> (n <= length l)%nat -> le (take n l) = le l mod 2 ^ (8 * Z.of_nat n).
Proof.
  intros Hl. revert n. induction Hl as [|b l Hb Hl IH]; intros n Hn; cbn in Hn.
  - assert (n = O) as -> by lia. by cbn.
  - destruct n as [|n]; [cbn [take le]; by rewrite Z.mod_1_r|].
    cbn [take le]. rewrite IH by lia.
    replace (8 * Z.of_nat (S n)) with (8 * (Z.of_nat n + 1)) by lia. rewrite pow256_succ by lia.
    pose proof (pow2_pos (8 * Z.of_nat n)).
    rewrite Z.rem_mul_r, (Z.mul_comm 256 (le l)) by lia.
    rewrite Z.mod_add, Z.div_add, (Z.mod_small b), (Z.div_small b), Z.add_0_l by lia. done.
Qed.

Lemma code_buffer_ok : bytes_ok code_buffer /\ len code_buffer = 65535 /\ le code_buffer = 0.
Proof.
  unfold code_buffer, bytes_ok, len. rewrite repeat_length, le_zeros. split_and!; [|by apply Z2Nat.id|done].
  generalize (Z.to_nat CODE_SEGMENT_MAX_LEN). intros n. induction n; cbn; by constructor.
Qed.

Local Opaque code_buffer.

(** C31. A program of encodable instructions that end on byte boundaries and fit
    the segments is assembled, and disassembling the library, with one round per
    instruction, gives the program back. *)
Theorem disassemble_assemble isa (code : list A) (fuel : nat) :
  let seg := lib_seg (site_lib <$> omap call_site code) in
  Forall (encodable seg) code -> Forall (fun i => arg_bits i mod 8 = 0) code ->
  len seg <= 255 -> needs code <= 65535 -> code_bits code <= 8 * 65535 -> (length code <= fuel)%nat ->
  exists lib, assemble isa code = Ok lib /\ 8 * len (lib_code lib) = code_bits code /\
  disassemble fuel lib = Some (Ok code).
Proof.
  intros seg Henc Hal Hseg Hneed Hbits Hfuel. destruct code_buffer_ok as (Hb & Hl & Hz).
  destruct (program_coded seg [] code Henc Hal Hneed) as (fs & d' & [Hf He] & _ & Ht & Hr).
  pose proof (total_nonneg fs Hf). pose proof (code_bits_aligned code Hal) as Hal8.
  set (c0 := cursor_new code_buffer seg).
  assert (cursor_ok c0) as Hok by (constructor; cbn; [done|lia..]).
  destruct (He c0) as (code' & (Hw & Hlen & Hok') & Hrun); [done..|change (pos c0) with 0; cbn; lia|].
  change (pos c0) with 0 in Hw. cbn in Hw. rewrite Hz, Z.lor_0_l, Z.shiftl_0_r in Hw.
  set (n := total fs / 8). assert (total fs = 8 * n) as Hn.
  { unfold n. rewrite Ht. pose proof (Z.div_mod (code_bits code) 8). lia. }
  assert (0 <= n) by lia. unfold len in Hl.
  exists (mkLib isa (take (Z.to_nat n) code') d' seg).
  assert (length (take (Z.to_nat n) code') = Z.to_nat n) as Hlt.
  { rewrite length_take. cbn in Hlen. lia. }
  split_and!.
  - unfold assemble, LibSeg_try_from_iter. fold seg. unfold LIBS_SEGMENT_MAX_COUNT.
    destruct (Z.ltb_spec 255 (len seg)); [lia|]. cbn. fold c0. rewrite Hrun. cbn. done.
  - cbn. unfold len. rewrite Hlt. lia.
  - unfold disassemble. cbn [lib_code lib_data lib_libs]. apply Hr; [done..| | |done].
    + split_and!.
      * constructor; cbn; [|unfold len; lia|lia|lia]. by apply Forall_take.
      * cbn. unfold len. rewrite Hlt. change (pos _) with 0. lia.
      * cbn [bytecode cursor_with]. change (pos _) with 0. unfold bits_at. rewrite Z.div_1_r.
        pose proof (pack_range fs Hf). rewrite le_take; [|assumption|cbn in Hlen; lia].
        rewrite Hw, Z2Nat.id, <- Hn by lia. rewrite (Z.mod_small (pack fs)) by assumption. by apply Z.mod_small.
    + cbn. change (pos _) with 0. unfold len. rewrite Hlt. lia.
Qed.

End roundtrip.

#[local] Existing Instance no_floats.

(** A program with a call into another library, a string in the data segment and
    a sum of registers *)
Definition demo_program : list (Instr ReservedOp) :=
  [ControlFlow (CF.Call (mkSite "lib" 7)); Bytes (BY.Put (mkRegS 3) [1; 2; 3] false);
   Arithmetic (AR.AddA {| signed := true; wrap := true |} A64 Reg32_1 Reg32_2); ControlFlow CF.Ret].

Lemma disassemble_assemble_witness : exists lib,
  assemble "ALU" demo_program = Ok lib /\ 8 * len (lib_code lib) = code_bits demo_program /\
  disassemble 4 lib = Some (Ok demo_program).
Proof.
  apply (disassemble_assemble (A := Instr ReservedOp) "ALU" demo_program 4);
    [|repeat constructor|vm_compute; congruence..|cbn; lia].
  repeat constructor; cbn; try done; try lia.
  exists 0. split; [vm_compute; reflexivity|lia].
Defined.
