(* ===== verification/AluRegs.v ===== *)
(** * AluVM: the register file (crates/rgb-aluvm/src/reg/core_regs.rs)

    [CoreRegs] holds the arithmetic ([A]), float ([F]) and general ([R])
    registers as functions from family and index to an optional value, the
    strings, the output stack and the control registers.  Integers and byte
    arrays are their little-endian value, floats their bits.

    A method that may panic runs in [RM]; [None] registers are unset. *)

From S2P Require Import Prelude AluReg AluNumber AluCursor AluInstr AluBytecode.
Local Open Scope Z_scope.

Inductive RegAFR := AFR_A (a : RegA) | AFR_F (f : RegF) | AFR_R (r : RegR).

Inductive OutrValue := OutInt (z : Z) | OutBytes (bs : list Z).

(** [LibSite::default()] *)
Definition default_site : LibSite := mkSite default_lib 0.

Record CoreRegs := mkRegs {
  regA : RegA -> Reg32 -> option Z;
  regF : RegF -> Reg32 -> option Z;
  regR : RegR -> Reg32 -> option Z;
  s16 : Z -> option (list Z);
  outstack : list OutrValue;
  outstack_limit : Z;
  st0 : bool;
  cy0 : Z;
  ca0 : Z;
  cl0 : option Z;
  cs0 : Z -> LibSite;
  cp0 : Z;
}.

Definition regs_default : CoreRegs := {|
  regA _ _ := None; regF _ _ := None; regR _ _ := None; s16 _ := None;
  outstack := []; outstack_limit := 65535;
  st0 := true; cy0 := 0; ca0 := 0; cl0 := None; cs0 _ := default_site; cp0 := 0;
|}.

Abbreviation RM := (SE CoreRegs panic).

(** ** Updates of one field *)

Definition upd {K V} `{EqDecision K} (k : K) (v : V) (f : K -> V) : K -> V :=
  fun k' => if decide (k' = k) then v else f k'.

Definition with_A (a : RegA) (i : Reg32) (v : option Z) (r : CoreRegs) : CoreRegs :=
  mkRegs (upd a (upd i v (regA r a)) (regA r)) (regF r) (regR r) (s16 r) (outstack r) (outstack_limit r)
    (st0 r) (cy0 r) (ca0 r) (cl0 r) (cs0 r) (cp0 r).
Definition with_F (f : RegF) (i : Reg32) (v : option Z) (r : CoreRegs) : CoreRegs :=
  mkRegs (regA r) (upd f (upd i v (regF r f)) (regF r)) (regR r) (s16 r) (outstack r) (outstack_limit r)
    (st0 r) (cy0 r) (ca0 r) (cl0 r) (cs0 r) (cp0 r).
Definition with_R (k : RegR) (i : Reg32) (v : option Z) (r : CoreRegs) : CoreRegs :=
  mkRegs (regA r) (regF r) (upd k (upd i v (regR r k)) (regR r)) (s16 r) (outstack r) (outstack_limit r)
    (st0 r) (cy0 r) (ca0 r) (cl0 r) (cs0 r) (cp0 r).
Definition with_s16 (i : Z) (v : option (list Z)) (r : CoreRegs) : CoreRegs :=
  mkRegs (regA r) (regF r) (regR r) (upd i v (s16 r)) (outstack r) (outstack_limit r)
    (st0 r) (cy0 r) (ca0 r) (cl0 r) (cs0 r) (cp0 r).
Definition with_out (o : list OutrValue) (r : CoreRegs) : CoreRegs :=
  mkRegs (regA r) (regF r) (regR r) (s16 r) o (outstack_limit r)
    (st0 r) (cy0 r) (ca0 r) (cl0 r) (cs0 r) (cp0 r).
Definition with_st0 (b : bool) (r : CoreRegs) : CoreRegs :=
  mkRegs (regA r) (regF r) (regR r) (s16 r) (outstack r) (outstack_limit r)
    b (cy0 r) (ca0 r) (cl0 r) (cs0 r) (cp0 r).
Definition with_cy0 (n : Z) (r : CoreRegs) : CoreRegs :=
  mkRegs (regA r) (regF r) (regR r) (s16 r) (outstack r) (outstack_limit r)
    (st0 r) n (ca0 r) (cl0 r) (cs0 r) (cp0 r).
Definition with_ca0 (n : Z) (r : CoreRegs) : CoreRegs :=
  mkRegs (regA r) (regF r) (regR r) (s16 r) (outstack r) (outstack_limit r)
    (st0 r) (cy0 r) n (cl0 r) (cs0 r) (cp0 r).
Definition with_stack (cs : Z -> LibSite) (cp : Z) (r : CoreRegs) : CoreRegs :=
  mkRegs (regA r) (regF r) (regR r) (s16 r) (outstack r) (outstack_limit r)
    (st0 r) (cy0 r) (ca0 r) (cl0 r) cs cp.

Definition set_st0 (b : bool) : RM unit := modify (with_st0 b).

(** ** Jumps and calls *)

(** [jmp], [call]: [false] is [Err(())] *)
Definition jmp : RM bool := fun r =>
  match checked_add 16 (cy0 r) 1 with
  | Some cy => (with_cy0 cy r, Ok true)
  | None => (with_st0 false r, Ok false)
  end.

(** The incremented [cp0] is not stored. *)
Definition call (site : LibSite) : RM bool := fun r =>
  match checked_add 16 (cy0 r) 1 with
  | Some cy =>
      let r' := with_stack (upd (cp0 r) site (cs0 r)) (cp0 r) (with_cy0 cy r) in
      match checked_add 16 (cp0 r) 1 with
      | Some _ => (r', Ok true)
      | None => (with_st0 false r', Ok false)
      end
  | None => (with_st0 false r, Ok false)
  end.

Definition ret : RM (option LibSite) := fun r =>
  if cp0 r =? 0 then (r, Ok None)
  else
    let cs := upd (cp0 r) default_site (cs0 r) in
    let cp := cp0 r - 1 in
    (with_stack cs cp r, Ok (Some (cs cp))).

Definition push_outstack (v : OutrValue) : RM bool := fun r =>
  if outstack_limit r <=? len (outstack r) then (with_st0 false r, Ok false)
  else (with_out (outstack r ++ [v]) r, Ok true).

(** ** Access to registers *)

Section access.
Context `{fs : Floats}.

(** A float register holds bits; [F512] holds an integer. *)
Definition get_n (reg : RegAFR) (i : Reg32) (r : CoreRegs) : option Number :=
  match reg with
  | AFR_A a => mkNumber (RegA_layout a) <$> regA r a i
  | AFR_R k => mkNumber (RegR_layout k) <$> regR r k i
  | AFR_F F512 => mkNumber (unsigned_layout 64) <$> regF r F512 i
  | AFR_F f => regF r f i ≫= fun bits => mkNumber (RegF_layout f) <$> f_number fs (RegF_float f) bits
  end.

Definition get_n2 (reg1 : RegAFR) (i1 : Reg32) (reg2 : RegAFR) (i2 : Reg32) (r : CoreRegs)
    : option (Number * Number) :=
  v1 ← get_n reg1 i1 r; v2 ← get_n reg2 i2 r; Some (v1, v2).

(** [Number::into] of the type of the register *)
Definition number_into (reg : RegAFR) (n : Number) : P Z :=
  match reg with
  | AFR_A a => to_uint (RegA_bytes a) n
  | AFR_R k => to_array (RegR_bytes k) n
  | AFR_F f => to_uint (RegF_bytes f) n
  end.

Definition with_reg (reg : RegAFR) (i : Reg32) (v : option Z) : CoreRegs -> CoreRegs :=
  match reg with AFR_A a => with_A a i v | AFR_F f => with_F f i v | AFR_R k => with_R k i v end.

Definition set_n (reg : RegAFR) (i : Reg32) (value : option Number) : RM bool :=
  match value with
  | None => modify (with_reg reg i None) ;; mret false
  | Some n => z ← lift (number_into reg n); modify (with_reg reg i (Some z)) ;; mret true
  end.

Definition set_n_if (reg : RegAFR) (i : Reg32) (value : option Number) : RM bool := fun r =>
  match get_n reg i r with
  | None => set_n reg i value r
  | Some _ => (r, Ok (bool_decide (value = None)))
  end.

(** [CoreRegs::op] *)
Definition op2 (reg1 : RegAFR) (src1 : Reg32) (reg2 : RegAFR) (src2 : Reg32) (reg3 : RegAFR) (dst : Reg32)
    (f : Number -> Number -> P Number) : RM unit :=
  r ← get;
  match get_n2 reg1 src1 reg2 src2 r with
  | Some (v1, v2) => v ← lift (f v1 v2); set_n reg3 dst (Some v) ;; mret tt
  | None => set_n reg3 dst None ;; mret tt
  end.

End access.

(** [acc_complexity] for an instruction of complexity [c] *)
Definition acc_complexity (c : Z) (r : CoreRegs) : CoreRegs * bool :=
  let r := with_ca0 (saturating_add 64 (ca0 r) c) r in
  match cl0 r with
  | Some limit => if limit <=? ca0 r then (with_st0 false r, false) else (r, true)
  | None => (r, true)
  end.

(** ** Conversions of register names *)

Definition reg32_of (n : Z) : Reg32 := default Reg32_0 (Reg32_from n).
Definition r16 (i : Reg16) : Reg32 := reg32_of (Reg16_as_u8 i).
Definition r8 (i : Reg8) : Reg32 := reg32_of (Reg8_as_u8 i).
Definition of_AR (r : RegAR) : RegAFR := match r with AR_A a => AFR_A a | AR_R k => AFR_R k end.
Definition of_AF (r : RegAF) : RegAFR := match r with AF_A a => AFR_A a | AF_F f => AFR_F f end.
Definition of_A2 (r : RegA2) : RegA := match r with A2_8 => A8 | A2_16 => A16 end.
Definition RegAR_bytes (r : RegAR) : Z := match r with AR_A a => RegA_bytes a | AR_R k => RegR_bytes k end.
Definition of_block (b : RegBlockAR) : RegAFR :=
  match b with BlockA => AFR_A A256 | BlockR => AFR_R R256 end.

(** ** Names of registers *)

Inductive Reg :=
| Reg_A (a : RegA) (i : Reg32)
| Reg_F (f : RegF) (i : Reg32)
| Reg_R (k : RegR) (i : Reg32)
| Reg_S (s : RegS).

#[export] Instance RegS_eq_dec : EqDecision RegS.
Proof. solve_decision. Defined.
#[export] Instance Reg_eq_dec : EqDecision Reg.
Proof. solve_decision. Defined.

(** [Reg::new] *)
Definition reg_of (reg : RegAFR) (i : Reg32) : Reg :=
  match reg with AFR_A a => Reg_A a i | AFR_F f => Reg_F f i | AFR_R k => Reg_R k i end.

Definition reg_val (r : CoreRegs) (x : Reg) : option (Z + list Z) :=
  match x with
  | Reg_A a i => inl <$> regA r a i
  | Reg_F f i => inl <$> regF r f i
  | Reg_R k i => inl <$> regR r k i
  | Reg_S s => inr <$> s16 r (s_index s)
  end.
