(* ===== verification/AluExec.v ===== *)
(** * AluVM: execution of instructions (crates/rgb-aluvm/src/isa/exec.rs)

    [InstructionSet] is the trait of the source: the complexity of an instruction
    and its effect on the registers, which may panic.  There is one [exec] per
    family, and [Instr_exec] over any extension.

    The digests and the curve arithmetic are third-party code: the records
    [Digests] and [Secp].  [debug] tells a build with debug assertions. *)

From S2P Require Import Prelude AluReg AluNumber AluCursor AluInstr AluBytecode AluRegs.
Local Open Scope Z_scope.

Inductive ExecStep :=
| EStop
| EFail
| ENext
| EJump (pos : Z)
| ECall (site : LibSite).

Class InstructionSet (A Ctx : Type) := {
  dst_regs : A -> list Reg;
  complexity : A -> Z;
  exec : A -> LibSite -> Ctx -> RM ExecStep;
}.

(** Digests of byte strings; a digest is a byte string. *)
Class Digests := {
  ripemd160 : list Z -> list Z;
  sha256 : list Z -> list Z;
  sha512 : list Z -> list Z;
  blake3 : list Z -> list Z;
}.

(** The calls into the secp256k1 crate *)
Class Secp := {
  PK : Type;
  (** [SecretKey::from_slice] and [PublicKey::from_secret_key] *)
  pk_of_secret : list Z -> option PK;
  pk_from_slice : list Z -> option PK;
  (** [Scalar::from_le_bytes] and [mul_tweak] *)
  pk_mul : PK -> list Z -> option PK;
  pk_combine : PK -> PK -> option PK;
  pk_negate : PK -> PK;
  pk_uncompressed : PK -> list Z;
}.

(** [Number::from_slice] *)
Definition from_slice (bs : list Z) : Number := mkNumber (unsigned_layout (len bs)) (le bs).

Section exec.
Context (debug : bool) `{Wide} `{fs : Floats} `{Digests} `{Secp}.

(** ** Control flow *)

Definition jump_if (ok : RM bool) (next : ExecStep) : RM ExecStep :=
  b ← ok; mret (if b : bool then next else EFail).

Definition ControlFlow_exec (op : ControlFlowOp) (site : LibSite) : RM ExecStep :=
  match op with
  | CF.Fail => mret EFail
  | CF.Test => r ← get; mret (if st0 r then ENext else EFail)
  | CF.Jmp offset => jump_if jmp (EJump offset)
  | CF.Jif offset => r ← get; if st0 r then jump_if jmp (EJump offset) else mret ENext
  | CF.Routine offset => jump_if (call site) (EJump offset)
  | CF.Call s => jump_if (call s) (ECall s)
  | CF.Exec s => jump_if jmp (ECall s)
  | CF.Ret => s ← ret; mret (match s with Some s => ECall s | None => EStop end)
  end.

(** ** Putting values into registers *)

(** [if !regs.set_n(..) { regs.st0 = false }] *)
Definition fail_unless (m : RM bool) : RM unit :=
  b ← m; if b : bool then mret tt else set_st0 false.

Definition Put_exec (op : PutOp) : RM ExecStep :=
  match op with
  | PU.ClrA reg i => set_n (AFR_A reg) i None ;; mret ENext
  | PU.ClrF reg i => set_n (AFR_F reg) i None ;; mret ENext
  | PU.ClrR reg i => set_n (AFR_R reg) i None ;; mret ENext
  | PU.PutA reg i n => fail_unless (set_n (AFR_A reg) i n) ;; mret ENext
  | PU.PutF reg i n => fail_unless (set_n (AFR_F reg) i n) ;; mret ENext
  | PU.PutR reg i n => fail_unless (set_n (AFR_R reg) i n) ;; mret ENext
  | PU.PutIfA reg i n => fail_unless (set_n_if (AFR_A reg) i n) ;; mret ENext
  | PU.PutIfR reg i n => fail_unless (set_n_if (AFR_R reg) i n) ;; mret ENext
  end.

(** ** Moving values between registers *)

Definition mov (reg : RegAFR) (i1 i2 : Reg32) : RM ExecStep :=
  r ← get; set_n reg i2 (get_n reg i1 r) ;; set_n reg i1 None ;; mret ENext.
Definition dup (reg : RegAFR) (i1 i2 : Reg32) : RM ExecStep :=
  r ← get; set_n reg i2 (get_n reg i1 r) ;; mret ENext.
Definition swp (reg : RegAFR) (i1 i2 : Reg32) : RM ExecStep :=
  r ← get; let val := get_n reg i2 r in
  set_n reg i2 (get_n reg i1 r) ;; set_n reg i1 val ;; mret ENext.

(** [MaybeNumber::reshape] *)
Definition maybe_reshape (n : option Number) (to : Layout) : P (option Number * bool) :=
  match n with
  | None => Ok (None, true)
  | Some n => r ← reshape fs n to; Ok (Some r.1, r.2)
  end.

Definition convert (sreg : RegAFR) (si : Reg32) (to : Layout) (dreg : RegAFR) (di : Reg32) : RM ExecStep :=
  r ← get; v ← lift (maybe_reshape (get_n sreg si r) to);
  set_st0 v.2 ;; set_n dreg di v.1 ;; mret ENext.

Definition Move_exec (op : MoveOp) : RM ExecStep :=
  match op with
  | MV.MovA reg i1 i2 => mov (AFR_A reg) i1 i2
  | MV.DupA reg i1 i2 => dup (AFR_A reg) i1 i2
  | MV.SwpA reg i1 i2 => swp (AFR_A reg) i1 i2
  | MV.MovF reg i1 i2 => mov (AFR_F reg) i1 i2
  | MV.DupF reg i1 i2 => dup (AFR_F reg) i1 i2
  | MV.SwpF reg i1 i2 => swp (AFR_F reg) i1 i2
  | MV.MovR reg i1 i2 => mov (AFR_R reg) i1 i2
  | MV.DupR reg i1 i2 => dup (AFR_R reg) i1 i2
  | MV.CpyA s si d di => convert (AFR_A s) si (RegA_layout d) (AFR_A d) di
  | MV.CnvA s si d di => convert (AFR_A s) si (with_sign true (RegA_layout d)) (AFR_A d) di
  | MV.CnvF s si d di => convert (AFR_F s) si (RegF_layout d) (AFR_F d) di
  | MV.CpyR s si d di => convert (AFR_R s) si (RegR_layout d) (AFR_R d) di
  | MV.SpyAR s si d di =>
      r ← get;
      v1 ← lift (maybe_reshape (get_n (AFR_A s) si r) (RegR_layout d));
      (* the second reshape runs only when the first was exact *)
      v2 ← lift (if v1.2 : bool then maybe_reshape (get_n (AFR_R d) di r) (RegA_layout s)
                 else Ok (get_n (AFR_R d) di r, false));
      set_st0 (v1.2 && v2.2) ;; set_n (AFR_R d) di v1.1 ;; set_n (AFR_A s) si v2.1 ;; mret ENext
  | MV.CnvAF s si d di => convert (AFR_A s) si (RegF_layout d) (AFR_F d) di
  | MV.CnvFA s si d di => convert (AFR_F s) si (RegA_layout d) (AFR_A d) di
  end.

(** ** Comparing registers *)

Definition compared (want : comparison) (reg : RegAFR) (i1 i2 : Reg32)
    (f : Number -> Number -> P comparison) : RM ExecStep :=
  r ← get;
  match get_n2 reg i1 reg i2 r with
  | Some (v1, v2) => c ← lift (f v1 v2); set_st0 (bool_decide (c = want)) ;; mret ENext
  | None => set_st0 false ;; mret ENext
  end.

Definition cmp_A (f : SignFlag) (a b : Number) : P comparison :=
  match f with
  | Signed => num_cmp fs (into_signed a) (into_signed b)
  | Unsigned => num_cmp fs a b
  end.
Definition cmp_F (f : FloatEqFlag) (a b : Number) : P comparison :=
  match f with Rounding => rounding_cmp fs a b | Exact => num_cmp fs a b end.

Definition equal (reg : RegAFR) (i1 i2 : Reg32) (none : bool) (f : Number -> Number -> P bool) : RM ExecStep :=
  r ← get;
  match get_n2 reg i1 reg i2 r with
  | Some (v1, v2) => b ← lift (f v1 v2); set_st0 b ;; mret ENext
  | None => set_st0 none ;; mret ENext
  end.

Definition st_merge (flag : MergeFlag) (old : option Number) (st : Number) : P Number :=
  match old, flag with
  | None, _ | _, MergeSet => Ok st
  | Some val, MergeAdd =>
      r ← int_add val st {| signed := false; wrap := false |}; Ok (default val r)
  | Some val, MergeAnd => num_and val st
  | Some val, MergeOr => num_or val st
  end.

Definition Cmp_exec (op : CmpOp) : RM ExecStep :=
  match op with
  | CP.GtA flag reg i1 i2 => compared Gt (AFR_A reg) i1 i2 (cmp_A flag)
  | CP.LtA flag reg i1 i2 => compared Lt (AFR_A reg) i1 i2 (cmp_A flag)
  | CP.GtF flag reg i1 i2 => compared Gt (AFR_F reg) i1 i2 (cmp_F flag)
  | CP.LtF flag reg i1 i2 => compared Lt (AFR_F reg) i1 i2 (cmp_F flag)
  | CP.GtR reg i1 i2 => compared Gt (AFR_R reg) i1 i2 (num_cmp fs)
  | CP.LtR reg i1 i2 => compared Lt (AFR_R reg) i1 i2 (num_cmp fs)
  | CP.EqA st reg i1 i2 =>
      equal (AFR_A reg) i1 i2 (bool_decide (st = Equal)) (fun a b => Ok (num_eq a b))
  | CP.EqF flag reg i1 i2 =>
      equal (AFR_F reg) i1 i2 false (fun a b =>
        match flag with
        | Rounding => c ← rounding_cmp fs a b; Ok (bool_decide (c = Eq))
        | Exact => Ok (num_eq a b)
        end)
  | CP.EqR st reg i1 i2 =>
      equal (AFR_R reg) i1 i2 (bool_decide (st = Equal)) (fun a b => Ok (num_eq a b))
  | CP.IfZA reg i => r ← get; set_st0 (from_option is_zero false (get_n (AFR_A reg) i r)) ;; mret ENext
  | CP.IfZR reg i => r ← get; set_st0 (from_option is_zero false (get_n (AFR_R reg) i r)) ;; mret ENext
  | CP.IfNA reg i => r ← get; set_st0 (bool_decide (get_n (AFR_A reg) i r = None)) ;; mret ENext
  | CP.IfNR reg i => r ← get; set_st0 (bool_decide (get_n (AFR_R reg) i r = None)) ;; mret ENext
  | CP.St flag reg i =>
      r ← get;
      v ← lift (st_merge flag (get_n (AFR_A reg) (r8 i) r) (from_uint 1 (Z.b2z (st0 r))));
      set_n (AFR_A reg) (r8 i) (Some v) ;; mret ENext
  | CP.StInv => r ← get; set_st0 (negb (st0 r)) ;; mret ENext
  end.

(** ** Arithmetic *)

(** [float_add] and the like: floats of one layout, which has an implementation *)
Definition float_op (f : FloatLayout -> RoundingFlag -> Z -> Z -> option Z) (flag : RoundingFlag)
    (a b : Number) : P (option Number) :=
  assert_ (bool_decide (layout a = layout b)) "numbers with different layout" ;;
  match layout a with
  | Float FloatTapered => Err (Abort "todo")
  | Float fl => Ok (mkNumber (Float fl) <$> f fl flag (low_bytes (nlen a) (raw a)) (low_bytes (nlen b) (raw b)))
  | Integer _ => Err (Abort "float operation on integers")
  end.

Definition binary (reg1 : RegAFR) (i1 : Reg32) (reg2 : RegAFR) (i2 : Reg32)
    (f : Number -> Number -> P (option Number)) : RM (option Number) :=
  r ← get;
  match get_n2 reg1 i1 reg2 i2 r with
  | Some (v1, v2) => lift (f v1 v2)
  | None => mret None
  end.

Definition unary (reg : RegAFR) (i : Reg32) (f : Number -> P (option Number)) : RM bool :=
  r ← get;
  v ← (match get_n reg i r with Some v => lift (f v) | None => mret None end);
  set_n reg i v.

(** [Stp]: the operand is brought to the layout of the register inside a
    [debug_assert!], which a release build does not run. *)
Definition stepped (step : Z) (val : Number) : P (option Number) :=
  let s := if step <? 0 then - step else step in
  assert_ (negb (debug && (s =? 128))) "overflow" ;;
  n ← (if debug : bool then
         r ← reshape fs (from_int 1 s) (layout val);
         assert_ r.2 "reshape target byte length is always greater" ;; Ok r.1
       else Ok (from_int 1 s));
  (if step <? 0 then int_sub else int_add) val n {| signed := false; wrap := false |}.

Definition Arithmetic_run (op : ArithmeticOp) : RM bool :=
  match op with
  | AR.Abs reg i => unary (of_AF reg) (r16 i) num_abs
  | AR.Neg reg i => unary (of_AF reg) (r16 i) num_neg
  | AR.Stp reg i step => unary (AFR_A reg) i (stepped step)
  | AR.AddA f reg s d =>
      v ← binary (AFR_A reg) s (AFR_A reg) d (fun a b => int_add a b f); set_n (AFR_A reg) d v
  | AR.SubA f reg s d =>
      v ← binary (AFR_A reg) s (AFR_A reg) d (fun a b => int_sub a b f); set_n (AFR_A reg) d v
  | AR.MulA f reg s d =>
      v ← binary (AFR_A reg) s (AFR_A reg) d (fun a b => int_mul a b f); set_n (AFR_A reg) d v
  | AR.DivA f reg s d =>
      v ← binary (AFR_A reg) s (AFR_A reg) d (fun a b => int_div a b f); set_n (AFR_A reg) d v
  | AR.AddF f reg s d =>
      v ← binary (AFR_F reg) s (AFR_F reg) d (float_op (f_add fs) f); set_n (AFR_F reg) d v
  | AR.SubF f reg s d =>
      v ← binary (AFR_F reg) s (AFR_F reg) d (float_op (f_sub fs) f); set_n (AFR_F reg) d v
  | AR.MulF f reg s d =>
      v ← binary (AFR_F reg) s (AFR_F reg) d (float_op (f_mul fs) f); set_n (AFR_F reg) d v
  | AR.DivF f reg s d =>
      v ← binary (AFR_F reg) s (AFR_F reg) d (float_op (f_div fs) f);
      b ← set_n (AFR_F reg) d v;
      mret (b && negb (match v with
                       | Some (mkNumber (Float fl) bits) => f_is_nan fs fl bits
                       | _ => false end))
  | AR.Rem reg1 i1 reg2 i2 =>
      v ← binary (AFR_A reg1) i1 (AFR_A reg2) i2 num_rem; set_n (AFR_A reg2) i2 v
  end.

Definition Arithmetic_exec (op : ArithmeticOp) : RM ExecStep :=
  is_some ← Arithmetic_run op; set_st0 is_some ;; mret ENext.

(** ** Bit operations *)

(** [ret[i] += v] *)
Definition add_at (i : nat) (v : Z) (l : list Z) : list Z := alter (fun b => b + v) i l.

(** The helpers [shl] and [shr] over the bytes of an [R] register. *)
Definition shl_step (original : list Z) (shift : Z) (acc : list Z) (i : nat) : list Z :=
  let n := length original in
  let word_shift := Z.to_nat (shift / 8) in
  let bit_shift := shift mod 8 in
  let b := original !!! i in
  let acc := if (i + word_shift <? n)%nat
             then add_at (i + word_shift) (Z.shiftl b bit_shift mod 256) acc else acc in
  if (0 <? bit_shift) && (i + word_shift + 1 <? n)%nat
  then add_at (i + word_shift + 1) (Z.shiftr b (8 - bit_shift)) acc else acc.

Definition shl_bytes (original : list Z) (shift : Z) : list Z :=
  foldl (shl_step original shift) (repeat 0 (length original)) (seq 0 (length original)).

Definition shr_step (original : list Z) (shift : Z) (acc : list Z) (i : nat) : list Z :=
  let n := length original in
  let word_shift := Z.to_nat (shift / 8) in
  let bit_shift := shift mod 8 in
  let acc := add_at (i - word_shift) (Z.shiftr (original !!! i) bit_shift) acc in
  if (0 <? bit_shift) && (i <? n - 1)%nat
  then add_at (i - word_shift) (Z.shiftl (original !!! S i) (8 - bit_shift) mod 256) acc else acc.

Definition shr_bytes (original : list Z) (shift : Z) : list Z :=
  let word_shift := Z.to_nat (shift / 8) in
  foldl (shr_step original shift) (repeat 0 (length original))
    (seq word_shift (length original - word_shift)).

Definition or_bytes (a b : list Z) : list Z := zip_with Z.lor a b.

(** The shift taken from an [A8] or [A16] register, zero when it is unset. *)
Definition shift_of (a2 : RegA2) (i : Reg32) (r : CoreRegs) : Z := default 0 (regA r (of_A2 a2) i).

(** [if let Some(original) = regs.get_r_mut(..)] with the flag taken from it *)
Definition on_R (k : RegR) (i : Reg32) (flag : list Z -> bool) (f : list Z -> list Z) : RM unit := fun r =>
  match regR r k i with
  | Some v =>
      let original := le_bytes (Z.to_nat (RegR_bytes k)) v in
      (with_st0 (flag original) (with_R k i (Some (le (f original))) r), Ok tt)
  | None => (r, Ok tt)
  end.

Definition msb (bs : list Z) : bool := Z.testbit (default 0 (last bs)) 7.
Definition lsb (bs : list Z) : bool := Z.odd (default 0 (head bs)).

(** [regs.get_n(..).unwrap_or_default()[i]] *)
Definition byte_at (reg : RegAFR) (i : Reg32) (j : Z) : RM Z :=
  r ← get; lift (index (default default_number (get_n reg i r)) j).

Definition Bitwise_exec (op : BitwiseOp) : RM ExecStep :=
  match op with
  | BW.And reg s1 s2 d =>
      op2 (of_AR reg) (r16 s1) (of_AR reg) (r16 s2) (of_AR reg) (r16 d) num_and ;; mret ENext
  | BW.Or reg s1 s2 d =>
      op2 (of_AR reg) (r16 s1) (of_AR reg) (r16 s2) (of_AR reg) (r16 d) num_or ;; mret ENext
  | BW.Xor reg s1 s2 d =>
      op2 (of_AR reg) (r16 s1) (of_AR reg) (r16 s2) (of_AR reg) (r16 d) num_xor ;; mret ENext
  | BW.Not reg i =>
      r ← get; set_n (of_AR reg) (r16 i) (num_not <$> get_n (of_AR reg) (r16 i) r) ;; mret ENext
  | BW.Shl a2 shift (AR_A a) i =>
      b ← byte_at (AFR_A a) i (RegA_bytes a - 1);
      set_st0 (Z.testbit b 7) ;;
      op2 (AFR_A a) i (AFR_A (of_A2 a2)) shift (AFR_A a) i num_shl ;; mret ENext
  | BW.Shl a2 shift (AR_R k) i =>
      r ← get; on_R k i msb (fun o => shl_bytes o (shift_of a2 shift r)) ;; mret ENext
  | BW.ShrA flag a2 shift reg i =>
      r ← get;
      match get_n2 (AFR_A (of_A2 a2)) (r16 shift) (AFR_A reg) i r with
      | Some (k, val) =>
          b ← lift (index val 0);
          set_st0 (Z.odd b) ;;
          v ← lift (match flag with Signed => num_shr (into_signed val) k | Unsigned => num_shr val k end);
          set_n (AFR_A reg) i (Some v) ;; mret ENext
      | None => set_n (AFR_A reg) i None ;; mret ENext
      end
  | BW.ShrR a2 shift k i =>
      r ← get; on_R k i lsb (fun o => shr_bytes o (shift_of a2 shift r)) ;; mret ENext
  | BW.Scl a2 shift (AR_A a) i =>
      b ← byte_at (AFR_A a) i (RegA_bytes a - 1);
      set_st0 (Z.testbit b 7) ;;
      op2 (AFR_A a) i (AFR_A (of_A2 a2)) shift (AFR_A a) i scl ;; mret ENext
  | BW.Scl a2 shift (AR_R k) i =>
      r ← get;
      let bits := 8 * RegR_bytes k in
      let s := shift_of a2 shift r mod bits in
      on_R k i msb (fun o => or_bytes (shl_bytes o s) (shr_bytes o (bits - s))) ;; mret ENext
  | BW.Scr a2 shift (AR_A a) i =>
      b ← byte_at (AFR_A a) i 0;
      set_st0 (Z.odd b) ;;
      op2 (AFR_A a) i (AFR_A (of_A2 a2)) shift (AFR_A a) i scr ;; mret ENext
  | BW.Scr a2 shift (AR_R k) i =>
      r ← get;
      let bits := 8 * RegR_bytes k in
      let s := shift_of a2 shift r mod bits in
      on_R k i lsb (fun o => or_bytes (shr_bytes o s) (shl_bytes o (bits - s))) ;; mret ENext
  | BW.RevA reg i =>
      r ← get;
      match get_n (AFR_A reg) i r with
      | Some v => v' ← lift (reverse_bits v); set_n (AFR_A reg) i (Some v') ;; mret ENext
      | None => set_n (AFR_A reg) i None ;; mret ENext
      end
  | BW.RevR k i =>
      r ← get; on_R k i (fun _ => st0 r) (fun o => map (rev_bits 8) (rev o)) ;; mret ENext
  end.

(** ** Byte strings *)

(** [f().unwrap_or_else(..)]: the recovery when the closure returns [None] *)
Definition or_else (m : RM bool) (recover : RM unit) : RM ExecStep :=
  b ← m; (if b : bool then mret tt else recover) ;; mret ENext.

Definition a16 (i : Reg32) : RM (option Z) := gets (fun r => regA r A16 i).
Definition gets16 (s : RegS) : RM (option (list Z)) := gets (fun r => s16 r (s_index s)).
Definition sets16 (s : RegS) (v : option (list Z)) : RM unit := modify (with_s16 (s_index s) v).

(** [ByteStr::fill]: the string grows with zeros up to the end of the range. *)
Definition fill (s : list Z) (start stop : Z) (v : Z) : P (list Z) :=
  assert_ (start <=? stop) "slice index" ;;
  let s := s ++ repeat 0 (Z.to_nat stop - length s) in
  Ok (take (Z.to_nat start) s ++ repeat v (Z.to_nat (stop - start)) ++ drop (Z.to_nat stop) s).

Definition fill_ (reg : RegS) (o1 o2 v : Reg32) (flag : ExtendFlag) : RM bool :=
  x1 ← a16 o1; x2 ← a16 o2; w ← gets (fun r => regA r A8 v);
  match x1, x2, w with
  | Some start, Some stop, Some val =>
      s ← gets16 reg;
      let bs := default [] s in
      sets16 reg (Some bs) ;;
      if (len bs <=? stop) && bool_decide (flag = ExtendFail) then mret false
      else s' ← lift (fill bs start stop val); sets16 reg (Some s') ;; mret true
  | _, _, _ => mret false
  end.

(** [IntLayout::fits_usize] *)
Definition fits_usize (bytes value : Z) : bool := bitlen value <=? 8 * bytes.

Definition len_ (src : RegS) (reg : RegA) (dst : Reg32) : RM bool :=
  s ← gets16 src;
  match s with
  | Some bs =>
      if fits_usize (RegA_bytes reg) (len bs)
      then set_n (AFR_A reg) dst (Some (from_uint 4 (len bs))) ;; mret true else mret false
  | None => mret false
  end.

Definition cnt_ (src : RegS) (byte dst : Reg32) : RM bool :=
  v ← gets (fun r => regA r A8 byte); s ← gets16 src;
  match v, s with
  | Some val, Some bs =>
      let count := len (filter (fun b => b = val) bs) in
      if fits_usize 2 count
      then set_n (AFR_A A16) dst (Some (from_uint 4 count)) ;; mret true else mret false
  | _, _ => mret false
  end.

(** [r1.windows(r2.len()).filter(..).count()] *)
Fixpoint count_windows (data pat : list Z) : Z :=
  (if bool_decide (take (length pat) data = pat) then 1 else 0) +
  match data with [] => 0 | _ :: data' => count_windows data' pat end.

Definition find_ (s1 s2 : RegS) : RM bool :=
  x ← gets16 s1; y ← gets16 s2;
  match x, y with
  | Some r1, Some r2 =>
      lift (assert_ (0 <? len r2) "window size must be non-zero") ;;
      let count := count_windows r1 r2 in
      lift (assert_ (count <=? 65535) "count <= u16::MAX") ;;
      set_n (AFR_A A16) Reg32_0 (Some (from_uint 2 count)) ;; mret true
  | _, _ => mret false
  end.

(** [Con]: the iterator over the comparison of the strings, byte by byte *)
Fixpoint compare_from (i : Z) (r1 r2 : list Z) : list (Z * bool) :=
  match r1, r2 with
  | a :: r1', b :: r2' => (i, a =? b) :: compare_from (i + 1) r1' r2'
  | _, _ => []
  end.
(** [while let Some((_, b)) = elems.next() {}]: the element that ends the loop
    is consumed, too. *)
Fixpoint drop_through (b : bool) (l : list (Z * bool)) : list (Z * bool) :=
  match l with
  | [] => []
  | (_, c) :: l' => if Bool.eqb c b then drop_through b l' else l'
  end.
Fixpoint skip_while (b : bool) (l : list (Z * bool)) : list (Z * bool) :=
  match l with
  | (i, c) :: l' => if Bool.eqb c b then skip_while b l' else l
  | [] => []
  end.
Definition conjoint (r1 r2 : list Z) (n : Z) : option (Z * Z) :=
  let size := Z.min (len r1) (len r2) in
  let elems := Nat.iter (Z.to_nat n) (fun l => drop_through true (drop_through false l))
    (skip_while false (compare_from 0 r1 r2)) in
  match elems with
  | [] => None
  | (b, _) :: rest =>
      match skip_while true rest with
      | (e, _) :: _ => Some (b, e - b)
      | [] => Some (b, size - b)
      end
  end.

Definition con_ (s1 s2 : RegS) (n offset_dst len_dst : Reg32) : RM bool :=
  x ← gets16 s1; y ← gets16 s2; k ← a16 n;
  match x, y, k with
  | Some r1, Some r2, Some k =>
      match conjoint r1 r2 k with
      | Some (offset, l) =>
          set_n (AFR_A A16) offset_dst (Some (from_uint 2 offset)) ;;
          set_n (AFR_A A16) len_dst (Some (from_uint 2 l)) ;; mret true
      | None => mret false
      end
  | _, _, _ => mret false
  end.

Definition extr_ (src : RegS) (dst : RegAR) (i : Reg32) (o : Reg32) : RM bool :=
  s ← gets16 src; x ← a16 o;
  match s, x with
  | Some bs, Some offset =>
      if len bs <=? offset then mret false else
      let stop := offset + RegAR_bytes dst in
      (* checked_add of u16, then not beyond the string *)
      let ok := (stop <=? 65535) && (stop <=? len bs) in
      (if ok then mret tt else set_st0 false) ;;
      set_n (of_AR dst) i (Some (from_slice (slice offset (if ok then stop else len bs) bs))) ;; mret true
  | _, _ => mret false
  end.

(** [Inj]: the string is cut one byte short of the range it is written to. *)
Definition inj_ (src : RegS) (dst : RegAR) (i : Reg32) (o : Reg32) : RM bool :=
  s ← gets16 src; r ← get; x ← a16 o;
  match s, get_n (of_AR dst) i r, x with
  | Some bs, Some val, Some offset =>
      let end_ := saturating_add 16 offset (RegAR_bytes dst - 1) in
      let s' := take (Z.to_nat end_) (bs ++ repeat 0 (Z.to_nat end_ - length bs)) in
      lift (assert_ ((offset <=? end_ + 1) && (end_ + 1 <=? len s')) "slice index") ;;
      lift (assert_ (end_ + 1 - offset =? nlen val) "copy_from_slice") ;;
      sets16 src (Some (take (Z.to_nat offset) s' ++ number_bytes val)) ;; mret true
  | _, _, _ => mret false
  end.

(** [Join]: the destination is built anew from the first string, so only an
    empty second string fits. *)
Definition join_ (s1 s2 dst : RegS) : RM bool :=
  x ← gets16 s1; y ← gets16 s2;
  match x, y with
  | Some r1, Some r2 =>
      if 65535 <? len r1 + len r2 then mret false else
      lift (assert_ (len r2 =? 0) "copy_from_slice") ;;
      sets16 dst (Some r1) ;; mret true
  | _, _ => mret false
  end.

Definition Bytes_exec (op : BytesOp) : RM ExecStep :=
  match op with
  | BY.Put reg bytes st => sets16 reg (Some bytes) ;; (if st : bool then set_st0 false else mret tt) ;; mret ENext
  | BY.Mov s1 s2 => bs ← gets16 s1; sets16 s1 None ;; sets16 s2 bs ;; mret ENext
  | BY.Swp s1 s2 => b1 ← gets16 s1; b2 ← gets16 s2; sets16 s1 b2 ;; sets16 s2 b1 ;; mret ENext
  | BY.Fill reg o1 o2 v flag => or_else (fill_ reg o1 o2 v flag) (set_st0 false)
  | BY.Len src reg dst =>
      or_else (len_ src reg dst) (set_st0 false ;; set_n (AFR_A reg) dst None ;; mret tt)
  | BY.Cnt src byte dst =>
      or_else (cnt_ src (r16 byte) (r16 dst)) (set_st0 false ;; set_n (AFR_A A16) (r16 dst) None ;; mret tt)
  | BY.Eq s1 s2 =>
      x ← gets16 s1; y ← gets16 s2; set_st0 (bool_decide (x = y)) ;; mret ENext
  | BY.Find s1 s2 => or_else (find_ s1 s2) (set_st0 false ;; set_n (AFR_A A16) Reg32_0 None ;; mret tt)
  | BY.Rev s1 s2 =>
      x ← gets16 s1;
      match x with
      | Some bs => sets16 s2 (Some (rev bs)) ;; mret ENext
      | None => set_st0 false ;; sets16 s2 None ;; mret ENext
      end
  | BY.Con s1 s2 n od ld =>
      or_else (con_ s1 s2 n od ld)
        (set_st0 false ;; set_n (AFR_A A16) od None ;; set_n (AFR_A A16) ld None ;; mret tt)
  | BY.Extr src dst i o =>
      or_else (extr_ src dst (r16 i) (r16 o)) (set_st0 false ;; set_n (of_AR dst) (r16 i) None ;; mret tt)
  | BY.Inj src dst i o =>
      or_else (inj_ src dst (r16 i) (r16 o)) (set_st0 false ;; set_n (of_AR dst) (r16 i) None ;; mret tt)
  | BY.Join s1 s2 d => or_else (join_ s1 s2 d) (set_st0 false ;; sets16 d None)
  | BY.Splt _ _ _ _ _ | BY.Ins _ _ _ _ | BY.Del _ _ _ _ _ _ _ _ _ => fail (Abort "todo")
  end.

(** ** Digests and curves *)

Definition digest_to (h : list Z -> list Z) (reg : RegR) (src : RegS) (dst : Reg16) : RM ExecStep :=
  s ← gets16 src;
  set_n (AFR_R reg) (r16 dst) ((fun s => from_slice (h s)) <$> s) ;;
  (if s is None then set_st0 false else mret tt) ;; mret ENext.

Definition Digest_exec (op : DigestOp) : RM ExecStep :=
  match op with
  | DG.Ripemd src dst => digest_to (fun s => rev (ripemd160 s)) R160 src dst
  | DG.Sha256 src dst => digest_to sha256 R256 src dst
  | DG.Blake3 src dst => digest_to blake3 R256 src dst
  | DG.Sha512 src dst => digest_to sha512 R512 src dst
  end.

(** A point of the curve in a 512-bit register: its uncompressed form less the tag *)
Definition pk_of (r : CoreRegs) (i : Reg32) : option PK :=
  v ← get_n (AFR_R R512) i r; pk_from_slice (4 :: number_bytes v).
Definition pk_number (pk : PK) : Number := from_slice (drop 1 (pk_uncompressed pk)).

Definition Secp_point (op : Secp256k1Op) (r : CoreRegs) : option PK :=
  match op with
  | SP.Gen src _ => v ← get_n (AFR_R R256) src r; pk_of_secret (rev (number_bytes v))
  | SP.Mul block scal src _ =>
      k ← get_n (of_block block) scal r; pk ← pk_of r src; pk_mul pk (number_bytes k)
  | SP.Add src srcdst => pk1 ← pk_of r src; pk2 ← pk_of r (r8 srcdst); pk_combine pk1 pk2
  | SP.Neg src _ => pk ← pk_of r src; Some (pk_negate pk)
  end.
Definition Secp_dst (op : Secp256k1Op) : Reg32 :=
  match op with SP.Gen _ d | SP.Add _ d | SP.Neg _ d => r8 d | SP.Mul _ _ _ d => d end.

Definition Secp_exec (op : Secp256k1Op) : RM ExecStep :=
  r ← get; set_n (AFR_R R512) (Secp_dst op) (pk_number <$> Secp_point op r) ;; mret ENext.

Definition Curve_exec (_ : Curve25519Op) : RM ExecStep := fail (Abort "todo").

(** ** The stack of results *)

(** [u as i64] *)
Definition as_i64 (u : Z) : Z := if u <? 2 ^ 63 then u else u - 2 ^ 64.

Definition Outstack_exec (op : OutstackOp) : RM ExecStep :=
  let 'Outr reg := op in
  if reg <? 32 then
    r ← get;
    v ← match get_n (AFR_A A64) (reg32_of reg) r with
        | Some n => u ← lift (to_uint 8 n); mret (as_i64 u)
        | None => mret 0
        end;
    jump_if (push_outstack (OutInt v)) ENext
  else if reg <? 48 then
    s ← gets16 (mkRegS (reg - 32));
    jump_if (push_outstack (OutBytes (default [] s))) ENext
  else mret EFail.

(** ** The registers an instruction reports *)

Definition Put_dst (op : PutOp) : list Reg :=
  match op with
  | PU.ClrA _ _ | PU.ClrF _ _ | PU.ClrR _ _ => []
  | PU.PutA reg i _ => [Reg_A reg i]
  | PU.PutF reg i _ => [Reg_F reg i]
  | PU.PutR reg i _ => [Reg_R reg i]
  | PU.PutIfA reg i _ => [Reg_A reg i]
  | PU.PutIfR reg i _ => [Reg_R reg i]
  end.

Definition Move_dst (op : MoveOp) : list Reg :=
  match op with
  | MV.MovA reg i1 i2 => [Reg_A reg i1; Reg_A reg i2]
  | MV.DupA reg _ i2 => [Reg_A reg i2]
  | MV.SwpA reg i1 i2 => [Reg_A reg i1; Reg_A reg i2]
  | MV.MovF reg i1 i2 => [Reg_F reg i1; Reg_F reg i2]
  | MV.DupF reg _ i2 => [Reg_F reg i2]
  | MV.SwpF reg i1 i2 => [Reg_F reg i1; Reg_F reg i2]
  | MV.MovR reg i1 i2 => [Reg_R reg i1; Reg_R reg i2]
  | MV.DupR reg _ i2 => [Reg_R reg i2]
  | MV.CpyA _ _ d di => [Reg_A d di]
  | MV.CnvA _ _ d di => [Reg_A d di]
  | MV.CnvF _ _ d di => [Reg_F d di]
  | MV.CpyR _ _ d di => [Reg_R d di]
  | MV.SpyAR s si d di => [Reg_A s si; Reg_R d di]
  | MV.CnvAF _ _ d di => [Reg_F d di]
  | MV.CnvFA _ _ d di => [Reg_A d di]
  end.

Definition Cmp_dst (op : CmpOp) : list Reg :=
  match op with CP.St _ reg i => [Reg_A reg (r8 i)] | _ => [] end.

Definition Arithmetic_dst (op : ArithmeticOp) : list Reg :=
  match op with
  | AR.Abs reg i | AR.Neg reg i => [reg_of (of_AF reg) (r16 i)]
  | AR.Stp reg i _ => [Reg_A reg i]
  | AR.AddA _ reg _ d | AR.SubA _ reg _ d | AR.MulA _ reg _ d | AR.DivA _ reg _ d => [Reg_A reg d]
  | AR.AddF _ reg _ d | AR.SubF _ reg _ d | AR.MulF _ reg _ d | AR.DivF _ reg _ d => [Reg_F reg d]
  | AR.Rem _ _ reg2 d => [Reg_A reg2 d]
  end.

Definition Bitwise_dst (op : BitwiseOp) : list Reg :=
  match op with
  | BW.And reg _ _ d | BW.Or reg _ _ d | BW.Xor reg _ _ d => [reg_of (of_AR reg) (r16 d)]
  | BW.Not reg i => [reg_of (of_AR reg) (r16 i)]
  | BW.Shl _ _ reg i | BW.Scl _ _ reg i | BW.Scr _ _ reg i => [reg_of (of_AR reg) i]
  | BW.ShrA _ _ _ reg i => [Reg_A reg i]
  | BW.ShrR _ _ reg i => [Reg_R reg i]
  | BW.RevA reg i => [Reg_A reg i]
  | BW.RevR reg i => [Reg_R reg i]
  end.

Definition Bytes_dst (op : BytesOp) : list Reg :=
  match op with
  | BY.Put reg _ _ => [Reg_S reg]
  | BY.Swp s1 s2 | BY.Find s1 s2 => [Reg_S s1; Reg_S s2]
  | BY.Mov _ s2 | BY.Rev _ s2 => [Reg_S s2]
  | BY.Fill reg _ _ _ _ => [Reg_S reg]
  | BY.Len _ reg dst => [Reg_A reg dst]
  | BY.Cnt _ _ dst => [Reg_A A16 (r16 dst)]
  | BY.Eq _ _ => []
  | BY.Con _ _ _ od ld => [Reg_A A16 od; Reg_A A16 ld]
  | BY.Extr _ dst i _ => [reg_of (of_AR dst) (r16 i)]
  | BY.Inj src _ _ _ => [Reg_S src]
  | BY.Join _ _ d => [Reg_S d]
  | BY.Splt _ _ _ d1 d2 => [Reg_S d1; Reg_S d2]
  | BY.Ins _ _ _ d => [Reg_S d]
  | BY.Del _ _ _ _ _ _ _ _ d => [Reg_S d]
  end.

Definition Digest_dst (op : DigestOp) : list Reg :=
  match op with
  | DG.Ripemd _ d => [Reg_R R160 (r16 d)]
  | DG.Sha256 _ d => [Reg_R R256 (r16 d)]
  | DG.Blake3 _ d => [Reg_R R256 (r16 d)]
  | DG.Sha512 _ d => [Reg_R R512 (r16 d)]
  end.

Definition Secp_dst_regs (op : Secp256k1Op) : list Reg :=
  match op with
  | SP.Gen _ d | SP.Add _ d | SP.Neg _ d => [Reg_R R512 (r8 d)]
  | SP.Mul _ _ _ d => [Reg_R R512 d]
  end.

Definition Curve_dst (op : Curve25519Op) : list Reg :=
  match op with
  | ED.Gen _ d | ED.Neg _ d => [Reg_R R512 (r8 d)]
  | ED.Mul _ _ _ d | ED.Add _ _ d _ => [Reg_R R512 d]
  end.

(** ** The whole instruction set *)

Definition Arithmetic_complexity (op : ArithmeticOp) : Z :=
  match op with
  | AR.AddF _ _ _ _ | AR.SubF _ _ _ _ | AR.MulF _ _ _ _ | AR.DivF _ _ _ _ => 10
  | _ => 1
  end.

Section instr.
Context {Ext Ctx : Type} `{InstructionSet Ext Ctx}.

Definition Instr_dst (i : Instr Ext) : list Reg :=
  match i with
  | ControlFlow _ | Outstack _ | ReservedInstruction _ | Nop => []
  | Put op => Put_dst op
  | Move op => Move_dst op
  | Cmp op => Cmp_dst op
  | Arithmetic op => Arithmetic_dst op
  | Bitwise op => Bitwise_dst op
  | Bytes op => Bytes_dst op
  | Digest op => Digest_dst op
  | Secp256k1 op => Secp_dst_regs op
  | Curve25519 op => Curve_dst op
  | ExtensionCodes op => dst_regs op
  end.

Definition Instr_complexity (i : Instr Ext) : Z :=
  match i with
  | ControlFlow _ | Put _ | Outstack _ => 2
  | Move _ | Cmp _ | Bitwise _ | Nop => 1
  | Arithmetic op => Arithmetic_complexity op
  | Bytes _ => 5
  | Digest _ => 100
  | Secp256k1 _ | Curve25519 _ => 1000
  | ExtensionCodes op => complexity op
  | ReservedInstruction _ => 2 ^ 64 - 1
  end.

Definition Instr_exec (i : Instr Ext) (site : LibSite) (ctx : Ctx) : RM ExecStep :=
  match i with
  | ControlFlow op => ControlFlow_exec op site
  | Put op => Put_exec op
  | Move op => Move_exec op
  | Cmp op => Cmp_exec op
  | Arithmetic op => Arithmetic_exec op
  | Bitwise op => Bitwise_exec op
  | Bytes op => Bytes_exec op
  | Digest op => Digest_exec op
  | Secp256k1 op => Secp_exec op
  | Curve25519 op => Curve_exec op
  | Outstack op => Outstack_exec op
  | ExtensionCodes op => exec op site ctx
  | ReservedInstruction _ => ControlFlow_exec CF.Fail site
  | Nop => mret ENext
  end.

#[export] Instance Instr_set : InstructionSet (Instr Ext) Ctx :=
  {| dst_regs := Instr_dst; complexity := Instr_complexity; exec := Instr_exec |}.

End instr.

(** [ReservedOp] as the extension of the bare machine *)
#[export] Instance Reserved_set : InstructionSet ReservedOp unit :=
  {| dst_regs _ := []; complexity _ := 2 ^ 64 - 1; exec _ site _ := ControlFlow_exec CF.Fail site |}.

End exec.
