(* ===== verification/AluShift.v ===== *)
(** * AluVM: shifts of the general registers

    The source shifts an [R] register byte by byte, adding the carry of each byte
    to its neighbour ([shl] and [shr] in isa/exec.rs).  These loops are proved equal
    to shifts of the integer that the bytes stand for; no addition overflows
    a byte, which is what the loops rely on. *)

From S2P Require Import Prelude AluReg AluNumber AluCursor AluInstr AluBytecode AluRegs AluExec.
Local Open Scope Z_scope.

(** Byte [j] of an integer *)
Definition byte (z : Z) (j : nat) : Z := (z / 2 ^ (8 * Z.of_nat j)) mod 256.

Lemma byte_range z j : 0 <= byte z j < 256.
Proof. apply Z.mod_pos_bound. lia. Qed.

Lemma le_bytes_lookup n z j : le_bytes n z !! j = if decide (j < n)%nat then Some (byte z j) else None.
Proof.
  revert z j. induction n as [|n IH]; intros z j; [by destruct (decide _); [lia|]|]. cbn [le_bytes].
  destruct j as [|j]; cbn [lookup list_lookup].
  - rewrite decide_True by lia. unfold byte. by rewrite Z.div_1_r.
  - change (le_bytes n (z / 256) !! j = if decide (S j < S n)%nat then Some (byte z (S j)) else None).
    rewrite IH. repeat destruct (decide _); try lia; [|done]. f_equal. unfold byte.
    replace (8 * Z.of_nat (S j)) with (8 + 8 * Z.of_nat j) by lia.
    rewrite Z.pow_add_r, pow8, Z.div_div by lia. done.
Qed.

Lemma le_bytes_ok n z : bytes_ok (le_bytes n z).
Proof.
  apply Forall_lookup. intros j b. rewrite le_bytes_lookup. destruct (decide _); [|done].
  intros [= <-]. apply byte_range.
Qed.

Lemma le_bytes_le l : bytes_ok l -> le_bytes (length l) (le l) = l.
Proof.
  intros Hl. apply list_eq. intros j. rewrite le_bytes_lookup. destruct (decide _) as [Hj|Hj].
  - destruct (lookup_lt_is_Some_2 l j Hj) as [b Hb]. rewrite Hb. f_equal. symmetry. by apply le_lookup.
  - symmetry. apply lookup_ge_None. lia.
Qed.

Lemma le_bytes_mod n z : le_bytes n (z mod 2 ^ (8 * Z.of_nat n)) = le_bytes n z.
Proof.
  apply list_eq. intros j. rewrite !le_bytes_lookup. destruct (decide _); [|done]. f_equal. unfold byte.
  set (m := Z.of_nat n). set (p := Z.of_nat j).
  replace (8 * m) with (8 * p + (8 + 8 * (m - p - 1))) by lia.
  rewrite Z.pow_add_r, (Z.pow_add_r 2 8), pow8 by lia.
  set (a := 2 ^ (8 * p)). set (b := 2 ^ (8 * (m - p - 1))).
  assert (0 < a) by (apply pow2_pos; lia). assert (0 < b) by (apply pow2_pos; lia).
  rewrite Z.rem_mul_r by lia. rewrite Z.mul_comm, Z.div_add, Z.div_small, Z.add_0_l by (try apply Z.mod_pos_bound; lia).
  rewrite Z.rem_mul_r by lia. rewrite Z.mul_comm, Z.mod_add, Z.mod_mod by lia. done.
Qed.

Lemma le_le_bytes_mod n z : le (le_bytes n z) = z mod 2 ^ (8 * Z.of_nat n).
Proof.
  rewrite <- le_bytes_mod. apply le_le_bytes. apply Z.mod_pos_bound, pow2_pos. lia.
Qed.

(** ** To the left *)

Lemma add_at_lookup i v l j : add_at i v l !! j = (fun b => if decide (j = i) then b + v else b) <$> l !! j.
Proof.
  unfold add_at. destruct (decide (j = i)) as [->|Hj].
  - by rewrite list_lookup_alter_eq.
  - rewrite list_lookup_alter_ne by done. by destruct (l !! j).
Qed.

Lemma byte_high m z d : 0 <= d -> byte z (m + Z.to_nat d) = (z / 2 ^ (8 * Z.of_nat m) / 2 ^ (8 * d)) mod 256.
Proof.
  intros Hd. unfold byte. rewrite Z.div_div by (apply Z.pow_nonzero || apply pow2_pos; lia).
  rewrite <- Z.pow_add_r by lia. do 3 f_equal. lia.
Qed.

Lemma byte_low m z c j : (j < m)%nat -> byte (z + c * 2 ^ (8 * Z.of_nat m)) j = byte z j.
Proof.
  intros Hj. unfold byte. set (p := Z.of_nat j).
  replace (8 * Z.of_nat m) with (8 * p + (8 + 8 * (Z.of_nat m - p - 1))) by lia.
  rewrite Z.pow_add_r, (Z.pow_add_r 2 8), pow8 by lia.
  set (a := 2 ^ (8 * p)). set (b := 2 ^ (8 * (Z.of_nat m - p - 1))).
  assert (0 < a) by (apply pow2_pos; lia).
  replace (c * (a * (256 * b))) with ((c * b * 256) * a) by ring.
  rewrite Z.div_add, Z.mod_add by lia. done.
Qed.

(** The cases of a bit shift *)
Lemma bit_cases (Q : Z -> Prop) : Q 0 -> Q 1 -> Q 2 -> Q 3 -> Q 4 -> Q 5 -> Q 6 -> Q 7 ->
  forall k, 0 <= k < 8 -> Q k.
Proof.
  intros ???????? k Hk.
  assert (k = 0 \/ k = 1 \/ k = 2 \/ k = 3 \/ k = 4 \/ k = 5 \/ k = 6 \/ k = 7) as Hc by lia.
  by destruct Hc as [->|[->|[->|[->|[->|[->|[->| ->]]]]]]].
Qed.
Ltac powers := repeat match goal with
  | |- context [2 ^ Zpos ?k] => let v := eval cbv in (2 ^ Zpos k) in change (2 ^ Zpos k) with v
  | |- context [2 ^ 0] => change (2 ^ 0) with 1
  | |- context [2 ^ (8 - ?k)] => let v := eval cbv in (2 ^ (8 - k)) in change (2 ^ (8 - k)) with v
  end.

(** What is carried into a byte and what it carries out *)
Lemma carry : forall k, 0 <= k < 8 -> forall x b, 0 <= x < 2 ^ k -> 0 <= b < 256 ->
  (x + b * 2 ^ k) mod 256 = x + (b * 2 ^ k) mod 256 /\ x mod 256 = x /\ x / 256 = 0 /\
  ((x + b * 2 ^ k) / 256) mod 256 = b / 2 ^ (8 - k) /\ (x + b * 2 ^ k) / 65536 = 0.
Proof.
  refine (bit_cases _ _ _ _ _ _ _ _ _); intros x b; powers; intros Hx Hb; Z.to_euclidean_division_equations; lia.
Qed.

Lemma shift_split s : 0 <= s ->
  exists w k, s / 8 = Z.of_nat w /\ s mod 8 = k /\ 0 <= k < 8 /\
  forall i, 2 ^ s * 2 ^ (8 * Z.of_nat i) = 2 ^ k * 2 ^ (8 * Z.of_nat (i + w)).
Proof.
  intros Hs. exists (Z.to_nat (s / 8)), (s mod 8).
  pose proof (Z.div_pos s 8). pose proof (Z.mod_pos_bound s 8). pose proof (Z.div_mod s 8).
  split_and!; [lia|done|lia|lia|]. intros i. rewrite <- !Z.pow_add_r by lia. f_equal. lia.
Qed.

Lemma shl_step_spec bs s i b X : 0 <= s -> bs !! i = Some b -> 0 <= b < 256 ->
  0 <= X < 2 ^ (8 * Z.of_nat i) ->
  shl_step bs s (le_bytes (length bs) (X * 2 ^ s)) i
  = le_bytes (length bs) ((X + b * 2 ^ (8 * Z.of_nat i)) * 2 ^ s).
Proof.
  intros Hs Hi Hb HX. destruct (shift_split s Hs) as (w & k & Ew & Ek & Hk & Hp).
  unfold shl_step. rewrite Ew, Ek, Nat2Z.id, (list_lookup_total_correct _ _ _ Hi).
  set (n := length bs). set (m := (i + w)%nat). set (P := 2 ^ (8 * Z.of_nat m)).
  assert (0 < P) by (apply pow2_pos; lia). assert (0 < 2 ^ s) by (apply pow2_pos; lia).
  assert ((X + b * 2 ^ (8 * Z.of_nat i)) * 2 ^ s = X * 2 ^ s + b * 2 ^ k * P) as ->.
  { specialize (Hp i). fold m P in Hp. rewrite Z.mul_add_distr_r. f_equal.
    rewrite <- Z.mul_assoc, (Z.mul_comm (2 ^ (8 * _))), Hp. ring. }
  set (Y := X * 2 ^ s). set (x := Y / P).
  assert (0 <= x < 2 ^ k) as Hx.
  { split; [apply Z.div_pos; unfold Y; nia|]. apply Z.div_lt_upper_bound; [done|].
    specialize (Hp i). fold m P in Hp. unfold Y. nia. }
  destruct (carry k Hk x b Hx Hb) as (C1 & C2 & C3 & C4 & C5).
  assert ((Y + b * 2 ^ k * P) / P = x + b * 2 ^ k) as Hdiv by (rewrite Z.div_add by lia; done).
  assert (forall j, (m <= j)%nat -> j = (m + Z.to_nat (Z.of_nat (j - m)))%nat) as Hj by lia.
  assert (forall j, (j < m)%nat -> byte (Y + b * 2 ^ k * P) j = byte Y j) as B0
    by (intros; by apply byte_low).
  assert (forall z, byte z m = (z / P) mod 256) as B1 by done.
  assert (forall z, byte z (m + 1) = (z / P / 256) mod 256) as B2.
  { intros z. rewrite <- pow8. apply (byte_high m z 1). lia. }
  assert (forall z j, (m + 1 < j)%nat -> z / P / 65536 = 0 -> byte z j = 0) as B3.
  { intros z j Hlt Hz. rewrite (Hj j), byte_high by lia. fold P.
    replace (8 * Z.of_nat (j - m)) with (16 + 8 * (Z.of_nat (j - m) - 2)) by lia.
    rewrite Z.pow_add_r, <- Z.div_div by (try apply pow2_pos; lia). change (2 ^ 16) with 65536. by rewrite Hz. }
  assert (x / 65536 = 0) by (Z.to_euclidean_division_equations; lia).
  rewrite Z.shiftl_mul_pow2, Z.shiftr_div_pow2 by lia.
  assert (k = 0 -> b / 2 ^ (8 - k) = 0) as Hk0 by (intros ->; apply Z.div_small; cbn; lia).
  apply list_eq. intros j.
  destruct (Nat.ltb_spec m n); destruct (Nat.ltb_spec (m + 1) n); destruct (Z.ltb_spec 0 k);
    cbn [andb]; rewrite ?add_at_lookup, !le_bytes_lookup;
    (destruct (decide (j < n)%nat); [|done]); cbn; f_equal;
    (destruct (decide (j < m)%nat); [rewrite B0 by done; repeat destruct (decide _); lia|]);
    (destruct (decide (j = m)) as [->|]; [rewrite !B1, Hdiv; fold x; repeat destruct (decide _); lia|]);
    (destruct (decide (j = m + 1)%nat) as [->|];
      [rewrite !B2, Hdiv; fold x; rewrite C3, C4; repeat destruct (decide _); try lia; rewrite Zmod_0_l; auto with lia|]);
    rewrite !B3 by (first [lia|rewrite Hdiv; done|fold x; done]); repeat destruct (decide _); lia.
Qed.

Lemma le_snoc l b : le (l ++ [b]) = le l + b * 2 ^ (8 * len l).
Proof.
  unfold len. induction l as [|a l IH]; cbn [app le length].
  - change (2 ^ (8 * Z.of_nat 0)) with 1. ring.
  - rewrite IH. replace (8 * Z.of_nat (S (length l))) with (8 + 8 * Z.of_nat (length l)) by lia.
    rewrite Z.pow_add_r, pow8 by lia. ring.
Qed.

Lemma repeat_zero n : repeat 0 n = le_bytes n 0.
Proof. induction n as [|n IH]; [done|]. cbn [repeat le_bytes]. change (0 / 256) with 0. by rewrite IH. Qed.

(** Adding a byte above the digits of an integer *)
Lemma add_at_digit n i v x : 0 <= x < 2 ^ (8 * Z.of_nat i) -> 0 <= v < 256 ->
  add_at i v (le_bytes n x) = le_bytes n (x + v * 2 ^ (8 * Z.of_nat i)).
Proof.
  intros Hx Hv. apply list_eq. intros j. rewrite add_at_lookup, !le_bytes_lookup.
  destruct (decide (j < n)%nat); [|done]. cbn. f_equal.
  destruct (decide (j < i)%nat); [rewrite byte_low by done; destruct (decide _); lia|].
  assert (forall z, byte z j = (z / 2 ^ (8 * Z.of_nat i) / 2 ^ (8 * (Z.of_nat j - Z.of_nat i))) mod 256) as B.
  { intros z. replace j with (i + Z.to_nat (Z.of_nat j - Z.of_nat i))%nat at 1 by lia. apply byte_high. lia. }
  assert (0 < 2 ^ (8 * Z.of_nat i)) by (apply pow2_pos; lia).
  rewrite !B, Z.div_add, (Z.div_small x), Z.add_0_l by lia.
  assert (0 < 2 ^ (8 * (Z.of_nat j - Z.of_nat i))) by (apply pow2_pos; lia).
  rewrite Zdiv_0_l. destruct (decide (j = i)) as [->|].
  - rewrite Z.sub_diag. change (2 ^ (8 * 0)) with 1. rewrite Z.div_1_r, Z.mod_small by lia. done.
  - replace (8 * (Z.of_nat j - Z.of_nat i)) with (8 + 8 * (Z.of_nat j - Z.of_nat i - 1)) by lia.
    rewrite Z.pow_add_r, pow8, <- Z.div_div by (try apply pow2_pos; lia).
    rewrite Z.add_0_l, (Z.div_small v 256) by lia. by rewrite Zdiv_0_l.
Qed.

(** The loop of [shl] multiplies by a power of two, modulo the register. *)
Lemma shl_bytes_spec bs s : bytes_ok bs -> 0 <= s ->
  shl_bytes bs s = le_bytes (length bs) (le bs * 2 ^ s).
Proof.
  intros Hbs Hs. unfold shl_bytes. rewrite repeat_zero.
  assert (forall i, (i <= length bs)%nat ->
    foldl (shl_step bs s) (le_bytes (length bs) 0) (seq 0 i)
    = le_bytes (length bs) (le (take i bs) * 2 ^ s)) as Hinv.
  { induction i as [|i IH]; intros Hi; [done|]. rewrite seq_S, foldl_app, IH by lia. cbn [foldl Nat.add].
    destruct (lookup_lt_is_Some_2 bs i ltac:(lia)) as [b Hb].
    rewrite (take_S_r _ _ _ Hb), le_snoc. unfold len. rewrite length_take_le by lia.
    apply shl_step_spec; [done..| |].
    - by apply (Forall_lookup_1 _ _ _ _ Hbs Hb).
    - pose proof (le_range (take i bs)) as Hr. unfold len in Hr. rewrite length_take_le in Hr by lia.
      apply Hr. by apply Forall_take. }
  rewrite Hinv by done. by rewrite take_ge by done.
Qed.

(** ** To the right *)

Lemma add_at_twice i v v' l : add_at i v' (add_at i v l) = add_at i (v + v') l.
Proof.
  apply list_eq. intros j. rewrite !add_at_lookup. destruct (l !! j); [|done]. cbn.
  destruct (decide _); [|done]. by rewrite Z.add_assoc.
Qed.

(** A byte after a bit shift takes its low bits from its upper neighbour. *)
Lemma borrow : forall k, 0 <= k < 8 -> forall z,
  (z / 2 ^ k) mod 256
  = (z mod 256) / 2 ^ k + (if 0 <? k then (((z / 256) mod 256) * 2 ^ (8 - k)) mod 256 else 0) /\
  0 <= (z / 2 ^ k) mod 256 < 256.
Proof.
  refine (bit_cases _ _ _ _ _ _ _ _ _); intros z; cbn [Z.ltb Z.compare]; powers;
    Z.to_euclidean_division_equations; lia.
Qed.

Lemma mod_next z i : z mod 2 ^ (8 * Z.of_nat (S i))
  = z mod 2 ^ (8 * Z.of_nat i) + byte z i * 2 ^ (8 * Z.of_nat i).
Proof.
  replace (8 * Z.of_nat (S i)) with (8 * Z.of_nat i + 8) by lia. rewrite Z.pow_add_r by lia.
  assert (0 < 2 ^ (8 * Z.of_nat i)) by (apply pow2_pos; lia).
  rewrite Z.rem_mul_r by lia. unfold byte. rewrite pow8. ring.
Qed.

Lemma shr_step_spec bs s i : bytes_ok bs -> 0 <= s -> (i + Z.to_nat (s / 8) < length bs)%nat ->
  shr_step bs s (le_bytes (length bs) ((le bs / 2 ^ s) mod 2 ^ (8 * Z.of_nat i))) (Z.to_nat (s / 8) + i)
  = le_bytes (length bs) ((le bs / 2 ^ s) mod 2 ^ (8 * Z.of_nat (S i))).
Proof.
  intros Hbs Hs Hi. pose proof (le_range bs Hbs) as Hr. unfold len in Hr.
  destruct (shift_split s Hs) as (w & k & Ew & Ek & Hk & Hp).
  unfold shr_step. rewrite Ew, Ek, Nat2Z.id in *. replace (w + i - w)%nat with i by lia.
  set (n := length bs) in *. set (D := le bs / 2 ^ s).
  assert (0 < 2 ^ (8 * Z.of_nat i)) by (apply pow2_pos; lia).
  pose proof (Z.mod_pos_bound D (2 ^ (8 * Z.of_nat i)) ltac:(lia)).
  assert (forall j, (j < n)%nat -> bs !!! j = byte (le bs) j) as Hb.
  { intros j Hj. destruct (lookup_lt_is_Some_2 bs j Hj) as [b E].
    rewrite (list_lookup_total_correct _ _ _ E). by apply le_lookup. }
  rewrite (Hb (w + i)%nat) by lia.
  set (Q := le bs / 2 ^ (8 * Z.of_nat (i + w))).
  assert (byte D i = (Q / 2 ^ k) mod 256) as HD.
  { unfold byte, D, Q. rewrite !Z.div_div by (try apply Z.pow_nonzero; try apply pow2_pos; lia).
    rewrite Hp. do 2 f_equal. ring. }
  destruct (borrow k Hk Q) as [Bq Br].
  assert (byte (le bs) (w + i) = Q mod 256) as -> by (unfold byte, Q; do 4 f_equal; lia).
  assert (byte (le bs) (S (w + i)) = (Q / 256) mod 256) as E1.
  { replace (S (w + i)) with (i + w + Z.to_nat 1)%nat by lia. rewrite byte_high by lia. by rewrite <- pow8. }
  rewrite Z.shiftr_div_pow2, Z.shiftl_mul_pow2 by lia.
  rewrite mod_next, HD, <- add_at_digit by lia. rewrite Bq.
  destruct (0 <? k); cbn [andb]; [|by rewrite Z.add_0_r].
  destruct (Nat.ltb_spec (w + i) (n - 1)); [by rewrite add_at_twice, Hb, E1 by lia|].
  rewrite <- E1. assert (S (w + i) = n) as -> by lia. unfold byte.
  rewrite (Z.div_small (le bs) (2 ^ (8 * Z.of_nat n))) by lia. by rewrite Z.add_0_r.
Qed.

(** The loop of [shr] divides by a power of two. *)
Lemma shr_bytes_spec bs s : bytes_ok bs -> 0 <= s -> shr_bytes bs s = le_bytes (length bs) (le bs / 2 ^ s).
Proof.
  intros Hbs Hs. unfold shr_bytes. rewrite repeat_zero. set (n := length bs).
  assert (forall i, (i <= n - Z.to_nat (s / 8))%nat ->
    foldl (shr_step bs s) (le_bytes n 0) (seq (Z.to_nat (s / 8)) i)
    = le_bytes n ((le bs / 2 ^ s) mod 2 ^ (8 * Z.of_nat i))) as Hinv.
  { induction i as [|i IH]; intros Hi; [by rewrite Z.mod_1_r|].
    rewrite seq_S, foldl_app, IH by lia. cbn [foldl]. apply shr_step_spec; [done..|lia]. }
  rewrite Hinv by done. f_equal. apply Z.mod_small. pose proof (le_range bs Hbs) as Hr. unfold len in Hr.
  fold n in Hr. assert (0 < 2 ^ s) by (apply pow2_pos; lia). split; [apply Z.div_pos; lia|].
  apply Z.div_lt_upper_bound; [lia|]. rewrite <- Z.pow_add_r by lia.
  eapply Z.lt_le_trans; [apply Hr|]. apply Z.pow_le_mono_r; [lia|]. Z.to_euclidean_division_equations; lia.
Qed.

(** ** The instructions *)

Lemma byte_testbit z j b : 0 <= b < 8 -> Z.testbit (byte z j) b = Z.testbit z (8 * Z.of_nat j + b).
Proof.
  intros Hb. unfold byte. rewrite <- pow8, Z.mod_pow2_bits_low, Z.div_pow2_bits by lia. f_equal. lia.
Qed.

Lemma or_bytes_spec n a b : or_bytes (le_bytes n a) (le_bytes n b) = le_bytes n (Z.lor a b).
Proof.
  apply list_eq. intros j. unfold or_bytes. rewrite lookup_zip_with, !le_bytes_lookup.
  destruct (decide _); [|done]. cbn. f_equal. unfold byte. rewrite <- pow8, <- !Z.land_ones, <- !Z.shiftr_div_pow2 by lia.
  by rewrite <- Z.land_lor_distr_l, <- Z.shiftr_lor.
Qed.

Lemma msb_spec n v : (0 < n)%nat -> msb (le_bytes n v) = Z.testbit v (8 * Z.of_nat n - 1).
Proof.
  intros Hn. unfold msb. rewrite last_lookup, length_le_bytes, le_bytes_lookup, decide_True by lia. cbn [default from_option id].
  rewrite byte_testbit by lia. f_equal. lia.
Qed.

Lemma lsb_spec n v : (0 < n)%nat -> lsb (le_bytes n v) = Z.odd v.
Proof.
  intros Hn. destruct n; [lia|]. unfold lsb. cbn [le_bytes head default from_option id].
  rewrite <- !Z.bit0_odd, <- pow8. apply Z.mod_pow2_bits_low. lia.
Qed.

Section shifts.
Context (debug : bool) `{Wide} `{fs : Floats} `{Digests} `{Secp}.
Context (k : RegR) (i : Reg32) (v : Z) (r : CoreRegs).
Hypothesis Hv : regR r k i = Some v.
Hypothesis Hrange : 0 <= v < 2 ^ (8 * RegR_bytes k).

Lemma on_R_spec flag f b z : flag (le_bytes (Z.to_nat (RegR_bytes k)) v) = b ->
  f (le_bytes (Z.to_nat (RegR_bytes k)) v) = le_bytes (Z.to_nat (RegR_bytes k)) z ->
  on_R k i flag f r = (with_st0 b (with_R k i (Some (z mod 2 ^ (8 * RegR_bytes k))) r), Ok tt).
Proof.
  intros Hf Hz. unfold on_R. rewrite Hv, Hf, Hz, le_le_bytes_mod.
  by replace (Z.of_nat (Z.to_nat (RegR_bytes k))) with (RegR_bytes k) by (destruct k; done).
Qed.

Lemma RegR_len : Z.of_nat (Z.to_nat (RegR_bytes k)) = RegR_bytes k /\ 0 < RegR_bytes k.
Proof. by destruct k. Qed.

Lemma shl_le s : 0 <= s -> let n := Z.to_nat (RegR_bytes k) in
  shl_bytes (le_bytes n v) s = le_bytes n (v * 2 ^ s).
Proof.
  intros Hs n. destruct RegR_len as [El ?]. rewrite shl_bytes_spec by (try apply le_bytes_ok; done).
  rewrite length_le_bytes, le_le_bytes; [done|]. unfold n. by rewrite El.
Qed.
Lemma shr_le s : 0 <= s -> let n := Z.to_nat (RegR_bytes k) in
  shr_bytes (le_bytes n v) s = le_bytes n (v / 2 ^ s).
Proof.
  intros Hs n. destruct RegR_len as [El ?]. rewrite shr_bytes_spec by (try apply le_bytes_ok; done).
  rewrite length_le_bytes, le_le_bytes; [done|]. unfold n. by rewrite El.
Qed.

Lemma rotated s : 0 <= s <= 8 * RegR_bytes k -> let n := Z.to_nat (RegR_bytes k) in
  or_bytes (shl_bytes (le_bytes n v) s) (shr_bytes (le_bytes n v) (8 * RegR_bytes k - s))
  = le_bytes n (rotl (8 * RegR_bytes k) s v).
Proof.
  intros Hs n. unfold n. rewrite shl_le, shr_le, <- le_bytes_mod by lia. destruct RegR_len as [El ?].
  rewrite El, or_bytes_spec. by rewrite rot_or by lia.
Qed.

(** The byte loops of the shifts of a general register compute the shift of the
    integer it holds: *)
Definition shifted (op : BitwiseOp) (z : Z) (flag : bool) : Prop :=
  Bitwise_exec op r = (with_st0 flag (with_R k i (Some z) r), Ok ENext).

(** C34. The shifts of a general register, which the source runs byte by byte with
    carries, are the shifts of the integer it holds: a left shift multiplies
    modulo the register, a right shift divides, and the cyclic shifts rotate.  The
    flag [st0] is the bit that leaves first, read before the shift. *)
Theorem register_shifts a2 idx s : s = shift_of a2 idx r -> 0 <= s ->
  let bits := 8 * RegR_bytes k in
  shifted (BW.Shl a2 idx (AR_R k) i) ((v * 2 ^ s) mod 2 ^ bits) (Z.testbit v (bits - 1)) /\
  shifted (BW.ShrR a2 idx k i) (v / 2 ^ s) (Z.odd v) /\
  shifted (BW.Scl a2 idx (AR_R k) i) (rotl bits (s mod bits) v) (Z.testbit v (bits - 1)) /\
  shifted (BW.Scr a2 idx (AR_R k) i) (rotl bits (bits - s mod bits) v) (Z.odd v).
Proof.
  intros -> Hs bits. set (s := shift_of a2 idx r) in *. destruct RegR_len as [El Hl].
  assert (0 < bits) by lia. pose proof (Z.mod_pos_bound s bits ltac:(lia)) as Hm.
  assert (0 < 2 ^ s) by (apply pow2_pos; lia). assert (0 < 2 ^ bits) by (apply pow2_pos; lia).
  unfold shifted, Bitwise_exec, mbind, SE_bind, get. fold s. fold bits.
  assert (forall z, 0 <= z < 2 ^ bits -> z mod 2 ^ bits = z) as Hsmall by (intros; by apply Z.mod_small).
  set (e := s mod bits) in *. clearbody e. split_and!.
  - rewrite (on_R_spec _ _ (Z.testbit v (bits - 1)) (v * 2 ^ s)); [done| |by apply shl_le].
    rewrite msb_spec by lia. by rewrite El.
  - rewrite (on_R_spec _ _ (Z.odd v) (v / 2 ^ s)); [|by apply lsb_spec; lia|by apply shr_le].
    fold bits. rewrite Hsmall; [done|]. split; [apply Z.div_pos; lia|].
    apply Z.div_lt_upper_bound; [lia|]. fold bits in Hrange. nia.
  - rewrite (on_R_spec _ _ (Z.testbit v (bits - 1)) (rotl bits (e) v)).
    + fold bits. rewrite Hsmall by (apply rotl_range; [lia|done]). done.
    + rewrite msb_spec by lia. by rewrite El.
    + apply rotated. fold bits. lia.
  - rewrite (on_R_spec _ _ (Z.odd v) (rotl bits (bits - e) v)).
    + fold bits. rewrite Hsmall by (apply rotl_range; [lia|done]). done.
    + by apply lsb_spec; lia.
    + pose proof (rotated (bits - e)) as Hrot. cbn zeta in Hrot. fold bits in Hrot.
      replace (bits - (bits - e)) with (e) in Hrot by lia. rewrite <- Hrot by lia.
      rewrite shl_le, shr_le, !or_bytes_spec by lia. by rewrite Z.lor_comm.
Qed.
End shifts.

#[local] Existing Instance exact_wide.
#[local] Existing Instance no_floats.

(** The register 2^127 + 5 shifted by 12 *)
Definition demo_regs : CoreRegs :=
  with_A A8 Reg32_1 (Some 12) (with_R R128 Reg32_0 (Some (2 ^ 127 + 5)) regs_default).

Lemma register_shifts_witness :
  shifted R128 Reg32_0 demo_regs (BW.Shl A2_8 Reg32_1 (AR_R R128) Reg32_0) (5 * 2 ^ 12) true /\
  shifted R128 Reg32_0 demo_regs (BW.Scl A2_8 Reg32_1 (AR_R R128) Reg32_0) (5 * 2 ^ 12 + 2 ^ 11) true.
Proof.
  destruct (register_shifts R128 Reg32_0 (2 ^ 127 + 5) demo_regs eq_refl ltac:(cbn; lia) A2_8 Reg32_1 12
    eq_refl ltac:(lia)) as (H1 & _ & H2 & _).
  split; [exact H1|exact H2].
Defined.
