(* ===== verification/AluFrame.v ===== *)
(** * AluVM: what instructions change

    Each instruction reports the registers it may change ([dst_regs] in
    isa/exec.rs).  One proof over all families shows that an invariant of the
    registers survives an instruction when it survives writes to the registers
    the instruction touches; its instances are that registers keep values of their
    width, that registers which are not reported keep their values, and
    that only control flow changes the counters of the machine. *)

From S2P Require Import Prelude AluReg AluNumber AluCursor AluInstr AluBytecode AluRegs AluExec AluShift.
Local Open Scope Z_scope.

(** ** Registers that hold values of their width *)

Definition str_ok (bs : list Z) : Prop := bytes_ok bs /\ len bs <= 65535.

Record regs_ok (r : CoreRegs) : Prop := mkRegsOk {
  ok_A : forall a i v, regA r a i = Some v -> 0 <= v < 2 ^ (8 * RegA_bytes a);
  ok_F : forall f i v, regF r f i = Some v -> 0 <= v < 2 ^ (8 * RegF_bytes f);
  ok_R : forall k i v, regR r k i = Some v -> 0 <= v < 2 ^ (8 * RegR_bytes k);
  ok_S : forall s bs, s16 r s = Some bs -> str_ok bs;
  ok_cy : 0 <= cy0 r < 2 ^ 16;
  ok_cp : 0 <= cp0 r < 2 ^ 16;
  ok_ca : 0 <= ca0 r < 2 ^ 64;
}.

Lemma regs_ok_default : regs_ok regs_default.
Proof. by constructor. Qed.

Definition AFR_bytes (reg : RegAFR) : Z :=
  match reg with AFR_A a => RegA_bytes a | AFR_F f => RegF_bytes f | AFR_R k => RegR_bytes k end.

Lemma AFR_bytes_pos reg : 0 < AFR_bytes reg.
Proof. by destruct reg as [[]|[]|[]]. Qed.


Lemma min_bit_len_nonneg n : 0 <= min_bit_len n.
Proof.
  unfold min_bit_len. destruct (is_float (layout n)) eqn:Ef.
  - unfold nlen. destruct (layout n) as [|[]]; done.
  - destruct (nlen n =? 0); [done|]. set (i := if _ <? nlen n then _ else 0).
    assert (0 <= i) by (unfold i; destruct (Z.ltb_spec (run_top (Z.to_nat (nlen n)) (if is_negative n then 255 else 0)
      (raw n)) (nlen n)); lia).
    pose proof (bitlen_nonneg (byte_of_raw (raw n) i)). pose proof (bitlen_nonneg (255 - byte_of_raw (raw n) i)).
    unfold leading_ones, leading_zeros. destruct (is_negative n), (is_signed_int (layout n)); cbn [Z.b2z]; lia.
Qed.

Lemma to_array_range l n z : to_array l n = Ok z -> 0 <= z < 2 ^ (8 * l).
Proof.
  unfold to_array, assert_, ensure. set (m := (min_bit_len n + 7) / 8). pose proof (min_bit_len_nonneg n).
  assert (0 <= m) by (apply Z.div_pos; lia).
  destruct (Z.leb_spec m l); [|done]. intros [= <-]. unfold low_bytes.
  pose proof (Z.mod_pos_bound (raw n) (2 ^ (8 * m)) ltac:(apply pow2_pos; lia)).
  assert (2 ^ (8 * m) <= 2 ^ (8 * l)) by (apply Z.pow_le_mono_r; lia). lia.
Qed.

Lemma number_into_range reg n z : number_into reg n = Ok z -> 0 <= z < 2 ^ (8 * AFR_bytes reg).
Proof.
  destruct reg; cbn; unfold to_uint; try apply to_array_range;
    intros (? & _ & ?)%result_bind_Ok; by eapply to_array_range.
Qed.

Lemma upd_eq {K V} `{EqDecision K} (k : K) (v : V) f : upd k v f k = v.
Proof. unfold upd. by rewrite decide_True. Qed.
Lemma upd_ne {K V} `{EqDecision K} (k k' : K) (v : V) f : k' <> k -> upd k v f k' = f k'.
Proof. intros. unfold upd. by rewrite decide_False. Qed.

Lemma regs_ok_with_reg reg i v r : regs_ok r -> (forall z, v = Some z -> 0 <= z < 2 ^ (8 * AFR_bytes reg)) ->
  regs_ok (with_reg reg i v r).
Proof.
  intros [] Hv. destruct reg as [a|f|k]; constructor; cbn; try done; intros x j z;
    unfold upd; repeat case_decide; subst; eauto.
Qed.
Lemma regs_ok_with_s16 s v r : regs_ok r -> (forall bs, v = Some bs -> str_ok bs) -> regs_ok (with_s16 s v r).
Proof.
  intros [] Hv. constructor; cbn; try done. intros x bs. unfold upd. case_decide; subst; eauto.
Qed.
Lemma regs_ok_with_st0 b r : regs_ok r -> regs_ok (with_st0 b r).
Proof. by intros []. Qed.
Lemma regs_ok_with_out o r : regs_ok r -> regs_ok (with_out o r).
Proof. by intros []. Qed.

(** ** Invariants that survive writes to some registers *)

(** [I] survives writes to the registers in [W] and to [st0] and the results. *)
Class Frame (I : CoreRegs -> Prop) (W : Reg -> Prop) := {
  fr_reg : forall reg i v r, W (reg_of reg i) -> I r -> I (with_reg reg i v r);
  fr_str : forall s v r, W (Reg_S s) -> I r -> I (with_s16 (s_index s) v r);
  fr_st0 : forall b r, I r -> I (with_st0 b r);
  fr_out : forall o r, I r -> I (with_out o r);
}.

Section frame.
Context (debug : bool) `{Wide} `{fs : Floats} `{Digests} `{Secp}.
Context (I : CoreRegs -> Prop) (W : Reg -> Prop) `{!Frame I W}.

Definition J (r : CoreRegs) : Prop := I r /\ regs_ok r.

(** [m] keeps the invariant, whatever it returns. *)
Definition keeps {A} (m : RM A) : Prop := forall r, J r -> wp m (fun r' _ => J r') r.

Lemma J_reg reg i v r : W (reg_of reg i) -> (forall z, v = Some z -> 0 <= z < 2 ^ (8 * AFR_bytes reg)) ->
  J r -> J (with_reg reg i v r).
Proof. intros HW Hv [HI Hr]. split; [by eapply fr_reg|by apply regs_ok_with_reg]. Qed.
Lemma J_str s v r : W (Reg_S s) -> (forall bs, v = Some bs -> str_ok bs) -> J r -> J (with_s16 (s_index s) v r).
Proof. intros HW Hv [HI Hr]. split; [by eapply fr_str|by apply regs_ok_with_s16]. Qed.
Lemma J_st0 b r : J r -> J (with_st0 b r).
Proof. intros [HI Hr]. split; [by eapply fr_st0|by apply regs_ok_with_st0]. Qed.
Lemma J_out o r : J r -> J (with_out o r).
Proof. intros [HI Hr]. split; [by eapply fr_out|by apply regs_ok_with_out]. Qed.

(** Rules for the calls that write registers: the state after the call keeps the
    invariant, and its result is arbitrary. *)
Lemma wp_keeps {A} (m : RM A) Q r : keeps m -> J r ->
  (forall r' x, J r' -> Q r' x) -> wp m Q r.
Proof. intros Hm Hr HQ. eapply wp_mono; [by apply Hm|]. auto. Qed.

Lemma keeps_set_n reg i v : W (reg_of reg i) -> keeps (set_n reg i v).
Proof.
  intros HW r Hr. unfold set_n. destruct v as [n|]; wp_steps.
  - destruct (number_into reg n) as [z|e] eqn:Hz; [|done]. wp_steps. apply J_reg; [done| |done].
    intros ? [= <-]. by eapply number_into_range.
  - by apply J_reg.
Qed.
Lemma keeps_set_st0 b : keeps (set_st0 b).
Proof. intros r Hr. unfold set_st0. wp_steps. by apply J_st0. Qed.
Lemma keeps_set_n_if reg i v : W (reg_of reg i) -> keeps (set_n_if reg i v).
Proof.
  intros HW r Hr. unfold set_n_if, wp. destruct (get_n reg i r); [done|]. by apply keeps_set_n.
Qed.
Lemma keeps_sets16 s v : W (Reg_S s) -> (forall bs, v = Some bs -> str_ok bs) -> keeps (sets16 s v).
Proof. intros HW Hv r Hr. unfold sets16. wp_steps. by apply J_str. Qed.
Lemma keeps_push v : keeps (push_outstack v).
Proof.
  intros r Hr. unfold push_outstack, wp. destruct (_ <=? _); [by apply J_st0|by apply J_out].
Qed.

Lemma frame_bind {A B} (m : RM A) (f : A -> RM B) : keeps m -> (forall x, keeps (f x)) -> keeps (m ≫= f).
Proof.
  intros Hm Hf r Hr. apply wp_bind. apply wp_keeps; [done..|]. intros r' [x|e] Hr'; [by apply Hf|done].
Qed.
Lemma frame_ret {A} (x : A) : keeps (mret x).
Proof. by intros r Hr. Qed.
Lemma frame_lift {A} (x : result panic A) : keeps (lift x).
Proof. by intros r Hr. Qed.
Lemma frame_fail {A} e : keeps (A := A) (fail e).
Proof. by intros r Hr. Qed.
Lemma keeps_get : keeps get.
Proof. by intros r Hr. Qed.
Lemma keeps_gets {A} (f : CoreRegs -> A) : keeps (gets f).
Proof. by intros r Hr. Qed.

(** Steps through a computation by its syntax *)
Ltac keep := repeat (lazymatch goal with
  | |- keeps (_ ≫= _) => apply frame_bind; [|intros ?]
  | |- keeps (mret _) => apply frame_ret
  | |- keeps (lift _) => apply frame_lift
  | |- keeps (fail _) => apply frame_fail
  | |- keeps get => apply keeps_get
  | |- keeps (gets _) => apply keeps_gets
  | |- keeps (gets16 _) => apply keeps_gets
  | |- keeps (a16 _) => apply keeps_gets
  | |- keeps (set_st0 _) => apply keeps_set_st0
  | |- keeps (push_outstack _) => apply keeps_push
  | |- keeps (set_n _ _ _) => apply keeps_set_n
  | |- keeps (set_n_if _ _ _) => apply keeps_set_n_if
  | |- keeps (match ?x with _ => _ end) => destruct x
  end; cbv beta).

Lemma keeps_op2 reg1 i1 reg2 i2 reg3 d f : W (reg_of reg3 d) -> keeps (op2 reg1 i1 reg2 i2 reg3 d f).
Proof. intros. unfold op2. by keep. Qed.

Lemma keeps_on_R k i flag f : W (Reg_R k i) ->
  (forall z, 0 <= z -> exists z', f (le_bytes (Z.to_nat (RegR_bytes k)) z) = le_bytes (Z.to_nat (RegR_bytes k)) z') ->
  keeps (on_R k i flag f).
Proof.
  intros HW Hf r Hr. unfold on_R, wp. destruct (regR r k i) as [v|] eqn:Hv; [|done].
  apply J_st0. apply (J_reg (AFR_R k)); [done| |done]. intros ? [= <-].
  destruct Hr as [_ []]. destruct (Hf v) as [z' ->]; [by eapply ok_R0|]. rewrite le_le_bytes_mod.
  replace (Z.of_nat (Z.to_nat (RegR_bytes k))) with (RegR_bytes k) by (by destruct k).
  apply Z.mod_pos_bound, pow2_pos. by destruct k.
Qed.

(** ** The families *)

(** The reported registers may be written. *)
Definition allowed (l : list Reg) : Prop := Forall W l.

Ltac allow := unfold allowed in *; cbn in *; rewrite ?Forall_cons in *; tauto.

Lemma Put_keeps op : allowed (Put_dst op) ->
  match op with PU.ClrA reg i => W (Reg_A reg i) | PU.ClrF reg i => W (Reg_F reg i)
              | PU.ClrR reg i => W (Reg_R reg i) | _ => True end -> keeps (Put_exec op).
Proof. intros Hw Hc. destruct op; cbn [Put_exec] in *; unfold fail_unless; keep; allow. Qed.

Lemma Move_keeps op : allowed (Move_dst op) -> keeps (Move_exec op).
Proof.
  intros Hw. destruct op; cbn [Move_exec]; unfold mov, dup, swp, convert; keep; allow.
Qed.

Lemma Cmp_keeps op : allowed (Cmp_dst op) -> keeps (Cmp_exec op).
Proof. intros Hw. destruct op; cbn [Cmp_exec]; unfold compared, equal; keep; allow. Qed.

Lemma Arithmetic_keeps op : allowed (Arithmetic_dst op) -> keeps (Arithmetic_exec debug op).
Proof.
  intros Hw. unfold Arithmetic_exec. apply frame_bind; [|intros b; keep].
  destruct op; cbn [Arithmetic_run]; unfold unary, binary; keep; allow.
Qed.

(** A read gives a value of the registers as they are. *)
Lemma frame_read {A B} (g : CoreRegs -> A) (f : A -> RM B) :
  (forall r, regs_ok r -> keeps (f (g r))) -> keeps (gets g ≫= f).
Proof. intros Hf r Hr. apply wp_bind, wp_gets. apply Hf; [by destruct Hr|done]. Qed.

Lemma keeps_get_bind {B} (f : CoreRegs -> RM B) : (forall r, regs_ok r -> keeps (f r)) -> keeps (get ≫= f).
Proof. exact (frame_read (fun r => r) f). Qed.

Lemma shift_of_nonneg a2 i r : regs_ok r -> 0 <= shift_of a2 i r.
Proof.
  intros Hr. unfold shift_of. destruct (regA r (of_A2 a2) i) as [v|] eqn:Hv; [|done].
  cbn. destruct (ok_A r Hr _ _ _ Hv). lia.
Qed.

Lemma rev_bits_range n z : 0 <= rev_bits n z < 2 ^ Z.of_nat n.
Proof.
  revert z. induction n as [|n IH]; intros z; [done|]. cbn [rev_bits]. specialize (IH (z / 2)).
  rewrite Z.shiftl_mul_pow2, Nat2Z.inj_succ, Z.pow_succ_r by lia. destruct (Z.odd z); cbn [Z.b2z]; lia.
Qed.

Lemma bytes_are_le l n : bytes_ok l -> length l = n -> exists z, l = le_bytes n z.
Proof. intros Hl <-. exists (le l). by rewrite le_bytes_le. Qed.

(** The loops over the bytes of a register give bytes of the same length. *)
Definition bytewise (f : list Z -> list Z) : Prop :=
  forall n z, 0 <= z -> exists z', f (le_bytes n z) = le_bytes n z'.

Lemma bytewise_shl s : 0 <= s -> bytewise (fun o => shl_bytes o s).
Proof.
  intros Hs n z Hz. rewrite shl_bytes_spec, length_le_bytes by (try apply le_bytes_ok; done). by eexists.
Qed.
Lemma bytewise_shr s : 0 <= s -> bytewise (fun o => shr_bytes o s).
Proof.
  intros Hs n z Hz. rewrite shr_bytes_spec, length_le_bytes by (try apply le_bytes_ok; done). by eexists.
Qed.
Lemma bytewise_or f g : bytewise f -> bytewise g -> bytewise (fun o => or_bytes (f o) (g o)).
Proof.
  intros Hf Hg n z Hz. destruct (Hf n z Hz) as [x ->], (Hg n z Hz) as [y ->]. rewrite or_bytes_spec. by eexists.
Qed.
Lemma bytewise_rev : bytewise (fun o => map (rev_bits 8) (rev o)).
Proof.
  intros n z Hz. apply bytes_are_le; [|by rewrite length_map, length_rev, length_le_bytes].
  apply Forall_forall. intros b (x & -> & _)%list_elem_of_fmap. exact (rev_bits_range 8 x).
Qed.
Create HintDb bytewise.
Hint Resolve bytewise_shl bytewise_shr bytewise_or bytewise_rev : bytewise.

Lemma mod_bits k s : 0 <= s mod (8 * RegR_bytes k) <= 8 * RegR_bytes k.
Proof. pose proof (Z.mod_pos_bound s (8 * RegR_bytes k)) as Hm. destruct k; cbn in *; lia. Qed.

Lemma Bitwise_keeps op : allowed (Bitwise_dst op) -> keeps (Bitwise_exec op).
Proof.
  intros Hw. assert (forall k i flag f, W (Reg_R k i) -> bytewise f -> keeps (on_R k i flag f)) as HR.
  { intros. apply keeps_on_R; [done|]. auto. }
  destruct op as [| | | |a2 idx [] i| |a2 idx k i|a2 idx [] i|a2 idx [] i| |]; cbn [Bitwise_exec];
    unfold byte_at; try (keep; try apply keeps_op2; allow);
    apply keeps_get_bind; intros q Hq; (apply frame_bind; [|intros; keep]); (apply HR; [allow|]);
    try pose proof (shift_of_nonneg a2 idx q Hq);
    try match goal with |- context [?s mod (8 * RegR_bytes ?k)] =>
      pose proof (mod_bits k s); set (s mod (8 * RegR_bytes k)) in * end;
    auto 6 with bytewise lia.
Qed.

Lemma keeps_read_str {B} s (f : option (list Z) -> RM B) :
  (forall v, (forall bs, v = Some bs -> str_ok bs) -> keeps (f v)) -> keeps (gets16 s ≫= f).
Proof. intros Hf. apply frame_read. intros r Hr. apply Hf. intros bs. by apply ok_S. Qed.

Lemma keeps_read_A {B} a i (f : option Z -> RM B) :
  (forall v, (forall z, v = Some z -> 0 <= z < 2 ^ (8 * RegA_bytes a)) -> keeps (f v)) ->
  keeps (gets (fun r => regA r a i) ≫= f).
Proof. intros Hf. apply frame_read. intros r Hr. apply Hf. intros z. by apply ok_A. Qed.

Lemma keeps_lift_bind {A B} (x : result panic A) (f : A -> RM B) :
  (forall a, x = Ok a -> keeps (f a)) -> keeps (lift x ≫= f).
Proof. intros Hf r Hr. apply wp_bind, wp_lift. destruct x; [by apply Hf|done]. Qed.

(** Filling keeps strings within their limit. *)
Lemma fill_ok bs a b v bs' : str_ok bs -> 0 <= a -> 0 <= b <= 65535 -> 0 <= v < 256 ->
  fill bs a b v = Ok bs' -> str_ok bs'.
Proof.
  intros [Hb Hl] Ha Hb' Hv. unfold fill, assert_, ensure. destruct (Z.leb_spec a b); [|done].
  intros [= <-]. split.
  - assert (bytes_ok (bs ++ repeat 0 (Z.to_nat b - length bs))) as Hx.
    { apply Forall_app. split; [done|]. apply Forall_forall. by intros ? ->%list_elem_of_In%repeat_spec. }
    unfold bytes_ok in *. rewrite !Forall_app. split_and!; [by apply Forall_take| |by apply Forall_drop].
    apply Forall_forall. by intros ? ->%list_elem_of_In%repeat_spec.
  - unfold len in *. rewrite !length_app, length_take, length_drop, length_app, !repeat_length. lia.
Qed.

(** The registers that the instructions over strings write although they are
    not reported *)
Definition Bytes_hidden (op : BytesOp) : list Reg :=
  match op with
  | BY.Mov s1 _ => [Reg_S s1]
  | BY.Find _ _ => [Reg_A A16 Reg32_0]
  | BY.Inj _ dst i _ => [reg_of (of_AR dst) (r16 i)]
  | _ => []
  end.
Definition Bytes_ok (op : BytesOp) : Prop :=
  match op with BY.Put _ bs _ => str_ok bs | _ => True end.

Lemma Fill_keeps reg o1 o2 v flag : W (Reg_S reg) -> keeps (fill_ reg o1 o2 v flag).
Proof.
  intros HW. unfold fill_, a16. apply keeps_read_A. intros x1 Hx1. apply keeps_read_A. intros x2 Hx2.
  apply keeps_read_A. intros w Hw. destruct x1 as [a|], x2 as [b|], w as [c|]; [|by keep..].
  apply keeps_read_str. intros s Hs.
  assert (str_ok (default [] s)) as Hd by (destruct s; cbn; [by apply Hs|split; [constructor|done]]).
  apply frame_bind; [apply keeps_sets16; [done|by intros ? [= <-]]|].
  intros _. match goal with |- keeps (if ?b then _ else _) => destruct b end; [keep|].
  apply keeps_lift_bind. intros s' Hf.
  apply frame_bind; [|intros; keep]. apply keeps_sets16; [done|]. intros ? [= <-].
  destruct (Hx1 a eq_refl), (Hx2 b eq_refl), (Hw c eq_refl).
  change (2 ^ (8 * RegA_bytes A16)) with 65536 in *.
  refine (fill_ok _ _ _ _ _ Hd _ _ _ Hf); [lia..|done].
Qed.

Ltac keep_str := repeat (lazymatch goal with
  | |- keeps (gets16 _ ≫= _) => apply keeps_read_str; intros ?v ?Hv
  | |- keeps (gets (fun r => regA r _ _) ≫= _) => apply keeps_read_A; intros ?v ?Hv
  | |- keeps (lift _ ≫= _) => apply keeps_lift_bind; intros ? ?
  | |- keeps (_ ≫= _) => apply frame_bind; [|intros ?]
  | |- keeps (match ?x with _ => _ end) => destruct x
  | |- keeps ((match ?x with _ => _ end) _) => destruct x
  | |- keeps (sets16 _ _) => apply keeps_sets16
  | |- keeps (fill_ _ _ _ _ _) => apply Fill_keeps
  | |- keeps _ => progress keep
  end; cbv beta).

(** The range that [Inj] writes to is always out of bounds. *)
Lemma inj_panics (bs : list Z) e o : 0 <= e ->
  assert_ ((o <=? e + 1) && (e + 1 <=? len (take (Z.to_nat e) (bs ++ repeat 0 (Z.to_nat e - length bs))))) "slice index"
  = Err (Abort "slice index").
Proof.
  intros He. unfold assert_, ensure, len. rewrite length_take, length_app, repeat_length.
  rewrite (proj2 (Z.leb_gt _ (Z.of_nat _))) by lia. by rewrite andb_false_r.
Qed.

Lemma Bytes_keeps op : allowed (Bytes_dst op) -> allowed (Bytes_hidden op) -> Bytes_ok op -> keeps (Bytes_exec op).
Proof.
  intros Hw Hh Hop. destruct op; cbn [Bytes_exec Bytes_ok] in *;
    unfold or_else, len_, cnt_, find_, con_, extr_, inj_, join_, a16; keep_str; try allow.
  all: try (intros ? [= <-]; eauto; fail).
  - match goal with Ha : assert_ _ "slice index" = Ok _, Hz : forall z, Some ?o = Some z -> _ |- _ =>
      destruct (Hz o eq_refl); rewrite inj_panics in Ha; [done|] end.
    unfold saturating_add, umax. destruct dst as [[]|[]]; cbn [RegAR_bytes RegA_bytes RegR_bytes]; lia.
  - intros ? [= <-]. destruct (Hv l eq_refl) as [Hb Hl]. split.
    + by apply Forall_rev.
    + unfold len in *. by rewrite length_rev.
Qed.

Lemma Digest_keeps op : allowed (Digest_dst op) -> keeps (Digest_exec op).
Proof. intros Hw. destruct op; cbn [Digest_exec]; unfold digest_to; keep; allow. Qed.

Lemma Secp_keeps op : allowed (Secp_dst_regs op) -> keeps (Secp_exec op).
Proof. intros Hw. unfold Secp_exec. keep. destruct op; allow. Qed.

Lemma Outstack_keeps op : keeps (Outstack_exec op).
Proof. destruct op. cbn [Outstack_exec]. unfold jump_if. keep. Qed.

End frame.

(** ** Control flow *)

(** [I] survives the changes of the jump counter and of the call stack, too. *)
Class CFrame (I : CoreRegs -> Prop) (W : Reg -> Prop) := {
  cfr_frame :: Frame I W;
  cfr_cy0 : forall n r, I r -> I (with_cy0 n r);
  cfr_stack : forall cs cp r, I r -> I (with_stack cs cp r);
}.

Section control.
Context (I : CoreRegs -> Prop) (W : Reg -> Prop) `{!CFrame I W}.

Lemma J_cy0 n r : 0 <= n < 2 ^ 16 -> J I r -> J I (with_cy0 n r).
Proof. intros Hn [HI []]. split; [by apply (cfr_cy0 (W := W))|by constructor]. Qed.
Lemma J_stack cs cp r : 0 <= cp < 2 ^ 16 -> J I r -> J I (with_stack cs cp r).
Proof. intros Hn [HI []]. split; [by apply (cfr_stack (W := W))|by constructor]. Qed.

Lemma keeps_jmp : keeps I jmp.
Proof.
  intros r Hr. unfold jmp, wp. destruct (checked_add 16 (cy0 r) 1) as [n|] eqn:Hn; [|by apply (J_st0 I W)].
  apply checked_add_Some in Hn as [-> Hn]. destruct Hr as [? Hr]. pose proof (ok_cy r Hr).
  apply J_cy0; [unfold umax in Hn; lia|done].
Qed.
Lemma keeps_call s : keeps I (call s).
Proof.
  intros r Hr. unfold call, wp. destruct (checked_add 16 (cy0 r) 1) as [n|] eqn:Hn; [|by apply (J_st0 I W)].
  apply checked_add_Some in Hn as [-> Hn]. destruct Hr as [HI Hr]. pose proof (ok_cy r Hr). pose proof (ok_cp r Hr).
  assert (J I (with_stack (upd (cp0 r) s (cs0 r)) (cp0 r) (with_cy0 (cy0 r + 1) r))).
  { apply J_stack; [done|]. apply J_cy0; [unfold umax in Hn; lia|done]. }
  destruct (checked_add 16 (cp0 r) 1); [done|by apply (J_st0 I W)].
Qed.
Lemma keeps_ret_ : keeps I ret.
Proof.
  intros r Hr. unfold ret, wp. destruct (Z.eqb_spec (cp0 r) 0); [done|].
  destruct Hr as [HI Hr]. pose proof (ok_cp r Hr). apply J_stack; [lia|done].
Qed.

Lemma ControlFlow_keeps op site : keeps I (ControlFlow_exec op site).
Proof.
  destruct op; cbn [ControlFlow_exec]; unfold jump_if;
    repeat (first [apply keeps_jmp | apply keeps_call | apply keeps_ret_ | apply frame_ret | apply keeps_get
                  | apply frame_bind; [|intros ?x] | match goal with |- keeps _ (if ?b then _ else _) => destruct b end]).
Qed.

End control.

(** Offsets are unsigned. *)
Definition ControlFlow_ok (op : ControlFlowOp) : Prop :=
  match op with CF.Jmp pos | CF.Jif pos | CF.Routine pos => 0 <= pos | _ => True end.

(** ** What an instruction set promises to the machine *)

(** What is left of the jumps and returns of a run *)
Definition budget (r : CoreRegs) : Z := 65535 - cy0 r + cp0 r.

(** The counters that only control flow changes *)
Definition counters (r : CoreRegs) : Z * Z * Z * option Z := (cy0 r, cp0 r, ca0 r, cl0 r).

(** An extension computes on registers: it changes the registers it reports and
    some hidden ones, and leaves control flow to the core. *)
Class ExtensionLaws (A Ctx : Type) `{InstructionSet A Ctx} := {
  hidden : A -> list Reg;
  op_ok : A -> Prop;
  ctx_ok : Ctx -> Prop;
  complexity_pos : forall i, 1 <= complexity i;
  ext_keeps : forall I W, Frame I W -> forall i site ctx, op_ok i -> ctx_ok ctx ->
    allowed W (dst_regs i) -> allowed W (hidden i) -> keeps I (exec i site ctx);
  ext_step : forall i site ctx r r' s, exec i site ctx r = (r', Ok s) ->
    match s with EJump _ | ECall _ => False | _ => True end;
}.

#[export] Instance Reserved_set_laws : ExtensionLaws ReservedOp unit.
Proof.
  refine {| hidden _ := []; op_ok _ := True; ctx_ok _ := True |}; [done| |].
  - intros I W Hf i site ctx _ _ _ _. cbn. apply frame_ret.
  - by intros ????? s [= <- <-].
Defined.

(** An instruction set of the machine: registers, metering and control flow. *)
Class InstructionLaws (A Ctx : Type) `{InstructionSet A Ctx} := {
  unreported : A -> list Reg;
  operands_ok : A -> Prop;
  context_ok : Ctx -> Prop;
  metered : forall i, 1 <= complexity i;
  exec_keeps : forall I W, CFrame I W -> forall i site ctx, operands_ok i -> context_ok ctx ->
    allowed W (dst_regs i) -> allowed W (unreported i) -> keeps I (exec i site ctx);
  exec_budget : forall i site ctx r r' s, operands_ok i -> context_ok ctx -> regs_ok r -> exec i site ctx r = (r', Ok s) ->
    match s with
    | ENext => budget r' <= budget r
    | EJump pos => 0 <= pos /\ budget r' < budget r
    | ECall _ => budget r' < budget r
    | EStop | EFail => True
    end;
}.

#[export] Instance counters_frame c : Frame (fun r => counters r = c) (fun _ => True).
Proof. by constructor; [intros []|..]. Qed.

#[export] Instance reg_frame x v : CFrame (fun r => reg_val r x = v) (fun y => y <> x).
Proof.
  constructor; [constructor|done|done]; [| |done|done].
  - intros reg i z r Hne <-. destruct reg as [a|f|k], x as [b j|b j|b j|s]; cbn in *; try done;
      unfold upd; repeat case_decide; subst; (done || congruence).
  - intros s z r Hne <-. destruct x as [b j|b j|b j|s']; cbn in *; try done. f_equal.
    apply upd_ne. intros Hs. apply Hne. destruct s, s'; cbn in *; by subst.
Qed.

#[export] Instance meter_frame c : CFrame (fun r => (ca0 r, cl0 r) = c) (fun _ => True).
Proof. constructor; [constructor|done|done]; [by intros []|done..]. Qed.

#[export] Instance true_frame : CFrame (fun _ => True) (fun _ => True).
Proof. by repeat constructor. Qed.

Section instr_keeps.
Context (debug : bool) `{Wide} `{fs : Floats} `{Digests} `{Secp}.
Context {Ext Ctx : Type} `{ExtensionLaws Ext Ctx}.

#[local] Instance the_set : InstructionSet (Instr Ext) Ctx := Instr_set debug.

(** What an instruction writes without reporting it: the clearing instructions
    report nothing, and three string instructions miss a register. *)
Definition Instr_hidden (i : Instr Ext) : list Reg :=
  match i with
  | Put (PU.ClrA reg i) => [Reg_A reg i]
  | Put (PU.ClrF reg i) => [Reg_F reg i]
  | Put (PU.ClrR reg i) => [Reg_R reg i]
  | Bytes op => Bytes_hidden op
  | ExtensionCodes op => hidden op
  | _ => []
  end.

Definition Instr_ok (i : Instr Ext) : Prop :=
  match i with
  | ControlFlow op => ControlFlow_ok op
  | Bytes op => Bytes_ok op
  | ExtensionCodes op => op_ok op
  | _ => True
  end.

(** Every instruction but control flow *)
Lemma Instr_keeps_data I W `{!Frame I W} i site ctx :
  Instr_ok i -> ctx_ok ctx -> allowed W (Instr_dst i) -> allowed W (Instr_hidden i) ->
  match i with ControlFlow _ => False | _ => True end -> keeps I (Instr_exec debug i site ctx).
Proof.
  intros Hop Hctx Hw Hh Hc. destruct i as [op|op|op|op|op|op|op|op|op|op|op|op|op|]; cbn [Instr_exec Instr_ok Instr_dst] in *.
  - done.
  - apply (Put_keeps I W); [done|]. unfold allowed in Hh. destruct op; try done; by apply Forall_inv in Hh.
  - by apply (Move_keeps I W).
  - by apply (Cmp_keeps I W).
  - by apply (Arithmetic_keeps debug I W).
  - by apply (Bitwise_keeps I W).
  - by apply (Bytes_keeps I W).
  - by apply (Digest_keeps I W).
  - by apply (Secp_keeps I W).
  - apply frame_fail.
  - by apply (Outstack_keeps I W).
  - by apply (ext_keeps I W).
  - apply frame_ret.
  - apply frame_ret.
Qed.

Lemma Instr_keeps I W `{!CFrame I W} i site ctx :
  Instr_ok i -> ctx_ok ctx -> allowed W (Instr_dst i) -> allowed W (Instr_hidden i) -> keeps I (Instr_exec debug i site ctx).
Proof.
  intros. destruct i; try (by apply (Instr_keeps_data I W)). by apply (ControlFlow_keeps I W).
Qed.

Lemma Instr_metered (i : Instr Ext) : 1 <= Instr_complexity i.
Proof. destruct i as [| | | |op| | | | | | |op| |]; cbn; try lia; [by destruct op|apply complexity_pos]. Qed.

Lemma allowed_all l : allowed (fun _ => True) l.
Proof. by apply Forall_true. Qed.

(** Computations end in the next step or a failure. *)
Definition plain_step (m : RM ExecStep) : Prop :=
  forall r r' s, m r = (r', Ok s) -> s = ENext \/ s = EFail.

Lemma plain_bind {A} (m : RM A) f : (forall x, plain_step (f x)) -> plain_step (m ≫= f).
Proof.
  intros Hf r r' s. unfold mbind, SE_bind. destruct (m r) as [r1 [x|e]]; [apply Hf|done].
Qed.
Lemma plain_next : plain_step (mret ENext).
Proof. intros r r' s [= <- <-]. by left. Qed.
Lemma plain_fail : plain_step (mret EFail).
Proof. intros r r' s [= <- <-]. by right. Qed.
Lemma plain_if (b : bool) : plain_step (mret (if b then ENext else EFail)).
Proof. destruct b; [apply plain_next|apply plain_fail]. Qed.
Lemma plain_panic e : plain_step (fail e).
Proof. done. Qed.

Ltac plain_steps := repeat (first
  [apply plain_next | apply plain_fail | apply plain_if | apply plain_panic | apply plain_bind; intros ?x
  | match goal with |- plain_step (match ?x with _ => _ end) => destruct x end]; cbv beta).

Lemma Instr_plain (i : Instr Ext) site (ctx : Ctx) :
  match i with ControlFlow _ | ExtensionCodes _ => False | _ => True end -> plain_step (Instr_exec debug i site ctx).
Proof.
  intros Hi. destruct i as [op|op|op|op|op|op|op|op|op|op|op|op|op|]; try done; cbn [Instr_exec].
  - destruct op; cbn [Put_exec]; plain_steps.
  - destruct op; cbn [Move_exec]; unfold mov, dup, swp, convert; plain_steps.
  - destruct op; cbn [Cmp_exec]; unfold compared, equal; plain_steps.
  - unfold Arithmetic_exec. plain_steps.
  - destruct op as [| | | |? ? []| | |? ? []|? ? []| |]; cbn [Bitwise_exec]; plain_steps.
  - destruct op; cbn [Bytes_exec]; unfold or_else; plain_steps.
  - destruct op; cbn [Digest_exec]; unfold digest_to; plain_steps.
  - unfold Secp_exec. plain_steps.
  - destruct op. cbn [Outstack_exec]. unfold jump_if. plain_steps.
  - apply plain_fail.
  - apply plain_next.
Qed.

Lemma counters_kept i site ctx r r' x : Instr_ok i -> ctx_ok ctx -> regs_ok r ->
  match i with ControlFlow _ => False | _ => True end ->
  Instr_exec debug i site ctx r = (r', x) -> counters r' = counters r.
Proof.
  intros Hop Hctx Hr Hc He. destruct (Instr_keeps_data (fun r' => counters r' = counters r) _ i site ctx Hop Hctx
    (allowed_all _) (allowed_all _) Hc r) as [HI _]; [done|]. by rewrite He in HI.
Qed.

(** Jumps and calls use up the jump counter, and returns the call stack. *)
Lemma ControlFlow_budget op site r r' s : ControlFlow_ok op -> regs_ok r ->
  ControlFlow_exec op site r = (r', Ok s) ->
  match s with
  | ENext => budget r' <= budget r
  | EJump pos => 0 <= pos /\ budget r' < budget r
  | ECall _ => budget r' < budget r
  | EStop | EFail => True
  end.
Proof.
  intros Hop Hr. assert (forall n, checked_add 16 (cy0 r) 1 = Some n -> n = cy0 r + 1) as Hcy
    by (intros n Hn; by apply checked_add_Some in Hn as [-> _]).
  pose proof (ok_cp r Hr).
  destruct op; cbn [ControlFlow_exec ControlFlow_ok] in *; unfold jump_if, jmp, call, ret, mbind, SE_bind, get, mret, SE_ret;
    repeat match goal with
    | |- context [checked_add 16 (cy0 r) 1] => destruct (checked_add 16 (cy0 r) 1) as [n|] eqn:?;
        [rewrite (Hcy n) by done|]
    | |- context [checked_add 16 (cp0 r) 1] => destruct (checked_add 16 (cp0 r) 1)
    | |- context [cp0 r =? 0] => destruct (Z.eqb_spec (cp0 r) 0)
    | |- context [st0 r] => destruct (st0 r)
    end; cbn; intros [= <- <-]; unfold budget; cbn; lia.
Qed.

#[export] Instance Instr_set_laws : InstructionLaws (Instr Ext) Ctx.
Proof.
  refine {| unreported := Instr_hidden; operands_ok := Instr_ok; context_ok := ctx_ok; metered := Instr_metered;
            exec_keeps := Instr_keeps |}.
  intros i site ctx r r' s Hop Hctx Hr He. cbn [exec the_set Instr_set] in He.
  assert (match i with ControlFlow _ => False | _ => True end -> budget r' = budget r) as Hb.
  { intros Hc. pose proof (counters_kept i site ctx r r' (Ok s) Hop Hctx Hr Hc He) as [= E1 E2 _ _].
    unfold budget. by rewrite E1, E2. }
  destruct i as [op|op|op|op|op|op|op|op|op|op|op|op|op|].
  { by apply (ControlFlow_budget op site). }
  11: { apply ext_step in He. specialize (Hb Logic.I). destruct s; done || lia. }
  all: specialize (Hb Logic.I); apply Instr_plain in He as [-> | ->]; done || lia.
Defined.

(** An instruction changes only the registers that it reports, apart from
    the listed exceptions: the clearing instructions report nothing, moving a string
    does not report its source, searching does not report the counter it writes, and
    injecting does not report the register it clears when it fails. *)
Theorem reported_registers i site ctx r r' x y : Instr_ok i -> ctx_ok ctx -> regs_ok r ->
  exec i site ctx r = (r', x) -> y ∉ dst_regs i -> y ∉ Instr_hidden i -> reg_val r' y = reg_val r y.
Proof.
  intros Hop Hctx Hr He Hd Hh.
  destruct (Instr_keeps (fun r' => reg_val r' y = reg_val r y) _ i site ctx Hop Hctx) with r as [HI _].
  - apply Forall_forall. by intros z Hz ->.
  - apply Forall_forall. by intros z Hz ->.
  - done.
  - cbn [exec the_set Instr_set] in He. by rewrite He in HI.
Qed.

End instr_keeps.

(** Stand-ins for the digests and the curve, for evaluating examples *)
#[local] Instance demo_digests : Digests :=
  {| ripemd160 _ := repeat 0 20; sha256 _ := repeat 0 32; sha512 _ := repeat 0 64; blake3 _ := repeat 0 32 |}.
#[local] Instance demo_secp : Secp :=
  {| PK := unit; pk_of_secret _ := None; pk_from_slice _ := None; pk_mul _ _ := None; pk_combine _ _ := None;
     pk_negate x := x; pk_uncompressed _ := [] |}.
#[local] Existing Instance exact_wide.
#[local] Existing Instance no_floats.

(** The value of [A16 1] after [A8 0] is added to [A8 1] *)
Lemma reported_registers_witness :
  let r := with_A A8 Reg32_0 (Some 2) (with_A A8 Reg32_1 (Some 3) (with_A A16 Reg32_1 (Some 7) regs_default)) in
  reg_val (exec (InstructionSet := the_set (Ext := ReservedOp) (Ctx := unit) true)
    (Arithmetic (AR.AddA {| signed := false; wrap := true |} A8 Reg32_0 Reg32_1)) default_site tt r).1
    (Reg_A A16 Reg32_1) = Some (inl 7).
Proof.
  intros r. eapply (reported_registers (Ext := ReservedOp) (Ctx := unit) true
    (Arithmetic (AR.AddA {| signed := false; wrap := true |} A8 Reg32_0 Reg32_1)) default_site tt r);
    [done|done| |apply surjective_pairing|..].
  - repeat apply (regs_ok_with_reg (AFR_A _)); [apply regs_ok_default|..]; intros ? [= <-]; cbn; lia.
  - cbn. by intros [=]%list_elem_of_singleton.
  - cbn. by intros ?%not_elem_of_nil.
Defined.
