(* ===== verification/AluProgress.v ===== *)
(** * AluVM: decoding moves forward

    A successful read of the code leaves the segments as they are and moves the
    cursor by the bits it reads.  Every decoder reads its opcode, so it moves by
    a byte at least; the one exception is [Nop], whose opcode is only looked at. *)

From S2P Require Import Prelude AluReg AluNumber AluCursor AluInstr AluBytecode AluRegs AluExec AluShift AluFrame.
Local Open Scope Z_scope.

Record seg_ok (c : Cursor) : Prop := mkSegOk {
  seg_code : str_ok (bytecode c);
  seg_data : str_ok (cdata c);
  seg_bit : 0 <= bit_pos c < 8;
}.

(** [c'] is [c] moved by [n] bits at least. *)
Record moved_on (n : Z) (c c' : Cursor) : Prop := mkMoved {
  mv_code : bytecode c' = bytecode c;
  mv_data : cdata c' = cdata c;
  mv_libs : libs c' = libs c;
  mv_pos : pos c + n <= pos c';
  mv_bit : 0 <= bit_pos c' < 8;
}.

Lemma moved_seg n c c' : seg_ok c -> moved_on n c c' -> seg_ok c'.
Proof. intros [] []. constructor; congruence. Qed.

Lemma moved_trans n k c c' c'' : moved_on n c c' -> moved_on k c' c'' -> moved_on (n + k) c c''.
Proof. intros [] []. constructor; (congruence || lia). Qed.

Lemma moved_refl c : seg_ok c -> moved_on 0 c c.
Proof. intros []. constructor; done || lia. Qed.

Lemma moved_le n k c c' : n <= k -> moved_on k c c' -> moved_on n c c'.
Proof. intros ? []. constructor; done || lia. Qed.

(** When [m] succeeds it moves by [n] bits at least and its result is in [P]. *)
Definition advances {A} (n : Z) (m : CM A) (P : A -> Prop) : Prop :=
  forall c c' x, seg_ok c -> m c = (c', Ok x) -> moved_on n c c' /\ P x.

Lemma advances_bind {A B} n k (m : CM A) (f : A -> CM B) P Q :
  advances n m P -> (forall x, P x -> advances k (f x) Q) -> advances (n + k) (m ≫= f) Q.
Proof.
  intros Hm Hf c c' y Hc. unfold mbind, SE_bind. destruct (m c) as [c1 [x|e]] eqn:E; [|done].
  destruct (Hm c c1 x Hc E) as [H1 HP]. intros E2.
  destruct (Hf x HP c1 c' y) as [H2 HQ]; [by eapply moved_seg|done|]. split; [by eapply moved_trans|done].
Qed.
Lemma advances_then {A B} (m : CM A) (f : A -> CM B) P Q :
  advances 0 m P -> (forall x, P x -> advances 0 (f x) Q) -> advances 0 (m ≫= f) Q.
Proof. exact (advances_bind 0 0 m f P Q). Qed.
Lemma advances_ret {A} (x : A) (P : A -> Prop) : P x -> advances 0 (mret x) P.
Proof. intros HP c c' y Hc [= <- <-]. split; [by apply moved_refl|done]. Qed.
Lemma advances_fail {A} n e (P : A -> Prop) : advances n (fail e) P.
Proof. done. Qed.
Lemma advances_weaken {A} n k (m : CM A) (P Q : A -> Prop) :
  advances k m P -> n <= k -> (forall x, P x -> Q x) -> advances n m Q.
Proof. intros Hm Hn HPQ c c' x Hc E. destruct (Hm c c' x Hc E). split; [by eapply moved_le|auto]. Qed.
Lemma advances_get (P : Cursor -> Prop) : (forall c, seg_ok c -> P c) -> advances 0 get P.
Proof. intros HP c c' x Hc [= <- <-]. split; [by apply moved_refl|auto]. Qed.

(** ** Reads *)

Lemma inc_moves k c c' u : seg_ok c -> 0 <= k <= 8 -> (k = 8 -> bit_pos c = 0) ->
  (if k =? 8 then inc_bytes 1 else inc_bits k) c = (c', Ok u) -> moved_on k c c' /\ pos c' = pos c + k.
Proof.
  intros [] Hk Ha. unfold inc_bytes, inc_bits, inc_bytes_inner.
  destruct (Z.eqb_spec k 8) as [->|].
  - specialize (Ha eq_refl). rewrite Ha. cbn. destruct (checked_add 16 (byte_pos c) 1) as [p|] eqn:E; [|done].
    apply checked_add_Some in E as [-> _]. intros [= <- <-]. unfold pos.
    split; [constructor; unfold pos; cbn; done || lia|cbn; lia].
  - destruct (checked_add 16 _ _) as [p|] eqn:E; [|done].
    apply checked_add_Some in E as [-> _]. cbn. intros [= <- <-]. unfold pos.
    pose proof (Z.div_mod (bit_pos c + k) 8). pose proof (Z.mod_pos_bound (bit_pos c + k) 8).
    pose proof (Z.div_pos (bit_pos c + k) 8).
    split; [constructor; unfold pos; cbn; done || lia|cbn; lia].
Qed.

Lemma read_loop_moves fuel bc cnt ret c c' v : seg_ok c -> 0 <= cnt <= Z.of_nat fuel ->
  read_loop fuel bc cnt ret c = (c', Ok v) -> moved_on cnt c c'.
Proof.
  revert cnt ret c. induction fuel as [|fuel IH]; intros cnt ret c Hc Hcnt; cbn [read_loop].
  - assert (cnt = 0) as -> by lia. intros [= <- <-]. by apply moved_refl.
  - destruct (Z.eqb_spec cnt 0) as [->|]; [intros [= <- <-]; by apply moved_refl|].
    destruct (is_eof c); [done|]. unfold mbind, SE_bind.
    destruct Hc as [Hc1 Hc2 Hc4]. set (k := Z.min (8 - bit_pos c) cnt).
    destruct ((if k =? 8 then inc_bytes 1 else inc_bits k) c) as [c1 [u|e]] eqn:E; [|done].
    apply inc_moves in E as [Hm _]; [|done|lia|lia].
    intros Hr. apply IH in Hr; [|by eapply moved_seg|lia].
    replace cnt with (k + Z.max 0 (cnt - (8 - bit_pos c))) by lia. by eapply moved_trans.
Qed.

(** What is read is unsigned. *)
Lemma read_loop_nonneg fuel bc cnt ret c c' v : 0 <= ret ->
  read_loop fuel bc cnt ret c = (c', Ok v) -> 0 <= v.
Proof.
  revert cnt ret c. induction fuel as [|fuel IH]; intros cnt ret c Hr; cbn [read_loop].
  - by intros [= <- <-].
  - destruct (cnt =? 0); [by intros [= <- <-]|]. destruct (is_eof c); [done|]. unfold mbind, SE_bind.
    set (inc := (if Z.min _ _ =? 8 then inc_bytes 1 else inc_bits _)).
    destruct (inc c) as [c1 [u|e]]; [|done]. apply IH.
    apply Z.lor_nonneg. split; [done|]. apply Z.shiftl_nonneg, Z.shiftr_nonneg, Z.land_nonneg. right.
    destruct (_ <? cnt); apply Z.land_nonneg; by right.
Qed.

Lemma advances_bits w : 0 <= w -> advances w (read_bits w) (fun v => 0 <= v).
Proof.
  intros Hw c c' v Hc E. split; [eapply read_loop_moves; [done| |exact E]; lia|].
  by eapply read_loop_nonneg; [|exact E].
Qed.

(** A read that fails leaves the cursor ahead, too. *)
Lemma inc_safe k c : seg_ok c -> 0 <= k <= 8 - bit_pos c -> is_eof c = false ->
  exists c', (if k =? 8 then inc_bytes 1 else inc_bits k) c = (c', Ok tt).
Proof.
  intros [[_ Hl] _ Hb8] Hk He. unfold is_eof in He. apply Z.leb_gt in He.
  assert (forall n, 0 <= n <= 1 -> checked_add 16 (byte_pos c) n = Some (byte_pos c + n)) as Hadd
    by (intros; apply checked_add_Some; split; [done|unfold umax; lia]).
  destruct (Z.eqb_spec k 8).
  - unfold inc_bytes, inc_bytes_inner. rewrite (proj2 (Z.eqb_eq (bit_pos c) 0)) by lia.
    rewrite Hadd by lia. by eexists.
  - unfold inc_bits, inc_bytes_inner. cbn [byte_pos set_pos]. rewrite Hadd; [by eexists|].
    Z.to_euclidean_division_equations; lia.
Qed.

Lemma read_loop_ahead fuel bc cnt ret c c' r : seg_ok c ->
  read_loop fuel bc cnt ret c = (c', r) -> 0 <= cnt -> moved_on 0 c c'.
Proof.
  revert cnt ret c. induction fuel as [|fuel IH]; intros cnt ret c Hc; cbn [read_loop].
  - intros [= <- <-] _. by apply moved_refl.
  - destruct (Z.eqb_spec cnt 0) as [->|]; [intros [= <- <-] _; by apply moved_refl|].
    destruct (is_eof c) eqn:He; [intros [= <- <-] _; by apply moved_refl|]. unfold mbind, SE_bind.
    set (k := Z.min (8 - bit_pos c) cnt). intros E Hcnt. pose proof (seg_bit c Hc).
    destruct (inc_safe k c Hc ltac:(lia) He) as [c1 E1]. rewrite E1 in E.
    apply inc_moves in E1 as [Hm _]; [|done|lia|lia].
    apply (moved_le 0 (k + 0)); [lia|]. eapply moved_trans; [exact Hm|].
    eapply IH; [by eapply moved_seg|exact E|lia].
Qed.

Lemma advances_as w {A} `{Bits A} : 0 <= w -> advances 0 (read_as (A := A) w) (fun _ => True).
Proof.
  intros Hw. unfold read_as. eapply advances_then.
  - eapply advances_weaken; [by apply advances_bits|done|]. intros v Hv. exact Hv.
  - intros v _. cbn beta. destruct (of_bits v); [by apply advances_ret|apply advances_fail].
Qed.

Lemma advances_read w : 0 <= w -> advances 0 (read_bits w) (fun _ => True).
Proof. intros Hw. by eapply advances_weaken; [apply advances_bits| |]. Qed.

Lemma advances_any {A} n (m : CM A) P : advances n m P -> advances n m (fun _ => True).
Proof. intros Hm. by eapply advances_weaken. Qed.

Lemma str_ok_slice a b l : str_ok l -> str_ok (slice a b l).
Proof.
  intros [Hb Hl]. unfold slice. split; [by apply Forall_take, Forall_drop|].
  unfold len in *. rewrite length_take, length_drop. lia.
Qed.

(** Steps through a decoder by its syntax *)
Ltac advance := repeat (lazymatch goal with
  | |- advances 0 (_ ≫= _) _ => apply (advances_then _ _ (fun _ => True)); [|intros ? _]
  | |- advances 0 (mret _) _ => apply advances_ret
  | |- advances _ (fail _) _ => apply advances_fail
  | |- advances _ unreachable _ => apply advances_fail
  | |- advances 0 (read_as _) _ => apply advances_as
  | |- advances 0 (read_bits _) _ => apply advances_read
  | |- advances 0 read_u8 _ => apply advances_read
  | |- advances 0 read_u16 _ => apply advances_read
  | |- advances 0 get _ => apply (advances_get (fun _ => True))
  | |- advances _ (match ?x with _ => _ end) _ => destruct x
  end; cbv beta); try done.

Lemma advances_data : advances 0 read_data (fun r => str_ok r.1).
Proof.
  unfold read_data. eapply advances_then; [by apply advances_read|]. intros o _. cbv beta.
  eapply advances_then; [by apply advances_read|]. intros n _. cbv beta.
  eapply advances_then; [apply (advances_get seg_ok); auto|]. intros c Hc. cbv beta zeta.
  destruct (_ <? _); [apply advances_fail|]. apply advances_ret. apply str_ok_slice. by destruct Hc.
Qed.

Lemma advances_site : advances 0 read_site (fun _ => True).
Proof. unfold read_site, read_lib. advance. Qed.

Lemma advances_into {A} `{Bits A} v : advances 0 (into (A := A) v) (fun _ => True).
Proof. unfold into. advance. Qed.

Lemma advances_i8 : advances 0 read_i8 (fun _ => True).
Proof. unfold read_i8. advance. Qed.

Lemma advances_number l : advances 0 (maybe_number l) (fun _ => True).
Proof.
  intros c c' x Hc. unfold maybe_number. destruct (read_number l c) as [c1 r] eqn:E. intros Hx.
  assert (c1 = c') as -> by (destruct r as [n|[]]; congruence). split; [|done]. clear Hx.
  unfold read_number, mbind, SE_bind, read_u16 in E. destruct (read_bits 16 c) as [c2 o] eqn:E2.
  assert (c2 = c') as ->.
  { destruct o as [o|]; [|congruence]. unfold get in E. destruct (_ <? _); [by injection E as -> _|].
    destruct (number_with _ _); by injection E as -> _. }
  by eapply read_loop_ahead.
Qed.

(** ** Decoders *)

(** A decoder starts with its opcode. *)
Lemma advances_opcode {A} (f : Z -> CM A) P : (forall b, advances 0 (f b) P) -> advances 8 (read_u8 ≫= f) P.
Proof.
  intros Hf. apply (advances_bind 8 0 _ _ (fun v => 0 <= v)); [by apply advances_bits|]. intros b _. apply Hf.
Qed.

Ltac decoder := repeat (progress (advance;
  try lazymatch goal with
  | |- advances 0 read_data _ => eapply advances_any, advances_data
  | |- advances 0 read_site _ => apply advances_site
  | |- advances 0 read_i8 _ => apply advances_i8
  | |- advances 0 (into _) _ => apply advances_into
  | |- advances 0 (maybe_number _) _ => apply advances_number
  end)).

Section decoders.
Context `{Floats}.

Lemma offset_read (C : Z -> ControlFlowOp) : (forall pos, 0 <= pos -> ControlFlow_ok (C pos)) ->
  advances 0 (pos ← read_u16; mret (C pos)) ControlFlow_ok.
Proof.
  intros HC. apply (advances_then _ _ (fun v => 0 <= v)).
  - by eapply advances_weaken; [apply advances_bits| |].
  - intros pos Hp. by apply advances_ret, HC.
Qed.
Lemma ControlFlow_advances : advances 8 ControlFlow_decode ControlFlow_ok.
Proof.
  apply advances_opcode. intros b. unfold ControlFlow_decode.
  repeat (match goal with |- advances _ (match ?x with _ => _ end) _ => destruct x end; cbv beta iota);
    first [by apply offset_read | decoder].
Qed.
Lemma Put_advances : advances 8 Put_decode (fun _ => True).
Proof. apply advances_opcode. intros b. decoder. Qed.
Lemma Move_advances : advances 8 Move_decode (fun _ => True).
Proof. apply advances_opcode. intros b. decoder. Qed.
Lemma Cmp_advances : advances 8 Cmp_decode (fun _ => True).
Proof. apply advances_opcode. intros b. decoder. Qed.
Lemma Arithmetic_advances : advances 8 Arithmetic_decode (fun _ => True).
Proof. apply advances_opcode. intros b. decoder. Qed.
Lemma Bitwise_advances : advances 8 Bitwise_decode (fun _ => True).
Proof. apply advances_opcode. intros b. decoder. Qed.
Lemma Digest_advances : advances 8 Digest_decode (fun _ => True).
Proof. apply advances_opcode. intros b. decoder. Qed.
Lemma Secp_advances : advances 8 Secp_decode (fun _ => True).
Proof. apply advances_opcode. intros b. decoder. Qed.
Lemma Curve_advances : advances 8 Curve_decode (fun _ => True).
Proof. apply advances_opcode. intros b. decoder. Qed.
Lemma Outstack_advances : advances 8 Outstack_decode (fun _ => True).
Proof. apply advances_opcode. intros b. decoder. Qed.

(** The string of a [Put] comes from the data segment. *)
Lemma put_string : advances 0 (index ← read_as 8; r ← read_data; mret (BY.Put index r.1 r.2)) Bytes_ok.
Proof.
  eapply advances_then; [by apply advances_as|]. intros i _. cbv beta.
  eapply advances_then; [apply advances_data|]. intros r Hr. by apply advances_ret.
Qed.
Lemma Bytes_advances : advances 8 Bytes_decode Bytes_ok.
Proof.
  apply advances_opcode. intros b. unfold Bytes_decode.
  repeat (match goal with |- advances _ (match ?x with _ => _ end) _ => destruct x end; cbv beta iota);
    first [apply put_string | advance].
Qed.
End decoders.

(** ** What an instruction set promises about its code *)

(** The instruction ends the run. *)
Definition halting {A Ctx} `{InstructionSet A Ctx} (i : A) : Prop :=
  forall site ctx r r' s, exec i site ctx r = (r', Ok s) -> s = EFail \/ s = EStop.

Class ExtensionDecode (A Ctx : Type) `{Bytecode A} `{ExtensionLaws A Ctx} := {
  ext_no_prefix : forall c, try_decode_extension_prefix (A := A) c = (c, Ok None);
  ext_decode : forall c c' i, seg_ok c -> decode (A := A) c = (c', Ok i) ->
    moved_on 0 c c' /\ op_ok i /\ (moved_on 8 c c' \/ halting i);
}.

(** [waits b]: the opcode [b] is executed and not consumed. *)
Class DecodeLaws (A Ctx : Type) `{Bytecode A} `{InstructionLaws A Ctx} := {
  waits : Z -> Prop;
  isa_decode : forall c c' i, seg_ok c -> decode (A := A) c = (c', Ok i) ->
    moved_on 0 c c' /\ operands_ok i /\
    (moved_on 8 c c' \/ halting i \/ waits (bytecode c !!! Z.to_nat (byte_pos c)));
}.

#[export] Instance Reserved_decode : ExtensionDecode ReservedOp unit.
Proof.
  constructor; [done|]. intros c c' i Hc Hd.
  assert (advances 8 (code ← read_u8; mret (mkReserved code)) (fun _ => True)) as Ha
    by (apply advances_opcode; intros; advance).
  destruct (Ha c c' i Hc Hd) as [Hm _]. split_and!; [by apply (moved_le 0 8)|done|by left].
Qed.

Section instr_decode.
Context (debug : bool) `{Wide} `{fs : Floats} `{Digests} `{Secp}.
Context {Ext Ctx : Type} `{ExtensionDecode Ext Ctx}.

#[local] Hint Extern 0 (InstructionSet (Instr Ext) Ctx) => exact (the_set debug) : typeclass_instances.

Lemma classify_family {A} (m : CM A) (C : A -> Instr Ext) P c c' i b : advances 8 m P ->
  (forall op, P op -> Instr_ok (C op)) -> seg_ok c -> (op ← m; mret (C op)) c = (c', Ok i) ->
  moved_on 0 c c' /\ Instr_ok i /\ (moved_on 8 c c' \/ halting (Ctx := Ctx) i \/ b = INSTR_NOP).
Proof.
  intros Hm HC Hc He. assert (advances 8 (op ← m; mret (C op)) Instr_ok) as Ha.
  { apply (advances_bind 8 0 _ _ P); [done|]. intros op Hop. by apply advances_ret, HC. }
  destruct (Ha c c' i Hc He). split_and!; [by apply (moved_le 0 8)|done|by left].
Qed.

#[export] Instance Instr_decode_laws : DecodeLaws (Instr Ext) Ctx.
Proof.
  refine {| waits b := b = INSTR_NOP |}. intros c c' i Hc Hd. cbn [decode Instr_bytecode] in Hd.
  unfold Instr_decode, mbind at 1, SE_bind at 1 in Hd. rewrite ext_no_prefix in Hd.
  unfold peek_u8, mbind, SE_bind in Hd. destruct (is_eof c); [done|].
  set (b := bytecode c !!! Z.to_nat (byte_pos c)) in *.
  change (Instr_classify b c = (c', Ok i)) in Hd. unfold Instr_classify in Hd.
  change (moved_on 0 c c' /\ Instr_ok i /\ (moved_on 8 c c' \/ halting (Ctx := Ctx) i \/ b = INSTR_NOP)).
  repeat match type of Hd with (if ?x then _ else _) c = _ => destruct x eqn:?E end.
  1: exact (classify_family _ ControlFlow _ c c' i b ControlFlow_advances (fun op Hop => Hop) Hc Hd).
  1: exact (classify_family _ Put _ c c' i b Put_advances (fun _ _ => Logic.I) Hc Hd).
  1: exact (classify_family _ Move _ c c' i b Move_advances (fun _ _ => Logic.I) Hc Hd).
  1: exact (classify_family _ Cmp _ c c' i b Cmp_advances (fun _ _ => Logic.I) Hc Hd).
  1: exact (classify_family _ Arithmetic _ c c' i b Arithmetic_advances (fun _ _ => Logic.I) Hc Hd).
  1: exact (classify_family _ Bitwise _ c c' i b Bitwise_advances (fun _ _ => Logic.I) Hc Hd).
  1: exact (classify_family _ Bytes _ c c' i b Bytes_advances (fun op Hop => Hop) Hc Hd).
  1: exact (classify_family _ Digest _ c c' i b Digest_advances (fun _ _ => Logic.I) Hc Hd).
  1: exact (classify_family _ Secp256k1 _ c c' i b Secp_advances (fun _ _ => Logic.I) Hc Hd).
  1: exact (classify_family _ Curve25519 _ c c' i b Curve_advances (fun _ _ => Logic.I) Hc Hd).
  1: exact (classify_family _ Outstack _ c c' i b Outstack_advances (fun _ _ => Logic.I) Hc Hd).
  - assert (advances 8 (code ← read_u8; mret (mkReserved code)) (fun _ => True)) as Ha
      by (apply advances_opcode; intros; advance).
    exact (classify_family _ ReservedInstruction _ c c' i b Ha (fun _ _ => Logic.I) Hc Hd).
  - apply Z.eqb_eq in E11. injection Hd as <- <-.
    split_and!; [by apply moved_refl|done|right; right; done].
  - destruct (decode c) as [c1 [op|e]] eqn:Ed; cbn in Hd.
    + unfold mbind, SE_bind in Hd. rewrite Ed in Hd. injection Hd as <- <-.
      destruct (ext_decode c c1 op Hc Ed) as (H1' & H2' & H3'). split_and!; [done|done|].
      destruct H3'; [by left|right; left]. done.
    + unfold mbind, SE_bind in Hd. by rewrite Ed in Hd.
  - done.
Defined.
End instr_decode.
