(* ===== verification/AluVm.v ===== *)
(** * AluVM: running programs (library/lib.rs and vm.rs of rgb-aluvm)

    [Lib_exec] runs the code of one library from an entry point until it stops,
    fails or calls another library; [Vm_exec] follows the calls.  Both loops take
    fuel, and [None] is a run that has not ended: with a complexity limit, or in code
    without [Nop], there is always enough fuel. *)

From S2P Require Import Prelude AluReg AluNumber AluCursor AluInstr AluBytecode AluLib AluRegs AluExec AluShift AluFrame AluProgress.
Local Open Scope Z_scope.

Section vm.
Context {A Ctx : Type} `{Bytecode A} `{InstructionSet A Ctx}.
(** [Lib::id], a digest of the library *)
Context (lib_id : Lib -> string).

(** The end of a run: the registers, and the call that it ended with, or a panic *)
Abbreviation run_end := (CoreRegs * result panic (option LibSite))%type.

(** The loop of [Lib::exec].  A decoding error ends the run without a change. *)
Fixpoint Lib_loop (fuel : nat) (lib : Lib) (ctx : Ctx) (c : Cursor) (r : CoreRegs) : option run_end :=
  if is_eof c then Some (r, Ok None) else
  match fuel with
  | O => None
  | S fuel' =>
      match decode (A := A) c with
      | (_, Err (VmPanic p)) => Some (r, Err p)
      | (_, Err _) => Some (r, Ok None)
      | (c', Ok instr) =>
          match exec instr (mkSite (lib_id lib) (byte_pos c)) ctx r with
          | (r', Err p) => Some (r', Err p)
          | (r', Ok next) =>
              let '(r', ok) := acc_complexity (complexity instr) r' in
              if negb ok then Some (r', Ok None) else
              match next with
              | EStop => Some (r', Ok None)
              | EFail => Some (with_st0 false r', Ok None)
              | ENext => Lib_loop fuel' lib ctx c' r'
              | EJump p =>
                  match seek p c' with
                  | (c'', Ok _) => Lib_loop fuel' lib ctx c'' r'
                  | (_, Err _) => Some (with_st0 false r', Ok None)
                  end
              | ECall site => Some (r', Ok (Some site))
              end
          end
      end
  end.

Definition Lib_exec (fuel : nat) (lib : Lib) (entrypoint : Z) (ctx : Ctx) (r : CoreRegs) : option run_end :=
  match seek entrypoint (cursor_with (lib_code lib) (lib_data lib) (lib_libs lib)) with
  | (c, Ok _) => Lib_loop fuel lib ctx c r
  | (_, Err _) => Some (with_st0 false r, Ok None)
  end.

(** [Vm::exec]: a library that is not found is looked up again at the next
    position, up to the last one. *)
Fixpoint Vm_exec (calls fuel : nat) (lib_resolver : string -> option Lib) (ctx : Ctx) (site : LibSite)
    (r : CoreRegs) : option (CoreRegs * result panic bool) :=
  match calls with
  | O => None
  | S calls' =>
      match lib_resolver (site_lib site) with
      | Some lib =>
          match Lib_exec fuel lib (site_pos site) ctx r with
          | None => None
          | Some (r', Err p) => Some (r', Err p)
          | Some (r', Ok None) => Some (r', Ok (st0 r'))
          | Some (r', Ok (Some site')) => Vm_exec calls' fuel lib_resolver ctx site' r'
          end
      | None =>
          match checked_add 16 (site_pos site) 1 with
          | Some pos => Vm_exec calls' fuel lib_resolver ctx (mkSite (site_lib site) pos) r
          | None => Some (r, Ok (st0 r))
          end
      end
  end.

End vm.
Arguments Lib_loop {A Ctx _ _} lib_id fuel lib ctx c r.
Arguments Lib_exec {A Ctx _ _} lib_id fuel lib entrypoint ctx r.
Arguments Vm_exec {A Ctx _ _} lib_id calls fuel lib_resolver ctx site r.

(** ** Runs keep registers well-formed *)

Section laws.
Context {A Ctx : Type} `{DecodeLaws A Ctx} (lib_id : Lib -> string).
Context (ctx : Ctx) (Hctx : context_ok ctx).

Definition lib_ok (lib : Lib) : Prop := str_ok (lib_code lib) /\ str_ok (lib_data lib).

Lemma after_exec i site r r' x : operands_ok i -> regs_ok r -> exec i site ctx r = (r', x) ->
  regs_ok r' /\ ca0 r' = ca0 r /\ cl0 r' = cl0 r.
Proof.
  intros Hi Hr He. assert (forall l, allowed (fun _ => True) l) as Hall by (intros; by apply Forall_true).
  destruct (exec_keeps (fun r' => (ca0 r', cl0 r') = (ca0 r, cl0 r)) _ _ i site ctx Hi Hctx (Hall _) (Hall _) r)
    as [HI Hok]; [done|]. rewrite He in HI, Hok. by injection HI.
Qed.

(** The charge for an instruction, and when it ends the run *)
Lemma acc_spec n r r' ok : regs_ok r -> 0 <= n -> acc_complexity n r = (r', ok) ->
  regs_ok r' /\ cl0 r' = cl0 r /\ budget r' = budget r /\ ca0 r' = Z.min (ca0 r + n) (2 ^ 64 - 1) /\
  (forall l, cl0 r = Some l -> ok = true -> ca0 r' < l).
Proof.
  intros Hr Hn. unfold acc_complexity, saturating_add, umax. pose proof (ok_ca r Hr).
  set (r1 := with_ca0 _ r). assert (regs_ok r1) by (destruct Hr; constructor; cbn; done || lia).
  cbn [cl0 r1 with_ca0]. destruct (cl0 r) as [l|] eqn:El.
  - destruct (Z.leb_spec l (ca0 r1)); intros [= <- <-].
    + split_and!; [by apply regs_ok_with_st0|cbn; by rewrite El|done|done|by intros].
    + split_and!; [done|cbn; by rewrite El|done|done|]. by intros ? [= <-] _.
  - intros [= <- <-]. split_and!; [done|cbn; by rewrite El|done|done|done].
Qed.

Lemma seek_seg p c c' x : seg_ok c -> seek p c = (c', Ok x) ->
  seg_ok c' /\ bytecode c' = bytecode c /\ byte_pos c' = p /\ bit_pos c' = bit_pos c.
Proof.
  intros []. unfold seek. destruct (_ <=? p); [done|]. intros [= <- _]. split; [by constructor|done].
Qed.

(** The run goes on from [c] and [r] with [c'] and [r']. *)
Record goes_on (c : Cursor) (r : CoreRegs) (c' : Cursor) (r' : CoreRegs) : Prop := mkGoesOn {
  go_seg : seg_ok c';
  go_regs : regs_ok r';
  go_code : bytecode c' = bytecode c;
  go_limit : cl0 r' = cl0 r;
  go_charge : forall l, cl0 r = Some l -> l < 2 ^ 64 -> ca0 r < ca0 r' < l;
  go_budget : budget r' <= budget r;
  go_on : ~ waits (bytecode c !!! Z.to_nat (byte_pos c)) ->
    (budget r' < budget r /\ 0 <= byte_pos c') \/ byte_pos c < byte_pos c';
}.

(** The run of a library ends; when it ends with a call, it used up something. *)
Record ends (r r' : CoreRegs) (o : result panic (option LibSite)) : Prop := mkEnds {
  end_regs : regs_ok r';
  end_limit : cl0 r' = cl0 r;
  end_charge : forall s l, o = Ok (Some s) -> cl0 r = Some l -> l < 2 ^ 64 -> ca0 r < ca0 r' < l;
  end_call : forall s, o = Ok (Some s) -> budget r' < budget r;
}.

Lemma moved_byte c c' : seg_ok c -> moved_on 8 c c' -> byte_pos c < byte_pos c'.
Proof. intros [] []. unfold pos in *. lia. Qed.

Lemma loop_step lib c r : seg_ok c -> regs_ok r -> is_eof c = false ->
  (exists r' o, (forall fuel, Lib_loop (A := A) lib_id (S fuel) lib ctx c r = Some (r', o)) /\ ends r r' o) \/
  (exists c' r', (forall fuel, Lib_loop (A := A) lib_id (S fuel) lib ctx c r = Lib_loop lib_id fuel lib ctx c' r') /\
    goes_on c r c' r').
Proof.
  intros Hc Hr He. cbn [Lib_loop]. rewrite He.
  destruct (decode c) as [c1 [i|e]] eqn:Hd; cycle 1.
  { left. destruct e as [| | |p]; do 2 eexists; (split; [reflexivity|by constructor]). }
  destruct (isa_decode c c1 i Hc Hd) as (Hm0 & Hi & Hm). pose proof (moved_seg _ _ _ Hc Hm0) as Hc1.
  destruct (exec i _ ctx r) as [r1 [s|p]] eqn:Hx; cycle 1.
  { left. do 2 eexists; (split; [reflexivity|]).
    destruct (after_exec _ _ _ _ _ Hi Hr Hx) as (? & ? & ?). by constructor. }
  destruct (after_exec _ _ _ _ _ Hi Hr Hx) as (Hr1 & Eca & Ecl).
  pose proof (exec_budget _ _ _ _ _ _ Hi Hctx Hr Hx) as Hb. pose proof (metered i) as Hn.
  assert (0 <= complexity i) as Hn0 by lia.
  destruct (acc_complexity (complexity i) r1) as [r2 ok] eqn:Ha.
  destruct (acc_spec _ _ _ _ Hr1 Hn0 Ha) as (Hr2 & Ecl2 & Eb & Eca2 & Hok).
  assert (ends r r2 (Ok None)) as Hend by (constructor; [done|congruence|done..]).
  destruct ok; cbn [negb]; [|by left; do 2 eexists; split; [reflexivity|]].
  assert (forall l, cl0 r = Some l -> l < 2 ^ 64 -> ca0 r < ca0 r2 < l) as Hch.
  { intros l Hl Hl'. rewrite <- Ecl in Hl. specialize (Hok l Hl eq_refl). lia. }
  assert (cl0 r2 = cl0 r) as Ecl3 by congruence.
  destruct s as [| | |p|site].
  - left. by do 2 eexists; split; [reflexivity|].
  - left. do 2 eexists; split; [reflexivity|]. destruct Hend. constructor; [by apply regs_ok_with_st0|done..].
  - right. do 2 eexists; split; [reflexivity|]. constructor; [done|done|by destruct Hm0|done|done|lia|].
    intros Hw. right. destruct Hm as [Hm|[Hh|Hh]]; [by apply moved_byte| |done].
    by destruct (Hh _ _ _ _ _ Hx).
  - destruct Hb as [Hp Hb]. destruct (seek p c1) as [c2 [x|e]] eqn:Hs; cycle 1.
    { left. do 2 eexists; split; [reflexivity|]. destruct Hend. constructor; [by apply regs_ok_with_st0|done..]. }
    destruct (seek_seg p c1 c2 x Hc1 Hs) as (Hc2 & Eco & Ep & _). right. do 2 eexists; split; [reflexivity|].
    constructor; [done|done|rewrite Eco; by destruct Hm0|done|done|lia|]. intros _. left. rewrite Ep. lia.
  - left. do 2 eexists; split; [reflexivity|]. constructor; [done|done|intros; by apply Hch|intros; lia].
Qed.

Lemma loop_ends fuel lib c r r' o : seg_ok c -> regs_ok r ->
  Lib_loop (A := A) lib_id fuel lib ctx c r = Some (r', o) -> ends r r' o.
Proof.
  revert c r. induction fuel as [|fuel IH]; intros c r Hc Hr Hl.
  - cbn in Hl. destruct (is_eof c); [|done]. injection Hl as <- <-. by constructor.
  - destruct (is_eof c) eqn:He; [cbn in Hl; rewrite He in Hl; injection Hl as <- <-; by constructor|].
    destruct (loop_step lib c r Hc Hr He) as [(r1 & o1 & E & Hend)|(c1 & r1 & E & Hg)]; rewrite E in Hl.
    + by injection Hl as <- <-.
    + destruct Hg as [Hc1 Hr1 _ El Hch Hbu _]. destruct (IH c1 r1 Hc1 Hr1 Hl) as [E1 E2 E3 E4].
      constructor; [done|congruence| |].
      * intros s l Ho Hs Hl'. rewrite <- El in Hs. pose proof (E3 s l Ho Hs Hl').
        rewrite El in Hs. pose proof (Hch l Hs Hl'). lia.
      * intros s Ho. pose proof (E4 s Ho). lia.
Qed.

(** With a limit, every instruction uses up some of it. *)
Lemma loop_metered fuel lib c r l : seg_ok c -> regs_ok r -> cl0 r = Some l -> l < 2 ^ 64 ->
  (Z.to_nat (l - ca0 r) < fuel)%nat -> Lib_loop (A := A) lib_id fuel lib ctx c r <> None.
Proof.
  revert c r. induction fuel as [|fuel IH]; intros c r Hc Hr Hl Hl' Hf; [lia|].
  destruct (is_eof c) eqn:He; [cbn; by rewrite He|].
  destruct (loop_step lib c r Hc Hr He) as [(r1 & o1 & E & _)|(c1 & r1 & E & Hg)]; rewrite E; [done|].
  destruct Hg as [Hc1 Hr1 _ El Hch _ _]. pose proof (Hch l Hl Hl'). apply IH; [done..|congruence|done|lia].
Qed.

(** No opcode of the code waits. *)
Definition moving (code : list Z) : Prop := forall j, ~ waits (code !!! j).

Lemma loop_moving fuel lib c r : seg_ok c -> regs_ok r -> moving (bytecode c) ->
  (Z.to_nat (65536 * budget r + (65536 - byte_pos c)) < fuel)%nat ->
  Lib_loop (A := A) lib_id fuel lib ctx c r <> None.
Proof.
  revert c r. induction fuel as [|fuel IH]; intros c r Hc Hr Hw Hf; [lia|].
  destruct (is_eof c) eqn:He; [cbn; by rewrite He|].
  destruct (loop_step lib c r Hc Hr He) as [(r1 & o1 & E & _)|(c1 & r1 & E & Hg)]; rewrite E; [done|].
  destruct Hg as [Hc1 Hr1 Eco _ _ Hbu Hgo]. apply IH; [done..|by rewrite Eco|].
  assert (0 <= budget r1) by (destruct Hr1; unfold budget; lia).
  unfold is_eof in He. apply Z.leb_gt in He. pose proof (seg_code c Hc) as [_ Hlen].
  destruct Hgo as [Hlt|Hlt]; [apply Hw|lia..].
Qed.

Lemma loop_mono fuel fuel' lib c r x : Lib_loop (A := A) lib_id fuel lib ctx c r = Some x ->
  (fuel <= fuel')%nat -> Lib_loop (A := A) lib_id fuel' lib ctx c r = Some x.
Proof.
  revert fuel' c r. induction fuel as [|fuel IH]; intros fuel' c r Hl Hf.
  - cbn in Hl. destruct (is_eof c) eqn:He; [|done]. by destruct fuel'; cbn; rewrite He.
  - destruct fuel' as [|fuel']; [lia|]. cbn [Lib_loop] in *. destruct (is_eof c); [done|].
    destruct (decode c) as [c1 [i|[]]]; try done. destruct (exec i _ ctx r) as [r1 [s|p]]; [|done].
    destruct (acc_complexity _ r1) as [r2 []]; [|done]. cbn in *.
    destruct s as [| | |p|]; try done; [by apply IH; [|lia]|].
    destruct (seek p c1) as [c2 []]; [by apply IH; [|lia]|done].
Qed.

(** ** Libraries and machines *)

(** Something bounds the runs: a complexity limit, or the code itself. *)
Definition bounded (resolver : string -> option Lib) (r : CoreRegs) : Prop :=
  (exists l, cl0 r = Some l /\ l < 2 ^ 64) \/
  (forall id lib, resolver id = Some lib -> moving (lib_code lib)).

Lemma entry_seg lib p c x : lib_ok lib ->
  seek p (cursor_with (lib_code lib) (lib_data lib) (lib_libs lib)) = (c, Ok x) ->
  seg_ok c /\ bytecode c = lib_code lib.
Proof.
  intros [Hc Hd] Hs. apply seek_seg in Hs as (H1' & H2' & _); [done|]. by constructor; cbn.
Qed.

Lemma Lib_exec_ends fuel lib p r r' o : lib_ok lib -> regs_ok r ->
  Lib_exec (A := A) lib_id fuel lib p ctx r = Some (r', o) -> ends r r' o.
Proof.
  intros Hlib Hr. unfold Lib_exec. destruct (seek p _) as [c [x|e]] eqn:Hs.
  - destruct (entry_seg lib p c x Hlib Hs) as [Hc _]. by apply loop_ends.
  - intros [= <- <-]. constructor; [by apply regs_ok_with_st0|done..].
Qed.

Lemma Lib_exec_bounded resolver lib p r : lib_ok lib -> regs_ok r -> bounded resolver r ->
  (exists id, resolver id = Some lib) ->
  exists n x, forall fuel, (n <= fuel)%nat -> Lib_exec (A := A) lib_id fuel lib p ctx r = Some x.
Proof.
  intros Hlib Hr Hb [id Hid]. unfold Lib_exec. destruct (seek p _) as [c [x|e]] eqn:Hs; [|by exists O; eexists].
  destruct (entry_seg lib p c x Hlib Hs) as [Hc Eco].
  assert (exists n, Lib_loop (A := A) lib_id n lib ctx c r <> None) as [n Hn].
  { destruct Hb as [(l & Hl & Hl')|Hw].
    - eexists. by eapply loop_metered; [..|apply Nat.lt_succ_diag_r].
    - eexists. eapply loop_moving; [done..| |apply Nat.lt_succ_diag_r]. rewrite Eco. by eapply Hw. }
  destruct (Lib_loop lib_id n lib ctx c r) as [y|] eqn:E; [|done].
  exists n, y. intros fuel Hf. by eapply loop_mono.
Qed.

(** A library that is not found ends the run as it stands. *)
Lemma unresolved calls fuel resolver site r : resolver (site_lib site) = None ->
  (Z.to_nat (65536 - site_pos site) < calls)%nat ->
  Vm_exec (A := A) lib_id calls fuel resolver ctx site r = Some (r, Ok (st0 r)).
Proof.
  intros Hn. revert site Hn. induction calls as [|calls IH]; intros [id p] Hn Hc; [lia|]. cbn in *. rewrite Hn.
  destruct (checked_add 16 p 1) as [q|] eqn:Eq; [|done]. apply checked_add_Some in Eq as [-> Hq].
  apply IH; [done|]. unfold umax in Hq. cbn. lia.
Qed.

(** C32. A run of the machine always ends when it has a complexity limit, and
    without one when no opcode of the libraries waits: there is an amount of
    fuel from which on the run has the same result.  This holds for every
    instruction set that satisfies the laws, the core one with its extensions
    included, whatever the code jumps to and calls. *)
Theorem vm_terminates resolver site r :
  (forall id lib, resolver id = Some lib -> lib_ok lib) -> regs_ok r -> bounded resolver r ->
  exists n x, forall calls fuel, (n <= calls)%nat -> (n <= fuel)%nat ->
    Vm_exec (A := A) lib_id calls fuel resolver ctx site r = Some x.
Proof.
  intros Hlib. remember (Z.to_nat (budget r)) as b eqn:Eb. revert site r Eb.
  induction b as [b IH] using lt_wf_ind. intros site r -> Hr Hb.
  destruct (resolver (site_lib site)) as [lib|] eqn:El.
  - destruct (Lib_exec_bounded resolver lib (site_pos site) r) as (n & [r' o] & Hn); eauto.
    pose proof (Lib_exec_ends n lib (site_pos site) r r' o (Hlib _ _ El) Hr (Hn n ltac:(lia))) as [Hr' El' _ Hcall].
    destruct o as [[site'|]|p].
    + pose proof (Hcall site' eq_refl). assert (0 <= budget r') by (destruct Hr'; unfold budget; lia).
      destruct (IH (Z.to_nat (budget r')) ltac:(lia) site' r' eq_refl Hr') as (n' & x & Hx).
      { destruct Hb as [Hb|Hb]; [left; by rewrite El'|by right]. }
      exists (S (Nat.max n n')), x. intros [|calls] fuel Hc Hf; [lia|]. cbn [Vm_exec]. rewrite El, Hn by lia.
      apply Hx; lia.
    + exists (S n), (r', Ok (st0 r')). intros [|calls] fuel Hc Hf; [lia|]. cbn [Vm_exec]. by rewrite El, Hn by lia.
    + exists (S n), (r', Err p). intros [|calls] fuel Hc Hf; [lia|]. cbn [Vm_exec]. by rewrite El, Hn by lia.
  - exists (S (Z.to_nat (65536 - site_pos site))), (r, Ok (st0 r)). intros calls fuel Hc _. by apply unresolved.
Qed.

(** C33. Runs keep registers well-formed: whatever the libraries contain, every
    register holds a value of its width after a run, and strings and counters stay
    within their limits. *)
Theorem vm_registers calls fuel resolver site r r' x :
  (forall id lib, resolver id = Some lib -> lib_ok lib) -> regs_ok r ->
  Vm_exec (A := A) lib_id calls fuel resolver ctx site r = Some (r', x) -> regs_ok r' /\ cl0 r' = cl0 r.
Proof.
  intros Hlib. revert site r. induction calls as [|calls IH]; intros site r Hr; [done|]. cbn [Vm_exec].
  destruct (resolver (site_lib site)) as [lib|] eqn:El.
  - destruct (Lib_exec lib_id fuel lib (site_pos site) ctx r) as [[r1 o]|] eqn:E; [|done].
    pose proof (Lib_exec_ends _ _ _ _ _ _ (Hlib _ _ El) Hr E) as [Hr1 El1 _ _].
    destruct o as [[site'|]|p]; [|by intros [= <- <-]..]. intros Hv. destruct (IH _ _ Hr1 Hv). split; congruence.
  - destruct (checked_add 16 _ 1); [by apply IH|by intros [= <- <-]].
Qed.

End laws.

(** ** Runs that do not end, and runs that end early *)

Section core.
Context (debug : bool) `{Wide} `{fs : Floats} `{Digests} `{Secp}.
Context {Ext Ctx : Type} `{ExtensionDecode Ext Ctx} (lib_id : Lib -> string).

#[local] Hint Extern 0 (InstructionSet (Instr Ext) Ctx) => exact (the_set debug) : typeclass_instances.

Lemma decode_nop c : is_eof c = false -> bytecode c !!! Z.to_nat (byte_pos c) = INSTR_NOP ->
  decode (A := Instr Ext) c = (c, Ok Nop).
Proof.
  intros He Hb. cbn [decode Instr_bytecode]. unfold Instr_decode, mbind, SE_bind.
  rewrite ext_no_prefix. unfold peek_u8. by rewrite He, Hb.
Qed.

Lemma loop_nop fuel lib (ctx : Ctx) c r : is_eof c = false -> bytecode c !!! Z.to_nat (byte_pos c) = INSTR_NOP ->
  cl0 r = None -> Lib_loop (A := Instr Ext) lib_id fuel lib ctx c r = None.
Proof.
  intros He Hb. revert r. induction fuel as [|fuel IH]; intros r Hl; cbn [Lib_loop]; rewrite He; [done|].
  rewrite decode_nop by done. cbn [exec the_set Instr_set Instr_exec mret SE_ret complexity Instr_complexity].
  unfold acc_complexity. cbn [cl0 with_ca0]. rewrite Hl. cbn [negb]. by apply IH.
Qed.

(** [Nop] is decoded without being consumed.  Without a complexity limit a
    run that reaches one never ends: no amount of fuel is enough. *)
Theorem nop_never_ends lib p (ctx : Ctx) r resolver id calls fuel :
  0 <= p -> lib_code lib !! Z.to_nat p = Some INSTR_NOP -> cl0 r = None -> resolver id = Some lib ->
  Vm_exec (A := Instr Ext) lib_id calls fuel resolver ctx (mkSite id p) r = None.
Proof.
  intros Hp Hn Hl Hid. destruct calls as [|calls]; [done|]. cbn [Vm_exec site_lib site_pos]. rewrite Hid.
  unfold Lib_exec, seek. cbn [bytecode cursor_with]. apply lookup_lt_Some in Hn as Hlt.
  rewrite bool_if_false by (apply Z.leb_gt; unfold len; lia). rewrite loop_nop; [done| | |done].
  - unfold is_eof. cbn. apply Z.leb_gt. unfold len. lia.
  - cbn. by apply list_lookup_total_correct.
Qed.

(** A run ends as it stands, and is accepted when [st0] was set, although its
    code is missing: when the library is not found, and when an instruction
    cannot be decoded at the entry point. *)
Theorem missing_code_accepted resolver (ctx : Ctx) site r calls fuel :
  (Z.to_nat (65536 - site_pos site) < calls)%nat -> (0 < fuel)%nat ->
  match resolver (site_lib site) with
  | None => True
  | Some lib => exists c x c',
      seek (site_pos site) (cursor_with (lib_code lib) (lib_data lib) (lib_libs lib)) = (c, Ok x) /\
      decode (A := Instr Ext) c = (c', Err CodeEofError)
  end ->
  Vm_exec (A := Instr Ext) lib_id calls fuel resolver ctx site r = Some (r, Ok (st0 r)).
Proof.
  intros Hc Hf Hres. destruct (resolver (site_lib site)) as [lib|] eqn:El; [|by apply unresolved].
  destruct Hres as (c & x & c' & Hs & Hd). destruct calls as [|calls]; [lia|]. cbn [Vm_exec].
  rewrite El. unfold Lib_exec. rewrite Hs. destruct fuel as [|fuel]; [lia|]. cbn [Lib_loop].
  destruct (is_eof c); [done|]. by rewrite Hd.
Qed.

End core.

#[local] Existing Instance demo_digests.
#[local] Existing Instance demo_secp.
#[local] Existing Instance exact_wide.
#[local] Existing Instance no_floats.
#[local] Hint Extern 0 (InstructionSet (Instr ReservedOp) unit) => exact (the_set true) : typeclass_instances.

(** A library that jumps to itself, and one that waits *)
Definition demo_loop : Lib := mkLib "ALU" [INSTR_JMP; 0; 0] [] [].
Definition demo_nop : Lib := mkLib "ALU" [INSTR_NOP] [] [].
Definition demo_id (lib : Lib) : string := "lib".
Definition demo_resolver (lib : Lib) (id : string) : option Lib := if String.eqb id "lib" then Some lib else None.

Lemma demo_resolver_ok lib : lib_ok lib -> forall id l, demo_resolver lib id = Some l -> lib_ok l.
Proof. intros Hl id l. unfold demo_resolver. destruct (String.eqb id "lib"); congruence. Qed.

Lemma demo_loop_ok : lib_ok demo_loop.
Proof. split; split; repeat constructor; done. Qed.

Lemma vm_terminates_witness : exists n x, forall calls fuel, (n <= calls)%nat -> (n <= fuel)%nat ->
  Vm_exec (A := Instr ReservedOp) demo_id calls fuel (demo_resolver demo_loop) tt (mkSite "lib" 0) regs_default = Some x.
Proof.
  apply (vm_terminates (A := Instr ReservedOp)); [done|..].
  - apply demo_resolver_ok, demo_loop_ok.
  - apply regs_ok_default.
  - right. intros id l Hl. unfold demo_resolver in Hl. destruct (String.eqb id "lib"); [|done].
    injection Hl as <-. intros [|[|[|j]]]; done.
Defined.

(** A library that inverts the flag and returns *)
Definition demo_inv : Lib := mkLib "ALU" [INSTR_STINV; INSTR_RET] [] [].

Lemma vm_registers_witness : exists r',
  Vm_exec (A := Instr ReservedOp) demo_id 1 2 (demo_resolver demo_inv) tt (mkSite "lib" 0) regs_default
  = Some (r', Ok false) /\ regs_ok r'.
Proof.
  assert (exists r', Vm_exec (A := Instr ReservedOp) demo_id 1 2 (demo_resolver demo_inv) tt (mkSite "lib" 0)
    regs_default = Some (r', Ok false)) as [r' E] by (eexists; vm_compute; reflexivity).
  exists r'. split; [exact E|]. refine (proj1 (vm_registers (A := Instr ReservedOp) demo_id tt Logic.I 1 2
    (demo_resolver demo_inv) (mkSite "lib" 0) regs_default r' (Ok false) _ regs_ok_default E)).
  apply demo_resolver_ok. split; split; repeat constructor; done.
Defined.

Lemma nop_never_ends_witness :
  Vm_exec (A := Instr ReservedOp) demo_id 10 1000 (demo_resolver demo_nop) tt (mkSite "lib" 0) regs_default = None.
Proof. by apply (nop_never_ends true demo_id demo_nop). Defined.

Lemma missing_code_accepted_witness :
  Vm_exec (A := Instr ReservedOp) demo_id (S (Z.to_nat 65536)) 1 (fun _ => None) tt (mkSite "lib" 0) regs_default
  = Some (regs_default, Ok true).
Proof.
  apply (missing_code_accepted (Ext := ReservedOp) true demo_id (fun _ => None) tt (mkSite "lib" 0)).
  - apply Nat.ltb_lt. vm_compute. reflexivity.
  - apply Nat.ltb_lt. vm_compute. reflexivity.
  - exact Logic.I.
Defined.
