(* ===== verification/RgbTypes.v ===== *)
(** * RGB consensus: states, seals, operations and schemata

    The data of crates/rgb-consensus/src: the state that operations assign to seals
    (operation/state.rs, fungible.rs, data.rs, assignments.rs), seals over bitcoin
    outputs (seals/txout/blind.rs, operation/seal.rs), operations
    (operation/operations.rs, global.rs, meta.rs), the schema that constrains them
    (schema/*.rs), and the order of witness transactions (vm/contract.rs).

    The 32-byte identifiers (operations, transactions, contracts, libraries, types)
    are byte strings.  Ordered maps are finite maps that are walked in the order of
    their keys ([sorted_keys]).  Collections that the source confines to 65535 items
    are lists; [operation_ok] states the confinement where a theorem needs it. *)

From S2P Require Import Prelude Layer1 AluInstr.
Local Open Scope Z_scope.

Abbreviation OpId := string.
Abbreviation Txid := string.
Abbreviation ContractId := string.
Abbreviation BundleId := string.
Abbreviation SchemaId := string.
Abbreviation SemId := string.
Abbreviation SecretSeal := string.
(** [AssignmentType], [GlobalStateType], [MetaType], [TransitionType]: 16-bit *)
Abbreviation AssignmentType := Z.
Abbreviation GlobalStateType := Z.
Abbreviation MetaType := Z.
Abbreviation TransitionType := Z.

(** ** Ordered maps *)

(** The keys of a [BTreeMap] in the order of iteration *)
Definition sorted_keys {A} (m : gmap Z A) : list Z := merge_sort Z.le (map_to_list m).*1.

Lemma elem_of_sorted_keys {A} (m : gmap Z A) k : k ∈ sorted_keys m <-> is_Some (m !! k).
Proof.
  unfold sorted_keys. rewrite merge_sort_Permutation, list_elem_of_fmap. split.
  - intros ([k' v] & -> & Hv%elem_of_map_to_list). by exists v.
  - intros [v Hv]. exists (k, v). split; [done|]. by apply elem_of_map_to_list.
Qed.

Lemma sorted_keys_NoDup {A} (m : gmap Z A) : NoDup (sorted_keys m).
Proof. unfold sorted_keys. rewrite merge_sort_Permutation. apply NoDup_fst_map_to_list. Qed.

(** ** State (operation/state.rs, fungible.rs, data.rs) *)

Inductive StateType := ST_Void | ST_Fungible | ST_Structured.

Inductive FungibleType := Unsigned64Bit.

(** A 64-bit amount *)
Inductive FungibleState := Bits64 (v : Z).

Definition fungible_type (v : FungibleState) : FungibleType := match v with Bits64 _ => Unsigned64Bit end.
Definition as_u64 (v : FungibleState) : Z := match v with Bits64 v => v end.

(** [RevealedValue] and [RevealedData] wrap an amount and at most 65535 bytes. *)
Abbreviation RevealedValue := FungibleState.
Abbreviation RevealedData := (list Z).

Inductive RevealedState :=
| RS_Void
| RS_Fungible (v : RevealedValue)
| RS_Structured (d : RevealedData).

Definition state_type (s : RevealedState) : StateType :=
  match s with RS_Void => ST_Void | RS_Fungible _ => ST_Fungible | RS_Structured _ => ST_Structured end.

(** [ExposedState]: the kinds of state that assignments hold *)
Class ExposedState (State : Type) := state_data : State -> RevealedState.
#[export] Instance void_exposed : ExposedState unit := fun _ => RS_Void.
#[export] Instance value_exposed : ExposedState FungibleState := RS_Fungible.
#[export] Instance data_exposed : ExposedState (list Z) := RS_Structured.

(** ** Seals (seals/txout/blind.rs, operation/seal.rs) *)

Record Outpoint := mkOutpoint { op_txid : Txid; op_vout : Z }.
#[export] Instance Outpoint_eq_dec : EqDecision Outpoint.
Proof. solve_decision. Defined.

(** A seal on a known transaction, or on the transaction that closes its parent *)
Inductive TxPtr := WitnessTx | TxPtr_Txid (txid : Txid).
#[export] Instance TxPtr_eq_dec : EqDecision TxPtr.
Proof. solve_decision. Defined.

Record BlindSeal (Id : Type) := mkSeal { seal_txid : Id; seal_vout : Z; seal_blinding : Z }.
Arguments mkSeal {Id}. Arguments seal_txid {Id}. Arguments seal_vout {Id}. Arguments seal_blinding {Id}.
#[export] Instance BlindSeal_eq_dec {Id} `{EqDecision Id} : EqDecision (BlindSeal Id).
Proof. solve_decision. Defined.

Abbreviation GenesisSeal := (BlindSeal Txid).
Abbreviation GraphSeal := (BlindSeal TxPtr).

(** [BlindSeal::transmutate] *)
Definition transmutate (s : GenesisSeal) : GraphSeal :=
  mkSeal (TxPtr_Txid (seal_txid s)) (seal_vout s) (seal_blinding s).

(** [BlindSeal::<Txid>::to_outpoint] *)
Definition to_outpoint (s : BlindSeal Txid) : Outpoint := mkOutpoint (seal_txid s) (seal_vout s).

(** [ExposedSeal::with_witness_id] *)
Class ExposedSeal (Seal : Type) := with_witness_id : Seal -> option Txid -> option (BlindSeal Txid).
#[export] Instance graph_seal : ExposedSeal GraphSeal := fun s witness_id =>
  txid ← match seal_txid s with TxPtr_Txid txid => Some txid | WitnessTx => witness_id end;
  Some (mkSeal txid (seal_vout s) (seal_blinding s)).
#[export] Instance genesis_seal : ExposedSeal GenesisSeal := fun s _ => Some s.

(** ** Assignments (operation/assignments.rs) *)

Section assigns.
Context {Seal : Type}.

Inductive Assign (State : Type) :=
| Revealed (seal : Seal) (state : State)
| ConfidentialSeal (seal : SecretSeal) (state : State).

Inductive TypedAssigns :=
| Declarative (set : list (Assign unit))
| Fungible (set : list (Assign RevealedValue))
| Structured (set : list (Assign RevealedData)).

End assigns.
Arguments Assign : clear implicits.
Arguments Revealed {Seal State} seal state.
Arguments ConfidentialSeal {Seal State} seal state.
Arguments TypedAssigns : clear implicits.
Arguments Declarative {Seal} set.
Arguments Fungible {Seal} set.
Arguments Structured {Seal} set.

Section assign_ops.
Context {Seal : Type}.

Definition as_revealed_state {State} (a : Assign Seal State) : State :=
  match a with Revealed _ state | ConfidentialSeal _ state => state end.

(** [as_revealed], [to_revealed], [into_revealed] *)
Definition as_revealed {State} (a : Assign Seal State) : option (Seal * State) :=
  match a with Revealed seal state => Some (seal, state) | ConfidentialSeal _ _ => None end.

Definition len_u16 (a : TypedAssigns Seal) : Z :=
  match a with
  | Declarative set => Z.of_nat (length set)
  | Fungible set => Z.of_nat (length set)
  | Structured set => Z.of_nat (length set)
  end.

Definition is_declarative (a : TypedAssigns Seal) : bool :=
  match a with Declarative _ => true | _ => false end.

(** [as_structured_state_at] and [into_structured_state_at]; [None] is
    [UnknownDataError] *)
Definition structured_state_at (a : TypedAssigns Seal) (index : Z) : option RevealedData :=
  match a with
  | Structured vec => as_revealed_state <$> vec !! Z.to_nat index
  | _ => None
  end.

Definition fungible_state_at (a : TypedAssigns Seal) (index : Z) : option RevealedValue :=
  match a with
  | Fungible vec => as_revealed_state <$> vec !! Z.to_nat index
  | _ => None
  end.

(** [to_revealed_assign_at]: the seal is resolved with the witness; a
    [RevealedAssign] that is returned is always a revealed one. *)
Definition to_revealed_assign_at `{ExposedSeal Seal} (a : TypedAssigns Seal) (index : Z)
    (witness_id : option Txid) : option (BlindSeal Txid * RevealedState) :=
  '(seal, state) ← match a with
    | Declarative vec => '(seal, _) ← vec !! Z.to_nat index ≫= as_revealed; Some (seal, RS_Void)
    | Fungible vec => '(seal, state) ← vec !! Z.to_nat index ≫= as_revealed; Some (seal, RS_Fungible state)
    | Structured vec => '(seal, state) ← vec !! Z.to_nat index ≫= as_revealed; Some (seal, RS_Structured state)
    end;
  seal ← with_witness_id seal witness_id;
  Some (seal, state).

End assign_ops.

Definition Assignments (Seal : Type) := gmap AssignmentType (TypedAssigns Seal).

(** [Assign::transmutate_seals] and [TypedAssigns::transmutate_seals] *)
Definition transmutate_assign {State} (a : Assign GenesisSeal State) : Assign GraphSeal State :=
  match a with
  | ConfidentialSeal seal state => ConfidentialSeal seal state
  | Revealed seal state => Revealed (transmutate seal) state
  end.

Definition transmutate_seals (a : TypedAssigns GenesisSeal) : TypedAssigns GraphSeal :=
  match a with
  | Declarative a => Declarative (transmutate_assign <$> a)
  | Fungible a => Fungible (transmutate_assign <$> a)
  | Structured a => Structured (transmutate_assign <$> a)
  end.

(** [AssignmentsRef] *)
Inductive AssignmentsRef :=
| AR_Genesis (a : Assignments GenesisSeal)
| AR_Graph (a : Assignments GraphSeal).

(** [AssignmentsRef::get] *)
Definition assignments_get (a : AssignmentsRef) (t : AssignmentType) : option (TypedAssigns GraphSeal) :=
  match a with
  | AR_Genesis a => transmutate_seals <$> a !! t
  | AR_Graph a => a !! t
  end.

(** [AssignmentsRef::flat] *)
Definition flat (a : AssignmentsRef) : Assignments GraphSeal :=
  match a with AR_Genesis a => transmutate_seals <$> a | AR_Graph a => a end.

(** ** Operations (operation/operations.rs) *)

Record Opout := mkOpout { opout_op : OpId; opout_ty : AssignmentType; opout_no : Z }.
#[export] Instance Opout_eq_dec : EqDecision Opout.
Proof. solve_decision. Defined.
#[export] Instance Opout_countable : Countable Opout.
Proof.
  refine (inj_countable' (fun o => (opout_op o, opout_ty o, opout_no o)) (fun '(op, ty, no) => mkOpout op ty no) _).
  by intros [].
Defined.

Definition Metadata := gmap MetaType (list Z).
Definition GlobalState := gmap GlobalStateType (list RevealedData).

(** [SealClosingStrategy] has one variant and is open to more. *)
Inductive SealClosingStrategy := FirstOpretOrTapret.
#[export] Instance SealClosingStrategy_eq_dec : EqDecision SealClosingStrategy.
Proof. solve_decision. Defined.

Record Genesis := mkGenesis {
  g_ffv : Z;
  g_schema_id : SchemaId;
  g_timestamp : Z;
  g_issuer : string;
  g_chain_net : ChainNet;
  g_seal_closing_strategy : SealClosingStrategy;
  g_metadata : Metadata;
  g_globals : GlobalState;
  g_assignments : Assignments GenesisSeal;
}.

(** The inputs are an ordered set; the list is in that order. *)
Record Transition := mkTransition {
  t_ffv : Z;
  t_contract_id : ContractId;
  t_nonce : Z;
  t_transition_type : TransitionType;
  t_metadata : Metadata;
  t_globals : GlobalState;
  t_inputs : list Opout;
  t_assignments : Assignments GraphSeal;
  t_signature : option string;
}.
