(* ===== verification/RgbOrder.v ===== *)
(** * RGB consensus: the order of operations (vm/contract.rs)

    Operations and global state are ordered by the position of the witness
    transaction.  On one layer-1 chain the order of positions is a total order of
    heights; with two chains it has cycles, since timestamps less than ten minutes
    apart are ordered by chain and not by time. *)

From S2P Require Import Prelude Layer1 AluNumber RgbTypes.
Local Open Scope Z_scope.

(** ** Positions of mined transactions *)

(** The height is a non-zero [u32] and the timestamp an [i64]. *)
Record WitnessPos := mkPos { pos_layer1 : Layer1; pos_height : Z; pos_timestamp : Z }.
#[export] Instance WitnessPos_eq_dec : EqDecision WitnessPos.
Proof. solve_decision. Defined.

Definition BITCOIN_GENESIS_TIMESTAMP : Z := 1231006505.
Definition LIQUID_GENESIS_TIMESTAMP : Z := 1296692202.

(** [WitnessPos::bitcoin], [WitnessPos::liquid] *)
Definition pos_bitcoin (height timestamp : Z) : option WitnessPos :=
  if timestamp <? BITCOIN_GENESIS_TIMESTAMP then None else Some (mkPos L1_Bitcoin height timestamp).
Definition pos_liquid (height timestamp : Z) : option WitnessPos :=
  if timestamp <? LIQUID_GENESIS_TIMESTAMP then None else Some (mkPos L1_Liquid height timestamp).

Definition BLOCK_TIME : Z := 10 * 60.

(** [Ord for WitnessPos] *)
Definition pos_cmp (a b : WitnessPos) : P comparison :=
  assert_ (0 <? pos_timestamp a) "self.timestamp > 0" ;;
  assert_ (0 <? pos_timestamp b) "other.timestamp > 0" ;;
  mret (if bool_decide (pos_layer1 a = pos_layer1 b) then pos_height a ?= pos_height b else
        match pos_layer1 a, pos_layer1 b with
        | L1_Bitcoin, L1_Liquid =>
            if Z.abs (pos_timestamp a - pos_timestamp b) <? BLOCK_TIME then Gt
            else pos_timestamp a ?= pos_timestamp b
        | L1_Liquid, L1_Bitcoin =>
            if Z.abs (pos_timestamp b - pos_timestamp a) <? BLOCK_TIME then Lt
            else pos_timestamp a ?= pos_timestamp b
        | _, _ => pos_timestamp a ?= pos_timestamp b
        end).

(** ** Witnesses and operations *)

Inductive WitnessOrd := Mined (pos : WitnessPos) | Tentative | Ignored | Archived.
#[export] Instance WitnessOrd_eq_dec : EqDecision WitnessOrd.
Proof. solve_decision. Defined.

(** [WitnessOrd::is_valid] *)
Definition is_valid (w : WitnessOrd) : bool := bool_decide (w <> Archived).

(** The derived order of an enumeration: by variant, then by content *)
Definition witness_rank (w : WitnessOrd) : Z :=
  match w with Mined _ => 0 | Tentative => 1 | Ignored => 2 | Archived => 3 end.
Definition witness_cmp (a b : WitnessOrd) : P comparison :=
  match a, b with
  | Mined p, Mined q => pos_cmp p q
  | _, _ => mret (witness_rank a ?= witness_rank b)
  end.

Inductive OpOrd :=
| OO_Genesis
| OO_Transition (witness : WitnessOrd) (ty : TransitionType) (nonce : Z) (opid : OpId).

Definition is_archived (o : OpOrd) : bool :=
  match o with OO_Transition Archived _ _ _ => true | _ => false end.

Definition then_cmp (a b : comparison) : comparison := match a with Eq => b | Lt => Lt | Gt => Gt end.
Definition str_cmp (a b : string) : comparison := String.compare a b.

(** The derived order of [OpOrd]: the fields in the order of declaration *)
Definition op_cmp (a b : OpOrd) : P comparison :=
  match a, b with
  | OO_Genesis, OO_Genesis => mret Eq
  | OO_Genesis, OO_Transition _ _ _ _ => mret Lt
  | OO_Transition _ _ _ _, OO_Genesis => mret Gt
  | OO_Transition w ty nonce opid, OO_Transition w' ty' nonce' opid' =>
      c ← witness_cmp w w';
      mret (then_cmp c (then_cmp (ty ?= ty') (then_cmp (nonce ?= nonce') (str_cmp opid opid'))))
  end.

Record GlobalOrd := mkGlobalOrd { go_op_ord : OpOrd; go_idx : Z }.

Definition global_cmp (a b : GlobalOrd) : P comparison :=
  c ← op_cmp (go_op_ord a) (go_op_ord b); mret (then_cmp c (go_idx a ?= go_idx b)).

(** [GlobalOrd::genesis], [GlobalOrd::transition] *)
Definition ord_genesis (idx : Z) : GlobalOrd := mkGlobalOrd OO_Genesis idx.
Definition ord_transition (opid : OpId) (idx : Z) (ty : TransitionType) (nonce : Z) (witness : WitnessOrd) : GlobalOrd :=
  mkGlobalOrd (OO_Transition witness ty nonce opid) idx.

Record GlobalStateEntry := mkEntry { entry_ord : GlobalOrd; entry_data : RevealedData }.

(** ** Total preorders *)

Definition preorder {A} (cmp : A -> A -> comparison) : Prop :=
  (forall a b, cmp b a = CompOpp (cmp a b)) /\
  (forall a b c, cmp a b <> Gt -> cmp b c <> Gt -> cmp a c <> Gt).

Lemma preorder_Eq {A} (cmp : A -> A -> comparison) a b c : preorder cmp -> cmp a b = Eq -> cmp a c = cmp b c.
Proof.
  intros [Ho Ht] E. assert (cmp b a = Eq) as E' by (by rewrite Ho, E).
  pose proof (Ht a b c) as H1. pose proof (Ht b a c) as H2. pose proof (Ht c a b) as H3. pose proof (Ht c b a) as H4.
  rewrite (Ho a c), E in H3. rewrite (Ho b c), E' in H4. rewrite E in H1. rewrite E' in H2.
  rewrite (Ho b c) in H3. rewrite (Ho a c) in H4.
  destruct (cmp a c), (cmp b c); cbn in *; naive_solver.
Qed.

Lemma preorder_on {A B} (f : A -> B) (cmp : B -> B -> comparison) :
  preorder cmp -> preorder (fun a b => cmp (f a) (f b)).
Proof. intros [Ho Ht]. split; [intros; apply Ho|intros a b c; apply Ht]. Qed.

Lemma then_trans {A} (cmp : A -> A -> comparison) a b c n1 n2 n3 : preorder cmp ->
  (n1 <> Gt -> n2 <> Gt -> n3 <> Gt) ->
  then_cmp (cmp a b) n1 <> Gt -> then_cmp (cmp b c) n2 <> Gt -> then_cmp (cmp a c) n3 <> Gt.
Proof.
  intros H1 Hn. pose proof H1 as [Ho Ht]. specialize (Ht a b c). destruct (cmp a b) eqn:E1; cbn [then_cmp].
  - rewrite (preorder_Eq cmp a b c) by done. destruct (cmp b c); cbn [then_cmp]; naive_solver.
  - destruct (cmp b c) eqn:E2; cbn [then_cmp]; [| |done].
    + intros _ _. assert (cmp c b = Eq) as E3 by (by rewrite Ho, E2).
      pose proof (preorder_Eq cmp c b a H1 E3) as E4. rewrite (Ho a c), (Ho a b), E1 in E4.
      destruct (cmp a c); done.
    + intros _ _. destruct (cmp a c) eqn:E3; cbn [then_cmp]; [|done|exfalso; by apply Ht].
      pose proof (preorder_Eq cmp a c b H1 E3) as E4. by rewrite E1, (Ho b c), E2 in E4.
  - done.
Qed.

Lemma preorder_then {A} (c1 c2 : A -> A -> comparison) :
  preorder c1 -> preorder c2 -> preorder (fun a b => then_cmp (c1 a b) (c2 a b)).
Proof.
  intros H1 [Ho2 Ht2]. split.
  - intros a b. destruct H1 as [Ho1 _]. rewrite Ho1, Ho2. by destruct (c1 a b).
  - intros a b c. apply then_trans; [done|apply Ht2].
Qed.

Lemma preorder_Z : preorder Z.compare.
Proof. split; [intros; apply Z.compare_antisym|]. intros a b c. rewrite !Z.compare_ngt_iff. lia. Qed.

Lemma preorder_ascii : preorder Ascii.compare.
Proof.
  split; [intros; apply Ascii.compare_antisym|]. intros a b c. unfold Ascii.compare. rewrite !N.compare_ngt_iff. lia.
Qed.

Lemma preorder_str : preorder str_cmp.
Proof.
  unfold str_cmp. split; [intros; apply String.compare_antisym|].
  induction a as [|x a IH]; intros [|y b] [|z c]; try done.
  apply (then_trans Ascii.compare); [apply preorder_ascii|apply IH].
Qed.

(** ** The order on one chain *)

(** Witnesses on the chain [l], with the positive timestamps that the constructors
    of positions give *)
Definition on_chain (l : Layer1) (o : OpOrd) : Prop :=
  match o with
  | OO_Transition (Mined p) _ _ _ => pos_layer1 p = l /\ 0 < pos_timestamp p
  | _ => True
  end.

(** The keys that operations of one chain are ordered by *)
Definition chain_key (o : OpOrd) : Z * Z * Z * Z * string :=
  match o with
  | OO_Genesis => (0, 0, 0, 0, "")
  | OO_Transition w ty nonce opid =>
      (1 + witness_rank w, match w with Mined p => pos_height p | _ => 0 end, ty, nonce, opid)
  end.

Definition key_cmp (a b : Z * Z * Z * Z * string) : comparison :=
  then_cmp (a.1.1.1.1 ?= b.1.1.1.1) (then_cmp (a.1.1.1.2 ?= b.1.1.1.2)
    (then_cmp (a.1.1.2 ?= b.1.1.2) (then_cmp (a.1.2 ?= b.1.2) (str_cmp a.2 b.2)))).

Lemma preorder_key : preorder key_cmp.
Proof.
  unfold key_cmp. repeat apply preorder_then; (apply (preorder_on _ Z.compare), preorder_Z) || idtac.
  apply (preorder_on _ str_cmp), preorder_str.
Qed.

Lemma op_cmp_key l a b : on_chain l a -> on_chain l b -> op_cmp a b = Ok (key_cmp (chain_key a) (chain_key b)).
Proof.
  destruct a as [|w ty n id], b as [|w' ty' n' id']; [done|by intros; destruct w'|by intros; destruct w|].
  destruct w as [p| | |], w' as [p'| | |]; try done. cbn. intros [<- Hp] [El Hp'].
  unfold pos_cmp. rewrite (proj2 (Z.ltb_lt 0 (pos_timestamp p)) Hp), (proj2 (Z.ltb_lt 0 (pos_timestamp p')) Hp'). cbn. by rewrite bool_decide_true by done.
Qed.

(** Operations whose witnesses are on one layer-1 chain have a total order:
    the genesis first, then by height, transition type, nonce and operation id; the
    comparison never panics, it is antisymmetric and transitive. *)
Theorem one_chain_order l : (forall a b, on_chain l a -> on_chain l b -> exists c,
    op_cmp a b = Ok c /\ op_cmp b a = Ok (CompOpp c)) /\
  (forall a b c, on_chain l a -> on_chain l b -> on_chain l c -> op_cmp a b <> Ok Gt -> op_cmp b c <> Ok Gt ->
    op_cmp a c <> Ok Gt).
Proof.
  destruct preorder_key as [Ho Ht]. split.
  - intros a b Ha Hb. eexists. rewrite !(op_cmp_key l) by done. split; [done|]. by rewrite Ho.
  - intros a b c Ha Hb Hc. rewrite !(op_cmp_key l) by done. intros H1 H2 [= E].
    apply (Ht (chain_key a) (chain_key b) (chain_key c)); congruence.
Qed.

(** Across two chains the order of positions has cycles: three witnesses can each
    be older than the next, because a bitcoin block less than ten minutes from a liquid
    block is the newer of the two whatever their timestamps. *)
Theorem cross_chain_cycle : exists a b c, pos_bitcoin 6 1300000000 = Some a /\ pos_liquid 1 1300000700 = Some b /\
  pos_bitcoin 5 1300000200 = Some c /\ pos_cmp a b = Ok Lt /\ pos_cmp b c = Ok Lt /\ pos_cmp c a = Ok Lt.
Proof. do 3 eexists. split_and!; reflexivity. Qed.

Lemma one_chain_order_witness : exists a b, pos_bitcoin 5 1300000200 = Some a /\ pos_bitcoin 6 1300000000 = Some b /\
  op_cmp OO_Genesis (OO_Transition (Mined b) 1 0 "x") <> Ok Gt.
Proof.
  do 2 eexists. split; [reflexivity|]. split; [reflexivity|].
  refine (proj2 (one_chain_order L1_Bitcoin) _ (OO_Transition (Mined (mkPos L1_Bitcoin 5 1300000200)) 1 0 "y") _ _ _ _ _ _);
    [exact I|split; reflexivity|split; reflexivity|discriminate|discriminate].
Defined.
