(* ===== verification/RgbSchema.v ===== *)
(** * RGB consensus: schemata and their verification

    Occurrence rules (schema/occurrences.rs), the schema of a contract and of its
    operations (schema/schema.rs, operations.rs, state.rs), the failures that
    validation reports (validation/status.rs) and [Schema::verify]
    (validation/schema.rs), which rejects schemata that name undeclared types.

    The type library of the strict-types crate is a parameter: a [TypeSystem] answers
    whether a type is known and whether bytes are a value of it. *)

From S2P Require Import Prelude Layer1 AluInstr RgbTypes.
Local Open Scope Z_scope.

(** ** Occurrences *)

Inductive Occurrences :=
| Once
| NoneOrOnce
| NoneOrMore
| OnceOrMore
| NoneOrUpTo (max : Z)
| OnceOrUpTo (max : Z)
| Exactly (val : Z)
| Range (start stop : Z).

Definition min_value (o : Occurrences) : Z :=
  match o with
  | Once | OnceOrMore | OnceOrUpTo _ => 1
  | NoneOrOnce | NoneOrMore | NoneOrUpTo _ => 0
  | Exactly val => val
  | Range start _ => start
  end.

Definition max_value (o : Occurrences) : Z :=
  match o with
  | Once | NoneOrOnce => 1
  | NoneOrMore | OnceOrMore => 65535
  | OnceOrUpTo max | NoneOrUpTo max => max
  | Exactly val => val
  | Range _ stop => stop
  end.

Record OccurrencesMismatch := mkMismatch { mm_min : Z; mm_max : Z; mm_found : Z }.

(** [Occurrences::check] *)
Definition occ_check (o : Occurrences) (count : Z) : result OccurrencesMismatch unit :=
  let ok :=
    match o with
    | Once => count =? 1
    | NoneOrOnce => count <=? 1
    | OnceOrMore => 0 <? count
    | OnceOrUpTo max => (0 <? count) && (count <=? max)
    | NoneOrMore => true
    | NoneOrUpTo max => count <=? max
    | Exactly val => count =? val
    | Range start stop => (start <=? count) && (count <=? stop)
    end in
  ensure ok (mkMismatch (min_value o) (max_value o) count).

Inductive OccurrencesError := OE_Zero | OE_MinExceedsMax.

(** [TryFrom<RangeInclusive<u16>> for Occurrences] *)
Definition occ_try_from (start stop : Z) : result OccurrencesError Occurrences :=
  if (start =? 0) && (stop =? 0) then Err OE_Zero
  else if stop <? start then Err OE_MinExceedsMax
  else Ok (if (start =? 0) && (stop =? 1) then NoneOrOnce
           else if (start =? 1) && (stop =? 1) then Once
           else if (start =? 0) && (stop =? 65535) then NoneOrMore
           else if (start =? 1) && (stop =? 65535) then OnceOrMore
           else if start =? 0 then NoneOrUpTo stop
           else if start =? 1 then OnceOrUpTo stop
           else if start =? stop then Exactly start
           else Range start stop).

(** [StrictEncode] and [StrictDecode]: the two bounds as 16-bit integers *)
Definition occ_encode (o : Occurrences) : Z * Z := (min_value o, max_value o).
Definition occ_decode (b : Z * Z) : result OccurrencesError Occurrences := occ_try_from b.1 b.2.

(** ** Schemata *)

Inductive OwnedStateSchema :=
| OS_Declarative
| OS_Fungible (ty : FungibleType)
| OS_Structured (sem_id : SemId).

Definition schema_state_type (s : OwnedStateSchema) : StateType :=
  match s with
  | OS_Declarative => ST_Void | OS_Fungible _ => ST_Fungible | OS_Structured _ => ST_Structured
  end.

(** [max_items] is a [u24]. *)
Record GlobalStateSchema := mkGlobalSchema { gs_sem_id : SemId; gs_max_items : Z }.

Record AssignmentDetails := mkAssignmentDetails {
  owned_state_schema : OwnedStateSchema; ad_name : string; default_transition : TransitionType }.
Record GlobalDetails := mkGlobalDetails { global_state_schema : GlobalStateSchema; gd_name : string }.
Record MetaDetails := mkMetaDetails { md_sem_id : SemId; md_name : string }.

Abbreviation MetaSchema := (gset MetaType).
Abbreviation GlobalSchema := (gmap GlobalStateType Occurrences).
Abbreviation InputsSchema := (gmap AssignmentType Occurrences).
Abbreviation AssignmentsSchema := (gmap AssignmentType Occurrences).

Record GenesisSchema := mkGenesisSchema {
  gsc_metadata : MetaSchema;
  gsc_globals : GlobalSchema;
  gsc_assignments : AssignmentsSchema;
  gsc_validator : option LibSite;
}.

Record TransitionSchema := mkTransitionSchema {
  tsc_metadata : MetaSchema;
  tsc_globals : GlobalSchema;
  tsc_inputs : InputsSchema;
  tsc_assignments : AssignmentsSchema;
  tsc_validator : option LibSite;
}.

Record TransitionDetails := mkTransitionDetails { transition_schema : TransitionSchema; td_name : string }.

Record Schema := mkSchema {
  s_ffv : Z;
  s_name : string;
  meta_types : gmap MetaType MetaDetails;
  global_types : gmap GlobalStateType GlobalDetails;
  owned_types : gmap AssignmentType AssignmentDetails;
  s_genesis : GenesisSchema;
  s_transitions : gmap TransitionType TransitionDetails;
  default_assignment : option AssignmentType;
}.

(** [OpSchema]: what the schemata of genesis and of transitions share *)
Record OpSchema := mkOpSchema {
  os_metadata : MetaSchema;
  os_globals : GlobalSchema;
  os_inputs : option InputsSchema;
  os_assignments : AssignmentsSchema;
  os_validator : option LibSite;
}.
Definition of_genesis (s : GenesisSchema) : OpSchema :=
  mkOpSchema (gsc_metadata s) (gsc_globals s) None (gsc_assignments s) (gsc_validator s).
Definition of_transition (s : TransitionSchema) : OpSchema :=
  mkOpSchema (tsc_metadata s) (tsc_globals s) (Some (tsc_inputs s)) (tsc_assignments s) (tsc_validator s).

Inductive OpFullType := OFT_Genesis | OFT_StateTransition (ty : TransitionType).

(** ** Failures (validation/status.rs)

    The failures that the modelled code reports; diagnostic texts and the types of
    the type library are left out of the payload. *)

Inductive CloseMethod := OpretFirst | TapretFirst.
#[export] Instance CloseMethod_eq_dec : EqDecision CloseMethod.
Proof. solve_decision. Defined.

Inductive Failure :=
| ContractChainNetMismatch (c : ChainNet)
| SchemaMismatch (expected actual : SchemaId)
| TypeSystemMismatch (id : SemId)
| SchemaGlobalSemIdUnknown (ty : GlobalStateType) (id : SemId)
| SchemaOwnedSemIdUnknown (ty : AssignmentType) (id : SemId)
| SchemaMetaSemIdUnknown (ty : MetaType) (id : SemId)
| SchemaOpEmptyInputs (op : OpFullType)
| SchemaOpMetaTypeUnknown (op : OpFullType) (ty : MetaType)
| SchemaOpGlobalTypeUnknown (op : OpFullType) (ty : GlobalStateType)
| SchemaOpAssignmentTypeUnknown (op : OpFullType) (ty : AssignmentType)
| SchemaUnknownTransitionType (opid : OpId) (ty : TransitionType)
| SchemaUnknownMetaType (opid : OpId) (ty : MetaType)
| SchemaUnknownGlobalStateType (opid : OpId) (ty : GlobalStateType)
| SchemaUnknownAssignmentType (opid : OpId) (ty : AssignmentType)
| SchemaUnknownSealClosingStrategy (opid : OpId) (s : SealClosingStrategy)
| SchemaGlobalStateOccurrences (opid : OpId) (ty : GlobalStateType) (m : OccurrencesMismatch)
| SchemaGlobalStateLimit (opid : OpId) (ty : GlobalStateType) (count max_items : Z)
| SchemaNoMetadata (opid : OpId) (ty : MetaType)
| SchemaInvalidMetadata (opid : OpId) (id : SemId)
| SchemaInvalidGlobalValue (opid : OpId) (ty : GlobalStateType) (id : SemId)
| SchemaInvalidOwnedValue (opid : OpId) (ty : AssignmentType) (id : SemId)
| SchemaInputOccurrences (opid : OpId) (ty : AssignmentType) (m : OccurrencesMismatch)
| SchemaAssignmentOccurrences (opid : OpId) (ty : AssignmentType) (m : OccurrencesMismatch)
| CyclicGraph (o : Opout)
| ContractMismatch (opid : OpId) (id : ContractId)
| TransitionIdMismatch (opid actual : OpId)
| InputMapTransitionMismatch (bundle : BundleId) (opid : OpId) (o : Opout)
| NoPrevState (opid : OpId) (o : Opout)
| SealNoPubWitness (bundle : BundleId) (txid : Txid)
| SealsInvalid (bundle : BundleId) (txid : Txid)
| MpcInvalid (bundle : BundleId) (txid : Txid)
| NoDbcOutput (txid : Txid)
| InvalidProofType (txid : Txid) (method : CloseMethod)
| StateTypeMismatch (opid : OpId) (ty : AssignmentType) (expected found : StateType)
| FungibleTypeMismatch (opid : OpId) (ty : AssignmentType) (expected found : FungibleType)
| ScriptFailure (opid : OpId) (code : option Z)
| ContractStateFilled (opid : OpId)
| MissingScript (opid : OpId) (lib : string)
| ScriptIDMismatch (opid : OpId) (expected actual : string).

(** ** Verification of a schema (validation/schema.rs) *)

(** [strict_types::TypeSystem] *)
Class TypeLibrary := {
  TypeSystem : Type;
  Ty : Type;
  Ty_eq_dec :: EqDecision Ty;
  ts_types : TypeSystem -> list (SemId * Ty);
  ts_get : TypeSystem -> SemId -> option Ty;
  strict_deserialize_type : TypeSystem -> SemId -> list Z -> bool;
}.
Definition ts_contains_key `{TypeLibrary} (types : TypeSystem) (id : SemId) : bool :=
  bool_decide (is_Some (ts_get types id)).

(** A set of 16-bit types in the order of iteration *)
Definition sorted_elems (s : gset Z) : list Z := merge_sort Z.le (elements s).

Lemma elem_of_sorted_elems (s : gset Z) x : x ∈ sorted_elems s <-> x ∈ s.
Proof. unfold sorted_elems. rewrite merge_sort_Permutation. apply elem_of_elements. Qed.

Section verify.
Context `{TypeLibrary}.

Definition declared {A} (m : gmap Z A) (k : Z) : bool := bool_decide (is_Some (m !! k)).

Definition verify_operation (s : Schema) (op_type : OpFullType) (op : OpSchema) : result Failure unit :=
  try_each (sorted_elems (os_metadata op)) (fun ty =>
    ensure (declared (meta_types s) ty) (SchemaOpMetaTypeUnknown op_type ty)) ;;
  ensure (match os_inputs op with Some inputs => negb (bool_decide (inputs = ∅)) | None => true end)
    (SchemaOpEmptyInputs op_type) ;;
  try_each (sorted_keys (os_globals op)) (fun ty =>
    ensure (declared (global_types s) ty) (SchemaOpGlobalTypeUnknown op_type ty)) ;;
  try_each (sorted_keys (os_assignments op)) (fun ty =>
    ensure (declared (owned_types s) ty) (SchemaOpAssignmentTypeUnknown op_type ty)).

(** The entries of an ordered map in the order of iteration *)
Definition entries {A} (m : gmap Z A) : list (Z * A) :=
  omap (fun k => (fun v => (k, v)) <$> m !! k) (sorted_keys m).

(** [Schema::verify] *)
Definition verify (s : Schema) (types : TypeSystem) : result Failure unit :=
  verify_operation s OFT_Genesis (of_genesis (s_genesis s)) ;;
  try_each (entries (s_transitions s)) (fun '(ty, d) =>
    verify_operation s (OFT_StateTransition ty) (of_transition (transition_schema d))) ;;
  try_each (entries (meta_types s)) (fun '(ty, d) =>
    ensure (ts_contains_key types (md_sem_id d)) (SchemaMetaSemIdUnknown ty (md_sem_id d))) ;;
  try_each (entries (global_types s)) (fun '(ty, d) =>
    let id := gs_sem_id (global_state_schema d) in
    ensure (ts_contains_key types id) (SchemaGlobalSemIdUnknown ty id)) ;;
  try_each (entries (owned_types s)) (fun '(ty, d) =>
    match owned_state_schema d with
    | OS_Structured id => ensure (ts_contains_key types id) (SchemaOwnedSemIdUnknown ty id)
    | _ => Ok tt
    end).

End verify.

(** ** Occurrences as ranges *)

Lemma occ_check_Ok o count : 0 <= count <= 65535 ->
  occ_check o count = Ok tt <-> min_value o <= count <= max_value o.
Proof.
  intros. unfold occ_check. rewrite ensure_Ok. destruct o; cbn; rewrite ?andb_true_iff, ?Z.eqb_eq, ?Z.leb_le, ?Z.ltb_lt; lia.
Qed.

Lemma occ_check_Err o count e : occ_check o count = Err e -> e = mkMismatch (min_value o) (max_value o) count.
Proof. by intros [_ ->]%ensure_Err. Qed.

Lemma occ_check_ext o o' count : min_value o = min_value o' -> max_value o = max_value o' ->
  0 <= count <= 65535 -> occ_check o count = occ_check o' count.
Proof.
  intros E1 E2 Hc. pose proof (occ_check_Ok o count Hc). pose proof (occ_check_Ok o' count Hc).
  destruct (occ_check o count) as [[]|e] eqn:Eo, (occ_check o' count) as [[]|e'] eqn:Eo'; [done|..].
  - naive_solver lia.
  - naive_solver lia.
  - apply occ_check_Err in Eo, Eo'. congruence.
Qed.

Lemma occ_try_from_Ok start stop o : occ_try_from start stop = Ok o -> min_value o = start /\ max_value o = stop.
Proof.
  unfold occ_try_from. intros Ho. repeat case_match; simplify_eq; cbn;
    rewrite ?andb_true_iff, ?Z.eqb_eq, ?Z.ltb_ge in *; naive_solver.
Qed.

Lemma occ_try_from_total start stop : 0 <= start <= stop -> 0 < stop -> exists o, occ_try_from start stop = Ok o.
Proof.
  intros. unfold occ_try_from. rewrite !bool_if_false by (rewrite ?andb_false_iff, ?Z.eqb_neq, ?Z.ltb_ge; lia). eauto.
Qed.

(** An occurrence rule that is written as its two bounds and read back accepts
    the same numbers with the same diagnostics, whichever of the equivalent variants it
    was; reading is the left inverse of writing on every rule that reading yields; and
    rules with an empty range, or with the range [0..0], cannot be read back. *)
Theorem occurrences_roundtrip o : 0 <= min_value o -> 0 <= max_value o ->
  (min_value o <= max_value o -> 0 < max_value o -> exists o', occ_decode (occ_encode o) = Ok o' /\
     occ_encode o' = occ_encode o /\ forall count, 0 <= count <= 65535 -> occ_check o' count = occ_check o count) /\
  (max_value o = 0 \/ max_value o < min_value o -> exists e, occ_decode (occ_encode o) = Err e).
Proof.
  intros Hmin Hmax. unfold occ_decode. cbn. split.
  - intros Hle Hpos. destruct (occ_try_from_total (min_value o) (max_value o)) as [o' Ho]; [lia|done|].
    apply occ_try_from_Ok in Ho as Hb. destruct Hb as [E1 E2]. exists o'. split; [done|]. split.
    + unfold occ_encode. congruence.
    + intros count Hc. by apply occ_check_ext.
  - intros Hbad. unfold occ_try_from. destruct (_ && _) eqn:E0; [eauto|].
    rewrite bool_if_true; [eauto|]. apply Z.ltb_lt. rewrite andb_false_iff, !Z.eqb_neq in E0. lia.
Qed.

Lemma occurrences_roundtrip_witness :
  (exists o', occ_decode (occ_encode (Range 1 65535)) = Ok o' /\ occ_encode o' = (1, 65535) /\
     forall count, 0 <= count <= 65535 -> occ_check o' count = occ_check (Range 1 65535) count) /\
  (exists e, occ_decode (occ_encode (NoneOrUpTo 0)) = Err e).
Proof.
  split.
  - apply (occurrences_roundtrip (Range 1 65535)); cbn; lia.
  - apply (occurrences_roundtrip (NoneOrUpTo 0)); cbn; lia.
Defined.

(** ** Verified schemata *)

Lemma elem_of_entries {A} (m : gmap Z A) k v : (k, v) ∈ entries m <-> m !! k = Some v.
Proof.
  unfold entries. rewrite list_elem_of_omap. split.
  - intros (k' & Hk & Hv). destruct (m !! k') eqn:E; naive_solver.
  - intros Hv. exists k. rewrite elem_of_sorted_keys, Hv. eauto.
Qed.

Lemma entries_NoDup {A} (m : gmap Z A) : NoDup (entries m).*1.
Proof.
  assert (forall l, NoDup l -> NoDup (omap (fun k => (fun v => (k, v)) <$> m !! k) l).*1) as Hl; [|apply Hl, sorted_keys_NoDup].
  induction 1 as [|k l Hk Hl IH]; cbn; [constructor|]. destruct (m !! k) as [v|]; cbn; [|done].
  constructor; [|done]. intros ([k' v'] & -> & Hin)%list_elem_of_fmap. apply Hk.
  apply list_elem_of_omap in Hin as (k2 & Hk2 & (v2 & _ & [= <- <-])%fmap_Some_1). done.
Qed.

Lemma list_to_map_entries {A} (m : gmap Z A) : list_to_map (entries m) = m.
Proof.
  apply map_eq. intros k. destruct (m !! k) as [v|] eqn:E.
  - apply elem_of_list_to_map_1; [apply entries_NoDup|by apply elem_of_entries].
  - apply not_elem_of_list_to_map_1. intros ([k' v] & -> & Hv)%list_elem_of_fmap. apply elem_of_entries in Hv. cbn in *. congruence.
Qed.

Section verified.
Context `{TypeLibrary}.

Lemma declared_iff {A} (m : gmap Z A) k : declared m k = true <-> is_Some (m !! k).
Proof. unfold declared. by rewrite bool_decide_eq_true. Qed.

(** The operation [op] of the schema names only declared types. *)
Record op_declared (s : Schema) (op : OpSchema) : Prop := mkDeclared {
  decl_meta : forall ty, ty ∈ os_metadata op -> is_Some (meta_types s !! ty);
  decl_inputs : os_inputs op <> Some ∅;
  decl_globals : forall ty, is_Some (os_globals op !! ty) -> is_Some (global_types s !! ty);
  decl_owned : forall ty, is_Some (os_assignments op !! ty) -> is_Some (owned_types s !! ty);
}.

Lemma verify_operation_Ok s op_type op : verify_operation s op_type op = Ok tt <-> op_declared s op.
Proof.
  unfold verify_operation. rewrite !result_seq_Ok, !try_each_Ok. split.
  - intros (H1 & H2 & H3 & H4). rewrite ensure_Ok in H2.
    split.
    + intros ty Hty. apply elem_of_sorted_elems, H1, ensure_Ok in Hty. by apply declared_iff.
    + intros E. rewrite E in H2. by rewrite bool_decide_true in H2.
    + intros ty Hty. apply elem_of_sorted_keys, H3, ensure_Ok in Hty. by apply declared_iff.
    + intros ty Hty. apply elem_of_sorted_keys, H4, ensure_Ok in Hty. by apply declared_iff.
  - intros [D1 D2 D3 D4]. split_and!.
    + intros ty ?%elem_of_sorted_elems. apply ensure_Ok, declared_iff. auto.
    + apply ensure_Ok. destruct (os_inputs op); [|done]. rewrite bool_decide_false; [done|]. by intros ->.
    + intros ty ?%elem_of_sorted_keys. apply ensure_Ok, declared_iff. auto.
    + intros ty ?%elem_of_sorted_keys. apply ensure_Ok, declared_iff. auto.
Qed.

(** What verification promises to the validation of operations *)
Record schema_ok (s : Schema) : Prop := mkSchemaOk {
  ok_genesis : op_declared s (of_genesis (s_genesis s));
  ok_transition : forall ty d, s_transitions s !! ty = Some d -> op_declared s (of_transition (transition_schema d));
}.

Lemma verify_schema_ok s types : verify s types = Ok tt -> schema_ok s.
Proof.
  unfold verify. rewrite !result_seq_Ok. intros (H1 & H2 & _). split.
  - by apply verify_operation_Ok in H1.
  - intros ty d Hd. rewrite try_each_Ok in H2. apply elem_of_entries, H2 in Hd. by apply verify_operation_Ok in Hd.
Qed.

End verified.
