(* ===== verification/RgbIsa.v ===== *)
(** * RGB consensus: the contract instructions (vm/op_contract.rs, vm/isa.rs)

    The AluVM extension that scripts use to read the operation under validation and
    the state of the contract: its instructions with their bytecode and execution.
    The state of a contract is reached through the trait [ContractStateAccess].
    Identifiers of operations (tagged hashes of their commitment) and the ECDSA check
    of the secp256k1 crate are parameters. *)

From S2P Require Import Prelude Layer1 AluReg AluNumber AluCursor AluInstr AluBytecode AluLib AluRegs AluExec AluShift AluFrame AluProgress RgbTypes RgbOrder.
Local Open Scope Z_scope.

(** ** The operation under validation (vm/contract.rs) *)

(** The commitments of operations *)
Class OperationIds := {
  genesis_id : Genesis -> OpId;
  transition_id : Transition -> OpId;
}.

(** [ecdsa::Signature::from_compact] and [Signature::verify] of the secp256k1 crate:
    public key, signature and message are byte strings *)
Class Ecdsa := {
  is_public_key : list Z -> bool;
  is_compact_signature : string -> bool;
  ecdsa_verify : list Z -> string -> string -> bool;
}.

Inductive OrdOpRef :=
| Op_Genesis (g : Genesis)
| Op_Transition (t : Transition) (witness_id : Txid) (ord : WitnessOrd) (bundle_id : BundleId).

Definition op_id `{OperationIds} (op : OrdOpRef) : OpId :=
  match op with Op_Genesis g => genesis_id g | Op_Transition t _ _ _ => transition_id t end.
Definition op_metadata (op : OrdOpRef) : Metadata :=
  match op with Op_Genesis g => g_metadata g | Op_Transition t _ _ _ => t_metadata t end.
Definition op_globals (op : OrdOpRef) : GlobalState :=
  match op with Op_Genesis g => g_globals g | Op_Transition t _ _ _ => t_globals t end.
Definition op_assignments (op : OrdOpRef) : AssignmentsRef :=
  match op with
  | Op_Genesis g => AR_Genesis (g_assignments g)
  | Op_Transition t _ _ _ => AR_Graph (t_assignments t)
  end.

(** [OrdOpRef::op_ord] *)
Definition op_ord `{OperationIds} (op : OrdOpRef) : OpOrd :=
  match op with
  | Op_Genesis _ => OO_Genesis
  | Op_Transition t _ ord _ => OO_Transition ord (t_transition_type t) (t_nonce t) (transition_id t)
  end.

(** [GlobalsIter] is the list of entries from the top of the contract state;
    [None] is [UnknownGlobalStateType]. *)
Class ContractStateAccess (S : Type) := {
  cs_global : S -> GlobalStateType -> option (list GlobalStateEntry);
  cs_rights : S -> Outpoint -> AssignmentType -> Z;
  cs_fungible : S -> Outpoint -> AssignmentType -> list FungibleState;
  cs_data : S -> Outpoint -> AssignmentType -> list RevealedData;
}.

Definition PrevState := gmap AssignmentType (list RevealedState).

Record OpInfo := mkOpInfo { oi_id : OpId; oi_prev_state : PrevState; oi_op : OrdOpRef }.

Record VmContext (S : Type) := mkVmContext {
  vc_contract_id : ContractId;
  vc_op_info : OpInfo;
  vc_contract_state : S;
}.
Arguments mkVmContext {S}. Arguments vc_contract_id {S}. Arguments vc_op_info {S}. Arguments vc_contract_state {S}.

Definition oi_global (i : OpInfo) : GlobalState := op_globals (oi_op i).
Definition oi_metadata (i : OpInfo) : Metadata := op_metadata (oi_op i).
Definition owned_state (i : OpInfo) : AssignmentsRef := op_assignments (oi_op i).

(** ** Instructions *)

Module CO.
Inductive ContractOp :=
| CnP (ty : AssignmentType) (reg : Reg32)
| CnS (ty : AssignmentType) (reg : Reg32)
| CnG (ty : GlobalStateType) (reg : Reg32)
| CnC (ty : GlobalStateType) (reg : Reg32)
| LdP (ty : AssignmentType) (idx : Reg16) (dst : RegS)
| LdS (ty : AssignmentType) (idx : Reg16) (dst : RegS)
| LdF (ty : AssignmentType) (idx : Reg16) (dst : Reg16)
| LdR (ty : AssignmentType) (idx : Reg16) (dst : Reg16)
| LdG (ty : GlobalStateType) (idx : Reg16) (dst : RegS)
| LdC (ty : GlobalStateType) (idx : Reg16) (dst : RegS)
| LdM (ty : MetaType) (dst : RegS)
| LdOF (ty : AssignmentType) (txid vout idx dst : Reg16)
| LdOD (ty : AssignmentType) (txid vout idx : Reg16) (dst : RegS)
| LdOR (ty : AssignmentType) (txid vout dst : Reg16)
| Svs (ty : AssignmentType)
| Sas (ty : AssignmentType)
| Sps (ty : AssignmentType)
| Vts (reg : RegS)
| Fail (code : Z).
End CO.
Import CO (ContractOp).

Inductive RgbIsa := Contract (op : ContractOp) | RgbFail (code : Z).

Abbreviation INSTR_RGBISA_FROM := 144 (only parsing).
Abbreviation INSTR_RGBISA_TO := INSTR_ISAE_TO (only parsing).
Abbreviation INSTR_CNP := 192 (only parsing).
Abbreviation INSTR_CNS := 193 (only parsing).
Abbreviation INSTR_CNG := 194 (only parsing).
Abbreviation INSTR_CNC := 195 (only parsing).
Abbreviation INSTR_LDP := 196 (only parsing).
Abbreviation INSTR_LDS := 197 (only parsing).
Abbreviation INSTR_LDF := 198 (only parsing).
Abbreviation INSTR_LDR := 199 (only parsing).
Abbreviation INSTR_LDG := 200 (only parsing).
Abbreviation INSTR_LDC := 201 (only parsing).
Abbreviation INSTR_LDM := 202 (only parsing).
Abbreviation INSTR_LDOF := 203 (only parsing).
Abbreviation INSTR_LDOD := 204 (only parsing).
Abbreviation INSTR_LDOR := 205 (only parsing).
Abbreviation INSTR_SVS := 208 (only parsing).
Abbreviation INSTR_SAS := 209 (only parsing).
Abbreviation INSTR_SPS := 210 (only parsing).
Abbreviation INSTR_VTS := 211 (only parsing).
Abbreviation INSTR_CONTRACT_FROM := 192 (only parsing).
Abbreviation INSTR_CONTRACT_TO := 212 (only parsing).

Definition Contract_byte (op : ContractOp) : Z :=
  match op with
  | CO.CnP _ _ => INSTR_CNP
  | CO.CnS _ _ => INSTR_CNS
  | CO.CnG _ _ => INSTR_CNG
  | CO.CnC _ _ => INSTR_CNC
  | CO.LdG _ _ _ => INSTR_LDG
  | CO.LdS _ _ _ => INSTR_LDS
  | CO.LdP _ _ _ => INSTR_LDP
  | CO.LdF _ _ _ => INSTR_LDF
  | CO.LdR _ _ _ => INSTR_LDR
  | CO.LdC _ _ _ => INSTR_LDC
  | CO.LdM _ _ => INSTR_LDM
  | CO.LdOF _ _ _ _ _ => INSTR_LDOF
  | CO.LdOD _ _ _ _ _ => INSTR_LDOD
  | CO.LdOR _ _ _ _ => INSTR_LDOR
  | CO.Svs _ => INSTR_SVS
  | CO.Sas _ => INSTR_SAS
  | CO.Sps _ => INSTR_SPS
  | CO.Vts _ => INSTR_VTS
  | CO.Fail other => other
  end.

Definition Contract_args (op : ContractOp) : CM unit :=
  match op with
  | CO.CnP ty reg | CO.CnS ty reg | CO.CnG ty reg | CO.CnC ty reg => writes [fld 16 ty; fld 5 reg; (3, 0)]
  | CO.LdP ty reg_a reg_s | CO.LdS ty reg_a reg_s | CO.LdG ty reg_a reg_s | CO.LdC ty reg_a reg_s =>
      writes [fld 16 ty; fld 4 reg_a; fld 4 reg_s]
  | CO.LdF ty reg_a reg_dst | CO.LdR ty reg_a reg_dst => writes [fld 16 ty; fld 4 reg_a; fld 4 reg_dst]
  | CO.LdM ty reg => writes [fld 16 ty; fld 4 reg; (4, 0)]
  | CO.LdOF ty txid vout idx dst => writes [fld 16 ty; fld 4 txid; fld 4 vout; fld 4 idx; fld 4 dst]
  | CO.LdOD ty txid vout idx dst => writes [fld 16 ty; fld 4 txid; fld 4 vout; fld 4 idx; fld 4 dst]
  | CO.LdOR ty txid vout dst => writes [fld 16 ty; fld 4 txid; fld 4 vout; fld 4 dst; (4, 0)]
  | CO.Svs ty | CO.Sas ty | CO.Sps ty => writes [fld 16 ty]
  | CO.Vts reg => writes [fld 4 reg]
  | CO.Fail _ => mret tt
  end.

Definition Contract_decode : CM ContractOp :=
  instr ← read_u8;
  match instr with
  | INSTR_CNP => ty ← read_u16; reg ← read_as 5; read_bits 3 ;; mret (CO.CnP ty reg)
  | INSTR_CNS => ty ← read_u16; reg ← read_as 5; read_bits 3 ;; mret (CO.CnS ty reg)
  | INSTR_CNG => ty ← read_u16; reg ← read_as 5; read_bits 3 ;; mret (CO.CnG ty reg)
  | INSTR_CNC => ty ← read_u16; reg ← read_as 5; read_bits 3 ;; mret (CO.CnC ty reg)
  | INSTR_LDP => ty ← read_u16; a ← read_as 4; s ← read_as 4; mret (CO.LdP ty a s)
  | INSTR_LDF => ty ← read_u16; a ← read_as 4; d ← read_as 4; mret (CO.LdF ty a d)
  | INSTR_LDR => ty ← read_u16; a ← read_as 4; d ← read_as 4; mret (CO.LdR ty a d)
  | INSTR_LDG => ty ← read_u16; a ← read_as 4; s ← read_as 4; mret (CO.LdG ty a s)
  | INSTR_LDS => ty ← read_u16; a ← read_as 4; s ← read_as 4; mret (CO.LdS ty a s)
  | INSTR_LDC => ty ← read_u16; a ← read_as 4; s ← read_as 4; mret (CO.LdC ty a s)
  | INSTR_LDM => ty ← read_u16; s ← read_as 4; read_bits 4 ;; mret (CO.LdM ty s)
  | INSTR_LDOF =>
      ty ← read_u16; t ← read_as 4; v ← read_as 4; i ← read_as 4; d ← read_as 4; mret (CO.LdOF ty t v i d)
  | INSTR_LDOD =>
      ty ← read_u16; t ← read_as 4; v ← read_as 4; i ← read_as 4; d ← read_as 4; mret (CO.LdOD ty t v i d)
  | INSTR_LDOR =>
      ty ← read_u16; t ← read_as 4; v ← read_as 4; d ← read_as 4; read_bits 4 ;; mret (CO.LdOR ty t v d)
  | INSTR_SVS => ty ← read_u16; mret (CO.Svs ty)
  | INSTR_SAS => ty ← read_u16; mret (CO.Sas ty)
  | INSTR_SPS => ty ← read_u16; mret (CO.Sps ty)
  | INSTR_VTS => reg ← read_as 4; mret (CO.Vts reg)
  | x => mret (CO.Fail x)
  end.

#[export] Instance Contract_bytecode : Bytecode ContractOp := {|
  instr_range := (INSTR_CONTRACT_FROM, INSTR_CONTRACT_TO);
  instr_byte := Contract_byte;
  encode_args := Contract_args;
  decode := Contract_decode;
  try_decode_extension_prefix := mret None;
  call_site _ := None;
|}.

Definition Rgb_byte (i : RgbIsa) : Z := match i with Contract op => instr_byte op | RgbFail code => code end.
Definition Rgb_args (i : RgbIsa) : CM unit := match i with Contract op => encode_args op | RgbFail _ => mret tt end.

(** The opcode of a failure is not read. *)
Definition Rgb_decode : CM RgbIsa :=
  instr ← peek_u8;
  if contains (instr_range (A := ContractOp)) instr then op ← decode; mret (Contract op)
  else mret (RgbFail instr).

#[export] Instance Rgb_bytecode : Bytecode RgbIsa := {|
  instr_range := (INSTR_RGBISA_FROM, INSTR_RGBISA_TO);
  instr_byte := Rgb_byte;
  encode_args := Rgb_args;
  decode := Rgb_decode;
  try_decode_extension_prefix := mret None;
  call_site _ := None;
|}.

(** ** Reported registers and complexity *)

Definition Contract_dst (op : ContractOp) : list Reg :=
  match op with
  | CO.CnG _ reg => [Reg_A A8 reg]
  | CO.LdR _ _ reg => [Reg_A A8 (r16 reg)]
  | CO.CnP _ reg | CO.CnS _ reg | CO.CnC _ reg => [Reg_A A16 reg]
  | CO.LdF _ _ reg | CO.LdOF _ _ _ _ reg => [Reg_A A64 (r16 reg)]
  | CO.LdOR _ _ _ reg => [Reg_A A32 (r16 reg)]
  | CO.LdG _ _ reg | CO.LdS _ _ reg | CO.LdP _ _ reg | CO.LdC _ _ reg | CO.LdM _ reg | CO.LdOD _ _ _ _ reg =>
      [Reg_S reg]
  | CO.Svs _ | CO.Sas _ | CO.Sps _ => []
  | CO.Vts reg => [Reg_S reg]
  | CO.Fail _ => []
  end.

Definition Contract_complexity (op : ContractOp) : Z :=
  match op with
  | CO.CnP _ _ | CO.CnS _ _ | CO.CnG _ _ | CO.CnC _ _ => 2
  | CO.LdP _ _ _ | CO.LdS _ _ _ | CO.LdF _ _ _ | CO.LdR _ _ _ | CO.LdG _ _ _ | CO.LdC _ _ _
  | CO.LdOF _ _ _ _ _ | CO.LdOD _ _ _ _ _ | CO.LdOR _ _ _ _ => 8
  | CO.LdM _ _ => 6
  | CO.Svs _ | CO.Sas _ | CO.Sps _ => 20
  | CO.Vts _ => 512
  | CO.Fail _ => umax 64
  end.

(** ** Execution *)

Section exec.
Context {S : Type} `{ContractStateAccess S} `{Ecdsa}.

(** [fail!()]: the run stops with [st0] cleared. *)
Definition stop : RM ExecStep := set_st0 false ;; mret EStop.

(** [let Some(x) = .. else { fail!() }] *)
Definition some_or_stop {A} (o : option A) (k : A -> RM ExecStep) : RM ExecStep :=
  match o with Some a => k a | None => stop end.

Definition get_A (a : RegA) (i : Reg32) (k : Z -> RM ExecStep) : RM ExecStep :=
  v ← gets (fun r => regA r a i); some_or_stop v k.

Definition put_A (a : RegA) (i : Reg32) (bytes : Z) (v : Z) : RM ExecStep :=
  set_n (AFR_A a) i (Some (from_uint bytes v)) ;; mret ENext.

Definition put_s16 (s : RegS) (bs : list Z) : RM ExecStep := sets16 s (Some bs) ;; mret ENext.

(** [load_revealed_inputs!]; [None] is the failure *)
Definition load_revealed_inputs (i : OpInfo) (ty : AssignmentType) : option (list Z) :=
  match oi_prev_state i !! ty with
  | Some assignments =>
      mapM (fun a => match a with RS_Fungible v => Some (as_u64 v) | _ => None end) assignments
  | None => Some []
  end.

(** [load_revealed_outputs!] *)
Definition load_revealed_outputs (i : OpInfo) (ty : AssignmentType) : option (list Z) :=
  match assignments_get (owned_state i) ty with
  | Some (Fungible state) => Some (map (fun a => as_u64 (as_revealed_state a)) state)
  | None => Some []
  | Some _ => None
  end.

(** [outputs.contains(&0)] fails, and then the checked sum *)
Definition sum_outputs (outputs : list Z) : option Z :=
  if bool_decide (0 ∈ outputs) then None else checked_sum 64 0 outputs.

(** [Txid::from_byte_array] *)
Definition bytes_str (bs : list Z) : string := String.string_of_list_ascii (map byte_of bs).

(** The outpoint in [r256] and [a32] registers *)
Definition get_outpoint (txid vout : Reg16) (k : Outpoint -> RM ExecStep) : RM ExecStep :=
  v ← gets (fun r => regR r R256 (r16 txid));
  some_or_stop v (fun t =>
  get_A A32 (r16 vout) (fun vout => k (mkOutpoint (bytes_str (le_bytes 32 t)) vout))).

(** [PublicKey::from_slice], [Signature::from_compact] and the verification *)
Definition vts_ok (i : OpInfo) (pubkey : option (list Z)) : bool :=
  match oi_op i with
  | Op_Genesis _ => false
  | Op_Transition t _ _ _ =>
      match pubkey, t_signature t with
      | Some pk, Some sig => is_public_key pk && is_compact_signature sig && ecdsa_verify pk sig (oi_id i)
      | _, _ => false
      end
  end.

Definition Contract_exec (op : ContractOp) (ctx : VmContext S) : RM ExecStep :=
  let info := vc_op_info ctx in
  let state := vc_contract_state ctx in
  match op with
  | CO.CnP ty reg =>
      put_A A16 reg 2 (default 0 ((fun a => Z.of_nat (length a) mod 65536) <$> oi_prev_state info !! ty))
  | CO.CnS ty reg => put_A A16 reg 2 (default 0 (len_u16 <$> assignments_get (owned_state info) ty))
  | CO.CnG ty reg => put_A A8 reg 2 (default 0 ((fun a => Z.of_nat (length a)) <$> oi_global info !! ty))
  | CO.CnC ty reg =>
      match cs_global state ty with
      | Some global => put_A A32 reg 4 (Z.of_nat (length global) mod 2 ^ 32)
      | None => put_A A32 reg 4 0
      end
  | CO.LdP ty idx dst =>
      get_A A16 (r16 idx) (fun index =>
      some_or_stop (oi_prev_state info !! ty ≫= fun a => a !! Z.to_nat index ≫= fun s =>
                    match s with RS_Structured d => Some d | _ => None end)
        (put_s16 dst))
  | CO.LdS ty idx dst =>
      get_A A16 (r16 idx) (fun index =>
      some_or_stop (assignments_get (owned_state info) ty ≫= fun a => structured_state_at a index) (put_s16 dst))
  | CO.LdF ty idx dst =>
      get_A A16 (r16 idx) (fun index =>
      some_or_stop (assignments_get (owned_state info) ty ≫= fun a => fungible_state_at a index)
        (fun v => put_A A64 (r16 dst) 8 (as_u64 v)))
  | CO.LdR ty idx dst =>
      v ← gets (fun r => regA r A16 (r16 idx));
      let ok := default false (index ← v; a ← assignments_get (owned_state info) ty;
                               Some (is_declarative a && (index <? len_u16 a))) in
      put_A A8 (r16 dst) 1 (if ok : bool then 1 else 0)
  | CO.LdG ty idx dst =>
      get_A A8 (r16 idx) (fun index =>
      some_or_stop (oi_global info !! ty ≫= fun a => a !! Z.to_nat index) (put_s16 dst))
  | CO.LdC ty idx dst =>
      some_or_stop (cs_global state ty) (fun global =>
      get_A A32 (r16 idx) (fun index =>
      some_or_stop (if index <? 2 ^ 24 then Some index else None) (fun index =>
      some_or_stop (global !! Z.to_nat index) (fun e => put_s16 dst (entry_data e)))))
  | CO.LdM ty dst => some_or_stop (oi_metadata info !! ty) (put_s16 dst)
  | CO.LdOF ty txid vout idx dst =>
      get_outpoint txid vout (fun outpoint =>
      get_A A16 (r16 idx) (fun index =>
      some_or_stop (cs_fungible state outpoint ty !! Z.to_nat index) (fun v => put_A A64 (r16 dst) 8 (as_u64 v))))
  | CO.LdOD ty txid vout idx dst =>
      get_outpoint txid vout (fun outpoint =>
      get_A A16 (r16 idx) (fun index =>
      some_or_stop (cs_data state outpoint ty !! Z.to_nat index) (put_s16 dst)))
  | CO.LdOR ty txid vout dst =>
      get_outpoint txid vout (fun outpoint => put_A A32 (r16 dst) 4 (cs_rights state outpoint ty))
  | CO.Svs ty =>
      some_or_stop (load_revealed_inputs info ty ≫= checked_sum 64 0) (fun input_amt =>
      some_or_stop (load_revealed_outputs info ty ≫= sum_outputs) (fun output_amt =>
      if input_amt =? output_amt then mret ENext else stop))
  | CO.Sas ty =>
      get_A A64 Reg32_0 (fun sum =>
      some_or_stop (load_revealed_outputs info ty ≫= sum_outputs) (fun output_amt =>
      if sum =? output_amt then mret ENext else stop))
  | CO.Sps ty =>
      get_A A64 Reg32_0 (fun sum =>
      some_or_stop (load_revealed_inputs info ty ≫= checked_sum 64 0) (fun input_amt =>
      if sum =? input_amt then mret ENext else stop))
  | CO.Vts reg => pk ← gets16 reg; if vts_ok info pk then mret ENext else stop
  | CO.Fail _ => stop
  end.

#[export] Instance Contract_set : InstructionSet ContractOp (VmContext S) := {|
  dst_regs := Contract_dst;
  complexity := Contract_complexity;
  exec op _ ctx := Contract_exec op ctx;
|}.

(** [ControlFlowOp::Fail.exec] *)
#[export] Instance Rgb_set : InstructionSet RgbIsa (VmContext S) := {|
  dst_regs i := match i with Contract op => dst_regs (Ctx := VmContext S) op | RgbFail _ => [] end;
  complexity i := match i with Contract op => complexity (Ctx := VmContext S) op | RgbFail _ => umax 64 end;
  exec i site ctx := match i with Contract op => exec op site ctx | RgbFail _ => ControlFlow_exec CF.Fail site end;
|}.

End exec.

(** ** Bytecode *)

#[export] Hint Unfold Contract_bytecode Contract_decode read_u8 read_u16 : decoders.

Definition u16_ok (ty : Z) : Prop := 0 <= ty < 2 ^ 16.

#[export] Instance Contract_laws : BytecodeLaws ContractOp.
Proof.
  refine {|
    encodable _ op := match op with
      | CO.CnP ty _ | CO.CnS ty _ | CO.CnG ty _ | CO.CnC ty _ | CO.LdF ty _ _ | CO.LdR ty _ _
      | CO.LdOF ty _ _ _ _ | CO.LdOR ty _ _ _ | CO.Svs ty | CO.Sas ty | CO.Sps ty => u16_ok ty
      | CO.LdP ty _ s | CO.LdS ty _ s | CO.LdG ty _ s | CO.LdC ty _ s | CO.LdM ty s | CO.LdOD ty _ _ _ s =>
          u16_ok ty /\ RegS_ok s
      | CO.Vts s => RegS_ok s
      | CO.Fail code => code = 206 \/ code = 207 \/ code = 212
      end;
    data_need _ := 0;
    arg_bits op := match op with
      | CO.Svs _ | CO.Sas _ | CO.Sps _ => 16
      | CO.LdOF _ _ _ _ _ | CO.LdOD _ _ _ _ _ | CO.LdOR _ _ _ _ => 32
      | CO.Vts _ => 4
      | CO.Fail _ => 0
      | _ => 24
      end |}; [done..|].
  intros ls d op Hop _. destruct op; unfold u16_ok, RegS_ok in Hop; try plain_law.
  destruct Hop as [-> | [-> | ->]]; bare_law.
Defined.

(** The opcodes of contract instructions go to the contract decoder. *)
Lemma Contract_range ls (op : ContractOp) : encodable ls op -> contains (instr_range (A := ContractOp)) (instr_byte op) = true.
Proof. destruct op; try done. by intros [-> | [-> | ->]]. Qed.

#[export] Instance Rgb_laws : BytecodeLaws RgbIsa.
Proof.
  refine {|
    encodable ls i := match i with Contract op => encodable ls op | RgbFail _ => False end;
    data_need _ := 0;
    arg_bits i := match i with Contract op => arg_bits op | RgbFail _ => 0 end |}; [done..|].
  intros ls d [op|code] Hop Hd; [|done].
  destruct (bytecode_law ls d op Hop Hd) as (fs & d' & (He & Hr & Hp) & Ht & Hl).
  exists fs, d'. split; [|done]. split_and!; [done| |done].
  cbn [instr_byte decode Rgb_bytecode Rgb_byte]. apply decodes_peek.
  rewrite bool_if_true by (by eapply Contract_range). by apply decodes_fmap.
Defined.

(** Contract instructions are opcodes that the core decoder hands to its extension. *)
Lemma Contract_ext_opcode ls (op : ContractOp) : encodable ls op -> ext_opcode (instr_byte (Contract op)).
Proof.
  intros Hop. apply Contract_range in Hop. unfold contains, ext_opcode in *. cbn in *. lia.
Qed.

(** ** Laws of execution *)

Section frame.
Context (I : CoreRegs -> Prop) (W : Reg -> Prop) `{!Frame I W}.

Lemma keeps_stop : keeps I stop.
Proof. unfold stop. apply frame_bind; [by apply (keeps_set_st0 I W)|intros; apply frame_ret]. Qed.

Lemma keeps_some {A} (o : option A) k : (forall a, o = Some a -> keeps I (k a)) -> keeps I (some_or_stop o k).
Proof. destruct o; cbn; [auto|intros _; apply keeps_stop]. Qed.

Lemma keeps_get_A a i k : (forall v, keeps I (k v)) -> keeps I (get_A a i k).
Proof. intros Hk. unfold get_A. apply frame_bind; [apply keeps_gets|]. intros v. apply keeps_some. auto. Qed.

Lemma keeps_put_A a i bytes v : W (Reg_A a i) -> keeps I (put_A a i bytes v).
Proof. intros. unfold put_A. apply frame_bind; [by apply (keeps_set_n I W (AFR_A a))|intros; apply frame_ret]. Qed.

Lemma keeps_put_s16 s bs : W (Reg_S s) -> str_ok bs -> keeps I (put_s16 s bs).
Proof.
  intros. unfold put_s16. apply frame_bind; [|intros; apply frame_ret]. apply (keeps_sets16 I W); [done|].
  by intros ? [= <-].
Qed.

Lemma keeps_outpoint txid vout k : (forall o, keeps I (k o)) -> keeps I (get_outpoint txid vout k).
Proof.
  intros Hk. unfold get_outpoint. apply frame_bind; [apply keeps_gets|]. intros v. apply keeps_some.
  intros t _. by apply keeps_get_A.
Qed.

End frame.

(** Steps of an extension never jump or call. *)
Definition calm (m : RM ExecStep) : Prop :=
  forall r r' s, m r = (r', Ok s) -> match s with EJump _ | ECall _ => False | _ => True end.

Lemma calm_ret s : match s with EJump _ | ECall _ => False | _ => True end -> calm (mret s).
Proof. by intros Hs r r' ? [= _ <-]. Qed.
Lemma calm_bind {A} (m : RM A) f : (forall x, calm (f x)) -> calm (m ≫= f).
Proof. intros Hf r r' s. unfold mbind, SE_bind. destruct (m r) as [r1 [x|e]]; [apply Hf|done]. Qed.
Lemma calm_some {A} (o : option A) k : (forall a, calm (k a)) -> calm (some_or_stop o k).
Proof. destruct o; cbn; [auto|]. intros _. unfold stop. apply calm_bind. intros. by apply calm_ret. Qed.

Section laws.
Context {S : Type} `{ContractStateAccess S} `{Ecdsa}.

(** The byte strings of the operation and of the contract state fit 65535 bytes
    ([SmallBlob]). *)
Record vm_context_ok (ctx : VmContext S) : Prop := mkContextOk {
  ctx_prev : forall ty l d, oi_prev_state (vc_op_info ctx) !! ty = Some l -> RS_Structured d ∈ l -> str_ok d;
  ctx_owned : forall ty a idx d, assignments_get (owned_state (vc_op_info ctx)) ty = Some a ->
    structured_state_at a idx = Some d -> str_ok d;
  ctx_globals : forall ty l d, oi_global (vc_op_info ctx) !! ty = Some l -> d ∈ l -> str_ok d;
  ctx_metadata : forall ty d, oi_metadata (vc_op_info ctx) !! ty = Some d -> str_ok d;
  ctx_state_globals : forall ty l e, cs_global (vc_contract_state ctx) ty = Some l -> e ∈ l -> str_ok (entry_data e);
  ctx_state_data : forall o ty d, d ∈ cs_data (vc_contract_state ctx) o ty -> str_ok d;
}.

(** Counting global state items of the contract writes [a32], and reports [a16]. *)
Definition Rgb_hidden (i : RgbIsa) : list Reg :=
  match i with Contract (CO.CnC _ reg) => [Reg_A A32 reg] | _ => [] end.

Ltac allowed_reg := unfold allowed in *; cbn in *; rewrite ?Forall_cons in *; tauto.

Lemma Contract_keeps I W `{!Frame I W} op ctx : vm_context_ok ctx -> allowed W (Contract_dst op) ->
  allowed W (Rgb_hidden (Contract op)) -> keeps I (Contract_exec op ctx).
Proof.
  intros [C1 C2 C3 C4 C5 C6] Hw Hh. assert (keeps I stop) as Hstop by apply (keeps_stop I W).
  assert (forall a i n v, W (Reg_A a i) -> keeps I (put_A a i n v)) as HA by apply (keeps_put_A I W).
  assert (forall s bs, W (Reg_S s) -> str_ok bs -> keeps I (put_s16 s bs)) as HS by apply (keeps_put_s16 I W).
  destruct op; cbn [Contract_exec]; cbv zeta;
    repeat (apply (keeps_get_A I W); intros ?index);
    repeat (apply (keeps_outpoint I W); intros ?outpoint; repeat (apply (keeps_get_A I W); intros ?index)).
  1-3: apply HA; allowed_reg.
  - case_match; apply HA; allowed_reg.
  - apply (keeps_some I W). intros d (l & Hl & Hd)%bind_Some. apply bind_Some in Hd as (s & Hs & Hd).
    apply list_elem_of_lookup_2 in Hs. destruct s; simplify_eq. apply HS; [allowed_reg|eauto].
  - apply (keeps_some I W). intros d (a & Ha & Hd)%bind_Some. apply HS; [allowed_reg|eauto].
  - apply (keeps_some I W). intros v _. apply HA. allowed_reg.
  - apply frame_bind; [apply keeps_gets|]. intros v. apply HA. allowed_reg.
  - apply (keeps_some I W). intros d (l & Hl & Hd)%bind_Some. apply list_elem_of_lookup_2 in Hd.
    apply HS; [allowed_reg|eauto].
  - apply (keeps_some I W). intros l Hl. apply (keeps_get_A I W). intros idx'. apply (keeps_some I W). intros n _.
    apply (keeps_some I W). intros e He%list_elem_of_lookup_2. apply HS; [allowed_reg|eauto].
  - apply (keeps_some I W). intros d Hd. apply HS; [allowed_reg|eauto].
  - apply (keeps_some I W). intros v _. apply HA. allowed_reg.
  - apply (keeps_some I W). intros d Hd%list_elem_of_lookup_2. apply HS; [allowed_reg|eauto].
  - apply HA. allowed_reg.
  - apply (keeps_some I W). intros v _. apply (keeps_some I W). intros v' _. case_match; [apply frame_ret|done].
  - apply (keeps_some I W). intros v _. case_match; [apply frame_ret|done].
  - apply (keeps_some I W). intros v _. case_match; [apply frame_ret|done].
  - apply frame_bind; [apply keeps_gets|]. intros pk. case_match; [apply frame_ret|done].
  - done.
Qed.

Lemma Contract_calm op ctx : calm (Contract_exec (S := S) op ctx).
Proof.
  assert (calm stop) as Hstop by (apply calm_bind; intros; by apply calm_ret).
  assert (forall a i n v, calm (put_A a i n v)) as HA by (intros; apply calm_bind; intros; by apply calm_ret).
  assert (forall s bs, calm (put_s16 s bs)) as HS by (intros; apply calm_bind; intros; by apply calm_ret).
  assert (forall a i k, (forall v, calm (k v)) -> calm (get_A a i k)) as HG
    by (intros; apply calm_bind; intros; by apply calm_some).
  destruct op; cbn [Contract_exec]; cbv zeta; unfold get_outpoint;
    repeat (lazymatch goal with
    | |- calm stop => exact Hstop
    | |- calm (put_A _ _ _ _) => apply HA
    | |- calm (put_s16 _ _) => apply HS
    | |- calm (some_or_stop _ _) => apply calm_some; intros ?
    | |- calm (get_A _ _ _) => apply HG; intros ?
    | |- calm (mret _) => by apply calm_ret
    | |- calm (_ ≫= _) => apply calm_bind; intros ?
    | |- calm (match ?x with _ => _ end) => destruct x
    end; cbv beta).
Qed.

#[export] Instance Rgb_set_laws : ExtensionLaws RgbIsa (VmContext S).
Proof.
  refine {| hidden := Rgb_hidden; op_ok _ := True; ctx_ok := vm_context_ok |}.
  - intros [[]|]; done.
  - intros I W HF [op|code] site ctx _ Hctx Hw Hh; cbn [exec Rgb_set Contract_set].
    + by apply (Contract_keeps I W).
    + apply frame_ret.
  - intros [op|code] site ctx r r' s; cbn [exec Rgb_set Contract_set]; [apply Contract_calm|].
    by intros [= _ <-].
Defined.

Lemma Contract_advances : advances 8 Contract_decode (fun _ => True).
Proof. apply advances_opcode. intros b. advance. Qed.

#[export] Instance Rgb_decode_laws : ExtensionDecode RgbIsa (VmContext S).
Proof.
  constructor; [done|]. intros c c' i Hc Hd. cbn [decode Rgb_bytecode] in Hd.
  unfold Rgb_decode, peek_u8, mbind at 1, SE_bind at 1 in Hd. destruct (is_eof c); [done|].
  destruct (contains _ _).
  - cbn [decode Contract_bytecode] in Hd. unfold mbind, SE_bind in Hd.
    destruct (Contract_decode c) as [c1 [op|e]] eqn:Ed; [|done]. injection Hd as <- <-.
    destruct (Contract_advances c c1 op Hc Ed) as [Hm _]. split_and!; [by apply (moved_le 0 8)|done|by left].
  - injection Hd as <- <-. split_and!; [by apply moved_refl|done|right].
    intros site ctx r r' s. cbn. intros [= _ <-]. by left.
Qed.

End laws.
