(* ===== verification/RgbLogic.v ===== *)
(** * RGB consensus: validation of an operation (validation/logic.rs)

    [validate_state] checks an operation against the schema, runs the script of the
    schema and lets the contract state evolve.  [state_valid] states what an accepted
    operation satisfies, without the order of the checks; [validate_state_refines]
    shows that the code implements it.

    The source walks two hash sets; their order is the parameter [hash_order].  The
    script runs with fuel, and [Unfinished] is a run that has not ended. *)

From S2P Require Import Prelude Layer1 AluReg AluNumber AluCursor AluInstr AluBytecode AluLib AluRegs AluExec AluShift AluFrame AluProgress AluVm RgbTypes RgbOrder RgbSchema RgbIsa.
Local Open Scope Z_scope.

Inductive WitnessResolverError :=
| IdMismatch (actual expected : Txid)
| ResolverIssue (witness_id : option Txid) (msg : string)
| InvalidResolverData
| WrongChainNet.

Inductive ValidationError :=
| InvalidConsignment (f : Failure)
| ResolverError (e : WitnessResolverError)
| Panicked (p : panic)
| Unfinished.

(** Why a contract state does not take an operation: it is full, or its implementation
    panics *)
Inductive StateFault := StateFilled | StatePanics (p : panic).

(** [ContractStateEvolve::evolve_state]; the state survives an error *)
Class ContractStateEvolve (S : Type) := evolve_state : OrdOpRef -> S -> S * result StateFault unit.

(** [Option::expect] *)
Definition expect {A} (o : option A) (why : string) : result ValidationError A := ok_or o (Panicked (Abort why)).

Definition check (b : bool) (f : Failure) : result ValidationError unit := ensure b (InvalidConsignment f).

Section logic.
Context `{TypeLibrary} (hash_order : gset Z -> list Z).

Definition validate_metadata (s : Schema) (opid : OpId) (metadata : Metadata) (schema : MetaSchema)
    (types : TypeSystem) : result ValidationError unit :=
  try_each (sorted_keys metadata) (fun ty => check (bool_decide (ty ∈ schema)) (SchemaUnknownMetaType opid ty)) ;;
  try_each (sorted_elems schema) (fun ty =>
    value ← ok_or (metadata !! ty) (InvalidConsignment (SchemaNoMetadata opid ty));
    d ← expect (meta_types s !! ty) "metadata type";
    check (strict_deserialize_type types (md_sem_id d) value) (SchemaInvalidMetadata opid (md_sem_id d))).

Definition validate_global_state (s : Schema) (opid : OpId) (global : GlobalState) (schema : GlobalSchema)
    (types : TypeSystem) : result ValidationError unit :=
  try_each (sorted_keys global) (fun ty => check (declared schema ty) (SchemaUnknownGlobalStateType opid ty)) ;;
  try_each (entries schema) (fun '(ty, occ) =>
    let set := default [] (global !! ty) in
    d ← expect (global_types s !! ty) "field";
    let sem_id := gs_sem_id (global_state_schema d) in
    let max_items := gs_max_items (global_state_schema d) in
    let count := Z.of_nat (length set) mod 65536 in
    map_err (fun err => InvalidConsignment (SchemaGlobalStateOccurrences opid ty err)) (occ_check occ count) ;;
    check (count <=? max_items) (SchemaGlobalStateLimit opid ty count max_items) ;;
    try_each set (fun data =>
      check (strict_deserialize_type types sem_id data) (SchemaInvalidGlobalValue opid ty sem_id))).

(** The types of the state and of the schema, in the order of a hash set *)
Definition type_ids {A B} (m : gmap Z A) (schema : gmap Z B) : list Z := hash_order (dom m ∪ dom schema).

Definition validate_prev_state (opid : OpId) (prev_state : PrevState) (schema : AssignmentsSchema)
    : result ValidationError unit :=
  try_each (type_ids prev_state schema) (fun ty =>
    occ ← ok_or (schema !! ty) (InvalidConsignment (SchemaUnknownAssignmentType opid ty));
    let len := default 0 ((fun a => Z.of_nat (length a) mod 65536) <$> prev_state !! ty) in
    map_err (fun err => InvalidConsignment (SchemaInputOccurrences opid ty err)) (occ_check occ len)).

(** [OwnedStateSchema::validate] on the state of an assignment *)
Definition owned_state_validate (schema : OwnedStateSchema) (opid : OpId) (ty : AssignmentType)
    (state : RevealedState) (types : TypeSystem) : result ValidationError unit :=
  match schema, state with
  | OS_Declarative, RS_Void => Ok tt
  | OS_Fungible Unsigned64Bit, RS_Fungible v =>
      match fungible_type v with Unsigned64Bit => Ok tt end
  | OS_Structured sem_id, RS_Structured data =>
      check (strict_deserialize_type types sem_id data) (SchemaInvalidOwnedValue opid ty sem_id)
  | _, found => Err (InvalidConsignment (StateTypeMismatch opid ty (schema_state_type schema) (state_type found)))
  end.

(** The states of the assignments of one type *)
Definition assigned_states {Seal} (a : TypedAssigns Seal) : list RevealedState :=
  match a with
  | Declarative set => (state_data ∘ as_revealed_state) <$> set
  | Fungible set => (state_data ∘ as_revealed_state) <$> set
  | Structured set => (state_data ∘ as_revealed_state) <$> set
  end.

Definition validate_new_state {Seal} (s : Schema) (opid : OpId) (new_state : Assignments Seal)
    (schema : AssignmentsSchema) (types : TypeSystem) : result ValidationError unit :=
  try_each (type_ids new_state schema) (fun ty =>
    occ ← ok_or (schema !! ty) (InvalidConsignment (SchemaUnknownAssignmentType opid ty));
    let len := default 0 (len_u16 <$> new_state !! ty) in
    map_err (fun err => InvalidConsignment (SchemaAssignmentOccurrences opid ty err)) (occ_check occ len) ;;
    d ← expect (owned_types s !! ty) "assignment";
    match new_state !! ty with
    | None => Ok tt
    | Some a =>
        try_each (assigned_states a) (fun state =>
          owned_state_validate (owned_state_schema d) opid ty state types)
    end).

End logic.

(** ** The whole operation *)

Section validate_state.
Context (debug : bool) `{Wide} `{fs : Floats} `{Digests} `{Secp}.
Context `{TypeLibrary} `{OperationIds} `{Ecdsa} {S : Type} `{ContractStateAccess S} `{ContractStateEvolve S}.
Context (hash_order : gset Z -> list Z) (lib_id : Lib -> string) (calls fuel : nat).

(** The part of the schema that the operation is checked against *)
Definition op_schema (s : Schema) (op : OrdOpRef) : result ValidationError OpSchema :=
  match op with
  | Op_Genesis g =>
      check (bool_decide (g_seal_closing_strategy g = FirstOpretOrTapret))
        (SchemaUnknownSealClosingStrategy (op_id op) (g_seal_closing_strategy g)) ;;
      Ok (of_genesis (s_genesis s))
  | Op_Transition t _ _ _ =>
      d ← ok_or (s_transitions s !! t_transition_type t)
            (InvalidConsignment (SchemaUnknownTransitionType (op_id op) (t_transition_type t)));
      Ok (of_transition (transition_schema d))
  end.

(** The registers of the new machine: a transition finds its type in [a16[0]] *)
Definition initial_regs (op : OrdOpRef) : CoreRegs :=
  match op with
  | Op_Genesis _ => regs_default
  | Op_Transition t _ _ _ => with_A A16 Reg32_0 (Some (t_transition_type t)) regs_default
  end.

(** The checks before the script *)
Definition validate_structure (s : Schema) (types : TypeSystem) (op : OrdOpRef) (prev_state : PrevState)
    : result ValidationError OpSchema :=
  os ← op_schema s op;
  validate_metadata s (op_id op) (op_metadata op) (os_metadata os) types ;;
  validate_global_state s (op_id op) (op_globals op) (os_globals os) types ;;
  validate_prev_state hash_order (op_id op) prev_state (default ∅ (os_inputs os)) ;;
  match op_assignments op with
  | AR_Genesis a => validate_new_state hash_order s (op_id op) a (os_assignments os) types
  | AR_Graph a => validate_new_state hash_order s (op_id op) a (os_assignments os) types
  end ;;
  Ok os.

(** The run of the script at [site] *)
Definition run_script (scripts : gmap string Lib) (genesis : Genesis) (op : OrdOpRef) (prev_state : PrevState)
    (site : LibSite) (st : S) : result ValidationError unit :=
  script ← ok_or (scripts !! site_lib site) (InvalidConsignment (MissingScript (op_id op) (site_lib site)));
  check (bool_decide (lib_id script = site_lib site))
    (ScriptIDMismatch (op_id op) (site_lib site) (lib_id script)) ;;
  let ctx := mkVmContext (genesis_id genesis) (mkOpInfo (op_id op) prev_state op) st in
  match Vm_exec (A := Instr RgbIsa) (H0 := the_set debug) lib_id calls fuel (fun id => scripts !! id) ctx site
          (initial_regs op) with
  | None => Err Unfinished
  | Some (_, Err p) => Err (Panicked p)
  | Some (_, Ok true) => Ok tt
  | Some (r, Ok false) => Err (InvalidConsignment (ScriptFailure (op_id op) (regA r A8 Reg32_0)))
  end.

Definition evolve (op : OrdOpRef) : SE S ValidationError unit := fun st =>
  let '(st', r) := evolve_state op st in
  (st', map_err (fun e => match e with
                          | StateFilled => InvalidConsignment (ContractStateFilled (op_id op))
                          | StatePanics p => Panicked p
                          end) r).

(** [Schema::validate_state] *)
Definition validate_state (s : Schema) (types : TypeSystem) (scripts : gmap string Lib) (genesis : Genesis)
    (op : OrdOpRef) (prev_state : PrevState) : SE S ValidationError unit :=
  os ← lift (S := S) (validate_structure s types op prev_state);
  match os_validator os with
  | None => mret tt
  | Some site =>
      st ← get (S := S);
      lift (S := S) (run_script scripts genesis op prev_state site st) ;;
      evolve op
  end.

End validate_state.

(** ** What an accepted operation satisfies *)

Definition count_of {A} (l : option (list A)) : Z := Z.of_nat (length (default [] l)).

Definition in_range (occ : Occurrences) (n : Z) : Prop := min_value occ <= n <= max_value occ.

(** The collections of an operation have at most 65535 items. *)
Record operation_ok (op : OrdOpRef) (prev_state : PrevState) : Prop := mkOperationOk {
  oo_globals : forall ty, count_of (op_globals op !! ty) <= 65535;
  oo_prev : forall ty, count_of (prev_state !! ty) <= 65535;
  oo_owned : forall ty a, assignments_get (op_assignments op) ty = Some a -> len_u16 a <= 65535;
}.

Section spec.
Context `{TypeLibrary}.

(** A state has the kind that the schema declares, and structured data its type. *)
Definition state_typed (types : TypeSystem) (schema : OwnedStateSchema) (state : RevealedState) : Prop :=
  match schema, state with
  | OS_Declarative, RS_Void => True
  | OS_Fungible _, RS_Fungible _ => True
  | OS_Structured sem_id, RS_Structured data => strict_deserialize_type types sem_id data = true
  | _, _ => False
  end.

Record structure_valid (s : Schema) (types : TypeSystem) (op : OrdOpRef) (prev_state : PrevState) (os : OpSchema)
    : Prop := mkStructureValid {
  sv_schema : match op with
    | Op_Genesis _ => os = of_genesis (s_genesis s)
    | Op_Transition t _ _ _ => exists d, s_transitions s !! t_transition_type t = Some d /\
                                         os = of_transition (transition_schema d)
    end;
  sv_meta : forall ty, is_Some (op_metadata op !! ty) <-> ty ∈ os_metadata os;
  sv_meta_typed : forall ty value, op_metadata op !! ty = Some value -> exists d, meta_types s !! ty = Some d /\
    strict_deserialize_type types (md_sem_id d) value = true;
  sv_globals : forall ty, is_Some (op_globals op !! ty) -> is_Some (os_globals os !! ty);
  sv_globals_typed : forall ty occ, os_globals os !! ty = Some occ ->
    exists d, global_types s !! ty = Some d /\ in_range occ (count_of (op_globals op !! ty)) /\
    count_of (op_globals op !! ty) <= gs_max_items (global_state_schema d) /\
    forall data, data ∈ default [] (op_globals op !! ty) ->
      strict_deserialize_type types (gs_sem_id (global_state_schema d)) data = true;
  sv_inputs : forall ty, is_Some (prev_state !! ty) -> is_Some (default ∅ (os_inputs os) !! ty);
  sv_inputs_range : forall ty occ, default ∅ (os_inputs os) !! ty = Some occ ->
    in_range occ (count_of (prev_state !! ty));
  sv_owned : forall ty, is_Some (assignments_get (op_assignments op) ty) -> is_Some (os_assignments os !! ty);
  sv_owned_typed : forall ty occ, os_assignments os !! ty = Some occ ->
    exists d, owned_types s !! ty = Some d /\
    in_range occ (default 0 (len_u16 <$> assignments_get (op_assignments op) ty)) /\
    forall a state, assignments_get (op_assignments op) ty = Some a -> state ∈ assigned_states a ->
      state_typed types (owned_state_schema d) state;
}.

(** ** The checks *)

Context (hash_order : gset Z -> list Z) (hash_order_elements : forall s, hash_order s ≡ₚ elements s).

Lemma check_Ok b f : check b f = Ok tt <-> b = true.
Proof. apply ensure_Ok. Qed.

Lemma expect_Ok {A} (o : option A) why a : expect o why = Ok a <-> o = Some a.
Proof. apply ok_or_Ok. Qed.

Lemma elem_of_type_ids {A B} (m : gmap Z A) (schema : gmap Z B) ty :
  ty ∈ type_ids hash_order m schema <-> is_Some (m !! ty) \/ is_Some (schema !! ty).
Proof.
  unfold type_ids. rewrite hash_order_elements, elem_of_elements, elem_of_union, !elem_of_dom. done.
Qed.

Lemma validate_metadata_Ok s opid metadata schema types : validate_metadata s opid metadata schema types = Ok tt <->
  (forall ty, is_Some (metadata !! ty) <-> ty ∈ schema) /\
  (forall ty value, metadata !! ty = Some value -> exists d, meta_types s !! ty = Some d /\
    strict_deserialize_type types (md_sem_id d) value = true).
Proof.
  unfold validate_metadata. rewrite result_seq_Ok, !try_each_Ok. split.
  - intros [H1 H2].
    assert (forall ty, is_Some (metadata !! ty) -> ty ∈ schema) as H3.
    { intros ty Hty%elem_of_sorted_keys%H1. by apply check_Ok, bool_decide_eq_true in Hty. }
    assert (forall ty, ty ∈ schema -> exists value d, metadata !! ty = Some value /\ meta_types s !! ty = Some d /\
      strict_deserialize_type types (md_sem_id d) value = true) as H4.
    { intros ty Hty%elem_of_sorted_elems%H2. apply result_bind_Ok in Hty as (value & Hv%ok_or_Ok & Hty).
      apply result_bind_Ok in Hty as (d & Hd%expect_Ok & Hty%check_Ok). eauto. }
    split; [intros ty; split; [apply H3|intros (value & _ & Hv & _)%H4; eauto]|].
    intros ty value Hv. destruct (H4 ty) as (value' & d & Hv' & Hd & Ht); [apply H3; eauto|]. naive_solver.
  - intros [H1 H2]. split.
    + intros ty Hty%elem_of_sorted_keys. apply check_Ok, bool_decide_eq_true, H1, Hty.
    + intros ty Hty%elem_of_sorted_elems. apply H1 in Hty as [value Hv]. destruct (H2 _ _ Hv) as (d & Hd & Ht).
      rewrite Hv, Hd. cbn. by apply check_Ok.
Qed.

Lemma occ_in_range {E} occ n (f : OccurrencesMismatch -> E) : 0 <= n <= 65535 ->
  map_err f (occ_check occ n) = Ok tt <-> in_range occ n.
Proof. intros Hn. rewrite map_err_Ok. by apply occ_check_Ok. Qed.

Lemma count_mod {A} (l : list A) : Z.of_nat (length l) <= 65535 -> Z.of_nat (length l) mod 65536 = Z.of_nat (length l).
Proof. intros. rewrite Z.mod_small; lia. Qed.

Lemma validate_global_state_Ok s opid global schema types :
  (forall ty, count_of (global !! ty) <= 65535) ->
  validate_global_state s opid global schema types = Ok tt <->
  (forall ty, is_Some (global !! ty) -> is_Some (schema !! ty)) /\
  (forall ty occ, schema !! ty = Some occ -> exists d, global_types s !! ty = Some d /\
    in_range occ (count_of (global !! ty)) /\ count_of (global !! ty) <= gs_max_items (global_state_schema d) /\
    forall data, data ∈ default [] (global !! ty) ->
      strict_deserialize_type types (gs_sem_id (global_state_schema d)) data = true).
Proof.
  intros Hc. unfold validate_global_state. rewrite result_seq_Ok, !try_each_Ok.
  assert (forall ty, 0 <= count_of (global !! ty) <= 65535) as Hn by (intros ty; split; [unfold count_of; lia|apply Hc]).
  f_equiv.
  - split; intros Hg ty Hty.
    + apply elem_of_sorted_keys, Hg, check_Ok in Hty. by apply declared_iff.
    + apply elem_of_sorted_keys, Hg in Hty. by apply check_Ok, declared_iff.
  - split.
    + intros Hg ty occ Hocc%elem_of_entries%Hg. apply result_bind_Ok in Hocc as (d & Hd%expect_Ok & Hocc).
      exists d. split; [done|]. rewrite (count_mod (default [] (global !! ty))) in Hocc by apply Hc.
      rewrite !result_seq_Ok, occ_in_range, check_Ok, Z.leb_le, try_each_Ok in Hocc by apply Hn.
      destruct Hocc as (H1 & H2 & H3). split_and!; [done..|]. intros data Hdata%H3. by apply check_Ok in Hdata.
    + intros Hg [ty occ] Hocc%elem_of_entries. destruct (Hg ty occ Hocc) as (d & Hd & H1 & H2 & H3).
      rewrite Hd. cbn [expect ok_or mbind result_bind].
      rewrite (count_mod (default [] (global !! ty))) by apply Hc.
      rewrite !result_seq_Ok, occ_in_range, check_Ok, Z.leb_le, try_each_Ok by apply Hn.
      split_and!; [done..|]. intros data Hdata. by apply check_Ok, H3.
Qed.

Lemma validate_prev_state_Ok opid prev_state schema : (forall ty, count_of (prev_state !! ty) <= 65535) ->
  validate_prev_state hash_order opid prev_state schema = Ok tt <->
  (forall ty, is_Some (prev_state !! ty) -> is_Some (schema !! ty)) /\
  (forall ty occ, schema !! ty = Some occ -> in_range occ (count_of (prev_state !! ty))).
Proof.
  intros Hc. unfold validate_prev_state. rewrite try_each_Ok.
  assert (forall ty, default 0 ((fun a => Z.of_nat (length a) mod 65536) <$> prev_state !! ty)
                     = count_of (prev_state !! ty)) as El.
  { intros ty. specialize (Hc ty). unfold count_of in *. destruct (prev_state !! ty); [by apply count_mod|done]. }
  assert (forall ty, 0 <= count_of (prev_state !! ty) <= 65535) as Hn
    by (intros ty; split; [unfold count_of; lia|apply Hc]).
  split.
  - intros Hp. assert (forall ty, is_Some (prev_state !! ty) \/ is_Some (schema !! ty) ->
      exists occ, schema !! ty = Some occ /\ in_range occ (count_of (prev_state !! ty))) as Hall.
    { intros ty Hty%elem_of_type_ids%Hp. apply result_bind_Ok in Hty as (occ & Hocc%ok_or_Ok & Hty).
      exists occ. split; [done|]. rewrite El in Hty. by apply occ_in_range in Hty. }
    split.
    + intros ty Hty. destruct (Hall ty) as (occ & ? & _); [by left|]. eauto.
    + intros ty occ Hocc. destruct (Hall ty) as (occ' & ? & ?); [right; eauto|]. naive_solver.
  - intros [H1 H2] ty Hty%elem_of_type_ids. assert (is_Some (schema !! ty)) as [occ Hocc] by naive_solver.
    rewrite Hocc. cbn [ok_or mbind result_bind]. rewrite El. apply occ_in_range; auto.
Qed.

Lemma owned_state_validate_Ok schema opid ty state types :
  owned_state_validate schema opid ty state types = Ok tt <-> state_typed types schema state.
Proof.
  destruct schema as [|[]|id], state as [|[]|d]; cbn; try done. apply check_Ok.
Qed.

Lemma validate_new_state_Ok {Seal} s opid (new_state : Assignments Seal) schema types :
  (forall ty a, new_state !! ty = Some a -> len_u16 a <= 65535) ->
  validate_new_state hash_order s opid new_state schema types = Ok tt <->
  (forall ty, is_Some (new_state !! ty) -> is_Some (schema !! ty)) /\
  (forall ty occ, schema !! ty = Some occ -> exists d, owned_types s !! ty = Some d /\
    in_range occ (default 0 (len_u16 <$> new_state !! ty)) /\
    forall a state, new_state !! ty = Some a -> state ∈ assigned_states a ->
      state_typed types (owned_state_schema d) state).
Proof.
  intros Hc. unfold validate_new_state. rewrite try_each_Ok.
  assert (forall ty, 0 <= default 0 (len_u16 <$> new_state !! ty) <= 65535) as Hn.
  { intros ty. destruct (new_state !! ty) as [a|] eqn:Ea; cbn; [|lia]. apply Hc in Ea. split; [|done].
    destruct a; cbn; lia. }
  split.
  - intros Hp. assert (forall ty, is_Some (new_state !! ty) \/ is_Some (schema !! ty) ->
      exists occ d, schema !! ty = Some occ /\ owned_types s !! ty = Some d /\
      in_range occ (default 0 (len_u16 <$> new_state !! ty)) /\
      forall a state, new_state !! ty = Some a -> state ∈ assigned_states a ->
        state_typed types (owned_state_schema d) state) as Hall.
    { intros ty Hty%elem_of_type_ids%Hp. apply result_bind_Ok in Hty as (occ & Hocc%ok_or_Ok & Hty).
      apply result_seq_Ok in Hty as [Hr Hty]. apply result_bind_Ok in Hty as (d & Hd%expect_Ok & Hty).
      apply occ_in_range in Hr; [|done]. exists occ, d. split_and!; [done..|]. intros a state Ha Hst.
      rewrite Ha, try_each_Ok in Hty. by apply Hty, owned_state_validate_Ok in Hst. }
    split.
    + intros ty Hty. destruct (Hall ty) as (occ & d & ? & _); [by left|]. eauto.
    + intros ty occ Hocc. destruct (Hall ty) as (occ' & d & Hocc' & ?); [right; eauto|].
      exists d. naive_solver.
  - intros [H1 H2] ty Hty%elem_of_type_ids. assert (is_Some (schema !! ty)) as [occ Hocc] by naive_solver.
    destruct (H2 ty occ Hocc) as (d & Hd & Hr & Hst). rewrite Hocc, Hd. cbn [ok_or expect mbind result_bind].
    apply result_seq_Ok. split; [by apply occ_in_range|]. cbn.
    destruct (new_state !! ty) as [a|]; [|done]. apply try_each_Ok. intros state Hs.
    apply owned_state_validate_Ok. eauto.
Qed.

End spec.

(** Genesis seals are read as seals of a transition; states and counts stay. *)
Lemma transmutate_len a : len_u16 (transmutate_seals a) = len_u16 a.
Proof. destruct a; cbn; by rewrite length_fmap. Qed.

Lemma transmutate_states a : assigned_states (transmutate_seals a) = assigned_states a.
Proof.
  destruct a; cbn; rewrite <- list_fmap_compose; apply list_fmap_ext; intros ? [] _; done.
Qed.

Section refinement.
Context (debug : bool) `{Wide} `{fs : Floats} `{Digests} `{Secp}.
Context `{TypeLibrary} `{OperationIds} `{Ecdsa} {S : Type} `{ContractStateAccess S} `{ContractStateEvolve S}.
Context (hash_order : gset Z -> list Z) (hash_order_elements : forall s, hash_order s ≡ₚ elements s).
Context (lib_id : Lib -> string) (calls fuel : nat).

Lemma op_schema_Ok s op os : op_schema s op = Ok os <->
  match op with
  | Op_Genesis _ => os = of_genesis (s_genesis s)
  | Op_Transition t _ _ _ => exists d, s_transitions s !! t_transition_type t = Some d /\
                                       os = of_transition (transition_schema d)
  end.
Proof.
  destruct op as [g|t ? ? ?]; cbn [op_schema].
  - rewrite result_seq_Ok, check_Ok, bool_decide_eq_true. destruct (g_seal_closing_strategy g). naive_solver.
  - rewrite result_bind_Ok. setoid_rewrite ok_or_Ok. naive_solver.
Qed.

(** The new state of either kind of operation *)
Lemma new_state_Ok s opid a schema types :
  (forall ty x, assignments_get a ty = Some x -> len_u16 x <= 65535) ->
  match a with
  | AR_Genesis a => validate_new_state hash_order s opid a schema types
  | AR_Graph a => validate_new_state hash_order s opid a schema types
  end = Ok tt <->
  (forall ty, is_Some (assignments_get a ty) -> is_Some (schema !! ty)) /\
  (forall ty occ, schema !! ty = Some occ -> exists d, owned_types s !! ty = Some d /\
    in_range occ (default 0 (len_u16 <$> assignments_get a ty)) /\
    forall x state, assignments_get a ty = Some x -> state ∈ assigned_states x ->
      state_typed types (owned_state_schema d) state).
Proof.
  intros Hc. destruct a as [a|a]; [|by apply validate_new_state_Ok]. cbn [assignments_get] in *.
  rewrite validate_new_state_Ok; [|done|].
  - setoid_rewrite fmap_is_Some. apply Morphisms_Prop.and_iff_morphism; [done|].
    assert (forall ty, len_u16 <$> (transmutate_seals <$> a !! ty) = len_u16 <$> a !! ty) as El.
    { intros ty. rewrite <- option_fmap_compose. apply option_fmap_ext. apply transmutate_len. }
    setoid_rewrite El. split; intros Ha ty occ Hocc; destruct (Ha ty occ Hocc) as (d & Hd & Hr & Hs);
      exists d; (split_and!; [done..|]).
    + intros x state (x' & Hx & ->)%fmap_Some_1. rewrite transmutate_states. by apply Hs.
    + intros x state Hx Hst. apply (Hs (transmutate_seals x)); [by rewrite Hx|]. by rewrite transmutate_states.
  - intros ty x Hx. rewrite <- transmutate_len. apply (Hc ty). by rewrite Hx.
Qed.

Lemma validate_structure_Ok s types op prev_state os : operation_ok op prev_state ->
  validate_structure hash_order s types op prev_state = Ok os <-> structure_valid s types op prev_state os.
Proof.
  intros [O1 O2 O3]. unfold validate_structure. rewrite result_bind_Ok. split.
  - intros (os' & Hs & Hv). rewrite !result_seq_Ok, validate_metadata_Ok, validate_global_state_Ok,
      validate_prev_state_Ok, new_state_Ok in Hv by done.
    destruct Hv as ((? & ?) & (? & ?) & (? & ?) & (? & ?) & [= ->]). apply op_schema_Ok in Hs. by constructor.
  - intros []. exists os. split; [by apply op_schema_Ok|].
    rewrite !result_seq_Ok, validate_metadata_Ok, validate_global_state_Ok, validate_prev_state_Ok, new_state_Ok by done.
    done.
Qed.

(** The script at [site] is the library it names and its run succeeds. *)
Definition script_accepts (scripts : gmap string Lib) (genesis : Genesis) (op : OrdOpRef) (prev_state : PrevState)
    (site : LibSite) (st : S) : Prop :=
  exists script r, scripts !! site_lib site = Some script /\ lib_id script = site_lib site /\
  Vm_exec (A := Instr RgbIsa) (H0 := the_set debug) lib_id calls fuel (fun id => scripts !! id)
    (mkVmContext (genesis_id genesis) (mkOpInfo (op_id op) prev_state op) st) site (initial_regs op) = Some (r, Ok true).

Lemma run_script_Ok scripts genesis op prev_state site st :
  run_script debug lib_id calls fuel scripts genesis op prev_state site st = Ok tt <->
  script_accepts scripts genesis op prev_state site st.
Proof.
  unfold run_script, script_accepts. rewrite result_bind_Ok. split.
  - intros (script & Hs%ok_or_Ok & Hr). apply result_seq_Ok in Hr as [Hid Hr].
    apply check_Ok, bool_decide_eq_true in Hid. cbv zeta in Hr.
    destruct (Vm_exec _ _ _ _ _ _ _) as [[r [[]|p]]|] eqn:E; try done. eauto.
  - intros (script & r & Hs & Hid & Hr). exists script. rewrite ok_or_Ok. split; [done|].
    rewrite result_seq_Ok, check_Ok, bool_decide_eq_true. split; [done|]. cbv zeta. by rewrite Hr.
Qed.

(** C9. The code of [validate_state] implements its specification: an operation is
    accepted, with the next contract state [st'], exactly when its metadata, global
    state, inputs and assignments are of the types, kinds and numbers that the schema
    declares for it, the script named by the schema is present and accepts it, and the
    contract state takes it; an operation without a script leaves the contract state as
    it is. *)
Theorem validate_state_refines s types scripts genesis op prev_state st st' : operation_ok op prev_state ->
  validate_state debug hash_order lib_id calls fuel s types scripts genesis op prev_state st = (st', Ok tt) <->
  exists os, structure_valid s types op prev_state os /\
    match os_validator os with
    | None => st' = st
    | Some site => script_accepts scripts genesis op prev_state site st /\ evolve_state op st = (st', Ok tt)
    end.
Proof.
  intros Hop. unfold validate_state, mbind, SE_bind, lift, get. split.
  - destruct (validate_structure _ _ _ _ _) as [os|e] eqn:Hs; [|done].
    apply validate_structure_Ok in Hs; [|done]. intros Hv. exists os. split; [done|].
    destruct (os_validator os) as [site|]; [|by injection Hv].
    destruct (run_script _ _ _ _ _ _ _ _ _ _) as [[]|e] eqn:Hr; [|done]. apply run_script_Ok in Hr. split; [done|].
    unfold evolve in Hv. destruct (evolve_state op st) as [st1 [[]|[|p]]]; [|done..]. by injection Hv as ->.
  - intros (os & Hs%validate_structure_Ok & Hv); [|done]. rewrite Hs.
    destruct (os_validator os) as [site|]; [|by subst]. destruct Hv as [Hr%run_script_Ok He]. rewrite Hr.
    unfold evolve. by rewrite He.
Qed.

End refinement.

(** ** Verified schemata do not panic *)

Definition sound {A} (r : result ValidationError A) : Prop := forall p, r <> Err (Panicked p).

Lemma sound_check b f : sound (check b f).
Proof. intros p. unfold check, ensure. by destruct b. Qed.
Lemma sound_ok_or {A} (o : option A) f : sound (ok_or o (InvalidConsignment f)).
Proof. intros p. by destruct o. Qed.
Lemma sound_occ {A} (r : result OccurrencesMismatch A) f : sound (map_err (fun e => InvalidConsignment (f e)) r).
Proof. intros p. by destruct r. Qed.
Lemma sound_bind {A B} (m : result ValidationError A) (f : A -> result ValidationError B) :
  sound m -> (forall a, m = Ok a -> sound (f a)) -> sound (m ≫= f).
Proof. intros Hm Hf p. destruct m; cbn; [by apply Hf|]. specialize (Hm p). naive_solver. Qed.
Lemma sound_each {A} (l : list A) f : (forall x, x ∈ l -> sound (f x)) -> sound (try_each l f).
Proof. intros Hf p (x & Hx & He)%try_each_Err. by apply (Hf x Hx p). Qed.

Create HintDb sound.
#[export] Hint Resolve sound_check sound_ok_or sound_occ : sound.

Section no_panic.
Context `{TypeLibrary} `{OperationIds}.
Context (hash_order : gset Z -> list Z) (hash_order_elements : forall s, hash_order s ≡ₚ elements s).

Lemma sound_expect {A} (o : option A) why : is_Some o -> sound (expect o why).
Proof. by intros [a ->] p. Qed.

Lemma sound_new_state {Seal} s opid (a : Assignments Seal) schema types :
  (forall ty, is_Some (schema !! ty) -> is_Some (owned_types s !! ty)) ->
  sound (validate_new_state hash_order s opid a schema types).
Proof.
  intros Hd. apply sound_each. intros ty _. apply sound_bind; [auto with sound|]. intros occ Hocc%ok_or_Ok.
  apply sound_bind; [auto with sound|]. intros _ _. apply sound_bind; [apply sound_expect; eauto|]. intros d _.
  destruct (a !! ty); [|done]. apply sound_each. intros state _.
  unfold owned_state_validate. by repeat case_match; auto with sound.
Qed.

Lemma op_schema_declared s op os : schema_ok s -> op_schema s op = Ok os -> op_declared s os.
Proof. intros [Hg Ht]. rewrite op_schema_Ok. destruct op; [by intros ->|]. intros (d & Hd & ->). by apply (Ht _ _ Hd). Qed.

Lemma sound_structure s types op prev_state : schema_ok s -> sound (validate_structure hash_order s types op prev_state).
Proof.
  intros Hs. unfold validate_structure. apply sound_bind.
  { destruct op; cbn; apply sound_bind; auto with sound; done. }
  intros os Hos. destruct (op_schema_declared s op os Hs Hos) as [D1 _ D3 D4].
  apply sound_bind.
  { apply sound_bind; [apply sound_each; auto with sound|]. intros _ _. apply sound_each. intros ty Hty.
    apply sound_bind; [auto with sound|]. intros value _. apply sound_bind; [|auto with sound].
    apply sound_expect, D1. by apply elem_of_sorted_elems. }
  intros _ _. apply sound_bind.
  { apply sound_bind; [apply sound_each; auto with sound|]. intros _ _. apply sound_each. intros [ty occ] Hty.
    apply sound_bind; [apply sound_expect, D3; apply elem_of_entries in Hty; eauto|]. intros d _.
    apply sound_bind; [auto with sound|]. intros _ _. apply sound_bind; [auto with sound|]. intros _ _.
    apply sound_each. auto with sound. }
  intros _ _. apply sound_bind.
  { apply sound_each. intros ty _. apply sound_bind; auto with sound. }
  intros _ _. apply sound_bind; [|done]. destruct (op_assignments op); by apply sound_new_state.
Qed.

End no_panic.

Section script_panics.
Context (debug : bool) `{Wide} `{fs : Floats} `{Digests} `{Secp}.
Context `{TypeLibrary} `{OperationIds} `{Ecdsa} {S : Type} `{ContractStateAccess S} `{ContractStateEvolve S}.
Context (hash_order : gset Z -> list Z) (hash_order_elements : forall s, hash_order s ≡ₚ elements s).
Context (lib_id : Lib -> string) (calls fuel : nat).

(** Under a verified schema the validation of an operation never reaches one of its
    [expect] calls: when it panics, the panic is one of the script, which ran on an
    operation that satisfies the schema, or of the contract state, which was given such
    an operation after the script had accepted it. *)
Lemma validate_state_panics s types types' scripts genesis op prev_state st st' p :
  operation_ok op prev_state -> verify s types' = Ok tt ->
  validate_state debug hash_order lib_id calls fuel s types scripts genesis op prev_state st = (st', Err (Panicked p)) ->
  exists os site, structure_valid s types op prev_state os /\ os_validator os = Some site /\
    ((st' = st /\ exists r, Vm_exec (A := Instr RgbIsa) (H0 := the_set debug) lib_id calls fuel (fun id => scripts !! id)
        (mkVmContext (genesis_id genesis) (mkOpInfo (op_id op) prev_state op) st) site (initial_regs op) = Some (r, Err p)) \/
     evolve_state op st = (st', Err (StatePanics p))).
Proof.
  intros Hop Hs%verify_schema_ok. unfold validate_state, mbind, SE_bind, lift, get.
  pose proof (sound_structure hash_order s types op prev_state Hs) as Hsound.
  destruct (validate_structure _ _ _ _ _) as [os|e] eqn:Hv; [|intros [= <- ->]; by destruct (Hsound p)].
  apply validate_structure_Ok in Hv; [|done..]. destruct (os_validator os) as [site|] eqn:Hsite; [|done].
  destruct (run_script _ _ _ _ _ _ _ _ _ _) as [[]|e] eqn:Hr.
  { unfold evolve. destruct (evolve_state op st) as [st1 [[]|[|p']]]; [done..|]. cbn. intros [= -> ->]. eauto 8. }
  intros [= <- ->]. exists os, site. split; [done|]. split; [done|]. left. split; [done|]. unfold run_script in Hr.
  destruct (scripts !! site_lib site) as [script|]; [|done]. cbn in Hr. unfold check, ensure in Hr.
  destruct (bool_decide _); [|done]. cbn in Hr.
  destruct (Vm_exec _ _ _ _ _ _ _) as [[r [[]|p']]|] eqn:E; try done. injection Hr as ->. eauto.
Qed.

End script_panics.
