(* ===== verification/RgbScripts.v ===== *)
(** * RGB schemata: the scripts of fungible assets (crates/rgb-schemas/src)

    The scripts that the schemata of the non-inflatable (nia.rs), collectible (cfa.rs)
    and permissioned (pfa.rs) fungible assets name, as the programs of the assembler
    macro and as the libraries they are assembled to.  A run of the library, started
    the way validation starts it, accepts an operation exactly when the amounts of the
    operation add up.

    [put] of the macro takes a literal, or a constant, and reshapes it to the
    register. *)

From S2P Require Import Prelude Layer1 AluReg AluNumber AluCursor AluInstr AluBytecode AluLib AluRegs AluExec AluShift AluFrame AluProgress AluVm RgbTypes RgbOrder RgbSchema RgbIsa RgbLogic.
Local Open Scope Z_scope.

(** ** Constants (lib.rs) *)

Abbreviation GS_ISSUED_SUPPLY := 2010 (only parsing).
Abbreviation GS_NOMINAL := 2000 (only parsing).
Abbreviation GS_TERMS := 2001 (only parsing).
Abbreviation GS_PUBKEY := 3006 (only parsing).
Abbreviation OS_ASSET := 4000 (only parsing).
Abbreviation TS_TRANSFER := 10000 (only parsing).
Abbreviation ERRNO_NON_EQUAL_IN_OUT := 0 (only parsing).
Abbreviation ERRNO_ISSUED_MISMATCH := 1 (only parsing).
Abbreviation ERRNO_MISSING_PUBKEY := 20 (only parsing).
Abbreviation ERRNO_INVALID_SIGNATURE := 21 (only parsing).

(** ** Programs *)

Abbreviation RgbInstr := (Instr RgbIsa).

Definition put_ (reg : RegA) (i : Reg32) (n : Z) : RgbInstr :=
  Put (PU.PutA reg i (Some (mkNumber (RegA_layout reg) n))).
Definition contract (op : CO.ContractOp) : RgbInstr := ExtensionCodes (Contract op).
Definition test : RgbInstr := ControlFlow CF.Test.
Definition ret_ : RgbInstr := ControlFlow CF.Ret.
Abbreviation s0 := (mkRegS 0) (only parsing).

(** [nia_lib]: the transfer at offset 0 and the genesis at offset 9 *)
Definition nia_transfer : list RgbInstr :=
  [put_ A8 Reg32_0 ERRNO_NON_EQUAL_IN_OUT; contract (CO.Svs OS_ASSET); test; ret_].
Definition nia_genesis : list RgbInstr :=
  [put_ A8 Reg32_0 ERRNO_ISSUED_MISMATCH; put_ A8 Reg32_1 0; put_ A16 Reg32_0 0;
   contract (CO.LdG GS_ISSUED_SUPPLY Reg16_1 s0);
   Bytes (BY.Extr s0 (AR_A A64) Reg16_0 Reg16_0);
   contract (CO.Sas OS_ASSET); test; ret_].
Definition nia_code : list RgbInstr := nia_transfer ++ nia_genesis.

Abbreviation FN_NIA_GENESIS_OFFSET := (4 + 3 + 2) (only parsing).
Abbreviation FN_NIA_TRANSFER_OFFSET := (0) (only parsing).

(** [pfa_lib_transition] *)
Definition pfa_transition : list RgbInstr :=
  [put_ A8 Reg32_0 ERRNO_NON_EQUAL_IN_OUT; contract (CO.Svs OS_ASSET); test;
   put_ A8 Reg32_0 ERRNO_MISSING_PUBKEY; put_ A32 Reg32_0 0;
   contract (CO.LdC GS_PUBKEY Reg16_0 s0);
   put_ A8 Reg32_0 ERRNO_INVALID_SIGNATURE; contract (CO.Vts s0); test; ret_].

(** ** Libraries *)

Section libraries.
Context `{fs : Floats} (isa : string).

(** [Lib::assemble(&code).expect(..)] *)
Definition assembled (code : list RgbInstr) : Lib :=
  match assemble isa code with Ok lib => lib | Err _ => mkLib isa [] [] [] end.

Definition nia_lib : Lib := assembled nia_code.
Definition pfa_lib_transition : Lib := assembled pfa_transition.

Lemma nia_lib_code : nia_lib = mkLib isa
  [11; 0; 0; 0; 208; 160; 15; 1; 7; 11; 0; 1; 0; 11; 8; 0; 0; 11; 1; 2; 0; 200; 218; 7; 1; 57; 48; 0; 209; 160; 15; 1; 7]
  [0; 1; 0; 0] [].
Proof. vm_compute. reflexivity. Qed.

Lemma pfa_lib_code : pfa_lib_transition = mkLib isa
  [11; 0; 0; 0; 208; 160; 15; 1; 11; 0; 1; 0; 11; 2; 2; 0; 201; 190; 11; 0; 11; 0; 6; 0; 211; 16; 112]
  [0; 20; 0; 0; 0; 0; 21] [].
Proof. vm_compute. reflexivity. Qed.

End libraries.

(** ** Runs *)

Section run.
Context (debug : bool) `{Wide} `{fs : Floats} `{Digests} `{Secp} `{Ecdsa} {S : Type} `{ContractStateAccess S}.
Context (lib_id : Lib -> string) (isa : string) (ctx : VmContext S).

#[local] Hint Extern 0 (InstructionSet RgbInstr (VmContext S)) => exact (the_set debug) : typeclass_instances.

Abbreviation loop := (Lib_loop (A := RgbInstr) (Ctx := VmContext S) lib_id).

(** One round: the instruction is charged and the run goes on or stops. *)
Definition charged (i : RgbInstr) (r : CoreRegs) : CoreRegs :=
  with_ca0 (saturating_add 64 (ca0 r) (complexity (Ctx := VmContext S) i)) r.

Lemma loop_round fuel lib c c' i r r' s : is_eof c = false -> decode c = (c', Ok i) ->
  exec i (mkSite (lib_id lib) (byte_pos c)) ctx r = (r', Ok s) -> cl0 r' = None ->
  loop (Datatypes.S fuel) lib ctx c r =
  match s with
  | ENext => loop fuel lib ctx c' (charged i r')
  | EStop => Some (charged i r', Ok None)
  | EFail => Some (with_st0 false (charged i r'), Ok None)
  | EJump p => match seek p c' with
               | (c'', Ok _) => loop fuel lib ctx c'' (charged i r')
               | (_, Err _) => Some (with_st0 false (charged i r'), Ok None)
               end
  | ECall site => Some (charged i r', Ok (Some site))
  end.
Proof.
  intros He Hd Hx Hl. cbn [Lib_loop]. rewrite He, Hd, Hx. unfold acc_complexity. cbn [cl0 with_ca0]. rewrite Hl.
  by destruct s.
Qed.

Lemma set_A reg i m n r : fits m n -> n < 2 ^ (8 * RegA_bytes reg) ->
  set_n (AFR_A reg) i (Some (from_uint m n)) r = (with_A reg i (Some n) r, Ok true).
Proof.
  intros Hm Hn. unfold set_n, mbind, SE_bind, lift. cbn [number_into].
  change (from_uint m n) with (int_number false m n). rewrite (to_uint_unsigned m (RegA_bytes reg) n Hm) by (by destruct reg). done.
Qed.

Lemma exec_put reg i n site r : 0 <= n < 2 ^ (8 * RegA_bytes reg) ->
  exec (put_ reg i n) site ctx r = (with_A reg i (Some n) r, Ok ENext).
Proof.
  intros Hn. cbn [exec the_set Instr_set Instr_exec Put_exec put_]. unfold fail_unless, mbind, SE_bind.
  assert (mkNumber (RegA_layout reg) n = from_uint (RegA_bytes reg) n) as -> by (by destruct reg).
  rewrite (set_A reg i (RegA_bytes reg)); [done| |lia]. split; [by destruct reg|done].
Qed.

Lemma exec_test site r : exec test site ctx r = (r, Ok (if st0 r then ENext else EFail)).
Proof. done. Qed.

Lemma exec_ret site r : cp0 r = 0 -> exec ret_ site ctx r = (r, Ok EStop).
Proof.
  intros Hc. cbn [exec the_set Instr_set Instr_exec ControlFlow_exec ret_]. unfold ret, mbind, SE_bind. by rewrite Hc.
Qed.

(** The amounts of type [ty] of the inputs and of the outputs add up. *)
Definition amounts_in (ty : AssignmentType) : option Z := load_revealed_inputs (vc_op_info ctx) ty ≫= checked_sum 64 0.
Definition amounts_out (ty : AssignmentType) : option Z := load_revealed_outputs (vc_op_info ctx) ty ≫= sum_outputs.

Definition balanced (ty : AssignmentType) : bool :=
  match amounts_in ty, amounts_out ty with Some i, Some o => i =? o | _, _ => false end.

Lemma exec_svs ty site r : exec (contract (CO.Svs ty)) site ctx r =
  if balanced ty then (r, Ok ENext) else (with_st0 false r, Ok EStop).
Proof.
  cbn [exec the_set Instr_set Instr_exec contract Rgb_set Contract_set Contract_exec]. unfold balanced, amounts_in, amounts_out.
  destruct (load_revealed_inputs _ _ ≫= _); [|done]. cbn [some_or_stop].
  destruct (load_revealed_outputs _ _ ≫= _); [|done]. cbn [some_or_stop]. by destruct (_ =? _).
Qed.

End run.
(** ** The scripts of the non-inflatable asset *)

Section nia.
Context (debug : bool) `{Wide} `{fs : Floats} `{Digests} `{Secp} `{Ecdsa} {S : Type} `{ContractStateAccess S}.
Context (lib_id : Lib -> string) (isa : string) (ctx : VmContext S).

#[local] Hint Extern 0 (InstructionSet RgbInstr (VmContext S)) => exact (the_set debug) : typeclass_instances.

Abbreviation loop := (Lib_loop (A := RgbInstr) (Ctx := VmContext S) lib_id).

(** Registers that a script of an operation starts from *)
Definition fresh (r : CoreRegs) : Prop := st0 r = true /\ cp0 r = 0 /\ cl0 r = None.

Lemma initial_fresh op : fresh (initial_regs op).
Proof. by destruct op. Qed.

(** Evaluates the cursor operations of a run on concrete code. *)
Ltac cursor := match goal with |- context [seek ?p ?c] => let y := eval vm_compute in (seek p c) in change (seek p c) with y end.
Ltac round H := erewrite loop_round; [|vm_compute; reflexivity|vm_compute; reflexivity|apply H; try done|try done].

Lemma nia_transfer_run fuel r : fresh r -> (4 <= fuel)%nat ->
  exists r', Lib_exec (A := RgbInstr) lib_id fuel (nia_lib isa) FN_NIA_TRANSFER_OFFSET ctx r = Some (r', Ok None) /\
  st0 r' = balanced ctx OS_ASSET /\ regA r' A8 Reg32_0 = Some ERRNO_NON_EQUAL_IN_OUT.
Proof.
  intros (Hst & Hcp & Hcl) Hf. do 4 (destruct fuel as [|fuel]; [lia|]). rewrite nia_lib_code.
  unfold Lib_exec. set (lib := mkLib _ _ _ _). cursor. cbv iota beta.
  round (exec_put debug ctx A8 Reg32_0 ERRNO_NON_EQUAL_IN_OUT). cbv iota beta.
  pose proof (exec_svs debug ctx OS_ASSET) as Hsvs. destruct (balanced ctx OS_ASSET).
  - round Hsvs. cbv iota beta. round (exec_test debug ctx). cbn [st0 charged with_ca0 with_A]. rewrite Hst.
    round (exec_ret debug ctx). eexists. done.
  - round Hsvs. eexists. done.
Qed.

(** The first eight bytes *)
Definition first_amount (bs : list Z) : option Z := if 8 <=? len bs then Some (le (take 8 bs)) else None.

(** The amount at the start of the issued supply of the operation *)
Definition issued_supply : option Z :=
  oi_global (vc_op_info ctx) !! GS_ISSUED_SUPPLY ≫= fun a => a !! 0%nat ≫= first_amount.

Definition issued (ty : AssignmentType) : bool :=
  match issued_supply, amounts_out ctx ty with Some i, Some o => i =? o | _, _ => false end.

Lemma get_A_run a i k r :
  get_A a i k r = match regA r a i with Some v => k v r | None => (with_st0 false r, Ok EStop) end.
Proof. unfold get_A, mbind, SE_bind, gets. by destruct (regA r a i). Qed.

Lemma exec_ldg ty idx dst site r k : regA r A8 (r16 idx) = Some k ->
  exec (contract (CO.LdG ty idx dst)) site ctx r =
  match oi_global (vc_op_info ctx) !! ty ≫= fun a => a !! Z.to_nat k with
  | Some d => (with_s16 (s_index dst) (Some d) r, Ok ENext)
  | None => (with_st0 false r, Ok EStop)
  end.
Proof.
  intros Hk. cbn [exec the_set Instr_set Instr_exec contract Rgb_set Contract_set Contract_exec].
  rewrite get_A_run, Hk. destruct (oi_global _ !! ty) as [l|]; [|done]. cbn. by destruct (l !! _).
Qed.

Lemma exec_sas ty site r : exec (contract (CO.Sas ty)) site ctx r =
  match regA r A64 Reg32_0, amounts_out ctx ty with
  | Some i, Some o => if i =? o then (r, Ok ENext) else (with_st0 false r, Ok EStop)
  | _, _ => (with_st0 false r, Ok EStop)
  end.
Proof.
  cbn [exec the_set Instr_set Instr_exec contract Rgb_set Contract_set Contract_exec]. unfold amounts_out.
  rewrite get_A_run. destruct (regA r A64 Reg32_0); [|done].
  destruct (load_revealed_outputs _ _ ≫= _); [|done]. cbn [some_or_stop]. by destruct (_ =? _).
Qed.

Lemma sas_ok ty i site r : regA r A64 Reg32_0 = Some i -> amounts_out ctx ty = Some i ->
  exec (contract (CO.Sas ty)) site ctx r = (r, Ok ENext).
Proof. intros Hi Ho. by rewrite exec_sas, Hi, Ho, Z.eqb_refl. Qed.

Lemma sas_fails ty site r : (forall i, regA r A64 Reg32_0 = Some i -> amounts_out ctx ty <> Some i) ->
  exec (contract (CO.Sas ty)) site ctx r = (with_st0 false r, Ok EStop).
Proof.
  intros Hi. rewrite exec_sas. destruct (regA _ _ _) as [i|]; [|done]. specialize (Hi i eq_refl).
  destruct (amounts_out ctx ty); [|done]. by rewrite (proj2 (Z.eqb_neq _ _)) by congruence.
Qed.

(** The number that [Extr] reads at [off]: fewer than [k] bytes when the string ends *)
Definition extracted (off k : Z) (d : list Z) : option Z :=
  if len d <=? off then None else Some (le (slice off (Z.min (off + k) (len d)) d)).

Lemma exec_extr_at src reg i o site r d off : s16 r (s_index src) = Some d -> regA r A16 (r16 o) = Some off ->
  0 <= off -> str_ok d ->
  exec (Bytes (BY.Extr src (AR_A reg) i o) : RgbInstr) site ctx r =
  (with_A reg (r16 i) (extracted off (RegA_bytes reg) d)
     (if off + RegA_bytes reg <=? len d then r else with_st0 false r), Ok ENext).
Proof.
  intros Hd Hz Hoff [Hok Hlen]. cbn [exec the_set Instr_set Instr_exec Bytes_exec].
  unfold or_else, extr_, gets16, a16, mbind, SE_bind, gets. rewrite Hd, Hz. cbv beta iota.
  assert (0 < RegA_bytes reg) as Hk by (by destruct reg). unfold extracted.
  destruct (Z.leb_spec (len d) off) as [Hl|Hl].
  { by replace (off + RegA_bytes reg <=? len d) with false by lia. }
  cbn [RegAR_bytes of_AR].
  replace ((off + RegA_bytes reg <=? 65535) && (off + RegA_bytes reg <=? len d))
    with (off + RegA_bytes reg <=? len d) by lia.
  replace (Z.min (off + RegA_bytes reg) (len d))
    with (if off + RegA_bytes reg <=? len d then off + RegA_bytes reg else len d) by (case_match; lia).
  set (w := slice _ _ d). assert (bytes_ok w) as Hw by (by apply Forall_take, Forall_drop).
  assert (0 < len w <= RegA_bytes reg) as Hlw.
  { unfold w, slice, len in *. rewrite length_take, length_drop. case_match; lia. }
  pose proof (le_range w Hw) as Hr. pose proof (pow_bytes_le (len w) (RegA_bytes reg)).
  pose proof (set_A reg (r16 i) (len w) (le w)) as HA.
  destruct (off + RegA_bytes reg <=? len d); unfold mret, SE_ret, set_st0, modify;
    (rewrite HA; [done|split; lia|lia]).
Qed.

(** Eight bytes at the start of the string make the number; a shorter string fails. *)
Lemma exec_extr site r d : s16 r 0 = Some d -> regA r A16 Reg32_0 = Some 0 -> str_ok d ->
  exists v, exec (Bytes (BY.Extr s0 (AR_A A64) Reg16_0 Reg16_0) : RgbInstr) site ctx r =
    (with_A A64 Reg32_0 v (match first_amount d with Some _ => r | None => with_st0 false r end), Ok ENext) /\
  forall n, first_amount d = Some n -> v = Some n.
Proof.
  intros Hd Hz Hs. exists (extracted 0 8 d). rewrite (exec_extr_at s0 A64 Reg16_0 Reg16_0 site r d 0 Hd Hz) by done.
  unfold first_amount, extracted. change (0 + RegA_bytes A64) with 8. change (0 + 8) with 8.
  destruct (Z.leb_spec 8 (len d)); (split; [done|]); [|done]. intros n [= <-].
  replace (len d <=? 0) with false by lia. by replace (Z.min 8 (len d)) with 8 by lia.
Qed.

(** The items of the global state of the operation are byte strings. *)
Definition globals_ok : Prop :=
  forall ty l d, oi_global (vc_op_info ctx) !! ty = Some l -> d ∈ l -> str_ok d.

Lemma nia_genesis_run fuel r : fresh r -> (8 <= fuel)%nat -> globals_ok ->
  exists r', Lib_exec (A := RgbInstr) lib_id fuel (nia_lib isa) FN_NIA_GENESIS_OFFSET ctx r = Some (r', Ok None) /\
  st0 r' = issued OS_ASSET /\ regA r' A8 Reg32_0 = Some ERRNO_ISSUED_MISMATCH.
Proof.
  intros (Hst & Hcp & Hcl) Hf Hb. do 8 (destruct fuel as [|fuel]; [lia|]). rewrite nia_lib_code.
  unfold Lib_exec. set (lib := mkLib _ _ _ _). cursor. cbv iota beta.
  round (exec_put debug ctx A8 Reg32_0 ERRNO_ISSUED_MISMATCH). cbv iota beta.
  round (exec_put debug ctx A8 Reg32_1 0). cbv iota beta.
  round (exec_put debug ctx A16 Reg32_0 0). cbv iota beta.
  pose proof (fun site r Hk => exec_ldg GS_ISSUED_SUPPLY Reg16_1 s0 site r 0 Hk) as Hldg. unfold issued, issued_supply.
  destruct (oi_global (vc_op_info ctx) !! GS_ISSUED_SUPPLY) as [l|] eqn:El; cbn [mbind option_bind] in *.
  2: { round Hldg. by eexists. }
  change (Z.to_nat 0) with 0%nat in Hldg. destruct (l !! 0%nat) as [d|] eqn:Ed; cbn [mbind option_bind].
  2: { round Hldg. by eexists. }
  assert (str_ok d) as Hd by (by eapply Hb, list_elem_of_lookup_2).
  round Hldg. cbv iota beta.
  match goal with |- context [Lib_loop _ _ _ _ ?c ?r1] =>
    destruct (exec_extr (mkSite (lib_id lib) (byte_pos c)) r1 d) as (v & Hv & Hn); [done..|] end.
  destruct (first_amount d) as [n|]; cbv iota in Hv.
  - rewrite (Hn n eq_refl) in Hv. round Hv. cbv iota beta.
    destruct (decide (amounts_out ctx OS_ASSET = Some n)) as [Eo|Eo].
    + rewrite Eo, Z.eqb_refl. round (sas_ok OS_ASSET n). cbv iota beta. round (exec_test debug ctx).
      cbn [st0 charged with_ca0 with_A with_s16]. rewrite Hst. round (exec_ret debug ctx). by eexists.
    + round (sas_fails OS_ASSET). 2: by intros i [= <-]. eexists. split; [done|]. split; [|done].
      destruct (amounts_out ctx OS_ASSET); [|done]. symmetry. apply Z.eqb_neq. congruence.
  - round Hv. cbv iota beta. destruct (decide (amounts_out ctx OS_ASSET = v /\ is_Some v)) as [[Eo [n ->]]|Eo].
    + round (sas_ok OS_ASSET n). cbv iota beta. round (exec_test debug ctx). by eexists.
    + round (sas_fails OS_ASSET). 2: { intros i Hi Ho. apply Eo. change (v = Some i) in Hi. by rewrite Hi, Ho. } by eexists.
Qed.

(** ** The transition of a permissioned asset *)

(** A byte of the code that is no instruction ends the run. *)
Lemma loop_undecoded fuel lib c c' e r : is_eof c = false -> decode (A := RgbInstr) c = (c', Err e) ->
  (forall p, e <> VmPanic p) -> loop (Datatypes.S fuel) lib ctx c r = Some (r, Ok None).
Proof. intros He Hd Hp. cbn [Lib_loop]. rewrite He, Hd. destruct e; first [done | by edestruct Hp]. Qed.

Lemma exec_ldc ty idx dst site r k : regA r A32 (r16 idx) = Some k -> k < 2 ^ 24 ->
  exec (contract (CO.LdC ty idx dst)) site ctx r =
  match cs_global (vc_contract_state ctx) ty ≫= fun a => a !! Z.to_nat k with
  | Some e => (with_s16 (s_index dst) (Some (entry_data e)) r, Ok ENext)
  | None => (with_st0 false r, Ok EStop)
  end.
Proof.
  intros Hk Hlt. cbn [exec the_set Instr_set Instr_exec contract Rgb_set Contract_set Contract_exec].
  destruct (cs_global _ ty) as [l|]; [|done]. cbn [some_or_stop mbind option_bind]. rewrite get_A_run, Hk.
  rewrite (proj2 (Z.ltb_lt _ _) Hlt). cbn [some_or_stop]. by destruct (l !! _).
Qed.

Lemma exec_vts s site r : exec (contract (CO.Vts s)) site ctx r =
  if vts_ok (vc_op_info ctx) (s16 r (s_index s)) then (r, Ok ENext) else (with_st0 false r, Ok EStop).
Proof.
  cbn [exec the_set Instr_set Instr_exec contract Rgb_set Contract_set Contract_exec].
  unfold mbind, SE_bind, gets16, gets. by destruct (vts_ok _ _).
Qed.

(** The key of the contract state, and the signature of the transition under it *)
Definition pubkey : option (list Z) :=
  cs_global (vc_contract_state ctx) GS_PUBKEY ≫= fun a => entry_data <$> a !! 0%nat.

Definition pfa_outcome : bool * Z :=
  if negb (balanced ctx OS_ASSET) then (false, ERRNO_NON_EQUAL_IN_OUT) else
  match pubkey with
  | None => (false, ERRNO_MISSING_PUBKEY)
  | Some pk => (vts_ok (vc_op_info ctx) (Some pk), ERRNO_INVALID_SIGNATURE)
  end.

Lemma pfa_transition_run fuel r : fresh r -> (9 <= fuel)%nat ->
  exists r', Lib_exec (A := RgbInstr) lib_id fuel (pfa_lib_transition isa) 0 ctx r = Some (r', Ok None) /\
  st0 r' = pfa_outcome.1 /\ regA r' A8 Reg32_0 = Some pfa_outcome.2.
Proof.
  intros (Hst & Hcp & Hcl) Hf. do 9 (destruct fuel as [|fuel]; [lia|]). rewrite pfa_lib_code.
  unfold Lib_exec, pfa_outcome. set (lib := mkLib _ _ _ _). cursor. cbv iota beta.
  round (exec_put debug ctx A8 Reg32_0 ERRNO_NON_EQUAL_IN_OUT). cbv iota beta.
  pose proof (exec_svs debug ctx OS_ASSET) as Hsvs. destruct (balanced ctx OS_ASSET); cbn [negb].
  2: { round Hsvs. by eexists. }
  round Hsvs. cbv iota beta. round (exec_test debug ctx). cbn [st0 charged with_ca0 with_A]. rewrite Hst.
  round (exec_put debug ctx A8 Reg32_0 ERRNO_MISSING_PUBKEY). cbv iota beta.
  round (exec_put debug ctx A32 Reg32_0 0). cbv iota beta.
  pose proof (fun site r Hk => exec_ldc GS_PUBKEY Reg16_0 s0 site r 0 Hk eq_refl) as Hldc.
  change (Z.to_nat 0) with 0%nat in Hldc. unfold pubkey.
  destruct (cs_global (vc_contract_state ctx) GS_PUBKEY) as [l|]; cbn [mbind option_bind] in *.
  2: { round Hldc. by eexists. }
  destruct (l !! 0%nat) as [e|]; cbn [fmap option_fmap option_map].
  2: { round Hldc. by eexists. }
  round Hldc. cbv iota beta. round (exec_put debug ctx A8 Reg32_0 ERRNO_INVALID_SIGNATURE). cbv iota beta.
  match goal with |- context [Lib_loop _ _ _ _ ?c ?r1] => pose proof (exec_vts s0 (mkSite (lib_id lib) (byte_pos c)) r1) as Hvts end.
  match type of Hvts with context [s16 ?r ?i] => change (s16 r i) with (Some (entry_data e)) in Hvts end.
  destruct (vts_ok (vc_op_info ctx) (Some (entry_data e))).
  - round Hvts. cbv iota beta.
    erewrite loop_undecoded; [|vm_compute; reflexivity|vm_compute; reflexivity|done]. by eexists.
  - round Hvts. by eexists.
Qed.

End nia.

(** ** Validation with the scripts *)

Section validation.
Context (debug : bool) `{Wide} `{fs : Floats} `{Digests} `{Secp} `{Ecdsa} {S : Type} `{OperationIds} `{ContractStateAccess S}.
Context (lib_id : Lib -> string) (isa : string) (calls fuel : nat).
Context (scripts : gmap string Lib) (genesis : Genesis) (op : OrdOpRef) (prev_state : PrevState) (st : S).

Definition script_ctx : VmContext S := mkVmContext (genesis_id genesis) (mkOpInfo (op_id op) prev_state op) st.

Definition verdict (accepted : bool) (errno : Z) : result ValidationError unit :=
  if accepted then Ok tt else Err (InvalidConsignment (ScriptFailure (op_id op) (Some errno))).

Lemma run_script_verdict site script r accepted errno : (0 < calls)%nat ->
  scripts !! site_lib site = Some script -> lib_id script = site_lib site ->
  Lib_exec (A := RgbInstr) (H0 := the_set debug) lib_id fuel script (site_pos site) script_ctx (initial_regs op) = Some (r, Ok None) ->
  st0 r = accepted -> regA r A8 Reg32_0 = Some errno ->
  run_script debug lib_id calls fuel scripts genesis op prev_state site st = verdict accepted errno.
Proof.
  intros Hc Hs Hid Hr <- He. unfold run_script. rewrite Hs. cbn [ok_or mbind result_bind].
  unfold check. rewrite bool_decide_eq_true_2 by done. cbn [mbind result_bind ensure].
  destruct calls as [|n]; [lia|]. cbn [Vm_exec]. rewrite Hs. fold script_ctx. rewrite Hr.
  unfold verdict. destruct (st0 r); [done|]. by rewrite He.
Qed.

Lemma nia_transfer_decides site : (0 < calls)%nat -> (4 <= fuel)%nat ->
  scripts !! site_lib site = Some (nia_lib isa) -> lib_id (nia_lib isa) = site_lib site ->
  site_pos site = FN_NIA_TRANSFER_OFFSET ->
  run_script debug lib_id calls fuel scripts genesis op prev_state site st =
  verdict (balanced script_ctx OS_ASSET) ERRNO_NON_EQUAL_IN_OUT.
Proof.
  intros Hc Hf Hs Hid Hp.
  destruct (nia_transfer_run debug lib_id isa script_ctx fuel (initial_regs op)) as (r & Hr & Ha & He);
    [apply initial_fresh|done|].
  rewrite <- Hp in Hr. exact (run_script_verdict site _ r _ _ Hc Hs Hid Hr Ha He).
Qed.

Lemma nia_genesis_decides site : (0 < calls)%nat -> (8 <= fuel)%nat -> globals_ok script_ctx ->
  scripts !! site_lib site = Some (nia_lib isa) -> lib_id (nia_lib isa) = site_lib site ->
  site_pos site = FN_NIA_GENESIS_OFFSET ->
  run_script debug lib_id calls fuel scripts genesis op prev_state site st =
  verdict (issued script_ctx OS_ASSET) ERRNO_ISSUED_MISMATCH.
Proof.
  intros Hc Hf Hok Hs Hid Hp.
  destruct (nia_genesis_run debug lib_id isa script_ctx fuel (initial_regs op)) as (r & Hr & Ha & He);
    [apply initial_fresh|done..|].
  rewrite <- Hp in Hr. exact (run_script_verdict site _ r _ _ Hc Hs Hid Hr Ha He).
Qed.


(** A transition of a permissioned asset passes exactly when the amounts of the
    asset are preserved, the contract state has a public key and the transition carries
    a signature of its identifier that the key verifies.  The refusal tells which of the
    three checks failed. *)
Theorem pfa_script_decides site : (0 < calls)%nat -> (9 <= fuel)%nat ->
  scripts !! site_lib site = Some (pfa_lib_transition isa) -> lib_id (pfa_lib_transition isa) = site_lib site ->
  site_pos site = 0 ->
  run_script debug lib_id calls fuel scripts genesis op prev_state site st =
  verdict (pfa_outcome script_ctx).1 (pfa_outcome script_ctx).2.
Proof.
  intros Hc Hf Hs Hid Hp.
  destruct (pfa_transition_run debug lib_id isa script_ctx fuel (initial_regs op)) as (r & Hr & Ha & He);
    [apply initial_fresh|done|].
  rewrite <- Hp in Hr. exact (run_script_verdict site _ r _ _ Hc Hs Hid Hr Ha He).
Qed.

End validation.


(** The library of the permissioned asset does not decode back to the program: the
    signature check is written without the last four bits of its argument, so the
    [test] after it is read from the wrong bits and the code ends inside the argument of
    the check. *)
Lemma pfa_not_disassembled `{Floats} isa :
  disassemble (A := RgbInstr) 10 (pfa_lib_transition isa) = Some (Err CodeEofError).
Proof. rewrite pfa_lib_code. vm_compute. reflexivity. Qed.
