(* ===== verification/RgbValidator.v ===== *)
(** * RGB consensus: validation of a consignment (validation/validator.rs)

    The validator walks a consignment: the chain, the type system and the schema, the
    genesis, and then every bundle of state transitions with the transaction that
    witnesses it.  It keeps the assignments that are not spent yet ([opout_assigns])
    and the inputs that were spent ([input_opouts]), and checks that the seals of the
    inputs are closed by the witness.  The graph of operations (opouts_dag.rs), the
    bundle (operation/bundle.rs), the anchor (dbc/anchor.rs), the witness of a seal
    (seals/txout/witness.rs) and the report (status.rs) are here as well.

    Transactions are the bitcoin library's, and graphs the daggy library's.  Commitment
    identifiers, the proofs of a commitment in a transaction ([dbc::Proof], a trait) and
    the multi-protocol commitment are interfaces of the validator. *)

From S2P Require Import Prelude Layer1 AluReg AluNumber AluCursor AluInstr AluBytecode AluLib AluRegs AluExec AluShift AluFrame AluProgress AluVm RgbTypes RgbOrder RgbSchema RgbIsa RgbLogic.
Local Open Scope Z_scope.

(** ** Interfaces *)

(** [bitcoin::Transaction] *)
Class BitcoinTx := {
  Tx : Type;
  ScriptBuf : Type;
  tx_input : Tx -> list Outpoint;
  tx_output : Tx -> list ScriptBuf;
  compute_txid : Tx -> Txid;
  is_op_return : ScriptBuf -> bool;
  is_p2tr : ScriptBuf -> bool;
}.

Abbreviation Commitment := string.

(** [dbc::Proof]; the verification fails with an error of the proof *)
Class DbcProofs `{BitcoinTx} := {
  Dbc : Type;
  method : Dbc -> CloseMethod;
  dbc_verify : Dbc -> Commitment -> Tx -> result string unit;
}.

(** [mpc::MerkleProof] *)
Class Mpc := {
  MerkleProof : Type;
  convolve : MerkleProof -> string -> string -> result string Commitment;
}.

(** [Dag<Opout, ()>] of daggy: an edge that makes a cycle is refused, and the graph
    stays as it is. *)
Class Daggy := {
  Dag : Type;
  NodeIndex : Type;
  dag_new : Dag;
  add_node : Dag -> Opout -> Dag * NodeIndex;
  add_edge : Dag -> NodeIndex -> NodeIndex -> Dag;
}.

(** ** Bundles and anchors *)

Record KnownTransition := mkKnown { kt_opid : OpId; kt_transition : Transition }.

Record TransitionBundle := mkBundle {
  input_map : gmap Opout OpId;
  known_transitions : list KnownTransition;
}.

Class ContainerIds := {
  bundle_id : TransitionBundle -> BundleId;
  schema_id : Schema -> SchemaId;
}.

Record Anchor `{DbcProofs} `{Mpc} := mkAnchor { mpc_proof : MerkleProof; dbc_proof : Dbc }.

(** [Anchor::convolve] *)
Definition anchor_convolve `{DbcProofs} `{Mpc} (a : Anchor) (protocol message : string) : result string Commitment :=
  convolve (mpc_proof a) protocol message.

(** [Anchor::verify]; [inl] is the error of the commitment in the transaction *)
Definition anchor_verify `{DbcProofs} `{Mpc} (a : Anchor) (protocol message : string) (tx : Tx)
    : result (string + string) Commitment :=
  match anchor_convolve a protocol message with
  | Err e => Err (inr e)
  | Ok c => match dbc_verify (dbc_proof a) c tx with Ok _ => Ok c | Err e => Err (inl e) end
  end.

(** ** Witnesses of seals *)

Section witness.
Context `{DbcProofs}.

Record Witness := mkWitness { w_tx : Tx; w_txid : Txid; w_proof : Dbc }.

Definition witness_with (tx : Tx) (dbc : Dbc) : Witness := mkWitness tx (compute_txid tx) dbc.

Inductive VerifyError := VE_Dbc (e : string) | WitnessNotClosingSeal (o : Outpoint).

(** A seal with its transaction always has an outpoint. *)
Definition verify_seal (w : Witness) (seal : BlindSeal Txid) (msg : Commitment) : result VerifyError unit :=
  let outpoint := to_outpoint seal in
  ensure (bool_decide (outpoint ∈ tx_input (w_tx w))) (WitnessNotClosingSeal outpoint) ;;
  match dbc_verify (w_proof w) msg (w_tx w) with Ok _ => Ok tt | Err e => Err (VE_Dbc e) end.

Definition verify_many_seals (w : Witness) (seals : list (BlindSeal Txid)) (msg : Commitment) : result VerifyError unit :=
  try_each seals (fun seal =>
    let outpoint := to_outpoint seal in
    ensure (bool_decide (outpoint ∈ tx_input (w_tx w))) (WitnessNotClosingSeal outpoint)) ;;
  match dbc_verify (w_proof w) msg (w_tx w) with Ok _ => Ok tt | Err e => Err (VE_Dbc e) end.

(** The loop of [dbc_output_matches_method] *)
Fixpoint dbc_outputs (outputs : list ScriptBuf) (proof_method : CloseMethod) (has_dbc_output : bool) : option bool :=
  match outputs with
  | [] => if has_dbc_output then Some false else None
  | output :: rest =>
      let output_method :=
        if is_op_return output then Some OpretFirst
        else if is_p2tr output then Some TapretFirst else None in
      match output_method with
      | None => dbc_outputs rest proof_method has_dbc_output
      | Some m => if bool_decide (m = proof_method) then Some true else dbc_outputs rest proof_method true
      end
  end.

Definition dbc_output_matches_method (outputs : list ScriptBuf) (proof_method : CloseMethod) : option bool :=
  dbc_outputs outputs proof_method false.

End witness.

(** ** Resolving witness transactions *)

Section resolver.
Context `{BitcoinTx}.

Inductive WitnessStatus := Unresolved | Resolved (tx : Tx) (ord : WitnessOrd).

Definition status_witness_ord (s : WitnessStatus) : WitnessOrd :=
  match s with Unresolved => Archived | Resolved _ ord => ord end.

Record ResolveWitness := mkResolver {
  inner_resolve : Txid -> result WitnessResolverError WitnessStatus;
  check_chain_net : ChainNet -> result WitnessResolverError unit;
}.

(** [CheckedWitnessResolver::resolve_witness] *)
Definition checked_resolve (r : ResolveWitness) (witness_id : Txid) : result WitnessResolverError WitnessStatus :=
  witness_status ← inner_resolve r witness_id;
  match witness_status with
  | Resolved tx _ => ensure (bool_decide (compute_txid tx = witness_id)) (IdMismatch (compute_txid tx) witness_id)
  | Unresolved => Ok tt
  end ;;
  Ok witness_status.

End resolver.

(** ** The graph of operations (opouts_dag.rs) *)

Section dag.
Context `{Daggy}.

Record OpoutsDagInfo := mkDagInfo {
  dag : Dag;
  dag_index : gmap Opout NodeIndex;
  cached_outputs : gmap OpId (list NodeIndex);
}.

Definition dag_info_new : OpoutsDagInfo := mkDagInfo dag_new ∅ ∅.

Definition register_output (opout : Opout) (d : OpoutsDagInfo) : OpoutsDagInfo * NodeIndex :=
  match dag_index d !! opout with
  | Some n => (d, n)
  | None => let '(g, n) := add_node (dag d) opout in (mkDagInfo g (<[opout := n]> (dag_index d)) (cached_outputs d), n)
  end.

Definition cache_outputs (opid : OpId) (output_nodes : list NodeIndex) (d : OpoutsDagInfo) : OpoutsDagInfo :=
  mkDagInfo (dag d) (dag_index d) (<[opid := output_nodes]> (cached_outputs d)).

Definition connect_input_to_outputs_by_opid (input : Opout) (opid : OpId) (d : OpoutsDagInfo) : OpoutsDagInfo :=
  match dag_index d !! input, cached_outputs d !! opid with
  | Some src, Some output_nodes =>
      mkDagInfo (foldl (fun g dst => add_edge g src dst) (dag d) output_nodes) (dag_index d) (cached_outputs d)
  | _, _ => d
  end.

Definition connect_transition (transition : Transition) (opid : OpId) (d : OpoutsDagInfo) : OpoutsDagInfo :=
  foldl (fun d input => connect_input_to_outputs_by_opid input opid d) d (t_inputs transition).

Definition to_opouts_dag_data (d : OpoutsDagInfo) : Dag * gmap Opout NodeIndex := (dag d, dag_index d).

End dag.

(** [register_outputs], [build_dag] *)
Section build_dag.
Context `{Daggy}.

Definition outputs_of {Seal} (opid : OpId) (assignments : Assignments Seal) : list Opout :=
  '(ty, a) ← entries assignments; map (fun no => mkOpout opid ty (Z.of_nat no)) (seq 0 (Z.to_nat (len_u16 a))).

Definition register_all (opouts : list Opout) (d : OpoutsDagInfo) : OpoutsDagInfo * list NodeIndex :=
  foldl (fun '(d, nodes) o => let '(d, n) := register_output o d in (d, nodes ++ [n])) (d, []) opouts.

Definition register_outputs {Seal} (assignments : Assignments Seal) (opid : OpId) (d : OpoutsDagInfo) : OpoutsDagInfo :=
  let '(d, output_nodes) := register_all (outputs_of opid assignments) d in cache_outputs opid output_nodes d.

Definition build_dag (known : list KnownTransition) (d : OpoutsDagInfo) : OpoutsDagInfo :=
  foldl (fun d k => connect_transition (kt_transition k) (kt_opid k)
                      (register_outputs (t_assignments (kt_transition k)) (kt_opid k) d)) d known.

End build_dag.

(** ** Unspent assignments *)

Abbreviation Unspent := (gmap Opout (BlindSeal Txid * RevealedState)).

(** [process_assignments]: only assignments with a known seal are kept. *)
Definition insert_revealed `{ExposedSeal Seal} (opid : OpId) (witness_id : option Txid) (ty : AssignmentType)
    (a : TypedAssigns Seal) (no : nat) (m : Unspent) :=
  match to_revealed_assign_at a (Z.of_nat no) witness_id with
  | Some revealed_assign => <[mkOpout opid ty (Z.of_nat no) := revealed_assign]> m
  | None => m
  end.

Definition insert_typed `{ExposedSeal Seal} (opid : OpId) (witness_id : option Txid) (ty : AssignmentType)
    (a : TypedAssigns Seal) (m : Unspent) :=
  foldl (fun m no => insert_revealed opid witness_id ty a no m) m (seq 0 (Z.to_nat (len_u16 a))).

Definition insert_assignments `{ExposedSeal Seal} (opid : OpId) (witness_id : option Txid)
    (assignments : Assignments Seal) (m : Unspent) :=
  foldl (fun m '(ty, a) => insert_typed opid witness_id ty a m) m (entries assignments).

(** ** The validator *)

Section validator.
Context (debug : bool) `{Wide} `{fs : Floats} `{Digests} `{Secp}.
Context `{TypeLibrary} `{OperationIds} `{Ecdsa} {S : Type} `{ContractStateAccess S} `{ContractStateEvolve S}.
Context (hash_order : gset Z -> list Z) (lib_id : Lib -> string) (calls fuel : nat).
Context `{ContainerIds} `{DbcProofs} `{Mpc} `{Daggy}.

Record Consignment := mkConsignment {
  c_schema : Schema;
  c_types : TypeSystem;
  c_scripts : list Lib;
  c_genesis : Genesis;
  bundles_info : list (TransitionBundle * Anchor * Txid);
}.

Record ValidationConfig := mkConfig {
  v_chain_net : ChainNet;
  v_safe_height : option Z;
  trusted_typesystem : TypeSystem;
  build_opouts_dag : bool;
}.

Inductive Warning := UnsafeHistory (m : gmap Z (gset Txid)) | Custom (msg : string).

Record Status := mkStatus {
  warnings : list Warning;
  tx_ord_map : gmap Txid WitnessOrd;
  dag_data_opt : option (Dag * gmap Opout NodeIndex);
}.

(** [Status::validity] *)
Inductive Validity := V_Valid | V_Warnings.
Definition validity (s : Status) : Validity := match warnings s with [] => V_Valid | _ => V_Warnings end.

(** What the validation changes; the rest of the [Validator] is the consignment, the
    configuration and the resolver. *)
Record Validator := mkValidator {
  status : Status;
  contract_state : S;
  input_opouts : gset Opout;
  opout_assigns : Unspent;
  opouts_dag_info : option OpoutsDagInfo;
}.

Definition with_status (f : Status -> Status) (v : Validator) : Validator :=
  mkValidator (f (status v)) (contract_state v) (input_opouts v) (opout_assigns v) (opouts_dag_info v).
Definition with_contract_state (s : S) (v : Validator) : Validator :=
  mkValidator (status v) s (input_opouts v) (opout_assigns v) (opouts_dag_info v).
Definition with_input (o : Opout) (v : Validator) : Validator :=
  mkValidator (status v) (contract_state v) ({[ o ]} ∪ input_opouts v) (opout_assigns v) (opouts_dag_info v).
Definition with_assigns (f : Unspent -> Unspent)
    (v : Validator) : Validator :=
  mkValidator (status v) (contract_state v) (input_opouts v) (f (opout_assigns v)) (opouts_dag_info v).
Definition with_dag (f : OpoutsDagInfo -> OpoutsDagInfo) (v : Validator) : Validator :=
  mkValidator (status v) (contract_state v) (input_opouts v) (opout_assigns v) (f <$> opouts_dag_info v).

Definition add_tx_ord (txid : Txid) (ord : WitnessOrd) (s : Status) : Status :=
  mkStatus (warnings s) (<[txid := ord]> (tx_ord_map s)) (dag_data_opt s).
Definition add_warning (w : Warning) (s : Status) : Status :=
  mkStatus (warnings s ++ [w]) (tx_ord_map s) (dag_data_opt s).
Definition with_dag_data (d : Dag * gmap Opout NodeIndex) (s : Status) : Status :=
  mkStatus (warnings s) (tx_ord_map s) (Some d).

Abbreviation VM := (SE Validator ValidationError).

Definition refuse {A} (f : Failure) : VM A := fail (InvalidConsignment f).
Definition require (b : bool) (f : Failure) : VM unit := lift (check b f).

(** A computation on the contract state *)
Definition on_contract {A} (m : SE S ValidationError A) : VM A := fun v =>
  let '(s, r) := m (contract_state v) in (with_contract_state s v, r).

(** [Validator::init]; a confined map of scripts with more than 1024 of them panics *)
Definition CONSIGNMENT_MAX_LIBS : nat := 1024.

Definition scripts_of (c : Consignment) : gmap string Lib :=
  foldl (fun m s => <[lib_id s := s]> m) ∅ (c_scripts c).

Definition init (c : Consignment) (state : S) (config : ValidationConfig) : result ValidationError Validator :=
  if (CONSIGNMENT_MAX_LIBS <? size (scripts_of c))%nat then Err (Panicked (Abort "confinement")) else
  Ok (mkValidator (mkStatus [] ∅ None) state ∅ ∅ (if build_opouts_dag config then Some dag_info_new else None)).

Context (consignment : Consignment) (config : ValidationConfig) (resolver : ResolveWitness).

Definition contract_id : ContractId := genesis_id (c_genesis consignment).

Definition validate_op (op : OrdOpRef) (prev_state : PrevState) : VM unit :=
  on_contract (validate_state debug hash_order lib_id calls fuel (c_schema consignment) (c_types consignment)
    (scripts_of consignment) (c_genesis consignment) op prev_state).

Definition validate_schema : VM unit :=
  lift (try_each (ts_types (c_types consignment)) (fun '(sem_id, ty) =>
    check (bool_decide (ts_get (trusted_typesystem config) sem_id = Some ty)) (TypeSystemMismatch sem_id))) ;;
  lift (match verify (c_schema consignment) (c_types consignment) with
        | Ok _ => Ok tt
        | Err f => Err (InvalidConsignment f)
        end).

Definition process_assignments `{ExposedSeal Seal} (opid : OpId) (witness_id : option Txid)
    (assignments : Assignments Seal) : VM unit :=
  modify (with_assigns (insert_assignments opid witness_id assignments)) ;;
  modify (with_dag (register_outputs assignments opid)).

Definition validate_genesis : VM unit :=
  let schema := c_schema consignment in
  let genesis := c_genesis consignment in
  require (bool_decide (schema_id schema = g_schema_id genesis))
    (SchemaMismatch (g_schema_id genesis) (schema_id schema)) ;;
  validate_op (Op_Genesis genesis) ∅ ;;
  process_assignments (genesis_id genesis) None (g_assignments genesis).

Definition resolve_witness (bundle_id : BundleId) (witness_id : Txid) : VM (Tx * WitnessOrd) :=
  match checked_resolve resolver witness_id with
  | Err err => fail (ResolverError err)
  | Ok (Resolved tx ord) =>
      if bool_decide (ord <> Archived) then
        modify (with_status (add_tx_ord (compute_txid tx) ord)) ;; mret (tx, ord)
      else refuse (SealNoPubWitness bundle_id witness_id)
  | Ok Unresolved => refuse (SealNoPubWitness bundle_id witness_id)
  end.

Definition validate_seal_closing (seals : list (BlindSeal Txid)) (bundle_id : BundleId) (witness : Witness)
    (mpc_proof : MerkleProof) : VM unit :=
  match anchor_convolve (mkAnchor _ _ _ mpc_proof (w_proof witness)) contract_id bundle_id with
  | Err _ => refuse (MpcInvalid bundle_id (w_txid witness))
  | Ok commitment =>
      let proof_method := method (w_proof witness) in
      match dbc_output_matches_method (tx_output (w_tx witness)) proof_method with
      | None => refuse (NoDbcOutput (w_txid witness))
      | Some method_matches =>
          require method_matches (InvalidProofType (w_txid witness) proof_method) ;;
          match verify_many_seals witness seals commitment with
          | Ok _ => mret tt
          | Err _ => refuse (SealsInvalid bundle_id (w_txid witness))
          end
      end
  end.

(** [seals.push(seal)] of a set; the order of the set only decides which seal an error
    names. *)
Definition push_seal (seal : BlindSeal Txid) (seals : list (BlindSeal Txid)) : list (BlindSeal Txid) :=
  if decide (seal ∈ seals) then seals else seals ++ [seal].

(** [state_by_type.entry(ty).or_default().push(state)] *)
Definition push_state (ty : AssignmentType) (state : RevealedState) (m : PrevState) : PrevState :=
  <[ty := default [] (m !! ty) ++ [state]]> m.

(** One round of the loop over the inputs *)
Definition spend_input (opid : OpId) (bundle : TransitionBundle) (input : Opout)
    (acc : list (BlindSeal Txid) * PrevState) : VM (list (BlindSeal Txid) * PrevState) :=
  require (bool_decide (input_map bundle !! input = Some opid))
    (InputMapTransitionMismatch (bundle_id bundle) opid input) ;;
  assigned ← gets (fun v => opout_assigns v !! input);
  modify (with_assigns (delete input)) ;;
  '(seal, state) ← lift (ok_or assigned (InvalidConsignment (NoPrevState opid input)));
  spent ← gets (fun v => bool_decide (input ∈ input_opouts v));
  modify (with_input input) ;;
  require (negb spent) (CyclicGraph input) ;;
  mret (push_seal seal acc.1, push_state (opout_ty input) state acc.2).

Fixpoint spend_inputs (opid : OpId) (bundle : TransitionBundle) (inputs : list Opout)
    (acc : list (BlindSeal Txid) * PrevState) : VM (list (BlindSeal Txid) * PrevState) :=
  match inputs with
  | [] => mret acc
  | input :: rest => acc ← spend_input opid bundle input acc; spend_inputs opid bundle rest acc
  end.

Definition validate_transition (known : KnownTransition) (bundle : TransitionBundle) (witness_tx : Tx)
    (witness_ord : WitnessOrd) (anchor : Anchor) : VM unit :=
  let opid := kt_opid known in
  let transition := kt_transition known in
  require (bool_decide (opid = transition_id transition)) (TransitionIdMismatch opid (transition_id transition)) ;;
  require (bool_decide (t_contract_id transition = contract_id)) (ContractMismatch opid (t_contract_id transition)) ;;
  '(seals, state_by_type) ← spend_inputs opid bundle (t_inputs transition) ([], ∅);
  let witness := witness_with witness_tx (dbc_proof anchor) in
  validate_seal_closing seals (bundle_id bundle) witness (mpc_proof anchor) ;;
  validate_op (Op_Transition transition (w_txid witness) witness_ord (bundle_id bundle)) state_by_type.

(** A witness above the safe height, or not mined, is recorded. *)
Definition unsafe_history (safe_height : option Z) (ord : WitnessOrd) (witness_id : Txid)
    (m : gmap Z (gset Txid)) : gmap Z (gset Txid) :=
  let add height := <[height := {[ witness_id ]} ∪ default ∅ (m !! height)]> m in
  match safe_height with
  | None => m
  | Some safe_height =>
      match ord with
      | Mined pos => if safe_height <? pos_height pos then add (pos_height pos) else m
      | _ => add 0
      end
  end.

Definition validate_known (bundle : TransitionBundle) (anchor : Anchor) (witness_tx : Tx) (witness_ord : WitnessOrd)
    (witness_id : Txid) (known : KnownTransition) : VM unit :=
  validate_transition known bundle witness_tx witness_ord anchor ;;
  process_assignments (kt_opid known) (Some witness_id) (t_assignments (kt_transition known)) ;;
  modify (with_dag (connect_transition (kt_transition known) (kt_opid known))).

Fixpoint validate_bundle_list (bundles : list (TransitionBundle * Anchor * Txid)) (unsafe : gmap Z (gset Txid))
    : VM (gmap Z (gset Txid)) :=
  match bundles with
  | [] => mret unsafe
  | (bundle, anchor, witness_id) :: rest =>
      '(witness_tx, witness_ord) ← resolve_witness (bundle_id bundle) witness_id;
      for_each (known_transitions bundle) (validate_known bundle anchor witness_tx witness_ord witness_id) ;;
      validate_bundle_list rest (unsafe_history (v_safe_height config) witness_ord witness_id unsafe)
  end.

Definition validate_bundles : VM unit :=
  unsafe ← validate_bundle_list (bundles_info consignment) ∅;
  modify (fun v => if bool_decide (is_Some (v_safe_height config) /\ unsafe <> ∅)
                   then with_status (add_warning (UnsafeHistory unsafe)) v else v) ;;
  modify (fun v => match opouts_dag_info v with
                   | Some d => with_status (with_dag_data (to_opouts_dag_data d)) v
                   | None => v
                   end).

(** [Validator::validate] from the validator that [init] makes *)
Definition validate_all : VM unit :=
  require (bool_decide (g_chain_net (c_genesis consignment) = v_chain_net config))
    (ContractChainNetMismatch (v_chain_net config)) ;;
  lift (match check_chain_net resolver (v_chain_net config) with
        | Ok _ => Ok tt
        | Err e => Err (ResolverError e)
        end) ;;
  validate_schema ;; validate_genesis ;; validate_bundles.

Definition validate (state : S) : result ValidationError Status :=
  v ← init consignment state config;
  match validate_all v with
  | (v, Ok _) => Ok (status v)
  | (_, Err e) => Err e
  end.

End validator.
