(* ===== verification/RgbLedger.v ===== *)
(** * RGB consensus: the ledger that validation keeps

    A ledger of unspent assignments, without contract state, schema or report: the
    genesis opens it, and each transition takes its inputs out, which the witness
    transaction must spend, and puts its outputs in.  [validation_is_ledger_run] shows
    that an accepted consignment is a run of the ledger.  [supply_bounded] shows that a
    contract whose schema names the script of the non-inflatable asset never holds more
    than its genesis issued. *)

From S2P Require Import Prelude Layer1 AluReg AluNumber AluCursor AluInstr AluBytecode AluLib AluRegs AluExec AluShift AluFrame AluProgress AluVm RgbTypes RgbOrder RgbSchema RgbIsa RgbLogic RgbScripts RgbValidator.
Local Open Scope Z_scope.

(** ** The ledger *)

Section ledger.
Context `{OperationIds} `{ContainerIds} `{DbcProofs} `{Mpc}.

Abbreviation Step := (TransitionBundle * Anchor * Txid * KnownTransition)%type.

Definition spend_all (inputs : list Opout) (u : Unspent) : Unspent := foldl (fun u o => delete o u) u inputs.

(** The transition is the one it is known as, and belongs to the contract and to the
    bundle; its inputs are different, unspent, and sealed by outputs that [tx] spends. *)
Record transition_ok (contract : ContractId) (bundle : TransitionBundle) (known : KnownTransition) (tx : Tx)
    (u : Unspent) : Prop := mkTransitionOk {
  ok_id : kt_opid known = transition_id (kt_transition known);
  ok_contract : t_contract_id (kt_transition known) = contract;
  ok_inputs : NoDup (t_inputs (kt_transition known));
  ok_bundle : forall o, o ∈ t_inputs (kt_transition known) -> input_map bundle !! o = Some (kt_opid known);
  ok_closed : forall o, o ∈ t_inputs (kt_transition known) ->
    exists seal state, u !! o = Some (seal, state) /\ to_outpoint seal ∈ tx_input tx;
}.

(** [tx] is the resolved witness, and commits to the bundle under the contract. *)
Record witnessed (resolver : ResolveWitness) (contract : ContractId) (bundle : TransitionBundle) (anchor : Anchor)
    (txid : Txid) (tx : Tx) : Prop := mkWitnessed {
  wit_resolved : exists ord, ord <> Archived /\ inner_resolve resolver txid = Ok (Resolved tx ord);
  wit_txid : compute_txid tx = txid;
  wit_committed : exists c, convolve (mpc_proof anchor) contract (bundle_id bundle) = Ok c /\
    dbc_verify (dbc_proof anchor) c tx = Ok tt;
  wit_output : exists s, s ∈ tx_output tx /\
    match method (dbc_proof anchor) with OpretFirst => is_op_return s = true | TapretFirst => is_p2tr s = true end;
}.

Definition ledger_after (txid : Txid) (known : KnownTransition) (u : Unspent) : Unspent :=
  insert_assignments (kt_opid known) (Some txid) (t_assignments (kt_transition known))
    (spend_all (t_inputs (kt_transition known)) u).

Inductive ledger_run (resolver : ResolveWitness) (contract : ContractId) (u : Unspent)
    : list Step -> Unspent -> Prop :=
| run_nil : ledger_run resolver contract u [] u
| run_step steps u1 bundle anchor txid known tx : ledger_run resolver contract u steps u1 ->
    witnessed resolver contract bundle anchor txid tx -> transition_ok contract bundle known tx u1 ->
    ledger_run resolver contract u (steps ++ [(bundle, anchor, txid, known)]) (ledger_after txid known u1).

(** The transitions of the bundles, in the order of validation *)
Definition steps_of (bundles : list (TransitionBundle * Anchor * Txid)) : list Step :=
  '(bundle, anchor, txid) ← bundles; map (fun known => (bundle, anchor, txid, known)) (known_transitions bundle).

Definition step_inputs (s : Step) : list Opout := t_inputs (kt_transition s.2).

End ledger.

(** ** Validation runs the ledger *)

Section refinement.
Context (debug : bool) `{Wide} `{fs : Floats} `{Digests} `{Secp}.
Context `{TypeLibrary} `{OperationIds} `{Ecdsa} {S : Type} `{ContractStateAccess S} `{ContractStateEvolve S}.
Context (hash_order : gset Z -> list Z) (lib_id : Lib -> string) (calls fuel : nat).
Context `{ContainerIds} `{DbcProofs} `{Mpc} `{Daggy}.
Context (consignment : Consignment) (config : ValidationConfig) (resolver : ResolveWitness).

Abbreviation contract := (contract_id consignment).
Abbreviation V := (Validator (S := S)).

Lemma require_Ok (b : bool) f (v v' : V) : require b f v = (v', Ok tt) <-> v' = v /\ b = true.
Proof. unfold require. rewrite lift_Ok, check_Ok. done. Qed.

(** What the loop over the inputs leaves, and what it collects *)
Record spent (opid : OpId) (bundle : TransitionBundle) (inputs : list Opout) (acc acc' : list (BlindSeal Txid) * PrevState)
    (v v' : V) : Prop := mkSpent {
  spent_state : v' = mkValidator (status v) (contract_state v) (list_to_set inputs ∪ input_opouts v)
                       (spend_all inputs (opout_assigns v)) (opouts_dag_info v);
  spent_NoDup : NoDup inputs;
  spent_fresh : forall o, o ∈ inputs -> o ∉ input_opouts v;
  spent_bundle : forall o, o ∈ inputs -> input_map bundle !! o = Some opid;
  spent_seals : forall o, o ∈ inputs -> exists seal state, opout_assigns v !! o = Some (seal, state) /\ seal ∈ acc'.1;
  spent_acc : acc.1 ⊆ acc'.1;
}.

Lemma spend_input_Ok opid bundle o acc acc' (v v' : V) : spend_input opid bundle o acc v = (v', Ok acc') ->
  exists seal state, opout_assigns v !! o = Some (seal, state) /\ input_map bundle !! o = Some opid /\
  (o ∉ input_opouts v) /\ acc' = (push_seal seal acc.1, push_state (opout_ty o) state acc.2) /\
  v' = mkValidator (status v) (contract_state v) ({[ o ]} ∪ input_opouts v) (delete o (opout_assigns v)) (opouts_dag_info v).
Proof.
  unfold spend_input. intros (v1 & [] & [-> Hm%bool_decide_eq_true]%require_Ok & E)%SE_bind_Ok.
  apply SE_bind_Ok in E as (v1 & a & [-> ->]%gets_Ok & E).
  apply SE_bind_Ok in E as (v1 & [] & ->%modify_Ok & E).
  apply SE_bind_Ok in E as (v1 & [seal state] & [-> Ha%ok_or_Ok]%lift_Ok & E).
  apply SE_bind_Ok in E as (v1 & b & [-> ->]%gets_Ok & E).
  apply SE_bind_Ok in E as (v1 & [] & ->%modify_Ok & E).
  apply SE_bind_Ok in E as (v1 & [] & [-> Hs%negb_true_iff%bool_decide_eq_false]%require_Ok & E).
  injection E as <- <-. by exists seal, state.
Qed.

Lemma push_seal_elem seal seals s : s ∈ push_seal seal seals <-> s = seal \/ s ∈ seals.
Proof. unfold push_seal. case_decide; [naive_solver|]. rewrite elem_of_app, list_elem_of_singleton. tauto. Qed.

Lemma spend_inputs_Ok opid bundle inputs acc acc' (v v' : V) : spend_inputs opid bundle inputs acc v = (v', Ok acc') ->
  spent opid bundle inputs acc acc' v v'.
Proof.
  revert acc v. induction inputs as [|o inputs IH]; intros acc v; cbn.
  - intros [= <- <-]. split; try done; [|by constructor..|by intros ? ?%elem_of_nil|by intros ? ?%elem_of_nil|by intros ? ?%elem_of_nil].
    destruct v. cbn. f_equal. set_solver.
  - intros (v1 & acc1 & (seal & state & Ho & Hm & Hf & -> & ->)%spend_input_Ok & Hr)%SE_bind_Ok.
    apply IH in Hr as [-> HN HF HB HS HA]. cbn in *.
    assert (o ∉ inputs) as Hno. { intros Hin%HS. destruct Hin as (? & ? & Hd & _). by rewrite lookup_delete_eq in Hd. }
    split; try done.
    + cbn. f_equal. set_solver.
    + by constructor.
    + intros o' [-> | Hin]%elem_of_cons; [done|]. specialize (HF _ Hin). set_solver.
    + intros o' [-> | Hin]%elem_of_cons; eauto.
    + intros o' [-> | Hin]%elem_of_cons.
      * exists seal, state. split; [done|]. apply HA, push_seal_elem. by left.
      * destruct (HS _ Hin) as (s & st & Hl & ?). exists s, st. apply lookup_delete_Some in Hl as [_ ?]. done.
    + intros s Hs. apply HA, push_seal_elem. by right.
Qed.

Lemma dbc_outputs_true outputs m b : dbc_outputs outputs m b = Some true ->
  exists s, s ∈ outputs /\ match m with OpretFirst => is_op_return s = true | TapretFirst => is_p2tr s = true end.
Proof.
  revert b. induction outputs as [|s outputs IH]; intros b; cbn; [by destruct b|].
  destruct (is_op_return s) eqn:Eo; [|destruct (is_p2tr s) eqn:Ep].
  - case_bool_decide as Hm; [intros _; exists s; subst; split; [by left|done]|].
    intros (s' & ? & ?)%IH. exists s'. split; [by right|done].
  - case_bool_decide as Hm; [intros _; exists s; subst; split; [by left|done]|].
    intros (s' & ? & ?)%IH. exists s'. split; [by right|done].
  - intros (s' & ? & ?)%IH. exists s'. split; [by right|done].
Qed.

Lemma verify_many_seals_Ok w seals msg : verify_many_seals w seals msg = Ok tt <->
  (forall s, s ∈ seals -> to_outpoint s ∈ tx_input (w_tx w)) /\ dbc_verify (w_proof w) msg (w_tx w) = Ok tt.
Proof.
  unfold verify_many_seals. rewrite result_seq_Ok, try_each_Ok.
  destruct (dbc_verify _ _ _) as [[]|e]; [|naive_solver].
  split; intros [Hs _]; (split; [|done]).
  - intros s Hin. specialize (Hs s Hin). cbv zeta in Hs. by apply ensure_Ok, bool_decide_eq_true in Hs.
  - intros s Hin. by apply ensure_Ok, bool_decide_eq_true, Hs.
Qed.

Lemma seal_closing_Ok seals id w p (v v' : V) : validate_seal_closing consignment seals id w p v = (v', Ok tt) ->
  v' = v /\ (forall s, s ∈ seals -> to_outpoint s ∈ tx_input (w_tx w)) /\
  (exists c, convolve p contract id = Ok c /\ dbc_verify (w_proof w) c (w_tx w) = Ok tt) /\
  exists s, s ∈ tx_output (w_tx w) /\
    match method (w_proof w) with OpretFirst => is_op_return s = true | TapretFirst => is_p2tr s = true end.
Proof.
  unfold validate_seal_closing, anchor_convolve. cbn [mpc_proof].
  destruct (convolve p contract id) as [c|e]; [|done]. cbv zeta.
  destruct (dbc_output_matches_method _ _) as [b|] eqn:Ed; [|done].
  intros (v1 & [] & [-> ->]%require_Ok & Hv)%SE_bind_Ok. apply dbc_outputs_true in Ed.
  destruct (verify_many_seals w seals c) as [[]|e] eqn:Es; [|done]. apply verify_many_seals_Ok in Es as [Hs Hc].
  injection Hv as <-. eauto 8.
Qed.

Lemma validate_op_frame op prev (v v' : V) r : validate_op debug hash_order lib_id calls fuel consignment op prev v = (v', r) ->
  v' = with_contract_state (contract_state v') v.
Proof. unfold validate_op, on_contract. destruct (validate_state _ _ _ _ _ _ _ _ _ _ _ _) as [s r0]. by intros [= <- _]. Qed.

Lemma resolve_witness_Ok id txid tx ord (v v' : V) : resolve_witness resolver id txid v = (v', Ok (tx, ord)) ->
  v' = with_status (add_tx_ord txid ord) v /\ compute_txid tx = txid /\ ord <> Archived /\
  inner_resolve resolver txid = Ok (Resolved tx ord).
Proof.
  unfold resolve_witness, checked_resolve. destruct (inner_resolve resolver txid) as [[|tx' ord']|e]; try done.
  cbn. destruct (decide (compute_txid tx' = txid)) as [Ht|Ht].
  - rewrite bool_decide_eq_true_2 by done. cbn. case_bool_decide; [|done]. cbn. intros [= <- <- <-]. by rewrite Ht.
  - by rewrite bool_decide_eq_false_2.
Qed.

(** An accepted transition is a step of the ledger, and its inputs become spent. *)
Lemma validate_known_step bundle anchor tx ord txid known (v v' : V) :
  compute_txid tx = txid -> ord <> Archived -> inner_resolve resolver txid = Ok (Resolved tx ord) ->
  validate_known debug hash_order lib_id calls fuel consignment bundle anchor tx ord txid known v = (v', Ok tt) ->
  witnessed resolver contract bundle anchor txid tx /\ transition_ok contract bundle known tx (opout_assigns v) /\
  opout_assigns v' = ledger_after txid known (opout_assigns v) /\
  input_opouts v' = list_to_set (t_inputs (kt_transition known)) ∪ input_opouts v /\
  forall o, o ∈ t_inputs (kt_transition known) -> o ∉ input_opouts v.
Proof.
  intros Htx Hord Hres. unfold validate_known. intros (v1 & [] & Ht & E)%SE_bind_Ok.
  apply SE_bind_Ok in E as (v2 & [] & E2 & ->%modify_Ok). unfold process_assignments in E2.
  apply SE_bind_Ok in E2 as (v3 & [] & ->%modify_Ok & ->%modify_Ok).
  unfold validate_transition in Ht. cbv zeta in Ht.
  apply SE_bind_Ok in Ht as (v2 & [] & [-> Hid%bool_decide_eq_true]%require_Ok & Ht).
  apply SE_bind_Ok in Ht as (v2 & [] & [-> Hc%bool_decide_eq_true]%require_Ok & Ht).
  apply SE_bind_Ok in Ht as (v2 & [seals prev] & [Hv2 HN HF HB HS HA]%spend_inputs_Ok & Ht).
  apply SE_bind_Ok in Ht as (v3 & [] & (-> & Hseals & Hcom & Hout)%seal_closing_Ok & Ht).
  apply validate_op_frame in Ht. rewrite Ht, Hv2. cbn. split; [|split; [|done]].
  - split; eauto.
  - split; try done. intros o Ho. destruct (HS o Ho) as (seal & state & Hl & Hin). exists seal, state. eauto.
Qed.

(** The ledger ran the steps, and exactly their inputs are spent, each of them once. *)
Record ran (u : Unspent) (steps : list (TransitionBundle * Anchor * Txid * KnownTransition)) (v : V) : Prop := mkRan {
  ran_ledger : ledger_run resolver contract u steps (opout_assigns v);
  ran_inputs : input_opouts v = list_to_set (mjoin (map step_inputs steps));
  ran_once : NoDup (mjoin (map step_inputs steps));
}.

Lemma ran_status u steps f v : ran u steps v -> ran u steps (with_status f v).
Proof. by intros []. Qed.

Lemma ran_known u steps bundle anchor tx ord txid known v v' :
  compute_txid tx = txid -> ord <> Archived -> inner_resolve resolver txid = Ok (Resolved tx ord) ->
  ran u steps v ->
  validate_known debug hash_order lib_id calls fuel consignment bundle anchor tx ord txid known v = (v', Ok tt) ->
  ran u (steps ++ [(bundle, anchor, txid, known)]) v'.
Proof.
  intros Htx Hord Hres [HL HI HN] Hv.
  destruct (validate_known_step _ _ _ _ _ _ _ _ Htx Hord Hres Hv) as (Hw & Hok & Hl & Hi & Hf).
  rewrite HI in Hi, Hf. assert (forall s : list Opout, mjoin [s] = s) as Hj by (intros s; apply app_nil_r).
  split; rewrite ?map_app, ?join_app.
  - rewrite Hl. by econstructor.
  - rewrite Hi. cbn [map]. rewrite Hj. unfold step_inputs at 2. cbn. rewrite list_to_set_app_L. set_solver.
  - cbn [map]. rewrite Hj. unfold step_inputs at 2. cbn. apply NoDup_app. split; [done|]. split; [|apply Hok].
    intros o Ho Hin. apply (Hf o Hin). set_solver.
Qed.

Lemma ran_bundles bundles u steps unsafe unsafe' v v' : ran u steps v ->
  validate_bundle_list debug hash_order lib_id calls fuel consignment config resolver bundles unsafe v = (v', Ok unsafe') ->
  ran u (steps ++ steps_of bundles) v'.
Proof.
  revert steps unsafe v. induction bundles as [|[[bundle anchor] txid] bundles IH]; intros steps unsafe v Hr; cbn.
  { intros [= <- _]. by rewrite app_nil_r. }
  intros (v1 & [tx ord] & (-> & Htx & Hord & Hres)%resolve_witness_Ok & E)%SE_bind_Ok.
  apply SE_bind_Ok in E as (v2 & [] & Hk & E).
  assert (ran u (steps ++ map (fun known => (bundle, anchor, txid, known)) (known_transitions bundle)) v2) as Hr2.
  { apply (for_each_Ok _ (fun ks v => ran u (steps ++ map (fun known => (bundle, anchor, txid, known)) ks) v)) with (2 := Hk).
    - rewrite app_nil_r. by apply ran_status.
    - intros ks k s1 s2 _ Hs1 Hs2. rewrite map_app, (assoc_L (++)). by eapply ran_known. }
  apply (IH _ _ _ Hr2) in E. by rewrite <- (assoc_L (++)) in E.
Qed.

(** The assignments of the genesis *)
Definition opening : Unspent :=
  insert_assignments contract None (g_assignments (c_genesis consignment)) ∅.

(** The genesis opens the ledger, and the bundles move it. *)
Lemma validate_all_parts state v0 (v : V) : init lib_id consignment state config = Ok v0 ->
  validate_all debug hash_order lib_id calls fuel consignment config resolver v0 = (v, Ok tt) ->
  exists v1 v2 v3 unsafe,
  validate_op debug hash_order lib_id calls fuel consignment (Op_Genesis (c_genesis consignment)) ∅ v0 = (v1, Ok tt) /\
  opout_assigns v2 = opening /\ input_opouts v2 = ∅ /\
  validate_bundle_list debug hash_order lib_id calls fuel consignment config resolver (bundles_info consignment) ∅ v2 =
    (v3, Ok unsafe) /\
  (opout_assigns v3, input_opouts v3) = (opout_assigns v, input_opouts v).
Proof.
  unfold init. case_match; [done|]. intros [= <-] E. unfold validate_all, validate_schema in E.
  apply SE_bind_Ok in E as (v1 & [] & [-> _]%require_Ok & E).
  apply SE_bind_Ok in E as (v1 & [] & [-> _]%lift_Ok & E).
  apply SE_bind_Ok in E as (v1 & [] & (v2 & [] & [-> _]%lift_Ok & [-> _]%lift_Ok)%SE_bind_Ok & E).
  apply SE_bind_Ok in E as (v2 & [] & Hg & E). unfold validate_genesis in Hg. cbv zeta in Hg.
  apply SE_bind_Ok in Hg as (v1 & [] & [-> _]%require_Ok & Hg).
  apply SE_bind_Ok in Hg as (v1 & [] & Ho & Hg). exists v1, v2. apply validate_op_frame in Ho as Hf.
  unfold process_assignments in Hg. apply SE_bind_Ok in Hg as (w & [] & ->%modify_Ok & ->%modify_Ok).
  unfold validate_bundles in E. apply SE_bind_Ok in E as (v3 & unsafe & Hb & E). exists v3, unsafe.
  apply SE_bind_Ok in E as (v4 & [] & ->%modify_Ok & ->%modify_Ok).
  split; [done|]. split; [by rewrite Hf|]. split; [by rewrite Hf|]. split; [done|]. by repeat case_match.
Qed.

(** C5. An accepted consignment is a run of the ledger from the assignments of the
    genesis through all its transitions, in order: each transition has the identifier
    it is known by, belongs to the contract and to its bundle, and takes inputs that
    are unspent at that point and sealed by outputs that the resolved witness
    transaction spends; the witness commits to the bundle under the contract.  The
    unspent assignments of the validator are those of the ledger, and no output is
    spent twice in the whole history. *)
Theorem validation_is_ledger_run state v0 v : init lib_id consignment state config = Ok v0 ->
  validate_all debug hash_order lib_id calls fuel consignment config resolver v0 = (v, Ok tt) ->
  ledger_run resolver contract opening (steps_of (bundles_info consignment)) (opout_assigns v) /\
  NoDup (mjoin (map step_inputs (steps_of (bundles_info consignment)))) /\
  input_opouts v = list_to_set (mjoin (map step_inputs (steps_of (bundles_info consignment)))).
Proof.
  intros Hi Hv. destruct (validate_all_parts _ _ _ Hi Hv) as (v1 & v2 & v3 & unsafe & _ & Hu & Hn & Hb & [= Ea En]).
  apply (ran_bundles _ opening []) in Hb as [HL HI HN]; [|split; rewrite ?Hu; [constructor|done|constructor]].
  by rewrite <- Ea, <- En.
Qed.

End refinement.

(** ** Amounts *)

Definition amount (s : RevealedState) : Z := match s with RS_Fungible v => as_u64 v | _ => 0 end.

Definition amount_at (ty : AssignmentType) (o : Opout) (a : BlindSeal Txid * RevealedState) : Z :=
  if opout_ty o =? ty then amount a.2 else 0.

(** The unspent amounts of a type *)
Definition held (ty : AssignmentType) (u : Unspent) : Z := map_fold (fun o a sum => amount_at ty o a + sum) 0 u.

Definition amounts_ok (u : Unspent) : Prop := map_Forall (fun _ a => 0 <= amount a.2) u.

Lemma held_insert ty o a u : u !! o = None -> held ty (<[o := a]> u) = amount_at ty o a + held ty u.
Proof. intros Ho. unfold held. rewrite map_fold_insert_L; [done| |done]. intros. lia. Qed.

Lemma held_delete ty o a u : u !! o = Some a -> held ty u = amount_at ty o a + held ty (delete o u).
Proof. intros Ho. rewrite <- (insert_delete_id u o a) at 1 by done. by rewrite held_insert by apply lookup_delete_eq. Qed.

Lemma held_insert_le ty o a u : amounts_ok u -> held ty (<[o := a]> u) <= held ty u + amount_at ty o a.
Proof.
  intros Hu. rewrite <- insert_delete_eq, held_insert by apply lookup_delete_eq.
  destruct (u !! o) as [b|] eqn:Eo; [|rewrite delete_id by done; lia].
  rewrite (held_delete ty o b u Eo). specialize (Hu o b Eo). unfold amount_at in *. cbn in *. case_match; lia.
Qed.

(** The amounts that a list of assignments gives *)
Definition total {Seal} (a : TypedAssigns Seal) : list Z :=
  match a with Fungible l => map (fun x => as_u64 (as_revealed_state x)) l | _ => [] end.

Definition typed_ok {Seal} (a : TypedAssigns Seal) : Prop := Forall (fun n => 0 <= n) (total a).

Section process.
Context `{ExposedSeal Seal}.

(** A revealed assignment holds the amount of its place. *)
Lemma revealed_amount (a : TypedAssigns Seal) n w seal s : to_revealed_assign_at a (Z.of_nat n) w = Some (seal, s) ->
  amount s = default 0 (total a !! n) /\ (n < Z.to_nat (len_u16 a))%nat.
Proof.
  unfold to_revealed_assign_at. rewrite Nat2Z.id. intros ([s1 st] & Ha & Hs)%bind_Some.
  apply bind_Some in Hs as (seal' & _ & [= _ <-]). destruct a as [l|l|l]; cbn in *; rewrite Nat2Z.id;
    apply bind_Some in Ha as ([s2 st2] & (y & Hy & Hr)%bind_Some & [= _ <-]);
    apply lookup_lt_Some in Hy as Hlt; (split; [|done]).
  1, 3: by rewrite lookup_nil.
  change (map ?f l) with (f <$> l). rewrite list_lookup_fmap, Hy. cbn. destruct y; cbn in Hr; by simplify_eq.
Qed.

Lemma insert_revealed_held ty opid w ty' (a : TypedAssigns Seal) n u : amounts_ok u -> typed_ok a ->
  amounts_ok (insert_revealed opid w ty' a n u) /\
  held ty (insert_revealed opid w ty' a n u) <= held ty u + (if ty' =? ty then default 0 (total a !! n) else 0).
Proof.
  intros Hu Ha. assert (0 <= default 0 (total a !! n)) as Hn.
  { destruct (total a !! n) eqn:E; [|done]. cbn. by eapply (Forall_lookup_1 _ _ _ _ Ha). }
  unfold insert_revealed. destruct (to_revealed_assign_at _ _ _) as [[seal s]|] eqn:E.
  - apply revealed_amount in E as [Es _]. split; [apply map_Forall_insert_2; [cbn; lia|done]|].
    etransitivity; [by apply held_insert_le|]. unfold amount_at. cbn. rewrite Es. case_match; lia.
  - split; [done|]. case_match; lia.
Qed.

Lemma insert_typed_held ty opid w ty' (a : TypedAssigns Seal) u : amounts_ok u -> typed_ok a ->
  amounts_ok (insert_typed opid w ty' a u) /\
  held ty (insert_typed opid w ty' a u) <= held ty u + (if ty' =? ty then sumZ (total a) else 0).
Proof.
  intros Hu Ha. unfold insert_typed.
  assert (forall n, let u' := foldl (fun m no => insert_revealed opid w ty' a no m) u (seq 0 n) in
    amounts_ok u' /\ held ty u' <= held ty u + (if ty' =? ty then sumZ (take n (total a)) else 0)) as Hn.
  { induction n as [|n [IHo IHh]]; cbv zeta in *; [rewrite take_0; change (sumZ []) with 0; cbn [seq foldl]; split; [done|case_match; lia]|].
    rewrite seq_S, foldl_app. cbn [foldl Nat.add].
    destruct (insert_revealed_held ty opid w ty' a n _ IHo Ha) as [Ho Hh]. split; [done|].
    assert (sumZ (take (S n) (total a)) = sumZ (take n (total a)) + default 0 (total a !! n)) as ->.
    { destruct (total a !! n) as [z|] eqn:E; cbn.
      - rewrite (take_S_r _ _ _ E), sumZ_app. unfold sumZ. cbn. lia.
      - apply lookup_ge_None in E. rewrite !take_ge by lia. lia. }
    case_match; lia. }
  destruct (Hn (Z.to_nat (len_u16 a))) as [Ho Hh]. split; [done|]. rewrite take_ge in Hh; [done|].
  destruct a; cbn; rewrite ?length_map; lia.
Qed.

(** The amounts that an operation gives to a type *)
Definition total_at (ty : AssignmentType) (assignments : Assignments Seal) : list Z :=
  default [] (total <$> assignments !! ty).

Lemma insert_list_held ty opid w (l : list (Z * TypedAssigns Seal)) u : amounts_ok u -> NoDup l.*1 ->
  Forall (fun p => typed_ok p.2) l ->
  let u' := foldl (fun m '(ty, a) => insert_typed opid w ty a m) u l in
  amounts_ok u' /\ forall a, (forall b, (ty, b) ∈ l -> b = a) ->
  held ty u' <= held ty u + (if decide (ty ∈ l.*1) then sumZ (total a) else 0).
Proof.
  revert u. induction l as [|[ty' b] l IH]; intros u Hu HN HF; cbv zeta; cbn [foldl].
  { split; [done|]. intros. rewrite decide_False by apply not_elem_of_nil. lia. }
  cbn [fmap list_fmap fst] in HN. apply NoDup_cons in HN as [Hni HN]. apply Forall_cons in HF as [Hb HF]. cbn in Hb.
  destruct (insert_typed_held ty opid w ty' b u Hu Hb) as [Hu' Hh].
  destruct (IH _ Hu' HN HF) as [Ho Hl]. split; [done|]. intros a Ha. cbn [fmap list_fmap fst].
  specialize (Hl a ltac:(intros; apply Ha; by right)).
  destruct (ty' =? ty) eqn:Et; [apply Z.eqb_eq in Et as -> | apply Z.eqb_neq in Et].
  - rewrite decide_False in Hl by done. rewrite decide_True by (by left). assert (b = a) as -> by (apply Ha; by left). lia.
  - destruct (decide (ty ∈ l.*1)); [rewrite decide_True by (by right)|rewrite decide_False]; try lia.
    apply not_elem_of_cons. by split.
Qed.

Lemma insert_assignments_held ty opid w (assignments : Assignments Seal) u : amounts_ok u ->
  map_Forall (fun _ => typed_ok) assignments ->
  amounts_ok (insert_assignments opid w assignments u) /\
  held ty (insert_assignments opid w assignments u) <= held ty u + sumZ (total_at ty assignments).
Proof.
  intros Hu Ha. unfold insert_assignments.
  destruct (insert_list_held ty opid w (entries assignments) u) as [Ho Hh]; [done|apply entries_NoDup| |].
  { apply Forall_forall. intros [k b] Hin%elem_of_entries. by eapply Ha. }
  split; [done|]. cbv zeta in Hh. unfold total_at. destruct (assignments !! ty) as [a|] eqn:E; cbn [fmap option_fmap option_map from_option id].
  - specialize (Hh a ltac:(intros b Hb%elem_of_entries; by injection (eq_trans (eq_sym E) Hb))). case_decide; [lia|].
    pose proof (sumZ_nonneg _ (Ha _ _ E)). lia.
  - specialize (Hh (Declarative []) ltac:(intros b Hb%elem_of_entries; by pose proof (eq_trans (eq_sym E) Hb))).
    change (sumZ []) with 0. case_decide as Hin; [|lia].
    apply list_elem_of_fmap in Hin as ([k b] & -> & Hb%elem_of_entries). by pose proof (eq_trans (eq_sym E) Hb).
Qed.

End process.

(** ** The supply of a non-inflatable asset *)

(** The amounts among the states of a type *)
Definition prev_total (ty : AssignmentType) (p : PrevState) : Z := sumZ (map amount (default [] (p !! ty))).

Lemma prev_total_push ty ty' s p :
  prev_total ty (push_state ty' s p) = prev_total ty p + (if ty' =? ty then amount s else 0).
Proof.
  unfold prev_total, push_state, PrevState in *. destruct (Z.eqb_spec ty' ty) as [-> | Hne].
  - rewrite lookup_insert_eq. cbn [from_option id]. rewrite map_app, sumZ_app. unfold sumZ. cbn. lia.
  - rewrite lookup_insert_ne by done. lia.
Qed.

Section supply.
Context (debug : bool) `{Wide} `{fs : Floats} `{Digests} `{Secp}.
Context `{TypeLibrary} `{OperationIds} `{Ecdsa} {S : Type} `{ContractStateAccess S} `{ContractStateEvolve S}.
Context (hash_order : gset Z -> list Z) (lib_id : Lib -> string) (calls fuel : nat) (isa : string).
Context `{ContainerIds} `{DbcProofs} `{Mpc} `{Daggy}.
Context (consignment : Consignment) (config : ValidationConfig) (resolver : ResolveWitness).

Abbreviation V := (Validator (S := S)).

(** Spending moves the amounts from the ledger to the inputs of the operation. *)
Lemma spend_inputs_held ty opid bundle inputs acc acc' (v v' : V) : amounts_ok (opout_assigns v) ->
  spend_inputs opid bundle inputs acc v = (v', Ok acc') -> amounts_ok (opout_assigns v') /\
  held ty (opout_assigns v') + prev_total ty acc'.2 = held ty (opout_assigns v) + prev_total ty acc.2.
Proof.
  revert acc v. induction inputs as [|o inputs IH]; intros acc v Hu; cbn; [by intros [= <- <-]|].
  intros (v1 & acc1 & (seal & state & Ho & _ & _ & -> & ->)%spend_input_Ok & Hr)%SE_bind_Ok.
  apply IH in Hr as [Hu' Hr]; [|by apply map_Forall_delete]. split; [done|]. cbn in Hr. rewrite Hr, prev_total_push.
  rewrite (held_delete ty o _ _ Ho). unfold amount_at. cbn. lia.
Qed.

(** Every operation of the schema runs the script of the non-inflatable asset. *)
Record conserving (s : Schema) (lib : string) : Prop := mkConserving {
  cons_genesis : os_validator (of_genesis (s_genesis s)) = Some (mkSite lib FN_NIA_GENESIS_OFFSET);
  cons_transitions : forall ty d, s_transitions s !! ty = Some d ->
    os_validator (of_transition (transition_schema d)) = Some (mkSite lib FN_NIA_TRANSFER_OFFSET);
}.

(** Amounts are unsigned, and data are bytes. *)
Record consignment_ok (c : Consignment) : Prop := mkConsignmentOk {
  gen_amounts : map_Forall (fun _ => typed_ok) (g_assignments (c_genesis c));
  gen_globals : forall ty l d, g_globals (c_genesis c) !! ty = Some l -> d ∈ l -> str_ok d;
  trans_amounts : forall bundle anchor txid known, (bundle, anchor, txid) ∈ bundles_info c ->
    known ∈ known_transitions bundle -> map_Forall (fun _ => typed_ok) (t_assignments (kt_transition known));
}.

Lemma accepted_script s types scripts genesis op prev st st' site os : op_schema s op = Ok os ->
  os_validator os = Some site ->
  validate_state debug hash_order lib_id calls fuel s types scripts genesis op prev st = (st', Ok tt) ->
  run_script debug lib_id calls fuel scripts genesis op prev site st = Ok tt.
Proof.
  intros Hos Hsite. unfold validate_state. intros (s1 & os' & [-> Hv]%lift_Ok & E)%SE_bind_Ok.
  unfold validate_structure in Hv. rewrite Hos in Hv. cbn [mbind result_bind] in Hv.
  assert (os' = os) as ->. { by repeat (apply result_bind_Ok in Hv as (? & _ & Hv)); injection Hv. }
  rewrite Hsite in E. apply SE_bind_Ok in E as (s2 & st2 & [= <- <-] & E).
  by apply SE_bind_Ok in E as (s3 & [] & [-> Hr]%lift_Ok & _).
Qed.


Lemma verdict_Ok op b n : verdict op b n = Ok tt <-> b = true.
Proof. unfold verdict. by destruct b. Qed.

Lemma inputs_sum ctx ty i : amounts_in (S := S) ctx ty = Some i -> i = prev_total ty (oi_prev_state (vc_op_info ctx)).
Proof.
  unfold amounts_in, load_revealed_inputs, prev_total. destruct (_ !! ty) as [l|]; [|by intros [= <-]].
  cbn [from_option id]. intros (k & Hk & ->%checked_sum_sound)%bind_Some. rewrite Z.add_0_l. f_equal.
  apply mapM_Some_1 in Hk. induction Hk as [|x y l k Hx _ IH]; [done|]. cbn. rewrite IH. f_equal.
  by destruct x; simplify_eq.
Qed.

Lemma total_transmutate (a : TypedAssigns GenesisSeal) : total (transmutate_seals a) = total a.
Proof. destruct a as [l|l|l]; cbn; [done| |done]. rewrite map_map. apply map_ext. by intros []. Qed.

(** The amounts that an operation gives *)
Definition given (ty : AssignmentType) (op : OrdOpRef) : list Z :=
  match op with
  | Op_Genesis g => total_at ty (g_assignments g)
  | Op_Transition t _ _ _ => total_at ty (t_assignments t)
  end.

Lemma outputs_sum ctx ty o : amounts_out (S := S) ctx ty = Some o -> o = sumZ (given ty (oi_op (vc_op_info ctx))).
Proof.
  unfold amounts_out, load_revealed_outputs, owned_state. intros (k & Hk & Ho)%bind_Some.
  unfold sum_outputs in Ho. case_bool_decide; [done|]. apply checked_sum_sound in Ho as ->. rewrite Z.add_0_l. f_equal.
  destruct (oi_op _) as [g|t w ord b]; cbn in *; unfold total_at.
  - destruct (g_assignments g !! ty) as [a|]; cbn in *; [|congruence]. rewrite <- total_transmutate.
    destruct (transmutate_seals a); simplify_eq; done.
  - destruct (t_assignments t !! ty) as [a|]; cbn in *; [|congruence]. destruct a; simplify_eq; done.
Qed.

Lemma balanced_sums ctx ty : balanced (S := S) ctx ty = true ->
  prev_total ty (oi_prev_state (vc_op_info ctx)) = sumZ (given ty (oi_op (vc_op_info ctx))).
Proof.
  unfold balanced. destruct (amounts_in ctx ty) as [i|] eqn:Ei; [|done].
  destruct (amounts_out ctx ty) as [o|] eqn:Eo; [|done]. intros ->%Z.eqb_eq.
  by rewrite <- (inputs_sum _ _ _ Ei), (outputs_sum _ _ _ Eo).
Qed.

Context (Hschema : conserving (c_schema consignment) (lib_id (nia_lib isa))).
Context (Hlib : forall lib, lib_id lib = lib_id (nia_lib isa) -> lib = nia_lib isa).
Context (Hok : consignment_ok consignment) (Hcalls : (0 < calls)%nat) (Hfuel : (8 <= fuel)%nat).

Lemma found_lib op prev pos st : 
  run_script debug lib_id calls fuel (scripts_of lib_id consignment) (c_genesis consignment) op prev
    (mkSite (lib_id (nia_lib isa)) pos) st = Ok tt ->
  scripts_of lib_id consignment !! lib_id (nia_lib isa) = Some (nia_lib isa).
Proof.
  unfold run_script. cbn [site_lib]. intros (script & Hs%ok_or_Ok & E)%result_bind_Ok.
  apply result_seq_Ok in E as [Hid%check_Ok%bool_decide_eq_true _]. by rewrite Hs, (Hlib script).
Qed.

Lemma transition_conserves t w ord b prev (v v' : V) :
  validate_op debug hash_order lib_id calls fuel consignment (Op_Transition t w ord b) prev v = (v', Ok tt) ->
  prev_total OS_ASSET prev = sumZ (total_at OS_ASSET (t_assignments t)).
Proof.
  unfold validate_op, on_contract. destruct (validate_state _ _ _ _ _ _ _ _ _ _ _ _) as [st [[]|e]] eqn:E; [|done].
  intros _. set (op := Op_Transition t w ord b) in *.
  destruct (s_transitions (c_schema consignment) !! t_transition_type t) as [d|] eqn:Ed.
  2: { unfold validate_state, validate_structure in E. cbn in E. by rewrite Ed in E. }
  apply (accepted_script _ _ _ _ _ _ _ _ (mkSite (lib_id (nia_lib isa)) FN_NIA_TRANSFER_OFFSET)
    (of_transition (transition_schema d))) in E; [|cbn; by rewrite Ed|by eapply cons_transitions].
  pose proof (found_lib _ _ _ _ E) as Hs.
  rewrite (nia_transfer_decides debug lib_id isa) in E by (done || lia). apply verdict_Ok, balanced_sums in E. done.
Qed.

(** The number that the genesis declares as issued *)
Definition genesis_supply (g : Genesis) : option Z :=
  g_globals g !! GS_ISSUED_SUPPLY ≫= fun l => l !! 0%nat ≫= first_amount.

Lemma genesis_issues (v v' : V) :
  validate_op debug hash_order lib_id calls fuel consignment (Op_Genesis (c_genesis consignment)) ∅ v = (v', Ok tt) ->
  genesis_supply (c_genesis consignment) = Some (sumZ (total_at OS_ASSET (g_assignments (c_genesis consignment)))).
Proof.
  unfold validate_op, on_contract. destruct (validate_state _ _ _ _ _ _ _ _ _ _ _ _) as [st [[]|e]] eqn:E; [|done].
  intros _. destruct (decide (g_seal_closing_strategy (c_genesis consignment) = FirstOpretOrTapret)) as [Hg|Hg].
  2: { unfold validate_state, validate_structure, mbind, SE_bind, lift in E. cbn in E.
       by rewrite (bool_decide_eq_false_2 _ Hg) in E. }
  apply (accepted_script _ _ _ _ _ _ _ _ (mkSite (lib_id (nia_lib isa)) FN_NIA_GENESIS_OFFSET)
    (of_genesis (s_genesis (c_schema consignment)))) in E;
    [|cbn; by rewrite (bool_decide_eq_true_2 _ Hg)|by eapply cons_genesis].
  pose proof (found_lib _ _ _ _ E) as Hs.
  rewrite (nia_genesis_decides debug lib_id isa) in E; try done; [|intros ty l d; by apply gen_globals].
  apply verdict_Ok in E. unfold issued in E. destruct (issued_supply _) as [n|] eqn:En; [|done].
  change (genesis_supply (c_genesis consignment) = Some n) in En. rewrite En.
  destruct (amounts_out _ _) as [o|] eqn:Eo; [|done]. apply outputs_sum in Eo. apply Z.eqb_eq in E. by rewrite E, Eo.
Qed.

Lemma known_held bundle anchor tx ord txid known (v v' : V) :
  map_Forall (fun _ => typed_ok) (t_assignments (kt_transition known)) -> amounts_ok (opout_assigns v) ->
  validate_known debug hash_order lib_id calls fuel consignment bundle anchor tx ord txid known v = (v', Ok tt) ->
  amounts_ok (opout_assigns v') /\ held OS_ASSET (opout_assigns v') <= held OS_ASSET (opout_assigns v).
Proof.
  intros Ht Hu. unfold validate_known. intros (v1 & [] & Hv & E)%SE_bind_Ok.
  apply SE_bind_Ok in E as (v2 & [] & E2 & ->%modify_Ok). unfold process_assignments in E2.
  apply SE_bind_Ok in E2 as (v3 & [] & ->%modify_Ok & ->%modify_Ok). cbn.
  unfold validate_transition in Hv. cbv zeta in Hv.
  apply SE_bind_Ok in Hv as (v2 & [] & [-> _]%require_Ok & Hv).
  apply SE_bind_Ok in Hv as (v2 & [] & [-> _]%require_Ok & Hv).
  apply SE_bind_Ok in Hv as (v2 & [seals prev] & Hs & Hv).
  apply SE_bind_Ok in Hv as (v3 & [] & [-> _]%seal_closing_Ok & Hv).
  destruct (spend_inputs_held OS_ASSET _ _ _ _ _ _ _ Hu Hs) as [Hu2 Hh]. cbn in Hh.
  apply transition_conserves in Hv as Hc. apply validate_op_frame in Hv. rewrite Hv. cbn.
  destruct (insert_assignments_held OS_ASSET (kt_opid known) (Some txid) _ _ Hu2 Ht) as [Ho Hle]. split; [done|].
  change (prev_total OS_ASSET ∅) with 0 in Hh. lia.
Qed.

Lemma bundles_held bundles unsafe unsafe' (v v' : V) : bundles ⊆ bundles_info consignment ->
  amounts_ok (opout_assigns v) ->
  validate_bundle_list debug hash_order lib_id calls fuel consignment config resolver bundles unsafe v = (v', Ok unsafe') ->
  held OS_ASSET (opout_assigns v') <= held OS_ASSET (opout_assigns v).
Proof.
  revert unsafe v. induction bundles as [|[[bundle anchor] txid] bundles IH]; intros unsafe v Hin Hu; cbn.
  { by intros [= <- _]. }
  intros (v1 & [tx ord] & (-> & _)%resolve_witness_Ok & E)%SE_bind_Ok. apply SE_bind_Ok in E as (v2 & [] & Hk & E).
  apply (for_each_Ok _ (fun _ w => amounts_ok (opout_assigns w) /\ held OS_ASSET (opout_assigns w) <= held OS_ASSET (opout_assigns v)))
    in Hk as [Hu2 Hle]; [|done|].
  2: { intros _ known w w' Hkn [Hw Hwle] Hstep. apply known_held in Hstep as [? ?]; [split; [done|lia]| |done].
       eapply trans_amounts; [done| |done]. apply Hin. by left. }
  apply IH in E; [lia| |done]. intros x Hx. apply Hin. by right.
Qed.

(** C4. No inflation: when the schema of a contract names the script of the
    non-inflatable asset for its genesis and for all its transitions, and the script
    has an identifier that no other library has, then after any accepted consignment the
    amounts of the asset on all unspent assignments together are at most the issued
    supply that the genesis declares. *)
Theorem supply_bounded state v0 v : init lib_id consignment state config = Ok v0 ->
  validate_all debug hash_order lib_id calls fuel consignment config resolver v0 = (v, Ok tt) ->
  exists n, genesis_supply (c_genesis consignment) = Some n /\ held OS_ASSET (opout_assigns v) <= n.
Proof.
  intros Hi Hv. destruct (validate_all_parts _ _ _ _ _ _ _ _ _ _ _ Hi Hv) as (v1 & v2 & v3 & unsafe & Hg & Hu & _ & Hb & [= <- _]).
  eexists. split; [by eapply genesis_issues|].
  destruct (insert_assignments_held OS_ASSET (contract_id consignment) None (g_assignments (c_genesis consignment)) ∅) as [Ho Hle];
    [done|by apply gen_amounts|].
  apply bundles_held in Hb; [|done|by rewrite Hu]. rewrite Hu in Hb. change (held OS_ASSET ∅) with 0 in Hle.
  unfold opening in Hb. lia.
Qed.

End supply.
