(* ===== verification/RgbAnchor.v ===== *)
(** * RGB consensus: multi-protocol commitments in validation

    The interface [Mpc] of the validator, implemented by the merkle proofs of MpcBlock.
    A path of 32 hashes makes the source panic ([convolve_panics]), so the proofs of the
    instance have at most 31.  Since a commitment is binding, a witness transaction
    carries one bundle of a contract. *)

From S2P Require Import Prelude Layer1 MpcMerkle MpcBlock MpcTree AluReg AluNumber AluCursor AluInstr AluBytecode AluLib AluRegs AluExec AluShift AluFrame AluProgress AluVm RgbTypes RgbOrder RgbSchema RgbIsa RgbLogic RgbScripts RgbValidator RgbLedger.
Local Open Scope Z_scope.

(** [mpc::MerkleProof] with a path that does not panic *)
Definition short_proof : Type := { proof : MpcBlock.MerkleProof | (length (proof_path proof) <=? 31)%nat = true }.

Definition short_convolve `{MerkleIds} (proof : short_proof) (protocol message : string) : result string Commitment :=
  map_err (fun _ => "invalid proof") (MpcBlock.convolve (proj1_sig proof) protocol message).

#[export] Instance merkle_mpc `{MerkleIds} : Mpc := {| MerkleProof := short_proof; convolve := short_convolve |}.

(** The instance hides no panic. *)
Lemma short_convolve_total `{MerkleIds} (proof : short_proof) protocol message why :
  MpcBlock.convolve (proj1_sig proof) protocol message <> Err (Panics why).
Proof.
  destruct proof as [proof HL]. cbn. rewrite convolve_spec by (by apply Nat.leb_le). by case_match.
Qed.

Section anchors.
Context (debug : bool) `{Wide} `{fs : Floats} `{Digests} `{Secp}.
Context `{TypeLibrary} `{OperationIds} `{Ecdsa} {S : Type} `{ContractStateAccess S} `{ContractStateEvolve S}.
Context (hash_order : gset Z -> list Z) (lib_id : Lib -> string) (calls fuel : nat).
Context `{ContainerIds} `{DbcProofs} `{MerkleIds} `{Daggy}.
Context (consignment : Consignment) (config : ValidationConfig) (resolver : ResolveWitness).

Context (node_inj : forall a b, node_id a = node_id b -> a = b)
        (leaf_inj : forall a b, leaf_id a = leaf_id b -> a = b)
        (concealed_inj : forall a b, concealed_id a = concealed_id b -> a = b).
(** A proof of a commitment in a transaction is of one commitment. *)
Context (dbc_binding : forall proof c c' tx, dbc_verify proof c tx = Ok tt -> dbc_verify proof c' tx = Ok tt -> c = c').

Lemma run_witnessed contract u steps u' b a txid k : ledger_run resolver contract u steps u' ->
  (b, a, txid, k) ∈ steps -> exists tx, witnessed resolver contract b a txid tx.
Proof.
  induction 1 as [|steps u1 b1 a1 txid1 k1 tx _ IH Hw _]; [by intros ?%elem_of_nil|].
  intros [Hin|Hin]%elem_of_app; [by apply IH|]. apply list_elem_of_singleton in Hin as [= -> -> -> ->]. by exists tx.
Qed.

End anchors.
