(* ===== verification/RgbSchemata.v ===== *)
(** * RGB schemata: the schemata of the library (crates/rgb-schemas/src)

    The schemata that the library issues contracts with: non-inflatable (nia.rs),
    collectible (cfa.rs), permissioned (pfa.rs) and inflatable (ifa.rs) fungible assets
    and unique digital assets (uda.rs), with the scripts that are not in RgbScripts.
    The identifier of a standard type is a parameter ([types.get(..)] of the type
    library), and so is the identifier of a library of code. *)

From S2P Require Import Prelude Layer1 AluReg AluNumber AluCursor AluInstr AluBytecode AluLib AluRegs AluExec AluShift AluFrame AluProgress AluVm RgbTypes RgbOrder RgbSchema RgbIsa RgbLogic RgbScripts RgbValidator RgbLedger.
Local Open Scope Z_scope.

(** ** Constants (lib.rs) *)

Abbreviation GS_ART := 3000 (only parsing).
Abbreviation GS_ATTACH := 2104 (only parsing).
Abbreviation GS_REJECT_LIST_URL := 2012 (only parsing).
Abbreviation GS_LINKED_FROM_CONTRACT := 2013 (only parsing).
Abbreviation GS_LINKED_TO_CONTRACT := 2014 (only parsing).
Abbreviation GS_DETAILS := 3004 (only parsing).
Abbreviation GS_MAX_SUPPLY := 2011 (only parsing).
Abbreviation GS_NAME := 3001 (only parsing).
Abbreviation GS_PRECISION := 3005 (only parsing).
Abbreviation GS_TOKENS := 2102 (only parsing).
Abbreviation OS_INFLATION := 4010 (only parsing).
Abbreviation OS_LINK := 4013 (only parsing).
Abbreviation TS_INFLATION := 8000 (only parsing).
Abbreviation TS_BURN := 8010 (only parsing).
Abbreviation TS_LINK := 8012 (only parsing).
Abbreviation MS_ALLOWED_INFLATION := 1000 (only parsing).
Abbreviation MS_BURNED_ASSET := 1001 (only parsing).
Abbreviation MS_BURNED_INFLATION := 1002 (only parsing).
Abbreviation ERRNO_NON_FRACTIONAL := 10 (only parsing).

(** ** Scripts *)

(** [pfa_lib_genesis]: the genesis script of the non-inflatable asset *)
Definition pfa_genesis : list RgbInstr := nia_genesis.

(** [uda_lib] *)
Abbreviation FN_GENESIS_OFFSET := (4 + 4 + 3) (only parsing).
Abbreviation FN_TRANSFER_OFFSET := (0) (only parsing).
Abbreviation FN_SHARED_OFFSET := (FN_GENESIS_OFFSET + 4 + 4 + 4) (only parsing).

Abbreviation s1 := (mkRegS 1) (only parsing).

Definition uda_code : list RgbInstr :=
  [put_ A16 Reg32_0 0;
   contract (CO.LdP OS_ASSET Reg16_0 s0);
   ControlFlow (CF.Jmp FN_SHARED_OFFSET);
   put_ A16 Reg32_0 0; put_ A8 Reg32_1 0;
   contract (CO.LdG GS_TOKENS Reg16_1 s0);
   put_ A8 Reg32_0 ERRNO_NON_EQUAL_IN_OUT;
   Bytes (BY.Extr s0 (AR_A A32) Reg16_0 Reg16_0);
   put_ A16 Reg32_1 0;
   contract (CO.LdS OS_ASSET Reg16_1 s1);
   Bytes (BY.Extr s1 (AR_A A32) Reg16_1 Reg16_0);
   Cmp (CP.EqA NonEqual A32 Reg32_0 Reg32_1);
   test;
   put_ A8 Reg32_0 ERRNO_NON_FRACTIONAL;
   put_ A16 (Reg32_2) 4;
   Bytes (BY.Extr s1 (AR_A A64) Reg16_0 Reg16_2);
   put_ A64 Reg32_1 1;
   Cmp (CP.EqA NonEqual A64 Reg32_0 Reg32_1);
   test].

Definition uda_lib `{Floats} (isa : string) : Lib := assembled isa uda_code.
Definition pfa_lib_genesis `{Floats} (isa : string) : Lib := assembled isa pfa_genesis.

(** *** The scripts of the inflatable asset (ifa.rs) *)

Abbreviation ERRNO_INFLATION_MISMATCH := 30 (only parsing).
Abbreviation ERRNO_INFLATION_EXCEEDS_ALLOWANCE := 31 (only parsing).
Abbreviation ERRNO_BURN_MISMATCH := 40 (only parsing).
Abbreviation ERRNO_BURN_ZERO := 41 (only parsing).

(** [IntFlags::unsigned_checked] *)
Definition uc : IntFlags := {| signed := false; wrap := false |}.

(** [burn_meta_by_assignment]; [None] is its panic *)
Definition burn_meta_by_assignment (ty : AssignmentType) : option MetaType :=
  if ty =? OS_ASSET then Some MS_BURNED_ASSET
  else if ty =? OS_INFLATION then Some MS_BURNED_INFLATION else None.

Definition ifa_genesis : list RgbInstr :=
  [put_ A8 Reg32_1 0; put_ A16 Reg32_0 0;
   put_ A8 Reg32_0 ERRNO_ISSUED_MISMATCH;
   contract (CO.LdG GS_ISSUED_SUPPLY Reg16_1 s0);
   Bytes (BY.Extr s0 (AR_A A64) Reg16_0 Reg16_0);
   contract (CO.Sas OS_ASSET); test;
   put_ A8 Reg32_0 ERRNO_INFLATION_MISMATCH;
   contract (CO.LdG GS_MAX_SUPPLY Reg16_1 s1);
   Bytes (BY.Extr s1 (AR_A A64) Reg16_1 Reg16_0);
   Arithmetic (AR.SubA uc A64 Reg32_1 Reg32_0); test;
   contract (CO.Sas OS_INFLATION); test;
   ret_].

Definition ifa_transfer : list RgbInstr :=
  [put_ A8 Reg32_0 ERRNO_NON_EQUAL_IN_OUT;
   contract (CO.Svs OS_ASSET); test;
   contract (CO.Svs OS_INFLATION); test;
   put_ A8 Reg32_0 ERRNO_NON_EQUAL_IN_OUT;
   contract (CO.CnP OS_LINK Reg32_0); contract (CO.CnS OS_LINK Reg32_1);
   Cmp (CP.EqA NonEqual A16 Reg32_0 Reg32_1); test;
   ret_].

Definition ifa_inflation : list RgbInstr :=
  [put_ A8 Reg32_1 0; put_ A16 Reg32_0 0;
   put_ A8 Reg32_0 ERRNO_ISSUED_MISMATCH;
   contract (CO.LdG GS_ISSUED_SUPPLY Reg16_1 s0);
   Bytes (BY.Extr s0 (AR_A A64) Reg16_0 Reg16_0);
   contract (CO.Sas OS_ASSET); test;
   Move (MV.CpyA A64 Reg32_0 A64 Reg32_1);
   put_ A8 Reg32_0 ERRNO_INFLATION_MISMATCH;
   contract (CO.LdM MS_ALLOWED_INFLATION s0);
   Bytes (BY.Extr s0 (AR_A A64) Reg16_0 Reg16_0);
   contract (CO.Sas OS_INFLATION); test;
   put_ A8 Reg32_0 ERRNO_INFLATION_EXCEEDS_ALLOWANCE;
   Arithmetic (AR.AddA uc A64 Reg32_1 Reg32_0); test;
   contract (CO.Sps OS_INFLATION); test;
   ret_].

(** [ifa_lib_burn]: the same steps for the asset and for the right to inflate *)
Abbreviation BEFORE_LOOP := (16) (only parsing).
Abbreviation LOOP := (20) (only parsing).
Abbreviation AFTER_LOOP := (36) (only parsing).
Abbreviation LOOP_STRT_1 := (BEFORE_LOOP) (only parsing).
Abbreviation LOOP_EXIT_1 := (LOOP_STRT_1 + LOOP) (only parsing).
Abbreviation LOOP_STRT_2 := (LOOP_EXIT_1 + AFTER_LOOP + BEFORE_LOOP) (only parsing).
Abbreviation LOOP_EXIT_2 := (LOOP_STRT_2 + LOOP) (only parsing).

Definition burn_part (ty : AssignmentType) (meta : MetaType) (loop_start loop_exit : Z) : list RgbInstr :=
  [put_ A8 Reg32_0 ERRNO_BURN_MISMATCH; put_ A16 Reg32_0 0; put_ A64 Reg32_0 0;
   contract (CO.CnS ty Reg32_1);
   Cmp (CP.EqA NonEqual A16 Reg32_0 Reg32_1);
   ControlFlow (CF.Jif loop_exit);
   contract (CO.LdF ty Reg16_0 Reg16_1);
   Arithmetic (AR.AddA uc A64 Reg32_1 Reg32_0); test;
   Arithmetic (AR.Stp A16 Reg32_0 1);
   ControlFlow (CF.Jmp loop_start);
   put_ A16 Reg32_0 0;
   contract (CO.LdM meta s0);
   Bytes (BY.Extr s0 (AR_A A64) Reg16_1 Reg16_0); test;
   Arithmetic (AR.AddA uc A64 Reg32_1 Reg32_0); test;
   contract (CO.Sps ty); test;
   put_ A8 Reg32_0 ERRNO_BURN_ZERO;
   Cmp (CP.IfZA A64 Reg32_1); Cmp (CP.St MergeSet A8 Reg8_1);
   Cmp (CP.IfZA A64 Reg32_0); Cmp CP.StInv; Cmp (CP.St MergeAnd A8 Reg8_1);
   Cmp (CP.IfZA A8 Reg32_1); test].

Definition ifa_burn : list RgbInstr :=
  burn_part OS_ASSET MS_BURNED_ASSET LOOP_STRT_1 LOOP_EXIT_1 ++
  burn_part OS_INFLATION MS_BURNED_INFLATION LOOP_STRT_2 LOOP_EXIT_2 ++ [ret_].

Definition ifa_lib_genesis `{Floats} (isa : string) : Lib := assembled isa ifa_genesis.
Definition ifa_lib_transfer `{Floats} (isa : string) : Lib := assembled isa ifa_transfer.
Definition ifa_lib_inflation `{Floats} (isa : string) : Lib := assembled isa ifa_inflation.
Definition ifa_lib_burn `{Floats} (isa : string) : Lib := assembled isa ifa_burn.

Lemma ifa_lib_genesis_code `{Floats} isa : ifa_lib_genesis isa = mkLib isa
  [11; 8; 0; 0; 11; 1; 1; 0; 11; 0; 3; 0; 200; 218; 7; 1; 57; 48; 0; 209; 160; 15; 1; 11; 0; 4; 0; 200; 219;
   7; 17; 57; 49; 1; 33; 8; 96; 1; 209; 170; 15; 1; 7]
  [0; 0; 0; 1; 30] [].
Proof. vm_compute. reflexivity. Qed.

Lemma ifa_lib_transfer_code `{Floats} isa : ifa_lib_transfer isa = mkLib isa
  [11; 0; 0; 0; 208; 160; 15; 1; 208; 170; 15; 1; 11; 0; 0; 0; 192; 173; 15; 0; 193; 173; 15; 1; 25; 1; 33; 1;
   7]
  [0] [].
Proof. vm_compute. reflexivity. Qed.

Lemma ifa_lib_inflation_code `{Floats} isa : ifa_lib_inflation isa = mkLib isa
  [11; 8; 0; 0; 11; 1; 1; 0; 11; 0; 3; 0; 200; 218; 7; 1; 57; 48; 0; 209; 160; 15; 1; 17; 3; 11; 11; 0; 4; 0;
   202; 232; 3; 0; 57; 48; 0; 209; 170; 15; 1; 11; 0; 5; 0; 32; 8; 96; 1; 210; 170; 15; 1; 7]
  [0; 0; 0; 1; 30; 31] [].
Proof. vm_compute. reflexivity. Qed.

Lemma ifa_lib_burn_code `{Floats} isa : ifa_lib_burn isa = mkLib isa
  [11; 0; 0; 0; 11; 1; 1; 0; 11; 3; 3; 0; 193; 160; 15; 1; 25; 1; 33; 3; 36; 0; 198; 160; 15; 16; 32; 8; 96;
   1; 36; 1; 1; 2; 16; 0; 11; 1; 1; 0; 202; 233; 3; 0; 57; 48; 1; 1; 32; 8; 96; 1; 210; 160; 15; 1; 11; 0; 11;
   0; 26; 11; 30; 32; 26; 3; 31; 30; 34; 26; 8; 1; 11; 0; 0; 0; 11; 1; 1; 0; 11; 3; 1; 0; 193; 170; 15; 1; 25;
   1; 33; 3; 108; 0; 198; 170; 15; 16; 32; 8; 96; 1; 36; 1; 1; 2; 88; 0; 11; 1; 1; 0; 202; 234; 3; 0; 57; 48;
   1; 1; 32; 8; 96; 1; 210; 170; 15; 1; 11; 0; 11; 0; 26; 11; 30; 32; 26; 3; 31; 30; 34; 26; 8; 1; 7]
  [40; 0; 0; 0; 0; 0; 0; 0; 0; 0; 0; 41] [].
Proof. vm_compute. reflexivity. Qed.

Lemma uda_lib_code `{Floats} isa : exists code data, uda_lib isa = mkLib isa code data [] /\
  code !! 0%nat = Some INSTR_PUTA /\ code !! 11%nat = Some INSTR_PUTA /\ code !! 19%nat = Some INSTR_LDG /\
  code !! 23%nat = Some INSTR_PUTA /\ code !! 27%nat = Some INSTR_EXTR.
Proof. vm_compute. do 2 eexists. done. Qed.

(** ** Schemata *)

Section schemata.
Context `{fs : Floats} (isa : string) (lib_id : Lib -> string) (get_type : string -> SemId).

(** [GlobalStateSchema::once], [GlobalStateSchema::many] *)
Definition once (sem_id : SemId) : GlobalStateSchema := mkGlobalSchema sem_id 1.
Definition many (sem_id : SemId) : GlobalStateSchema := mkGlobalSchema sem_id (2 ^ 24 - 1).

Definition global (schema : GlobalStateSchema) (name : string) : GlobalDetails := mkGlobalDetails schema name.
Definition fungible (name : string) : AssignmentDetails :=
  mkAssignmentDetails (OS_Fungible Unsigned64Bit) name TS_TRANSFER.

Definition asset_inputs : gmap AssignmentType Occurrences := {[ OS_ASSET := OnceOrMore ]}.

(** A transfer that takes and gives some of the asset *)
Definition asset_transfer (validator : LibSite) : TransitionDetails :=
  mkTransitionDetails (mkTransitionSchema ∅ ∅ asset_inputs asset_inputs (Some validator)) "transfer".

Definition nia_schema : Schema :=
  let alu_id := lib_id (nia_lib isa) in
  mkSchema 0 "NonInflatableAsset" ∅
    (<[GS_NOMINAL := global (once (get_type "RGBContract.AssetSpec")) "spec"]>
     (<[GS_TERMS := global (once (get_type "RGBContract.ContractTerms")) "terms"]>
      {[ GS_ISSUED_SUPPLY := global (once (get_type "RGBContract.Amount")) "issuedSupply" ]}))
    {[ OS_ASSET := fungible "assetOwner" ]}
    (mkGenesisSchema ∅ (<[GS_NOMINAL := Once]> (<[GS_TERMS := Once]> {[ GS_ISSUED_SUPPLY := Once ]}))
       {[ OS_ASSET := OnceOrMore ]} (Some (mkSite alu_id FN_NIA_GENESIS_OFFSET)))
    {[ TS_TRANSFER := asset_transfer (mkSite alu_id FN_NIA_TRANSFER_OFFSET) ]}
    (Some OS_ASSET).

Definition cfa_schema : Schema :=
  let nia_id := lib_id (nia_lib isa) in
  mkSchema 0 "CollectibleFungibleAsset" ∅
    (<[GS_ART := global (once (get_type "RGBContract.Article")) "art"]>
     (<[GS_NAME := global (once (get_type "RGBContract.Name")) "name"]>
      (<[GS_DETAILS := global (once (get_type "RGBContract.Details")) "details"]>
       (<[GS_PRECISION := global (once (get_type "RGBContract.Precision")) "precision"]>
        (<[GS_TERMS := global (once (get_type "RGBContract.ContractTerms")) "terms"]>
         {[ GS_ISSUED_SUPPLY := global (once (get_type "RGBContract.Amount")) "issuedSupply" ]})))))
    {[ OS_ASSET := fungible "assetOwner" ]}
    (mkGenesisSchema ∅
       (<[GS_ART := NoneOrOnce]> (<[GS_NAME := Once]> (<[GS_DETAILS := NoneOrOnce]>
        (<[GS_PRECISION := Once]> (<[GS_TERMS := Once]> {[ GS_ISSUED_SUPPLY := Once ]})))))
       {[ OS_ASSET := OnceOrMore ]} (Some (mkSite nia_id FN_NIA_GENESIS_OFFSET)))
    {[ TS_TRANSFER := asset_transfer (mkSite nia_id FN_NIA_TRANSFER_OFFSET) ]}
    (Some OS_ASSET).

Definition pfa_schema : Schema :=
  mkSchema 0 "PermissionedFungibleAsset" ∅
    (<[GS_NOMINAL := global (once (get_type "RGBContract.AssetSpec")) "spec"]>
     (<[GS_TERMS := global (once (get_type "RGBContract.ContractTerms")) "terms"]>
      (<[GS_ISSUED_SUPPLY := global (once (get_type "RGBContract.Amount")) "issuedSupply"]>
       {[ GS_PUBKEY := global (once (get_type "Bitcoin.CompressedPk")) "pubkey" ]})))
    {[ OS_ASSET := fungible "assetOwner" ]}
    (mkGenesisSchema ∅
       (<[GS_NOMINAL := Once]> (<[GS_TERMS := Once]> (<[GS_ISSUED_SUPPLY := Once]> {[ GS_PUBKEY := Once ]})))
       {[ OS_ASSET := OnceOrMore ]} (Some (mkSite (lib_id (pfa_lib_genesis isa)) 0)))
    {[ TS_TRANSFER := asset_transfer (mkSite (lib_id (pfa_lib_transition isa)) 0) ]}
    (Some OS_ASSET).

Definition uda_schema : Schema :=
  let alu_id := lib_id (uda_lib isa) in
  mkSchema 0 "UniqueDigitalAsset" ∅
    (<[GS_NOMINAL := global (once (get_type "RGBContract.AssetSpec")) "spec"]>
     (<[GS_TERMS := global (once (get_type "RGBContract.ContractTerms")) "terms"]>
      (<[GS_TOKENS := global (once (get_type "RGBContract.TokenData")) "tokens"]>
       {[ GS_ATTACH := global (once (get_type "RGBContract.AttachmentType")) "attachmentTypes" ]})))
    {[ OS_ASSET := mkAssignmentDetails (OS_Structured (get_type "RGBContract.Allocation")) "assetOwner" TS_TRANSFER ]}
    (mkGenesisSchema ∅
       (<[GS_NOMINAL := Once]> (<[GS_TERMS := Once]> (<[GS_TOKENS := Once]> {[ GS_ATTACH := NoneOrOnce ]})))
       {[ OS_ASSET := Once ]} (Some (mkSite alu_id FN_GENESIS_OFFSET)))
    {[ TS_TRANSFER := mkTransitionDetails (mkTransitionSchema ∅ ∅ {[ OS_ASSET := Once ]} {[ OS_ASSET := Once ]}
         (Some (mkSite alu_id FN_TRANSFER_OFFSET))) "transfer" ]}
    (Some OS_ASSET).

Definition ifa_schema : Schema :=
  let amount_type := get_type "RGBContract.Amount" in
  let all_types : gmap AssignmentType Occurrences :=
    <[OS_ASSET := NoneOrMore]> (<[OS_INFLATION := NoneOrMore]> {[ OS_LINK := NoneOrOnce ]}) in
  mkSchema 0 "InflatableFungibleAsset"
    (<[MS_ALLOWED_INFLATION := mkMetaDetails amount_type "allowedInflation"]>
     (<[MS_BURNED_ASSET := mkMetaDetails amount_type "burnedAsset"]>
      {[ MS_BURNED_INFLATION := mkMetaDetails amount_type "burnedInflation" ]}))
    (<[GS_NOMINAL := global (once (get_type "RGBContract.AssetSpec")) "spec"]>
     (<[GS_TERMS := global (once (get_type "RGBContract.ContractTerms")) "terms"]>
      (<[GS_ISSUED_SUPPLY := global (many amount_type) "issuedSupply"]>
       (<[GS_MAX_SUPPLY := global (once amount_type) "maxSupply"]>
        (<[GS_REJECT_LIST_URL := global (once (get_type "RGBContract.RejectListUrl")) "rejectListUrl"]>
         (<[GS_LINKED_FROM_CONTRACT := global (once (get_type "RGBCommit.ContractId")) "linkedFromContract"]>
          {[ GS_LINKED_TO_CONTRACT := global (once (get_type "RGBCommit.ContractId")) "linkedToContract" ]}))))))
    (<[OS_ASSET := fungible "assetOwner"]>
     (<[OS_INFLATION := fungible "inflationAllowance"]>
      {[ OS_LINK := mkAssignmentDetails OS_Declarative "linkRight" TS_TRANSFER ]}))
    (mkGenesisSchema ∅
       (<[GS_NOMINAL := Once]> (<[GS_TERMS := Once]> (<[GS_ISSUED_SUPPLY := Once]> (<[GS_MAX_SUPPLY := Once]>
        (<[GS_REJECT_LIST_URL := NoneOrOnce]> {[ GS_LINKED_FROM_CONTRACT := NoneOrOnce ]})))))
       all_types (Some (mkSite (lib_id (ifa_lib_genesis isa)) 0)))
    (<[TS_TRANSFER := mkTransitionDetails
         (mkTransitionSchema ∅ ∅ all_types all_types (Some (mkSite (lib_id (ifa_lib_transfer isa)) 0))) "transfer"]>
     (<[TS_INFLATION := mkTransitionDetails
          (mkTransitionSchema {[ MS_ALLOWED_INFLATION ]} {[ GS_ISSUED_SUPPLY := Once ]} {[ OS_INFLATION := OnceOrMore ]}
             (<[OS_ASSET := OnceOrMore]> {[ OS_INFLATION := NoneOrMore ]})
             (Some (mkSite (lib_id (ifa_lib_inflation isa)) 0))) "inflate"]>
      (<[TS_BURN := mkTransitionDetails
           (mkTransitionSchema {[ MS_BURNED_ASSET; MS_BURNED_INFLATION ]} ∅ all_types
              (<[OS_ASSET := NoneOrMore]> {[ OS_INFLATION := NoneOrMore ]})
              (Some (mkSite (lib_id (ifa_lib_burn isa)) 0))) "burn"]>
       {[ TS_LINK := mkTransitionDetails
            (mkTransitionSchema ∅ {[ GS_LINKED_TO_CONTRACT := Once ]} {[ OS_LINK := Once ]} ∅ None) "link" ]})))
    (Some OS_ASSET).

(** The asset schemata run the script of the non-inflatable asset. *)
Lemma nia_conserving : conserving nia_schema (lib_id (nia_lib isa)).
Proof. split; [done|]. intros ty d Hd. unfold nia_schema in Hd. cbn [s_transitions] in Hd. by apply lookup_singleton_Some in Hd as [<- <-]. Qed.

Lemma cfa_conserving : conserving cfa_schema (lib_id (nia_lib isa)).
Proof. split; [done|]. intros ty d Hd. unfold cfa_schema in Hd. cbn [s_transitions] in Hd. by apply lookup_singleton_Some in Hd as [<- <-]. Qed.

(** The schemata of the library *)
Definition library_schemata : list Schema := [nia_schema; cfa_schema; pfa_schema; uda_schema; ifa_schema].

End schemata.

(** The types of the schema are types of [types]. *)
Record types_known `{TypeLibrary} (s : Schema) (types : TypeSystem) : Prop := mkTypesKnown {
  known_meta : map_Forall (fun _ d => is_Some (ts_get types (md_sem_id d))) (meta_types s);
  known_global : map_Forall (fun _ d => is_Some (ts_get types (gs_sem_id (global_state_schema d)))) (global_types s);
  known_owned : map_Forall (fun _ d => match owned_state_schema d with
    OS_Structured id => is_Some (ts_get types id) | _ => True end) (owned_types s);
}.

Lemma verify_intro `{TypeLibrary} s types :
  verify_operation s OFT_Genesis (of_genesis (s_genesis s)) = Ok tt ->
  try_each (entries (s_transitions s)) (fun '(ty, d) =>
    verify_operation s (OFT_StateTransition ty) (of_transition (transition_schema d))) = Ok tt ->
  types_known s types -> verify s types = Ok tt.
Proof.
  intros H1 H2 [K1 K2 K3]. unfold verify. rewrite H1, H2. cbn [mbind result_bind].
  rewrite !result_seq_Ok, !try_each_Ok. split_and!; intros [ty d] Hd%elem_of_entries.
  - apply ensure_Ok, bool_decide_eq_true. by apply (K1 ty d).
  - apply ensure_Ok, bool_decide_eq_true. by apply (K2 ty d).
  - specialize (K3 ty d Hd). cbn in K3. destruct (owned_state_schema d); try done. by apply ensure_Ok, bool_decide_eq_true.
Qed.

(** The schemata of the library are well formed: [Schema::verify] accepts each of
    them with any type system that has the types it names. *)
Theorem library_schemata_verify `{Floats} `{TypeLibrary} isa lib_id get_type types s :
  (forall name, is_Some (ts_get types (get_type name))) ->
  s ∈ library_schemata isa lib_id get_type -> verify s types = Ok tt.
Proof.
  intros Ht Hs. repeat (apply elem_of_cons in Hs as [-> | Hs]); [..|by apply elem_of_nil in Hs].
  all: apply verify_intro; [vm_compute; reflexivity|vm_compute; reflexivity|].
  all: split; cbn [meta_types global_types owned_types nia_schema cfa_schema pfa_schema uda_schema ifa_schema];
    repeat apply map_Forall_insert_2; try apply map_Forall_singleton; try apply map_Forall_empty; cbn; auto.
Qed.
