(* ===== verification/OpsState.v ===== *)
(** * rgb-ops: the state of contracts in memory (persistence/memory.rs, persistence/state.rs)

    [MemContractState] gathers what the operations of a contract assign: the global state
    and the assignments of each kind.  [MemContract] reads it through the witnesses whose
    status is known ([contract/assignments.rs]); the validator runs scripts on it and lets
    it take the operations that it accepts.  [MemState] holds the contracts of a stock.

    The ordered sets of assignments compare operation output and seal only, so a set is a
    map from these to the assignment.  The collections are confined: inserting in a full
    one fails, even where the key is present.  In a build with debug assertions the source
    also compares the states of equal assignments; these come from one operation. *)

From S2P Require Import Prelude Layer1 AluNumber RgbTypes RgbOrder RgbSchema RgbIsa RgbLogic RgbValidator.
Local Open Scope Z_scope.

(** ** Confined collections *)

(** [for x in l { s = f(s, x)?; }] *)
Fixpoint try_fold {E S A} (f : S -> A -> result E S) (s : S) (l : list A) : result E S :=
  match l with [] => Ok s | x :: l' => s' ← f s x; try_fold f s' l' end.

Definition expect_P {A} (o : option A) (why : string) : P A := ok_or o (Abort why).

(** [LargeOrdMap::insert], [LargeOrdSet::push]: at most 2^32 - 1 items *)
Definition LARGE : Z := 2 ^ 32 - 1.
Definition SMALL : Z := 2 ^ 16 - 1.
Definition insert_confined `{Countable K} {A} (max : Z) (k : K) (v : A) (m : gmap K A) : option (gmap K A) :=
  if Z.of_nat (size m) <? max then Some (<[k := v]> m) else None.
(** A set keeps the element that it has. *)
Definition push_confined `{Countable K} {A} (max : Z) (k : K) (v : A) (m : gmap K A) : option (gmap K A) :=
  if Z.of_nat (size m) <? max then Some (match m !! k with Some _ => m | None => <[k := v]> m end) else None.

(** The items of an ordered map in the order of iteration *)
Definition sorted_by `{Countable K} {A} (cmp : K -> K -> comparison) (m : gmap K A) : list (K * A) :=
  merge_sort (fun a b => cmp a.1 b.1 <> Gt) (map_to_list m).

(** ** Where state comes from (contract/mod.rs) *)

Inductive OpWitness := OW_Genesis | OW_Transition (witness_id : Txid) (ty : TransitionType).
#[export] Instance OpWitness_eq_dec : EqDecision OpWitness.
Proof. solve_decision. Defined.
#[export] Instance OpWitness_countable : Countable OpWitness.
Proof.
  refine (inj_countable' (fun w => match w with OW_Genesis => None | OW_Transition id ty => Some (id, ty) end)
            (fun o => match o with None => OW_Genesis | Some (id, ty) => OW_Transition id ty end) _).
  by intros [].
Defined.

(** [From<OrdOpRef> for OpWitness] *)
Definition op_witness_from (op : OrdOpRef) : OpWitness :=
  match op with
  | Op_Genesis _ => OW_Genesis
  | Op_Transition t witness_id _ _ => OW_Transition witness_id (t_transition_type t)
  end.

Definition ow_witness_id (w : OpWitness) : option Txid :=
  match w with OW_Genesis => None | OW_Transition witness_id _ => Some witness_id end.

Record GlobalOut := mkGlobalOut { gout_index : Z; gout_op_witness : OpWitness; gout_nonce : Z; gout_opid : OpId }.
#[export] Instance GlobalOut_eq_dec : EqDecision GlobalOut.
Proof. solve_decision. Defined.
#[export] Instance GlobalOut_countable : Countable GlobalOut.
Proof.
  refine (inj_countable' (fun o => (gout_index o, gout_op_witness o, gout_nonce o, gout_opid o))
            (fun '(i, w, n, id) => mkGlobalOut i w n id) _).
  by intros [].
Defined.

(** The derived orders: the fields in the order of declaration *)
Definition ow_cmp (a b : OpWitness) : comparison :=
  match a, b with
  | OW_Genesis, OW_Genesis => Eq
  | OW_Genesis, OW_Transition _ _ => Lt
  | OW_Transition _ _, OW_Genesis => Gt
  | OW_Transition id ty, OW_Transition id' ty' => then_cmp (str_cmp id id') (ty ?= ty')
  end.
Definition out_cmp (a b : GlobalOut) : comparison :=
  then_cmp (gout_index a ?= gout_index b) (then_cmp (ow_cmp (gout_op_witness a) (gout_op_witness b))
    (then_cmp (gout_nonce a ?= gout_nonce b) (str_cmp (gout_opid a) (gout_opid b)))).

(** [OrdOpRef::witness_id], [OrdOpRef::bundle_id], [Operation::nonce] *)
Definition op_witness_id (op : OrdOpRef) : option Txid :=
  match op with Op_Genesis _ => None | Op_Transition _ witness_id _ _ => Some witness_id end.
Definition op_bundle_id (op : OrdOpRef) : option BundleId :=
  match op with Op_Genesis _ => None | Op_Transition _ _ _ bundle_id => Some bundle_id end.
Definition op_nonce (op : OrdOpRef) : Z :=
  match op with Op_Genesis _ => 2 ^ 64 - 1 | Op_Transition t _ _ _ => t_nonce t end.

(** ** Assignments to outputs (contract/assignments.rs, operation/seal.rs) *)

#[export] Instance Outpoint_countable : Countable Outpoint.
Proof. refine (inj_countable' (fun o => (op_txid o, op_vout o)) (fun '(t, v) => mkOutpoint t v) _). by intros []. Defined.

(** [TxoSeal::outpoint] and [TxoSeal::outpoint_or] of a seal; an [OutputSeal] is an
    outpoint. *)
Class TxoSeal (Seal : Type) := {
  seal_outpoint : Seal -> option Outpoint;
  seal_outpoint_or : Seal -> Txid -> Outpoint;
}.
#[export] Instance graph_txo_seal : TxoSeal GraphSeal := {|
  seal_outpoint s := match seal_txid s with WitnessTx => None | TxPtr_Txid txid => Some (mkOutpoint txid (seal_vout s)) end;
  seal_outpoint_or s default :=
    mkOutpoint (match seal_txid s with WitnessTx => default | TxPtr_Txid txid => txid end) (seal_vout s) |}.
#[export] Instance genesis_txo_seal : TxoSeal GenesisSeal := {|
  seal_outpoint s := Some (mkOutpoint (seal_txid s) (seal_vout s));
  seal_outpoint_or s _ := mkOutpoint (seal_txid s) (seal_vout s) |}.

Definition to_output_seal_or_default `{TxoSeal Seal} (seal : Seal) (witness_id : Txid) : Outpoint :=
  default (seal_outpoint_or seal witness_id) (seal_outpoint seal).

Record OutputAssignment (State : Type) := mkOutputAssignment {
  oa_opout : Opout;
  oa_seal : Outpoint;
  oa_state : State;
  oa_witness : option Txid;
  oa_bundle_id : option BundleId;
}.
Arguments mkOutputAssignment {State}. Arguments oa_opout {State}. Arguments oa_seal {State}.
Arguments oa_state {State}. Arguments oa_witness {State}. Arguments oa_bundle_id {State}.

(** [LargeOrdSet<OutputAssignment<State>>] *)
Abbreviation AssignedSet State := (gmap (Opout * Outpoint) (OutputAssignment State)).

Section output_assignment.
Context {State : Type}.

Definition with_witness `{TxoSeal Seal} (seal : Seal) (witness_id : Txid) (state : State) (bundle_id : option BundleId)
    (opid : OpId) (ty : AssignmentType) (no : Z) : OutputAssignment State :=
  mkOutputAssignment (mkOpout opid ty no) (to_output_seal_or_default seal witness_id) state (Some witness_id) bundle_id.

Definition with_no_witness `{TxoSeal Seal} (seal : Seal) (state : State) (bundle_id : option BundleId)
    (opid : OpId) (ty : AssignmentType) (no : Z) : P (OutputAssignment State) :=
  seal ← expect_P (seal_outpoint seal) "seal must have txid information since it comes from genesis";
  mret (mkOutputAssignment (mkOpout opid ty no) seal state None bundle_id).

Definition check_witness (a : OutputAssignment State) (filter : gmap Txid WitnessOrd) : bool :=
  match oa_witness a with
  | None => true
  | Some witness_id => match filter !! witness_id with None | Some Archived => false | Some _ => true end
  end.

Definition check_bundle (a : OutputAssignment State) (invalid_bundles : gset BundleId) : bool :=
  match oa_bundle_id a with Some bundle_id => bool_decide (bundle_id ∉ invalid_bundles) | None => true end.

Definition push_assigned (a : OutputAssignment State) (set : AssignedSet State) : option (AssignedSet State) :=
  push_confined LARGE (oa_opout a, oa_seal a) a set.

End output_assignment.

(** The order of the elements *)
Definition assigned_cmp (a b : Opout * Outpoint) : comparison :=
  then_cmp (then_cmp (str_cmp (opout_op a.1) (opout_op b.1))
             (then_cmp (opout_ty a.1 ?= opout_ty b.1) (opout_no a.1 ?= opout_no b.1)))
    (then_cmp (str_cmp (op_txid a.2) (op_txid b.2)) (op_vout a.2 ?= op_vout b.2)).
Definition assigned_list {State} (set : AssignedSet State) : list (OutputAssignment State) := (sorted_by assigned_cmp set).*2.

(** ** The state of a contract *)

Record MemGlobalState := mkMemGlobal { known : gmap GlobalOut RevealedData; mg_limit : Z }.

Record MemContractState := mkMemContractState {
  mcs_schema_id : SchemaId;
  mcs_contract_id : ContractId;
  mcs_global : gmap GlobalStateType MemGlobalState;
  mcs_rights : AssignedSet unit;
  mcs_fungibles : AssignedSet RevealedValue;
  mcs_data : AssignedSet RevealedData;
}.

Definition with_global (g : gmap GlobalStateType MemGlobalState) (c : MemContractState) : MemContractState :=
  mkMemContractState (mcs_schema_id c) (mcs_contract_id c) g (mcs_rights c) (mcs_fungibles c) (mcs_data c).
Definition with_rights (s : AssignedSet unit) (c : MemContractState) : MemContractState :=
  mkMemContractState (mcs_schema_id c) (mcs_contract_id c) (mcs_global c) s (mcs_fungibles c) (mcs_data c).
Definition with_fungibles (s : AssignedSet RevealedValue) (c : MemContractState) : MemContractState :=
  mkMemContractState (mcs_schema_id c) (mcs_contract_id c) (mcs_global c) (mcs_rights c) s (mcs_data c).
Definition with_data (s : AssignedSet RevealedData) (c : MemContractState) : MemContractState :=
  mkMemContractState (mcs_schema_id c) (mcs_contract_id c) (mcs_global c) (mcs_rights c) (mcs_fungibles c) s.

(** [MemContractState::new]; the types of a schema fit the map they are collected to. *)
Definition mem_contract_new `{ContainerIds} (s : Schema) (contract_id : ContractId) : MemContractState :=
  mkMemContractState (schema_id s) contract_id
    ((fun glob => mkMemGlobal ∅ (gs_max_items (global_state_schema glob))) <$> global_types s) ∅ ∅ ∅.

(** The nested function [process] of [add_assignments] *)
Fixpoint process `{TxoSeal Seal} {State} (set : AssignedSet State) (no : nat) (assignments : list (Assign Seal State))
    (bundle_id : option BundleId) (opid : OpId) (ty : AssignmentType) (witness_id : option Txid) : P (AssignedSet State) :=
  match assignments with
  | [] => mret set
  | a :: rest =>
      set' ← match as_revealed a with
        | None => mret set
        | Some (seal, state) =>
            let n := Z.of_nat no mod 65536 in
            assigned_state ← match witness_id with
              | Some witness_id => mret (with_witness seal witness_id state bundle_id opid ty n)
              | None => with_no_witness seal state bundle_id opid ty n
              end;
            expect_P (push_assigned assigned_state set) "contract state exceeded 2^32 items, which is unrealistic"
        end;
      process set' (S no) rest bundle_id opid ty witness_id
  end.

Definition add_assignments `{TxoSeal Seal} (bundle_id : option BundleId) (witness_id : option Txid) (opid : OpId)
    (assignments : Assignments Seal) (c : MemContractState) : P MemContractState :=
  try_fold (fun c '(ty, assignments) =>
    match assignments with
    | Declarative l => s ← process (mcs_rights c) 0 l bundle_id opid ty witness_id; mret (with_rights s c)
    | Fungible l => s ← process (mcs_fungibles c) 0 l bundle_id opid ty witness_id; mret (with_fungibles s c)
    | Structured l => s ← process (mcs_data c) 0 l bundle_id opid ty witness_id; mret (with_data s c)
    end) c (entries assignments).

Section add_operation.
Context `{OperationIds}.

(** The key of the item [idx] of the global state of an operation *)
Definition global_out (op : OrdOpRef) (idx : nat) : GlobalOut :=
  mkGlobalOut (Z.of_nat idx mod 65536) (op_witness_from op) (op_nonce op) (op_id op).

(** The first loop of [add_operation] *)
Definition add_globals (op : OrdOpRef) (g : gmap GlobalStateType MemGlobalState)
    : P (gmap GlobalStateType MemGlobalState) :=
  try_fold (fun g '(ty, state) =>
    map ← expect_P (g !! ty) "global map must be initialized from the schema";
    known' ← try_fold (fun m '(idx, s) =>
        expect_P (insert_confined LARGE (global_out op idx) s m)
          "contract global state exceeded 2^32 items, which is unrealistic")
      (known map) (imap (fun idx s => (idx, s)) state);
    mret (<[ty := mkMemGlobal known' (mg_limit map)]> g)) g (entries (op_globals op)).

(** [MemContractState::add_operation] *)
Definition add_operation (op : OrdOpRef) (c : MemContractState) : P MemContractState :=
  g ← add_globals op (mcs_global c);
  let c := with_global g c in
  match op_assignments op with
  | AR_Genesis assignments => add_assignments (op_bundle_id op) (op_witness_id op) (op_id op) assignments c
  | AR_Graph assignments => add_assignments (op_bundle_id op) (op_witness_id op) (op_id op) assignments c
  end.

End add_operation.

(** ** The view of a contract *)

Record MemContract := mkMemContract {
  mc_filter : gmap Txid WitnessOrd;
  mc_invalid_bundles : gset BundleId;
  mc_unfiltered : MemContractState;
}.

(** The order of [GlobalStateEntry], and of the bytes of its data *)
Fixpoint bytes_cmp (a b : list Z) : comparison :=
  match a, b with
  | [], [] => Eq
  | [], _ :: _ => Lt
  | _ :: _, [] => Gt
  | x :: a, y :: b => then_cmp (x ?= y) (bytes_cmp a b)
  end.
Definition entry_cmp (a b : GlobalStateEntry) : P comparison :=
  c ← global_cmp (entry_ord a) (entry_ord b); mret (then_cmp c (bytes_cmp (entry_data a) (entry_data b))).

(** [slice::sort]: stable, and the comparison can panic *)
Fixpoint insert_entry (e : GlobalStateEntry) (l : list GlobalStateEntry) : P (list GlobalStateEntry) :=
  match l with
  | [] => mret [e]
  | x :: l' =>
      c ← entry_cmp e x;
      match c with Gt => l'' ← insert_entry e l'; mret (x :: l'') | _ => mret (e :: l) end
  end.
Fixpoint sort_entries (l : list GlobalStateEntry) : P (list GlobalStateEntry) :=
  match l with [] => mret [] | e :: l' => s ← sort_entries l'; insert_entry e s end.

(** [MemGlobalStateAccess::new] *)
Definition global_access_new (items : list (GlobalOrd * RevealedData)) (limit : Z) : P (list GlobalStateEntry) :=
  values ← sort_entries (map (fun '(ord, data) => mkEntry ord data) (take (Z.to_nat limit) items));
  mret (rev values).

(** The closure of [ContractStateAccess::global] *)
Definition global_item (filter : gmap Txid WitnessOrd) (x : GlobalOut * RevealedData) : option (GlobalOrd * RevealedData) :=
  let '(out, data) := x in
  ord ← match gout_op_witness out with
    | OW_Genesis => Some (ord_genesis (gout_index out))
    | OW_Transition id ty =>
        ord ← filter !! id; Some (ord_transition (gout_opid out) (gout_index out) ty (gout_nonce out) ord)
    end;
  Some (ord, data).

(** [ContractStateAccess for MemContract]; [None] is [UnknownGlobalStateType] *)
Definition mem_global (c : MemContract) (ty : GlobalStateType) : P (option (list GlobalStateEntry)) :=
  match mcs_global (mc_unfiltered c) !! ty with
  | None => mret None
  | Some state =>
      l ← global_access_new (omap (global_item (mc_filter c)) (rev (sorted_by out_cmp (known state)))) (mg_limit state);
      mret (Some l)
  end.

(** [rights_all], [fungible_all], [data_all] *)
Definition visible {State} (c : MemContract) (a : OutputAssignment State) : bool :=
  check_witness a (mc_filter c) && check_bundle a (mc_invalid_bundles c).
Definition all_visible {State} (c : MemContract) (set : AssignedSet State) : list (OutputAssignment State) :=
  base.filter (fun a => visible c a = true) (assigned_list set).

Definition assigned_to {State} (outpoint : Outpoint) (ty : AssignmentType) (a : OutputAssignment State) : bool :=
  bool_decide (oa_seal a = outpoint) && (opout_ty (oa_opout a) =? ty).
Definition read_at {State} (c : MemContract) (set : AssignedSet State) (outpoint : Outpoint) (ty : AssignmentType)
    : list State :=
  oa_state <$> base.filter (fun a => visible c a = true)
                 (base.filter (fun a => assigned_to outpoint ty a = true) (assigned_list set)).

Definition mem_rights (c : MemContract) (outpoint : Outpoint) (ty : AssignmentType) : Z :=
  Z.of_nat (length (read_at c (mcs_rights (mc_unfiltered c)) outpoint ty)) mod 2 ^ 32.
Definition mem_fungible (c : MemContract) (outpoint : Outpoint) (ty : AssignmentType) : list FungibleState :=
  read_at c (mcs_fungibles (mc_unfiltered c)) outpoint ty.
Definition mem_data (c : MemContract) (outpoint : Outpoint) (ty : AssignmentType) : list RevealedData :=
  read_at c (mcs_data (mc_unfiltered c)) outpoint ty.

(** The validator reads the state through the trait.  The comparison of positions panics
    on a timestamp that is not positive; [WitnessPos] is made with positive ones only
    ([pos_bitcoin], [pos_liquid]), and then [global_newest_first] shows that reading does not
    panic. *)
#[export] Instance mem_access : ContractStateAccess MemContract := {|
  cs_global c ty := match mem_global c ty with Ok g => g | Err _ => None end;
  cs_rights := mem_rights;
  cs_fungible := mem_fungible;
  cs_data := mem_data |}.

(** ** Writing *)

Section evolve.
Context `{OperationIds}.

(** [MemContract::init] *)
Definition mem_init `{ContainerIds} (s : Schema) (contract_id : ContractId) : MemContract :=
  mkMemContract ∅ ∅ (mem_contract_new s contract_id).

(** [evolve_state] with the writer of [MemContract], whose filter is an unbounded hash
    map; [add_genesis] and [add_transition] of [MemContractWriter] are inlined. *)
Definition mem_evolve (op : OrdOpRef) (c : MemContract) : MemContract * result StateFault unit :=
  let filter := match op with
    | Op_Genesis _ => mc_filter c
    | Op_Transition _ witness_id ord _ => <[witness_id := ord]> (mc_filter c)
    end in
  match add_operation op (mc_unfiltered c) with
  | Ok u => (mkMemContract filter (mc_invalid_bundles c) u, Ok tt)
  | Err p => (mkMemContract filter (mc_invalid_bundles c) (mc_unfiltered c), Err (StatePanics p))
  end.

#[export] Instance mem_state_evolve : ContractStateEvolve MemContract := mem_evolve.

End evolve.

(** ** The contracts of a stock *)

Record MemState := mkMemState {
  ms_witnesses : gmap Txid WitnessOrd;
  ms_invalid_bundles : gset BundleId;
  ms_contracts : gmap ContractId MemContractState;
}.

Inductive StateInconsistency := UnknownContract (id : ContractId) | AbsentWitness (id : Txid).
(** [StateError] of an in-memory state: the write provider fails when a collection is full. *)
Inductive StateError :=
| SE_Inconsistency (e : StateInconsistency)
| SE_AbsentValidWitness
| SE_Resolver (id : Txid) (e : WitnessResolverError)
| SE_Oversize
| SE_Panic (p : panic).

Definition set_any {State} (p : OutputAssignment State -> bool) (set : AssignedSet State) : bool :=
  existsb p (assigned_list set).

(** Whether a contract has state of a witness *)
Definition has_witness (u : MemContractState) (id : Txid) : bool :=
  existsb (fun '(_, state) => existsb (fun '(out, _) => bool_decide (ow_witness_id (gout_op_witness out) = Some id))
                                (map_to_list (known state))) (map_to_list (mcs_global u))
  || set_any (fun a => bool_decide (oa_witness a = Some id)) (mcs_rights u)
  || set_any (fun a => bool_decide (oa_witness a = Some id)) (mcs_fungibles u)
  || set_any (fun a => bool_decide (oa_witness a = Some id)) (mcs_data u).

(** [StateReadProvider::contract_state] *)
Definition contract_state (ms : MemState) (contract_id : ContractId) : result StateInconsistency MemContract :=
  unfiltered ← ok_or (ms_contracts ms !! contract_id) (UnknownContract contract_id);
  let filter := base.filter (fun '(id, _) => has_witness unfiltered id = true) (ms_witnesses ms) in
  mret (mkMemContract filter (ms_invalid_bundles ms) unfiltered).

(** The writer of [MemState] for one contract; the state after an error is what was
    written before it. *)
Definition upsert_witness (id : Txid) (ord : WitnessOrd) : SE MemState StateError unit := fun ms =>
  match insert_confined LARGE id ord (ms_witnesses ms) with
  | Some w => (mkMemState w (ms_invalid_bundles ms) (ms_contracts ms), Ok tt)
  | None => (ms, Err SE_Oversize)
  end.

(** [update_bundle] *)
Definition update_bundle (id : BundleId) (valid : bool) : SE MemState StateError unit := fun ms =>
  if valid then (mkMemState (ms_witnesses ms) (ms_invalid_bundles ms ∖ {[ id ]}) (ms_contracts ms), Ok tt)
  else if Z.of_nat (size (ms_invalid_bundles ms)) <? LARGE
  then (mkMemState (ms_witnesses ms) ({[ id ]} ∪ ms_invalid_bundles ms) (ms_contracts ms), Ok tt)
  else (ms, Err SE_Oversize).

Section contracts.
Context `{OperationIds} `{ContainerIds}.

(** The writer adds an operation to the contract that it borrows. *)
Definition write_operation (contract_id : ContractId) (op : OrdOpRef) : SE MemState StateError unit := fun ms =>
  match ms_contracts ms !! contract_id with
  | None => (ms, Err (SE_Inconsistency (UnknownContract contract_id)))
  | Some c => match add_operation op c with
              | Ok c' => (mkMemState (ms_witnesses ms) (ms_invalid_bundles ms) (<[contract_id := c']> (ms_contracts ms)), Ok tt)
              | Err p => (ms, Err (SE_Panic p))
              end
  end.

(** [register_contract] *)
Definition register_contract (s : Schema) (genesis : Genesis) : SE MemState StateError unit :=
  let contract_id := genesis_id genesis in
  ms ← get;
  match ms_contracts ms !! contract_id with
  | Some _ => mret tt
  | None => match insert_confined SMALL contract_id (mem_contract_new s contract_id) (ms_contracts ms) with
            | Some cs => put (mkMemState (ms_witnesses ms) (ms_invalid_bundles ms) cs)
            | None => fail SE_Oversize
            end
  end ;;
  write_operation contract_id (Op_Genesis genesis).

(** [MemContractWriter::add_transition] *)
Definition add_transition (contract_id : ContractId) (t : Transition) (witness_id : Txid) (ord : WitnessOrd)
    (bundle_id : BundleId) : SE MemState StateError unit :=
  upsert_witness witness_id ord ;;
  write_operation contract_id (Op_Transition t witness_id ord bundle_id).

(** ** The state of a stock (persistence/state.rs) *)

(** [State::select_valid_witness]: the candidate with the least order; comparing two
    mined positions can panic. *)
Fixpoint best_witness (witnesses : gmap Txid WitnessOrd) (ids : list Txid) (best : option (Txid * WitnessOrd))
    : result StateError (option (Txid * WitnessOrd)) :=
  match ids with
  | [] => Ok best
  | id :: ids' =>
      ord ← ok_or (witnesses !! id) (SE_Inconsistency (AbsentWitness id));
      best' ← match best with
        | None => Ok (Some (id, ord))
        | Some (_, curr_ord) =>
            c ← map_err SE_Panic (witness_cmp ord curr_ord);
            Ok (match c with Lt => Some (id, ord) | _ => best end)
        end;
      best_witness witnesses ids' best'
  end.
Definition select_valid_witness (ms : MemState) (witness_ids : list Txid) : result StateError (Txid * WitnessOrd) :=
  best ← best_witness (ms_witnesses ms) witness_ids None;
  '(best_id, best_ord) ← ok_or best (SE_Panic (Abort "one witness ID should always be there"));
  if decide (best_ord = Archived) then Err SE_AbsentValidWitness else Ok (best_id, best_ord).

(** [State::update_from_bundle] *)
Definition update_from_bundle (contract_id : ContractId) (bundle : TransitionBundle) (witness_id : Txid)
    (witness_ord : Txid -> result WitnessResolverError WitnessOrd) : SE MemState StateError unit :=
  ms ← get;
  lift (ok_or (ms_contracts ms !! contract_id) (SE_Inconsistency (UnknownContract contract_id))) ;;
  for_each (known_transitions bundle) (fun k =>
    ord ← lift (map_err (SE_Resolver witness_id) (witness_ord witness_id));
    add_transition contract_id (kt_transition k) witness_id ord (bundle_id bundle)).

(** [State::update_from_consignment]: a bundle comes with the identifier of its witness. *)
Definition update_from_consignment `{BitcoinTx} (s : Schema) (genesis : Genesis) (bundles : list (TransitionBundle * Txid))
    (resolver : ResolveWitness) : SE MemState StateError unit :=
  register_contract s genesis ;;
  for_each bundles (fun '(bundle, witness_id) =>
    for_each (known_transitions bundle) (fun k =>
      witness_status ← lift (map_err (SE_Resolver witness_id) (inner_resolve resolver witness_id));
      add_transition (genesis_id genesis) (kt_transition k) witness_id (status_witness_ord witness_status)
        (bundle_id bundle))).

End contracts.

(** ** States that are merged for a validation *)

(** [MemContract::merge_mem_state_witnesses] *)
Definition merge_mem_state_witnesses (ms : MemState) (c : MemContract) : MemContract :=
  mkMemContract (ms_witnesses ms ∪ mc_filter c) (mc_invalid_bundles c) (mc_unfiltered c).

(** [insert(..).ok()] and [push(..).ok()] leave a full collection as it is. *)
Definition merge_known (extra target : gmap GlobalOut RevealedData) : gmap GlobalOut RevealedData :=
  foldl (fun m '(out, data) => default m (insert_confined LARGE out data m)) target (sorted_by out_cmp extra).
Definition merge_set {State} (extra target : AssignedSet State) : AssignedSet State :=
  foldl (fun s a => default s (push_assigned a s)) target (assigned_list extra).

(** [MemContract::merge_contract_read] *)
Definition merge_contract_read (extra c : MemContract) : P MemContract :=
  let e := mc_unfiltered extra in
  let u := mc_unfiltered c in
  g ← try_fold (fun g '(ty, global_state) =>
        target_state ← expect_P (g !! ty) "global map must be initialized from the schema";
        mret (<[ty := mkMemGlobal (merge_known (known global_state) (known target_state)) (mg_limit target_state)]> g))
      (mcs_global u) (entries (mcs_global e));
  mret (mkMemContract (mc_filter extra ∪ mc_filter c) (mc_invalid_bundles c ∪ mc_invalid_bundles extra)
    (mkMemContractState (mcs_schema_id u) (mcs_contract_id u) g (merge_set (mcs_rights e) (mcs_rights u))
       (merge_set (mcs_fungibles e) (mcs_fungibles u)) (merge_set (mcs_data e) (mcs_data u)))).

(** [ConsignmentValidatorState::init] *)
Definition consignment_state_init `{ContainerIds} (s : Schema) (contract_id : ContractId)
    (extra_states : option (list (list MemState))) : P MemContract :=
  try_fold (fun c ms =>
    let c := merge_mem_state_witnesses ms c in
    match contract_state ms contract_id with
    | Ok extra_contract => merge_contract_read extra_contract c
    | Err _ => mret c
    end) (mem_init s contract_id) (concat (default [] extra_states)).
