(* ===== verification/OpsHistory.v ===== *)
(** * rgb-ops: what the state in memory shows of a history

    The operations that a contract state takes, and what is read back: the state that
    visible operations assign to an output, the filter of a contract in a stock, and the
    order of the global state. *)

From S2P Require Import Prelude Layer1 AluReg AluNumber AluCursor AluInstr AluBytecode AluLib AluRegs AluExec AluShift AluFrame AluProgress AluVm RgbTypes RgbOrder RgbSchema RgbIsa RgbLogic RgbValidator OpsState.
Local Open Scope Z_scope.

(** ** Confined collections *)

Lemma insert_confined_Some `{Countable K} {A} max (k : K) (v : A) m m' :
  insert_confined max k v m = Some m' -> m' = <[k := v]> m.
Proof. unfold insert_confined. case_match; naive_solver. Qed.

Lemma expect_P_Ok {A} (o : option A) why a : expect_P o why = Ok a <-> o = Some a.
Proof. apply ok_or_Ok. Qed.

(** A set with the elements of a list pushed, that keeps what it has *)
Definition push_set `{Countable K} {A} (key : A -> K) (m : gmap K A) (a : A) : gmap K A :=
  match m !! key a with Some _ => m | None => <[key a := a]> m end.

Section pushes.
Context `{Countable K} {A : Type} (key : A -> K).
Implicit Types m : gmap K A.

Lemma push_set_size m a : (size (push_set key m a) <= S (size m))%nat.
Proof. unfold push_set. destruct (m !! key a) eqn:E; [lia|]. rewrite map_size_insert_None by done. lia. Qed.

(** Elements with keys of their own are all kept. *)
Lemma pushes_perm l m : NoDup (key <$> l) -> (forall a, a ∈ l -> m !! key a = None) ->
  (map_to_list (foldl (push_set key) m l)).*2 ≡ₚ (map_to_list m).*2 ++ l.
Proof.
  revert m. induction l as [|a l IH]; intros m Hd Hm; cbn; [by rewrite app_nil_r|].
  cbn in Hd. apply NoDup_cons in Hd as [Ha Hd].
  assert (push_set key m a = <[key a := a]> m) as Ep. { unfold push_set. by rewrite (Hm a) by (by left). }
  rewrite IH.
  - rewrite Ep, map_to_list_insert by (apply Hm; by left). cbn. by rewrite Permutation_middle.
  - done.
  - intros b Hb. rewrite Ep, lookup_insert_ne; [by apply Hm; right|].
    intros E. apply Ha. rewrite E. by apply list_elem_of_fmap_2.
Qed.

Lemma pushes_lookup l m k : foldl (push_set key) m l !! k =
  match m !! k with Some a => Some a | None => list_find (fun a => key a = k) l ≫= fun x => Some x.2 end.
Proof.
  revert m. induction l as [|a l IH]; intros m; cbn; [by destruct (m !! k)|].
  rewrite IH. unfold push_set. destruct (m !! key a) eqn:E.
  - destruct (m !! k) eqn:Ek; [done|]. rewrite decide_False by congruence. by destruct (list_find _ l) as [[]|].
  - destruct (decide (key a = k)) as [<-|Hk]; [by rewrite lookup_insert_eq, E|].
    rewrite lookup_insert_ne by done. destruct (m !! k); [done|]. by destruct (list_find _ l) as [[]|].
Qed.

End pushes.

(** ** What an operation assigns *)

Definition oa_key {State} (a : OutputAssignment State) : Opout * Outpoint := (oa_opout a, oa_seal a).

(** The output of a seal, when the operation has the witness [w] *)
Definition resolve_seal `{TxoSeal Seal} (w : option Txid) (seal : Seal) : option Outpoint :=
  match w with Some w => Some (to_output_seal_or_default seal w) | None => seal_outpoint seal end.

Section assigned.
Context `{TxoSeal Seal} (bundle_id : option BundleId) (opid : OpId) (w : option Txid).

Definition assigned_one {State} (ty : AssignmentType) (no : nat) (a : Assign Seal State) : option (OutputAssignment State) :=
  '(seal, state) ← as_revealed a; o ← resolve_seal w seal;
  Some (mkOutputAssignment (mkOpout opid ty (Z.of_nat no mod 65536)) o state w bundle_id).

Fixpoint assigned_from {State} (ty : AssignmentType) (no : nat) (l : list (Assign Seal State)) : list (OutputAssignment State) :=
  match l with [] => [] | a :: l' => option_list (assigned_one ty no a) ++ assigned_from ty (S no) l' end.

(** Every revealed seal has an output. *)
Definition resolved : Prop := forall seal : Seal, is_Some (resolve_seal w seal).

Lemma process_Ok {State} (l : list (Assign Seal State)) ty set no set' :
  process set no l bundle_id opid ty w = Ok set' -> set' = foldl (push_set oa_key) set (assigned_from ty no l).
Proof.
  revert set no. induction l as [|a l IH]; intros set no; cbn [process assigned_from foldl]; [by intros [= ->]|].
  rewrite foldl_app, result_bind_Ok. intros (s1 & H1 & ->%IH). f_equal. unfold assigned_one.
  destruct (as_revealed a) as [[seal state]|]; cbn in *; [|by injection H1 as ->].
  apply result_bind_Ok in H1 as (x & Hx & Hp). apply expect_P_Ok in Hp. unfold push_assigned, push_confined in Hp.
  case_match; [|done]. injection Hp as <-.
  assert (resolve_seal w seal = Some (oa_seal x) /\
          x = mkOutputAssignment (mkOpout opid ty (Z.of_nat no mod 65536)) (oa_seal x) state w bundle_id) as [-> Ex].
  { destruct w as [w'|]; [by injection Hx as <-|]. unfold with_no_witness in Hx. cbn in *.
    apply result_bind_Ok in Hx as (o & Ho%expect_P_Ok & [= <-]). by rewrite Ho. }
  cbn. rewrite <- Ex. reflexivity.
Qed.

Lemma process_total {State} (l : list (Assign Seal State)) ty set no : resolved ->
  Z.of_nat (size set) + Z.of_nat (length l) <= LARGE -> is_ok (process set no l bundle_id opid ty w).
Proof.
  intros Hr. revert set no. induction l as [|a l IH]; intros set no Hs; cbn [process]; [by eexists|].
  cbn [length] in Hs. destruct (as_revealed a) as [[seal state]|]; cbn.
  2: { apply IH. lia. }
  destruct (Hr seal) as [o Ho]. unfold resolve_seal in Ho.
  assert (exists x : OutputAssignment State, match w with
    | Some w => mret (with_witness seal w state bundle_id opid ty (Z.of_nat no mod 65536))
    | None => with_no_witness seal state bundle_id opid ty (Z.of_nat no mod 65536) end = Ok x) as [x Hx].
  { destruct w; [by eexists|]. unfold with_no_witness. rewrite Ho. by eexists. }
  rewrite Hx. cbn. unfold push_assigned, push_confined. rewrite (proj2 (Z.ltb_lt _ _)) by lia. cbn.
  apply IH. pose proof (push_set_size oa_key set x) as Hp.
  match goal with |- Z.of_nat (size ?m) + _ <= _ => change (push_set oa_key set x) with m in Hp end. lia.
Qed.

End assigned.

Definition sel_rights {Seal} (a : TypedAssigns Seal) : list (Assign Seal unit) :=
  match a with Declarative l => l | _ => [] end.
Definition sel_fungibles {Seal} (a : TypedAssigns Seal) : list (Assign Seal RevealedValue) :=
  match a with Fungible l => l | _ => [] end.
Definition sel_data {Seal} (a : TypedAssigns Seal) : list (Assign Seal RevealedData) :=
  match a with Structured l => l | _ => [] end.

Section assigned_by.
Context `{TxoSeal Seal} (bundle_id : option BundleId) (opid : OpId) (w : option Txid).

Definition assigned_in {State} (sel : TypedAssigns Seal -> list (Assign Seal State)) (l : list (AssignmentType * TypedAssigns Seal))
    : list (OutputAssignment State) :=
  '(ty, a) ← l; assigned_from bundle_id opid w ty 0 (sel a).

(** The state after the assignments of [l] *)
Definition assigned_state (l : list (AssignmentType * TypedAssigns Seal)) (c : MemContractState) : MemContractState :=
  mkMemContractState (mcs_schema_id c) (mcs_contract_id c) (mcs_global c)
    (foldl (push_set oa_key) (mcs_rights c) (assigned_in sel_rights l))
    (foldl (push_set oa_key) (mcs_fungibles c) (assigned_in sel_fungibles l))
    (foldl (push_set oa_key) (mcs_data c) (assigned_in sel_data l)).

Lemma add_assignments_Ok (assignments : Assignments Seal) c c' :
  add_assignments bundle_id w opid assignments c = Ok c' -> c' = assigned_state (entries assignments) c.
Proof.
  unfold add_assignments. generalize (entries assignments) as l. intros l. revert c.
  induction l as [|[ty a] l IH]; intros c; cbn [try_fold].
  { intros [= <-]. unfold assigned_state. cbn. by destruct c. }
  rewrite result_bind_Ok. intros (c1 & H1 & ->%IH). unfold assigned_state, assigned_in.
  destruct a; apply result_bind_Ok in H1 as (s & Hs%process_Ok & [= <-]); cbn;
    by rewrite ?foldl_app, Hs.
Qed.

(** The number of assignments *)
Definition assigned_count (l : list (AssignmentType * TypedAssigns Seal)) : Z :=
  foldr (fun x n => len_u16 x.2 + n) 0 l.

Lemma add_assignments_total (assignments : Assignments Seal) c : resolved (Seal := Seal) w ->
  let n := assigned_count (entries assignments) in
  Z.of_nat (size (mcs_rights c)) + n <= LARGE -> Z.of_nat (size (mcs_fungibles c)) + n <= LARGE ->
  Z.of_nat (size (mcs_data c)) + n <= LARGE -> is_ok (add_assignments bundle_id w opid assignments c).
Proof.
  intros Hr. unfold add_assignments. generalize (entries assignments) as l. intros l. cbv zeta. revert c.
  assert (forall l, 0 <= assigned_count l) as Hpos.
  { unfold assigned_count. induction l0 as [|[ty []] l0 IH]; cbn [foldr snd len_u16]; lia. }
  induction l as [|[ty a] l IH]; intros c H1 H2 H3; cbn [try_fold]; [done|].
  assert (forall State (l0 : list (Assign Seal State)) set, Z.of_nat (size set) + Z.of_nat (length l0) + assigned_count l <= LARGE ->
    exists s, process set 0 l0 bundle_id opid ty w = Ok s /\ Z.of_nat (size s) + assigned_count l <= LARGE) as Hp.
  { intros State l0 set Hs. pose proof (process_total bundle_id opid w l0 ty set 0 Hr) as Ht.
    destruct (process _ _ _ _ _ _ _) as [s|] eqn:E; [|exfalso; apply Ht; specialize (Hpos l); lia].
    exists s. split; [done|]. apply process_Ok in E as ->.
    assert (size (foldl (push_set oa_key) set (assigned_from bundle_id opid w ty 0 l0)) <= size set + length l0)%nat; [|lia].
    clear. generalize 0%nat as no. revert set. induction l0 as [|a l0 IH]; intros set no; cbn; [lia|]. rewrite foldl_app.
    specialize (IH (foldl (push_set oa_key) set (option_list (assigned_one bundle_id opid w ty no a))) (S no)).
    assert (size (foldl (push_set oa_key) set (option_list (assigned_one bundle_id opid w ty no a))) <= S (size set))%nat; [|lia].
    destruct (assigned_one _ _ _ _ _ _); cbn; [apply push_set_size|lia]. }
  specialize (Hpos l). unfold assigned_count in *. cbn [foldr snd] in *.
  destruct a as [l0|l0|l0]; cbn [len_u16] in *;
    [destruct (Hp _ l0 (mcs_rights c)) as (s & -> & Hs)|destruct (Hp _ l0 (mcs_fungibles c)) as (s & -> & Hs)
    |destruct (Hp _ l0 (mcs_data c)) as (s & -> & Hs)]; try lia; cbn; apply IH; cbn; lia.
Qed.

End assigned_by.

(** ** What an operation adds to the global state *)

Section globals.
Context `{OperationIds} (op : OrdOpRef).

Definition known_with (state : list RevealedData) (m : gmap GlobalOut RevealedData) : gmap GlobalOut RevealedData :=
  foldl (fun m x => <[global_out op x.1 := x.2]> m) m (imap (fun idx s => (idx, s)) state).

Definition global_with (state : list RevealedData) (m : MemGlobalState) : MemGlobalState :=
  mkMemGlobal (known_with state (known m)) (mg_limit m).

Lemma insert_all_Ok (l : list (nat * RevealedData)) m m' why :
  try_fold (fun m '(idx, s) => expect_P (insert_confined LARGE (global_out op idx) s m) why) m l = Ok m' ->
  m' = foldl (fun m x => <[global_out op x.1 := x.2]> m) m l.
Proof.
  revert m. induction l as [|[idx s] l IH]; intros m; cbn; [by intros [= ->]|].
  rewrite result_bind_Ok. by intros (m1 & ->%expect_P_Ok%insert_confined_Some & ->%IH).
Qed.

Lemma insert_all_total (l : list (nat * RevealedData)) m why : Z.of_nat (size m) + Z.of_nat (length l) <= LARGE ->
  is_ok (try_fold (fun m '(idx, s) => expect_P (insert_confined LARGE (global_out op idx) s m) why) m l).
Proof.
  revert m. induction l as [|[idx s] l IH]; intros m; cbn [try_fold length]; [done|]. intros Hs.
  assert (insert_confined LARGE (global_out op idx) s m = Some (<[global_out op idx := s]> m)) as ->.
  { unfold insert_confined. by rewrite (proj2 (Z.ltb_lt _ _)) by lia. }
  apply IH.
  assert (size (<[global_out op idx := s]> m) <= S (size m))%nat; [|lia].
  destruct (m !! global_out op idx) as [x|] eqn:E; [rewrite map_size_insert_Some by done|rewrite map_size_insert_None by done]; lia.
Qed.

Definition global_round (g : gmap GlobalStateType MemGlobalState) (x : GlobalStateType * list RevealedData) :=
  let '(ty, state) := x in
  map ← expect_P (g !! ty) "global map must be initialized from the schema";
  known' ← try_fold (fun m '(idx, s) =>
      expect_P (insert_confined LARGE (global_out op idx) s m)
        "contract global state exceeded 2^32 items, which is unrealistic")
    (known map) (imap (fun idx s => (idx, s)) state);
  mret (M := P) (<[ty := mkMemGlobal known' (mg_limit map)]> g).

Lemma global_rounds_Ok l g g' : NoDup l.*1 -> try_fold global_round g l = Ok g' -> forall ty,
  g' !! ty = match list_to_map (M := gmap _ _) l !! ty with
             | Some state => global_with state <$> g !! ty | None => g !! ty end.
Proof.
  revert g. induction l as [|[ty0 state] l IH]; intros g; [by intros _ [= ->]|]. cbn [fmap list_fmap fst].
  intros [Hty Hd]%NoDup_cons. cbn [try_fold]. rewrite result_bind_Ok. intros (g1 & H1 & Hr) ty. rewrite (IH g1 Hd Hr).
  cbn [global_round] in H1. apply result_bind_Ok in H1 as (m & Hm%expect_P_Ok & H1).
  apply result_bind_Ok in H1 as (k & ->%insert_all_Ok & [= <-]). cbn [list_to_map foldr fst snd].
  assert (list_to_map (M := gmap _ _) l !! ty0 = None) as Hn by (by apply not_elem_of_list_to_map_1).
  destruct (decide (ty = ty0)) as [->|Hne]; [by rewrite Hn, !lookup_insert_eq, Hm|]. by rewrite !lookup_insert_ne.
Qed.

End globals.

(** ** Taking an operation *)

Definition op_count (op : OrdOpRef) : Z :=
  match op_assignments op with AR_Genesis a => assigned_count (entries a) | AR_Graph a => assigned_count (entries a) end.

(** There is room for the operation: no collection would exceed 2^32 - 1 items. *)
Record has_room (op : OrdOpRef) (u : MemContractState) : Prop := mkHasRoom {
  room_global : forall ty l m, op_globals op !! ty = Some l -> mcs_global u !! ty = Some m ->
    Z.of_nat (size (known m)) + Z.of_nat (length l) <= LARGE;
  room_rights : Z.of_nat (size (mcs_rights u)) + op_count op <= LARGE;
  room_fungibles : Z.of_nat (size (mcs_fungibles u)) + op_count op <= LARGE;
  room_data : Z.of_nat (size (mcs_data u)) + op_count op <= LARGE;
}.

Section add.
Context `{OperationIds}.

Lemma global_rounds_total op l g : NoDup l.*1 ->
  (forall ty state, (ty, state) ∈ l -> exists m, g !! ty = Some m /\ Z.of_nat (size (known m)) + Z.of_nat (length state) <= LARGE) ->
  is_ok (try_fold (global_round op) g l).
Proof.
  revert g. induction l as [|[ty state] l IH]; intros g; [done|]. cbn [fmap list_fmap fst try_fold].
  intros [Hty Hd]%NoDup_cons Hg. destruct (Hg ty state) as (m & Hm & Hs); [by left|]. cbn [global_round]. rewrite Hm. cbn.
  pose proof (insert_all_total op (imap (fun idx s => (idx, s)) state) (known m)
    "contract global state exceeded 2^32 items, which is unrealistic") as Ht.
  rewrite length_imap in Ht. specialize (Ht Hs).
  destruct (try_fold _ (known m) _) as [k|]; [|done]. cbn. apply IH; [done|].
  intros ty' state' Hin. assert (ty' <> ty) as Hne. { intros ->. apply Hty. apply list_elem_of_fmap. by exists (ty, state'). }
  rewrite lookup_insert_ne by done. apply Hg. by right.
Qed.

(** The types of the global state stay, with their limits. *)
Definition same_globals (g g' : gmap GlobalStateType MemGlobalState) : Prop :=
  forall ty, mg_limit <$> g' !! ty = mg_limit <$> g !! ty.

Lemma add_globals_Ok op g g' : add_globals op g = Ok g' -> forall ty,
  g' !! ty = match op_globals op !! ty with Some state => global_with op state <$> g !! ty | None => g !! ty end.
Proof.
  intros Hg ty. rewrite (global_rounds_Ok op (entries (op_globals op)) g g'); [|apply entries_NoDup|exact Hg].
  by rewrite list_to_map_entries.
Qed.

Definition op_written (op : OrdOpRef) (c : MemContractState) : MemContractState :=
  match op_assignments op with
  | AR_Genesis a => assigned_state (op_bundle_id op) (op_id op) (op_witness_id op) (entries a) c
  | AR_Graph a => assigned_state (op_bundle_id op) (op_id op) (op_witness_id op) (entries a) c
  end.

Lemma add_operation_Ok op c c' : add_operation op c = Ok c' ->
  exists g, add_globals op (mcs_global c) = Ok g /\ c' = op_written op (with_global g c).
Proof.
  unfold add_operation, op_written. rewrite result_bind_Ok. intros (g & Hg & Ha). exists g. split; [done|].
  destruct (op_assignments op); by apply add_assignments_Ok in Ha.
Qed.

Lemma op_written_global op c : mcs_global (op_written op c) = mcs_global c.
Proof. unfold op_written. by destruct (op_assignments op). Qed.

Lemma add_operation_total op c : has_room op c ->
  (forall ty, is_Some (op_globals op !! ty) -> is_Some (mcs_global c !! ty)) -> is_ok (add_operation op c).
Proof.
  intros [Hg Hr Hf Hd] Hty. unfold add_operation.
  pose proof (global_rounds_total op (entries (op_globals op)) (mcs_global c) (entries_NoDup _)) as Ht.
  change (try_fold (global_round op) (mcs_global c) (entries (op_globals op))) with (add_globals op (mcs_global c)) in Ht.
  destruct (add_globals op (mcs_global c)) as [g|].
  2: { apply Ht. intros ty state Hin%elem_of_entries. destruct (Hty ty) as [m Hm]; [by eexists|]. eauto. }
  cbn. unfold op_count in *. destruct op as [ge|t w ord b]; cbn [op_assignments] in *.
  - apply add_assignments_total; cbn; [|done..]. intros seal. by eexists.
  - apply add_assignments_total; cbn; [|done..]. intros seal. by eexists.
Qed.

Lemma add_operation_globals op c c' ty : add_operation op c = Ok c' ->
  is_Some (mcs_global c' !! ty) <-> is_Some (mcs_global c !! ty).
Proof.
  intros (g & Hg & ->)%add_operation_Ok. rewrite op_written_global. cbn. rewrite (add_globals_Ok _ _ _ Hg).
  destruct (op_globals op !! ty); [|done]. by rewrite fmap_is_Some.
Qed.

End add.

(** The state has a map for each type of global state of the schema. *)
Definition mem_ok (s : Schema) (c : MemContract) : Prop :=
  forall ty, is_Some (mcs_global (mc_unfiltered c) !! ty) <-> is_Some (global_types s !! ty).

Lemma mem_init_ok `{ContainerIds} s id : mem_ok s (mem_init s id).
Proof. intros ty. cbn. rewrite lookup_fmap. by rewrite fmap_is_Some. Qed.

Lemma mem_evolve_ok `{OperationIds} s op c c' r : mem_ok s c -> mem_evolve op c = (c', r) -> mem_ok s c'.
Proof.
  intros Hc. unfold mem_evolve. destruct (add_operation op (mc_unfiltered c)) as [u|] eqn:E; intros [= <- <-]; [|exact Hc].
  intros ty. cbn. rewrite <- (Hc ty). by apply (add_operation_globals op).
Qed.

(** ** The validator on this state *)

Section validation.
Context (debug : bool) `{Wide} `{fs : Floats} `{Digests} `{Secp}.
Context `{TypeLibrary} `{OperationIds} `{Ecdsa}.
Context (hash_order : gset Z -> list Z) (hash_order_elements : forall s, hash_order s ≡ₚ elements s).
Context (lib_id : Lib -> string) (calls fuel : nat).

(** C12. With the contract state in memory, that the validator of a consignment is used
    with, the validation of an operation under a verified schema reaches no panic of the
    code: neither those of the checks nor those of the state, which has a map for each
    global type of the schema and keeps it.  When it panics, the script did, on an
    operation that satisfies the schema. *)
Theorem validation_panics_in_script s types types' scripts genesis op prev_state c c' r :
  operation_ok op prev_state -> verify s types' = Ok tt -> mem_ok s c -> has_room op (mc_unfiltered c) ->
  validate_state debug hash_order lib_id calls fuel s types scripts genesis op prev_state c = (c', r) ->
  mem_ok s c' /\ forall p, r = Err (Panicked p) ->
    c' = c /\ exists os site regs, structure_valid s types op prev_state os /\ os_validator os = Some site /\
      Vm_exec (A := Instr RgbIsa) (H0 := the_set debug) lib_id calls fuel (fun id => scripts !! id)
        (mkVmContext (genesis_id genesis) (mkOpInfo (op_id op) prev_state op) c) site (initial_regs op) = Some (regs, Err p).
Proof.
  intros Hop Hs Hc Hroom Hv. split.
  - clear - Hc Hv. revert Hv. unfold validate_state, mbind, SE_bind, lift, get.
    destruct (validate_structure _ _ _ _ _) as [os|e]; [|by intros [= <- _]].
    destruct (os_validator os) as [site|]; [|by intros [= <- _]].
    destruct (run_script _ _ _ _ _ _ _ _ _ _) as [[]|e]; [|by intros [= <- _]].
    unfold evolve. destruct (evolve_state op c) as [c1 r1] eqn:E. intros [= <- _]. by apply (mem_evolve_ok s op c c1 r1).
  - intros p ->. apply (validate_state_panics _ _ hash_order_elements) with (types' := types') in Hv; [|done..].
    destruct Hv as (os & site & Hos & Hsite & [[-> [regs Hr]]|He]); [eauto 10|exfalso].
    pose proof (add_operation_total op (mc_unfiltered c) Hroom) as Ht.
    unfold evolve_state, mem_state_evolve, mem_evolve in He.
    destruct (add_operation op (mc_unfiltered c)) as [u|]; [done|]. apply Ht. intros ty Hty.
    destruct Hos as [_ _ _ Hg Hg' _ _ _ _]. apply Hc. destruct (Hg ty Hty) as [occ Hocc].
    destruct (Hg' ty occ Hocc) as (d & Hd & _). by eexists.
Qed.

End validation.

(** ** Reading back what a history assigned *)

(** The state that an operation assigns to an output under a type, as the validator
    resolves its seals *)
Definition granted_in (a : TypedAssigns GraphSeal) (w : option Txid) (o : Outpoint) : list RevealedState :=
  omap (fun no => '(seal, st) ← to_revealed_assign_at a (Z.of_nat no) w;
                  if decide (to_outpoint seal = o) then Some st else None) (seq 0 (Z.to_nat (len_u16 a))).
Definition granted (op : OrdOpRef) (o : Outpoint) (ty : AssignmentType) : list RevealedState :=
  default [] ((fun a => granted_in a (op_witness_id op) o) <$> assignments_get (op_assignments op) ty).

Definition only_void (st : RevealedState) : option unit := match st with RS_Void => Some tt | _ => None end.
Definition only_fungible (st : RevealedState) : option RevealedValue := match st with RS_Fungible v => Some v | _ => None end.
Definition only_data (st : RevealedState) : option RevealedData := match st with RS_Structured d => Some d | _ => None end.

Lemma omap_seq {A B} (f : nat -> option B) (g : A -> option B) l k :
  (forall i x, l !! i = Some x -> f (k + i)%nat = g x) -> omap f (seq k (length l)) = omap g l.
Proof.
  revert k. induction l as [|a l IH]; intros k Hf; [done|]. pose proof (Hf 0%nat a eq_refl) as H0. rewrite Nat.add_0_r in H0.
  change (match f k with Some y => y :: omap f (seq (S k) (length l)) | None => omap f (seq (S k) (length l)) end =
          match g a with Some y => y :: omap g l | None => omap g l end).
  rewrite H0, (IH (S k)); [done|]. intros i x Hi. rewrite <- (Hf (S i) x Hi). f_equal. lia.
Qed.

(** The state of one kind, read from the list of assignments *)
Lemma granted_kind {State} (l : list (Assign GraphSeal State)) (a : TypedAssigns GraphSeal) w o (mk : State -> RevealedState) :
  len_u16 a = Z.of_nat (length l) ->
  (forall no, to_revealed_assign_at a (Z.of_nat no) w =
     '(seal, st) ← l !! no ≫= as_revealed; seal ← with_witness_id seal w; Some (seal, mk st)) ->
  granted_in a w o = omap (fun x => '(seal, st) ← as_revealed x; seal ← with_witness_id seal w;
    if decide (to_outpoint seal = o) then Some (mk st) else None) l.
Proof.
  intros Hl Ha. unfold granted_in. rewrite Hl, Nat2Z.id. apply omap_seq. intros i x Hi. rewrite Nat.add_0_l, Ha, Hi. cbn.
  destruct (as_revealed x) as [[seal st]|]; [|done]. cbn. by destruct (with_witness_id seal w).
Qed.

Lemma omap_omap {A B C} (f : B -> option C) (g : A -> option B) (l : list A) : omap f (omap g l) = omap (fun x => g x ≫= f) l.
Proof. induction l as [|x l IH]; [done|]. cbn. destruct (g x); cbn; by rewrite IH. Qed.
Lemma omap_same {A B} (f g : A -> option B) (l : list A) : (forall x, f x = g x) -> omap f l = omap g l.
Proof. intros E. apply list_omap_ext. by induction l; constructor. Qed.
Lemma omap_none {A B} (f : A -> option B) (l : list A) : (forall x, f x = None) -> omap f l = [].
Proof. intros E. induction l as [|x l IH]; [done|]. cbn. by rewrite E. Qed.

(** The state of an assignment, when its seal is on the output *)
Definition grant {State} `{TxoSeal Seal} (w : option Txid) (o : Outpoint) (x : Assign Seal State) : option State :=
  '(seal, st) ← as_revealed x; o' ← resolve_seal w seal; if decide (o' = o) then Some st else None.

Lemma resolve_graph w (seal : GraphSeal) : resolve_seal w seal = to_outpoint <$> with_witness_id seal w.
Proof. destruct seal as [[|txid] vout b], w; reflexivity. Qed.

Lemma granted_sel (a : TypedAssigns GraphSeal) w o :
  omap only_void (granted_in a w o) = omap (grant w o) (sel_rights a) /\
  omap only_fungible (granted_in a w o) = omap (grant w o) (sel_fungibles a) /\
  omap only_data (granted_in a w o) = omap (grant w o) (sel_data a).
Proof.
  assert (forall State (mk : State -> RevealedState) (only : RevealedState -> option State) (l : list (Assign GraphSeal State)),
    (forall st, only (mk st) = Some st) ->
    omap only (omap (fun x => '(seal, st) ← as_revealed x; seal ← with_witness_id seal w;
      if decide (to_outpoint seal = o) then Some (mk st) else None) l) = omap (grant w o) l) as Hsame.
  { intros State mk only l Hmk. rewrite omap_omap. apply omap_same. intros x. unfold grant.
    destruct (as_revealed x) as [[seal st]|]; [|done]. cbn. rewrite resolve_graph.
    destruct (with_witness_id seal w) as [s|]; [|done]. cbn. case_decide; [|done]. by cbn. }
  assert (forall State B (mk : State -> RevealedState) (only : RevealedState -> option B) (l : list (Assign GraphSeal State)),
    (forall st, only (mk st) = None) ->
    omap only (omap (fun x => '(seal, st) ← as_revealed x; seal ← with_witness_id seal w;
      if decide (to_outpoint seal = o) then Some (mk st) else None) l) = []) as Hnone.
  { intros State B mk only l Hmk. rewrite omap_omap. apply omap_none. intros x.
    destruct (as_revealed x) as [[seal st]|]; [|done]. cbn.
    destruct (with_witness_id seal w) as [s|]; [|done]. cbn. case_decide; [|done]. by cbn. }
  destruct a as [l|l|l].
  - rewrite (granted_kind l _ w o (fun _ => RS_Void)); [|done|].
    2: { intros no. cbn. rewrite Nat2Z.id. destruct (l !! no ≫= as_revealed) as [[]|]; done. }
    split_and!; [apply Hsame; by intros []|by apply Hnone..].
  - rewrite (granted_kind l _ w o RS_Fungible); [|done|].
    2: { intros no. cbn. rewrite Nat2Z.id. destruct (l !! no ≫= as_revealed) as [[]|]; done. }
    split_and!; [by apply Hnone|by apply Hsame|by apply Hnone].
  - rewrite (granted_kind l _ w o RS_Structured); [|done|].
    2: { intros no. cbn. rewrite Nat2Z.id. destruct (l !! no ≫= as_revealed) as [[]|]; done. }
    split_and!; [by apply Hnone..|by apply Hsame].
Qed.

Section op_assigned.
Context `{TxoSeal Seal} (bundle_id : option BundleId) (opid : OpId) (w : option Txid) (o : Outpoint) (ty : AssignmentType).

Lemma assigned_from_at {State} (l : list (Assign Seal State)) ty' no :
  oa_state <$> base.filter (fun a => assigned_to o ty a = true) (assigned_from bundle_id opid w ty' no l) =
  if decide (ty' = ty) then omap (grant w o) l else [].
Proof.
  revert no. induction l as [|x l IH]; intros no; [by destruct (decide _)|].
  cbn [assigned_from]. rewrite filter_app, fmap_app, IH. clear IH.
  assert (oa_state <$> base.filter (fun a => assigned_to o ty a = true) (option_list (assigned_one bundle_id opid w ty' no x)) =
          if decide (ty' = ty) then option_list (grant w o x) else []) as ->.
  { unfold assigned_one, grant. destruct (as_revealed x) as [[seal st]|]; cbn [mbind option_bind]; [|by case_decide].
    destruct (resolve_seal w seal) as [o'|]; cbn [option_list from_option mbind option_bind]; [|by case_decide]. match goal with |- context [option_list (Some ?x)] => change (option_list (Some x)) with [x] end.
    rewrite filter_cons, filter_nil.
    destruct (decide (assigned_to _ _ _ = true)) as [Ha|Ha]; unfold assigned_to in Ha; cbn in Ha;
      rewrite andb_true_iff, bool_decide_eq_true, Z.eqb_eq in Ha.
    - destruct Ha as [-> ->]. by rewrite !decide_True.
    - destruct (decide (ty' = ty)); [|done]. by rewrite decide_False by naive_solver. }
  case_decide; [|done]. change (omap (grant w o) (x :: l)) with
    (match grant w o x with Some y => y :: omap (grant w o) l | None => omap (grant w o) l end).
  by destruct (grant w o x).
Qed.

Lemma assigned_in_at {State} (sel : TypedAssigns Seal -> list (Assign Seal State)) l : NoDup l.*1 ->
  oa_state <$> base.filter (fun a => assigned_to o ty a = true) (assigned_in bundle_id opid w sel l) =
  default [] ((fun a => omap (grant w o) (sel a)) <$> list_to_map (M := gmap _ _) l !! ty).
Proof.
  induction l as [|[ty' a] l IH]; [done|]. cbn [fmap list_fmap fst]. intros [Hty Hd]%NoDup_cons. specialize (IH Hd).
  unfold assigned_in. cbn [mbind list_bind]. rewrite filter_app, fmap_app, assigned_from_at.
  fold (assigned_in bundle_id opid w sel l). rewrite IH. cbn [list_to_map foldr fst snd].
  destruct (decide (ty' = ty)) as [->|Hne].
  - rewrite lookup_insert_eq, (not_elem_of_list_to_map_1 (M := gmap _) l ty) by done. cbn. by rewrite app_nil_r.
  - by rewrite lookup_insert_ne.
Qed.

End op_assigned.

Section distinct.
Context `{TxoSeal Seal} (bundle_id : option BundleId) (opid : OpId) (w : option Txid).

Lemma assigned_from_opout {State} (l : list (Assign Seal State)) ty no a : a ∈ assigned_from bundle_id opid w ty no l ->
  oa_witness a = w /\ oa_bundle_id a = bundle_id /\
  exists k, oa_opout a = mkOpout opid ty (Z.of_nat k mod 65536) /\ (no <= k < no + length l)%nat.
Proof.
  revert no. induction l as [|x l IH]; intros no; cbn [assigned_from length]; [by rewrite elem_of_nil|].
  rewrite elem_of_app. intros [Hx|Hx].
  - unfold assigned_one in Hx. destruct (as_revealed x) as [[seal st]|]; cbn in Hx; [|by rewrite elem_of_nil in Hx].
    destruct (resolve_seal w seal); cbn in Hx; [|by rewrite elem_of_nil in Hx].
    apply list_elem_of_singleton in Hx as ->. split_and!; [done..|]. exists no. split; [done|lia].
  - destruct (IH _ Hx) as (? & ? & k & Hk & ?). split_and!; [done..|]. exists k. split; [done|lia].
Qed.

Lemma assigned_from_NoDup {State} (l : list (Assign Seal State)) ty no : Z.of_nat (no + length l) <= 65536 ->
  NoDup (oa_opout <$> assigned_from bundle_id opid w ty no l).
Proof.
  revert no. induction l as [|x l IH]; intros no Hl; cbn [assigned_from length] in *; [constructor|].
  rewrite fmap_app. apply NoDup_app. split_and!; [|intros p Hp Hq|apply IH; lia].
  - destruct (assigned_one _ _ _ _ _ _); cbn; [apply NoDup_singleton|constructor].
  - apply list_elem_of_fmap in Hp as (a & -> & Ha), Hq as (b & Hb & Hin).
    assert (a ∈ assigned_from bundle_id opid w ty no [x]) as Ha' by (cbn; by rewrite app_nil_r).
    apply assigned_from_opout in Ha' as (_ & _ & k & Hk & Hk'), Hin as (_ & _ & k2 & Hk2 & Hk2').
    rewrite Hk, Hk2 in Hb. injection Hb as Hb. cbn in Hk'. rewrite !Z.mod_small in Hb by lia. lia.
Qed.

Lemma assigned_in_opout {State} (sel : TypedAssigns Seal -> list (Assign Seal State)) l a : a ∈ assigned_in bundle_id opid w sel l ->
  oa_witness a = w /\ oa_bundle_id a = bundle_id /\ opout_op (oa_opout a) = opid /\ opout_ty (oa_opout a) ∈ l.*1.
Proof.
  unfold assigned_in. intros ([ty b] & Ha & Hb)%list_elem_of_bind.
  apply assigned_from_opout in Ha as (? & ? & k & Hk & _). rewrite Hk. split_and!; [done..|].
  apply list_elem_of_fmap. by exists (ty, b).
Qed.

Lemma assigned_in_NoDup {State} (sel : TypedAssigns Seal -> list (Assign Seal State)) l : NoDup l.*1 ->
  (forall ty a, (ty, a) ∈ l -> Z.of_nat (length (sel a)) <= 65535) -> NoDup (oa_opout <$> assigned_in bundle_id opid w sel l).
Proof.
  induction l as [|[ty a] l IH]; [constructor|]. cbn [fmap list_fmap fst]. intros [Hty Hd]%NoDup_cons Hl.
  unfold assigned_in. cbn [mbind list_bind]. fold (assigned_in bundle_id opid w sel l). rewrite fmap_app. apply NoDup_app.
  split_and!; [|intros p Hp Hq|apply IH; [done|intros ty' b Hb; apply (Hl ty' b); by right]].
  - apply assigned_from_NoDup. specialize (Hl ty a ltac:(by left)). lia.
  - apply list_elem_of_fmap in Hp as (x & -> & Hx), Hq as (y & Hy & Hin).
    apply assigned_from_opout in Hx as (_ & _ & k & Hk & _). apply assigned_in_opout in Hin as (_ & _ & _ & Hin).
    rewrite Hy in Hk. by rewrite Hk in Hin.
Qed.

End distinct.

Lemma assigned_entries_at `{TxoSeal Seal} {State} bundle_id opid w o ty (sel : TypedAssigns Seal -> list (Assign Seal State))
    (m : Assignments Seal) :
  oa_state <$> base.filter (fun a => assigned_to o ty a = true) (assigned_in bundle_id opid w sel (entries m)) =
  default [] ((fun a => omap (grant w o) (sel a)) <$> m !! ty).
Proof. rewrite assigned_in_at by apply entries_NoDup. by rewrite list_to_map_entries. Qed.

(** The collections of an operation have at most 65535 items. *)
Definition confined_op (op : OrdOpRef) : Prop :=
  forall ty a, assignments_get (op_assignments op) ty = Some a -> len_u16 a <= 65535.

Section op_level.
Context `{OperationIds}.

Definition op_assigned {State} (sel : forall Seal, TypedAssigns Seal -> list (Assign Seal State)) (op : OrdOpRef)
    : list (OutputAssignment State) :=
  match op_assignments op with
  | AR_Genesis a => assigned_in (op_bundle_id op) (op_id op) (op_witness_id op) (sel _) (entries a)
  | AR_Graph a => assigned_in (op_bundle_id op) (op_id op) (op_witness_id op) (sel _) (entries a)
  end.

Lemma op_assigned_opout {State} sel op (a : OutputAssignment State) : a ∈ op_assigned sel op ->
  oa_witness a = op_witness_id op /\ oa_bundle_id a = op_bundle_id op /\ opout_op (oa_opout a) = op_id op.
Proof. unfold op_assigned. destruct (op_assignments op); intros Ha%assigned_in_opout; naive_solver. Qed.

(** A selection takes no more than the assignments of a type. *)
Definition selects {State} (sel : forall Seal, TypedAssigns Seal -> list (Assign Seal State)) : Prop :=
  forall Seal (a : TypedAssigns Seal), Z.of_nat (length (sel Seal a)) <= len_u16 a.

Lemma op_assigned_NoDup {State} (sel : forall Seal, TypedAssigns Seal -> list (Assign Seal State)) op : selects sel ->
  confined_op op -> NoDup (oa_opout <$> op_assigned sel op).
Proof.
  intros Hsel Hc. unfold op_assigned, confined_op in *. destruct (op_assignments op) as [m|m].
  - apply assigned_in_NoDup; [apply entries_NoDup|]. intros ty a Ha%elem_of_entries.
    specialize (Hc ty (transmutate_seals a) (f_equal (fmap transmutate_seals) Ha)). specialize (Hsel _ a).
    destruct a; cbn in Hc; rewrite ?length_fmap in Hc; cbn in Hsel; lia.
  - apply assigned_in_NoDup; [apply entries_NoDup|]. intros ty a Ha%elem_of_entries.
    specialize (Hc ty a Ha). specialize (Hsel _ a). lia.
Qed.

(** The state of one kind that an operation grants *)
Definition grants {State} (sel : forall Seal, TypedAssigns Seal -> list (Assign Seal State)) (only : RevealedState -> option State) : Prop :=
  (forall a w o, omap only (granted_in a w o) = omap (grant w o) (sel _ a)) /\
  (forall a, sel _ (transmutate_seals a) = transmutate_assign <$> sel _ a).

Lemma op_assigned_at {State} sel (only : RevealedState -> option State) op o ty : grants sel only ->
  oa_state <$> base.filter (fun a => assigned_to o ty a = true) (op_assigned sel op) = omap only (granted op o ty).
Proof.
  intros [Hg Ht]. unfold op_assigned, granted. destruct op as [ge|t w ord b]; cbn [op_assignments assignments_get op_witness_id].
  - rewrite assigned_entries_at.
    destruct (g_assignments ge !! ty) as [a|]; [|done]. cbn. rewrite Hg, Ht. generalize (sel GenesisSeal a). intros l.
    induction l as [|x l IH]; [done|]. cbn. rewrite IH. by destruct x.
  - rewrite assigned_entries_at.
    destruct (t_assignments t !! ty) as [a|]; [|done]. cbn. by rewrite Hg.
Qed.

End op_level.

Lemma filter_all {A} (Q : A -> Prop) `{forall x, Decision (Q x)} l : Forall Q l -> base.filter Q l = l.
Proof. induction 1 as [|x l Hx _ IH]; [done|]. by rewrite filter_cons_True, IH. Qed.
Lemma filter_none {A} (Q : A -> Prop) `{forall x, Decision (Q x)} l : Forall (fun x => ~ Q x) l -> base.filter Q l = [].
Proof. induction 1 as [|x l Hx _ IH]; [done|]. by rewrite filter_cons_False, IH. Qed.

Section history.
Context `{OperationIds} `{ContainerIds}.

Definition evolve_all (h : list OrdOpRef) : SE MemContract StateFault unit := for_each h evolve_state.

(** The newest status of each witness of a history *)
Definition note_status (m : gmap Txid WitnessOrd) (op : OrdOpRef) : gmap Txid WitnessOrd :=
  match op with Op_Genesis _ => m | Op_Transition _ witness_id ord _ => <[witness_id := ord]> m end.
Definition statuses (h : list OrdOpRef) : gmap Txid WitnessOrd := foldl note_status ∅ h.

(** Operations whose witness is not archived *)
Definition live (m : gmap Txid WitnessOrd) (op : OrdOpRef) : Prop :=
  match op_witness_id op with None => True | Some w => exists ord, m !! w = Some ord /\ ord <> Archived end.
#[export] Instance live_dec m op : Decision (live m op).
Proof.
  unfold live. destruct (op_witness_id op) as [w|]; [|apply _]. destruct (m !! w) as [ord|].
  - destruct (decide (ord = Archived)); [right|left]; naive_solver.
  - right. naive_solver.
Defined.

Lemma check_witness_live {State} (a : OutputAssignment State) m op : oa_witness a = op_witness_id op ->
  check_witness a m = true <-> live m op.
Proof.
  intros Hw. unfold check_witness, live. rewrite Hw. destruct (op_witness_id op) as [w|]; [|done].
  destruct (m !! w) as [[]|]; naive_solver.
Qed.

Definition written {State} (sel : forall Seal, TypedAssigns Seal -> list (Assign Seal State)) (h : list OrdOpRef)
    (set : AssignedSet State) : AssignedSet State := foldl (push_set oa_key) set (h ≫= op_assigned sel).

Lemma evolve_all_Ok h c c' : evolve_all h c = (c', Ok tt) ->
  mc_filter c' = foldl note_status (mc_filter c) h /\ mc_invalid_bundles c' = mc_invalid_bundles c /\
  mcs_rights (mc_unfiltered c') = written (@sel_rights) h (mcs_rights (mc_unfiltered c)) /\
  mcs_fungibles (mc_unfiltered c') = written (@sel_fungibles) h (mcs_fungibles (mc_unfiltered c)) /\
  mcs_data (mc_unfiltered c') = written (@sel_data) h (mcs_data (mc_unfiltered c)).
Proof.
  revert c. induction h as [|op h IH]; intros c; [by intros [= <-]|]. unfold evolve_all. cbn [for_each].
  unfold mbind, SE_bind. destruct (evolve_state op c) as [c1 [[]|e]] eqn:E; [|done]. intros Hh%IH.
  unfold evolve_state, mem_state_evolve, mem_evolve in E.
  destruct (add_operation op (mc_unfiltered c)) as [u|] eqn:Ea; [|done]. injection E as <-.
  destruct Hh as (H1 & H2 & H3 & H4 & H5). cbn in *. rewrite H1, H2, H3, H4, H5. unfold written. cbn [mbind list_bind].
  apply add_operation_Ok in Ea as (g & _ & ->). unfold op_written, op_assigned. rewrite !foldl_app.
  split_and!; [by destruct op|done|..]; destruct (op_assignments op); reflexivity.
Qed.

Lemma history_opouts {State} sel h (a : OutputAssignment State) : a ∈ h ≫= op_assigned sel -> opout_op (oa_opout a) ∈ op_id <$> h.
Proof.
  intros (op & Ha & Hop)%list_elem_of_bind. apply op_assigned_opout in Ha as (_ & _ & ->). by apply list_elem_of_fmap_2.
Qed.

Lemma history_NoDup {State} (sel : forall Seal, TypedAssigns Seal -> list (Assign Seal State)) h : selects sel ->
  NoDup (op_id <$> h) -> Forall confined_op h -> NoDup (oa_key <$> (h ≫= op_assigned sel)).
Proof.
  intros Hs Hd Hc. apply (NoDup_fmap_1 fst). rewrite <- list_fmap_compose.
  induction h as [|op h IH]; [constructor|]. cbn [fmap list_fmap] in Hd. apply NoDup_cons in Hd as [Hop Hd].
  apply Forall_cons in Hc as [Hc Hcs]. cbn [mbind list_bind]. rewrite fmap_app. apply NoDup_app. split_and!; [|intros p Hp Hq|by apply IH].
  - by apply (op_assigned_NoDup sel).
  - apply list_elem_of_fmap in Hp as (a & -> & Ha), Hq as (b & Hb & Hin).
    apply op_assigned_opout in Ha as (_ & _ & Ha). apply history_opouts in Hin. cbn in Hb. by rewrite <- Hb, Ha in Hin.
Qed.

Lemma history_at {State} sel (only : RevealedState -> option State) h c o ty : grants sel only -> mc_invalid_bundles c = ∅ ->
  oa_state <$> base.filter (fun a => visible c a = true)
    (base.filter (fun a => assigned_to o ty a = true) (h ≫= op_assigned sel)) =
  omap only (base.filter (live (mc_filter c)) h ≫= fun op => granted op o ty).
Proof.
  intros Hg Hi. induction h as [|op h IH]; [done|]. cbn [mbind list_bind]. rewrite !filter_app, fmap_app, IH, filter_cons. clear IH.
  assert (forall a, a ∈ op_assigned sel op -> visible c a = true <-> live (mc_filter c) op) as Hv.
  { intros a (Hw & Hb & _)%op_assigned_opout. unfold visible, check_bundle. rewrite Hi, andb_true_iff, (check_witness_live a _ op) by done.
    split; [naive_solver|]. intros Hl. split; [done|]. destruct (oa_bundle_id a); [|done]. by apply bool_decide_eq_true; set_solver. }
  destruct (decide (live (mc_filter c) op)) as [Hl|Hl].
  - rewrite (filter_all _ (base.filter _ (op_assigned sel op))).
    + cbn [mbind list_bind]. by rewrite omap_app, (op_assigned_at sel only).
    + apply Forall_forall. intros a [_ Ha]%list_elem_of_filter. by apply Hv.
  - rewrite (filter_none _ (base.filter _ (op_assigned sel op))); [done|].
    apply Forall_forall. intros a [_ Ha]%list_elem_of_filter Hx. by apply Hl, (Hv a).
Qed.

End history.

Section read_back.
Context `{OperationIds} `{ContainerIds}.

Lemma grants_kinds : grants (@sel_rights) only_void /\ grants (@sel_fungibles) only_fungible /\ grants (@sel_data) only_data.
Proof.
  unfold grants. split_and!; try (intros a w o; apply granted_sel); by intros [].
Qed.

Lemma read_back_kind {State} sel (only : RevealedState -> option State) h c o ty : grants sel only -> selects sel ->
  NoDup (op_id <$> h) -> Forall confined_op h -> mc_invalid_bundles c = ∅ ->
  read_at c (written sel h ∅) o ty ≡ₚ omap only (base.filter (live (mc_filter c)) h ≫= fun op => granted op o ty).
Proof.
  intros Hg Hs Hd Hc Hi. rewrite <- (history_at sel only h c o ty Hg Hi). unfold read_at. f_equiv.
  assert (assigned_list (written sel h ∅) ≡ₚ h ≫= op_assigned sel) as Hp; [|by rewrite Hp].
  unfold assigned_list, sorted_by. rewrite merge_sort_Permutation. unfold written.
  rewrite pushes_perm; [by rewrite map_to_list_empty|by apply history_NoDup|]. intros a _. apply lookup_empty.
Qed.


End read_back.

(** ** The view of a contract in a stock *)

Lemma assigned_list_elem {State} (set : AssignedSet State) a : a ∈ assigned_list set <-> exists k, set !! k = Some a.
Proof.
  unfold assigned_list, sorted_by. rewrite merge_sort_Permutation, list_elem_of_fmap. split.
  - intros ([k b] & -> & Hb%elem_of_map_to_list). eauto.
  - intros [k Hk]. exists (k, a). by rewrite elem_of_map_to_list.
Qed.

Lemma filter_same {A} (Q R : A -> Prop) `{forall x, Decision (Q x)} `{forall x, Decision (R x)} (l : list A) :
  (forall x, x ∈ l -> Q x <-> R x) -> base.filter Q l = base.filter R l.
Proof.
  induction l as [|x l IH]; intros E; [done|]. rewrite !filter_cons, IH by (intros y Hy; apply E; by right).
  specialize (E x ltac:(by left)). repeat case_decide; naive_solver.
Qed.

Definition unfiltered_view (ms : MemState) (u : MemContractState) : MemContract :=
  mkMemContract (ms_witnesses ms) (ms_invalid_bundles ms) u.

Lemma has_witness_set {State} (p : OutputAssignment State -> bool) set a : a ∈ assigned_list set -> p a = true -> set_any p set = true.
Proof. intros Ha Hp. apply existsb_exists. exists a. split; [by apply list_elem_of_In|done]. Qed.

Lemma visible_filtered {State} (ms : MemState) (u : MemContractState) (a : OutputAssignment State) :
  (forall w, oa_witness a = Some w -> has_witness u w = true) ->
  visible (mkMemContract (base.filter (fun '(id, _) => has_witness u id = true) (ms_witnesses ms)) (ms_invalid_bundles ms) u) a =
  visible (unfiltered_view ms u) a.
Proof.
  intros Hw. unfold visible, check_witness. cbn. f_equal. destruct (oa_witness a) as [w|]; [|done].
  specialize (Hw w eq_refl). destruct (ms_witnesses ms !! w) as [ord|] eqn:E.
  - by rewrite (map_lookup_filter_Some_2 _ _ _ _ E Hw).
  - rewrite (map_lookup_filter_None_2); [done|by left].
Qed.

Lemma read_filtered {State} (ms : MemState) (u : MemContractState) (set : AssignedSet State) o ty :
  (forall a, a ∈ assigned_list set -> forall w, oa_witness a = Some w -> has_witness u w = true) ->
  let c := mkMemContract (base.filter (fun '(id, _) => has_witness u id = true) (ms_witnesses ms)) (ms_invalid_bundles ms) u in
  read_at c set o ty = read_at (unfiltered_view ms u) set o ty /\ all_visible c set = all_visible (unfiltered_view ms u) set.
Proof.
  intros Ha c. unfold read_at, all_visible. split; [f_equal|]; apply filter_same.
  - intros a [_ Hin]%list_elem_of_filter. unfold c. by rewrite visible_filtered by eauto.
  - intros a Hin. unfold c. by rewrite visible_filtered by eauto.
Qed.

Lemma omap_same_in {A B} (f g : A -> option B) (l : list A) : (forall x, x ∈ l -> f x = g x) -> omap f l = omap g l.
Proof. intros E. apply list_omap_ext, Forall2_same_length_lookup. split; [done|]. intros i x y Hx Hy. simplify_eq. by eapply E, list_elem_of_lookup_2. Qed.

Lemma sorted_by_elem `{Countable K} {A} cmp (m : gmap K A) k v : (k, v) ∈ sorted_by cmp m <-> m !! k = Some v.
Proof. unfold sorted_by. by rewrite merge_sort_Permutation, elem_of_map_to_list. Qed.

Lemma has_witness_global u ty state out data w : mcs_global u !! ty = Some state -> known state !! out = Some data ->
  ow_witness_id (gout_op_witness out) = Some w -> has_witness u w = true.
Proof.
  intros Hs Hk Hw. unfold has_witness. rewrite !orb_true_iff. do 3 left. apply existsb_exists. exists (ty, state).
  split; [by apply list_elem_of_In, elem_of_map_to_list|]. apply existsb_exists. exists (out, data).
  split; [by apply list_elem_of_In, elem_of_map_to_list|]. by apply bool_decide_eq_true.
Qed.

(** The view of a contract that a stock gives keeps only the witnesses that the contract
    has state of.  Nothing is lost: every read gives what it would give with the statuses
    of all witnesses of the stock. *)
Theorem contract_view_complete ms id c : contract_state ms id = Ok c ->
  exists u, ms_contracts ms !! id = Some u /\ forall o ty,
    mem_global c ty = mem_global (unfiltered_view ms u) ty /\
    cs_rights c o ty = cs_rights (unfiltered_view ms u) o ty /\
    cs_fungible c o ty = cs_fungible (unfiltered_view ms u) o ty /\
    cs_data c o ty = cs_data (unfiltered_view ms u) o ty /\
    all_visible c (mcs_fungibles u) = all_visible (unfiltered_view ms u) (mcs_fungibles u).
Proof.
  unfold contract_state. rewrite result_bind_Ok. intros (u & Hu%ok_or_Ok & [= <-]). exists u. split; [done|]. intros o ty.
  assert (forall w, set_any (fun a => bool_decide (oa_witness a = Some w)) (mcs_rights u) = true \/
    set_any (fun a => bool_decide (oa_witness a = Some w)) (mcs_fungibles u) = true \/
    set_any (fun a => bool_decide (oa_witness a = Some w)) (mcs_data u) = true -> has_witness u w = true) as Hw.
  { intros w Hs. unfold has_witness. destruct Hs as [-> | [-> | ->]]; by rewrite ?orb_true_r. }
  destruct (read_filtered ms u (mcs_rights u) o ty) as [Er _].
  { intros a Ha w Ew. apply Hw. left. apply (has_witness_set _ _ a Ha). by apply bool_decide_eq_true. }
  destruct (read_filtered ms u (mcs_fungibles u) o ty) as [Ef Ev].
  { intros a Ha w Ew. apply Hw. right; left. apply (has_witness_set _ _ a Ha). by apply bool_decide_eq_true. }
  destruct (read_filtered ms u (mcs_data u) o ty) as [Ed _].
  { intros a Ha w Ew. apply Hw. right; right. apply (has_witness_set _ _ a Ha). by apply bool_decide_eq_true. }
  split_and!; [|cbn; unfold mem_rights; cbn; by rewrite Er|exact Ef|exact Ed|exact Ev].
  unfold mem_global. cbn. destruct (mcs_global u !! ty) as [state|] eqn:Es; [|done]. do 2 f_equal. apply omap_same_in.
  intros [out data] Hin. rewrite list_elem_of_In, <- in_rev, <- list_elem_of_In, sorted_by_elem in Hin.
  unfold global_item. destruct (gout_op_witness out) as [|w ty'] eqn:Ew; [done|].
  assert (has_witness u w = true) as Hh by (apply (has_witness_global u ty state out data); [done..|by rewrite Ew]).
  destruct (ms_witnesses ms !! w) as [ord|] eqn:E.
  - by rewrite (map_lookup_filter_Some_2 _ _ _ _ E Hh).
  - rewrite (map_lookup_filter_None_2); [done|by left].
Qed.

(** ** The order of the global state *)

Lemma preorder_bytes : preorder bytes_cmp.
Proof.
  split.
  - induction a as [|x a IH]; intros [|y b]; [done..|]. cbn. rewrite Z.compare_antisym, IH. by destruct (x ?= y).
  - induction a as [|x a IH]; intros [|y b] [|z c]; try done. apply (then_trans Z.compare); [apply preorder_Z|apply IH].
Qed.

(** The order of entries whose witnesses are on one chain *)
Definition entry_order (a b : GlobalStateEntry) : comparison :=
  then_cmp (then_cmp (key_cmp (chain_key (go_op_ord (entry_ord a))) (chain_key (go_op_ord (entry_ord b))))
    (go_idx (entry_ord a) ?= go_idx (entry_ord b))) (bytes_cmp (entry_data a) (entry_data b)).

Lemma preorder_entries : preorder entry_order.
Proof.
  apply preorder_then; [apply preorder_then|].
  - apply (preorder_on (fun e => chain_key (go_op_ord (entry_ord e))) key_cmp), preorder_key.
  - apply (preorder_on (fun e => go_idx (entry_ord e)) Z.compare), preorder_Z.
  - apply (preorder_on entry_data bytes_cmp), preorder_bytes.
Qed.

Lemma entry_cmp_order l a b : on_chain l (go_op_ord (entry_ord a)) -> on_chain l (go_op_ord (entry_ord b)) ->
  entry_cmp a b = Ok (entry_order a b).
Proof. intros Ha Hb. unfold entry_cmp, global_cmp. by rewrite (op_cmp_key l) by done. Qed.

Definition older (a b : GlobalStateEntry) : Prop := entry_order a b <> Gt.

Section sort.
Context (l : Layer1).
Let ok (e : GlobalStateEntry) : Prop := on_chain l (go_op_ord (entry_ord e)).

Lemma insert_entry_sorted e s : ok e -> Forall ok s -> StronglySorted older s ->
  exists s', insert_entry e s = Ok s' /\ s' ≡ₚ e :: s /\ StronglySorted older s'.
Proof.
  intros He. induction s as [|x s IH]; intros Hs Hsort; [eexists; split_and!; [done..|repeat constructor]|].
  apply Forall_cons in Hs as [Hx Hs]. apply StronglySorted_inv in Hsort as [Hsort Hall].
  cbn [insert_entry]. rewrite (entry_cmp_order l) by done. cbn.
  assert (entry_order e x <> Gt -> exists s', mret (M := P) (e :: x :: s) = Ok s' /\ s' ≡ₚ e :: x :: s /\ StronglySorted older s') as Hfirst.
  { intros Hex. eexists. split_and!; [done..|]. constructor; [by constructor|]. constructor; [done|].
    eapply Forall_impl; [exact Hall|]. intros y Hy. exact (proj2 preorder_entries e x y Hex Hy). }
  destruct (entry_order e x) eqn:E; [apply Hfirst; congruence..|].
  destruct (IH Hs Hsort) as (s' & -> & Hp & Hs'). cbn. eexists. split_and!; [done| |].
  - rewrite Hp. apply Permutation_swap.
  - constructor; [done|]. rewrite Hp. constructor; [|done]. unfold older. rewrite (proj1 preorder_entries e x), E. done.
Qed.

Lemma sort_entries_sorted s : Forall ok s ->
  exists s', sort_entries s = Ok s' /\ s' ≡ₚ s /\ StronglySorted older s'.
Proof.
  induction s as [|e s IH]; [intros _; eexists; split_and!; [done..|constructor]|]. intros [He Hs]%Forall_cons.
  destruct (IH Hs) as (s1 & E1 & Hp1 & Hs1). cbn. rewrite E1. cbn.
  destruct (insert_entry_sorted e s1) as (s2 & E2 & Hp2 & Hs2); [done|by rewrite Hp1|done|]. exists s2. split_and!; [done| |done].
  by rewrite Hp2, Hp1.
Qed.

End sort.

(** The witnesses of the view are mined on one chain, at positions with a timestamp. *)
Definition one_chain (l : Layer1) (filter : gmap Txid WitnessOrd) : Prop :=
  forall w p, filter !! w = Some (Mined p) -> pos_layer1 p = l /\ 0 < pos_timestamp p.

Lemma StronglySorted_rev {A} (Q : A -> A -> Prop) (l : list A) : StronglySorted Q l -> StronglySorted (fun a b => Q b a) (rev l).
Proof.
  induction 1 as [|x l Hl IH Hx]; cbn; [constructor|]. apply StronglySorted_app_2; [|done|repeat constructor].
  intros a b Ha Hb. apply list_elem_of_singleton in Hb as ->. rewrite list_elem_of_In, <- in_rev, <- list_elem_of_In in Ha.
  by eapply Forall_forall in Hx.
Qed.

(** The entries of a type that have a known witness, before the limit *)
Definition global_entries (c : MemContract) (state : MemGlobalState) : list GlobalStateEntry :=
  (fun '(ord, data) => mkEntry ord data) <$> omap (global_item (mc_filter c)) (map_to_list (known state)).

(** On one chain, reading the global state of a contract does not panic.  It gives
    entries of the history, at most the limit of the schema, from the newest to the
    oldest in the order of the consensus; and all of them, when they are not more than
    the limit. *)
Theorem global_newest_first l c ty state : one_chain l (mc_filter c) -> mcs_global (mc_unfiltered c) !! ty = Some state ->
  exists g, mem_global c ty = Ok (Some g) /\ StronglySorted (fun a b => older b a) g /\
    Z.of_nat (length g) <= Z.max 0 (mg_limit state) /\ (exists rest, g ++ rest ≡ₚ global_entries c state) /\
    (Z.of_nat (length (global_entries c state)) <= mg_limit state -> g ≡ₚ global_entries c state).
Proof.
  intros Hl Hs. unfold mem_global. rewrite Hs. unfold global_access_new.
  set (items := omap (global_item (mc_filter c)) (rev (sorted_by out_cmp (known state)))).
  assert ((fun '(ord, data) => mkEntry ord data) <$> items ≡ₚ global_entries c state) as Hp.
  { unfold global_entries. apply fmap_Permutation, omap_Permutation. rewrite <- Permutation_rev. apply merge_sort_Permutation. }
  change (map (fun '(ord, data) => mkEntry ord data) (take (Z.to_nat (mg_limit state)) items))
    with ((fun '(ord, data) => mkEntry ord data) <$> take (Z.to_nat (mg_limit state)) items).
  rewrite fmap_take. set (all := (fun '(ord, data) => mkEntry ord data) <$> items) in *.
  assert (Forall (fun e => on_chain l (go_op_ord (entry_ord e))) all) as Hall.
  { rewrite Hp. apply Forall_forall. unfold global_entries. intros e ([ord data] & -> & Hx)%list_elem_of_fmap.
    apply list_elem_of_omap in Hx as ([out d] & _ & Hx). unfold global_item in Hx.
    destruct (gout_op_witness out) as [|w ty']; [by injection Hx as <- <-|].
    destruct (mc_filter c !! w) as [wo|] eqn:E; [|done]. injection Hx as <- <-. cbn. destruct wo; [by apply (Hl w)|done..]. }
  destruct (sort_entries_sorted l (take (Z.to_nat (mg_limit state)) all)) as (s & -> & Hps & Hsort); [by apply Forall_take|].
  cbn. exists (rev s). split; [done|]. split; [by apply StronglySorted_rev|].
  assert (rev s ≡ₚ take (Z.to_nat (mg_limit state)) all) as Hr by (by rewrite <- Permutation_rev).
  split; [|split].
  - rewrite (Permutation_length Hr), length_take. lia.
  - exists (drop (Z.to_nat (mg_limit state)) all). by rewrite Hr, take_drop, Hp.
  - intros Hlen. by rewrite Hr, take_ge, Hp by (rewrite (Permutation_length Hp); lia).
Qed.

(** ** Examples *)

Module HistoryDemo.

#[local] Instance ids : OperationIds := {|
  genesis_id _ := "contract"; transition_id t := if t_nonce t =? 1 then "1" else "2" |}.

Definition transition (nonce : Z) (globals : GlobalState) (assignments : Assignments GraphSeal) : Transition :=
  mkTransition 0 "contract" nonce 10 ∅ globals [] assignments None.
Definition mined (height : Z) : WitnessOrd := Mined (mkPos L1_Bitcoin height 1300000000).

(** A contract with one type of global state, of which one item is kept *)
Definition empty_state : MemContract := mkMemContract ∅ ∅ (mkMemContractState "schema" "contract" {[ 7 := mkMemGlobal ∅ 1 ]} ∅ ∅ ∅).

(** The item of a transition at height 5, then that of one at height 6 *)
Definition two_items : list OrdOpRef :=
  [Op_Transition (transition 1 {[ 7 := [[1]] ]} ∅) "b" (mined 5) "1";
   Op_Transition (transition 2 {[ 7 := [[2]] ]} ∅) "a" (mined 6) "2"].

(** The limit is applied in the order of the keys, in which the identifier of the witness
    comes before its position, and not in the order of the consensus: of two items where
    one is kept, the older one is read. *)
Theorem limit_keeps_older : let '(c, r) := evolve_all two_items empty_state in
  r = Ok tt /\ option_map (map entry_data) (cs_global c 7) = Some [[1]].
Proof. vm_compute. split; reflexivity. Qed.

(** A transition that sets the global state and assigns an amount *)
Definition set_and_assign : OrdOpRef :=
  Op_Transition (transition 1 {[ 7 := [[1]] ]} {[ 4000 := Fungible [Revealed (mkSeal (TxPtr_Txid "owner") 0 0) (Bits64 5)] ]})
    "b" Archived "1".

(** Of an operation whose witness is archived the assignments are not read, and the global
    state is. *)
Theorem archived_global_read : let '(c, r) := evolve_all [set_and_assign] empty_state in
  r = Ok tt /\ cs_fungible c (mkOutpoint "owner" 0) 4000 = [] /\ option_map (map entry_data) (cs_global c 7) = Some [[1]].
Proof. vm_compute. split_and!; reflexivity. Qed.

(** An operation that comes again with another witness, after the first was archived: its
    assignment to a known output stays with the first witness and is not read. *)
Definition assign_again : list OrdOpRef :=
  let t := transition 1 ∅ {[ 4000 := Fungible [Revealed (mkSeal (TxPtr_Txid "owner") 0 0) (Bits64 5)] ]} in
  [Op_Transition t "a" Archived "1"; Op_Transition t "b" (mined 6) "1"].

Theorem second_witness_ignored : let '(c, r) := evolve_all assign_again empty_state in
  r = Ok tt /\ mc_filter c !! "b" = Some (mined 6) /\ cs_fungible c (mkOutpoint "owner" 0) 4000 = [].
Proof. vm_compute. split_and!; reflexivity. Qed.

(** A stock with this contract, and a witness that it has nothing of *)
Definition demo_contract : MemContract := (evolve_all two_items empty_state).1.
Definition demo_stock : MemState :=
  mkMemState (<["c" := mined 7]> (mc_filter demo_contract)) ∅ {[ "contract" := mc_unfiltered demo_contract ]}.

Lemma contract_view_complete_witness : exists c, contract_state demo_stock "contract" = Ok c /\
  mc_filter c !! "c" = None /\ exists u, ms_contracts demo_stock !! "contract" = Some u /\ forall o ty,
    mem_global c ty = mem_global (unfiltered_view demo_stock u) ty /\
    cs_rights c o ty = cs_rights (unfiltered_view demo_stock u) o ty /\
    cs_fungible c o ty = cs_fungible (unfiltered_view demo_stock u) o ty /\
    cs_data c o ty = cs_data (unfiltered_view demo_stock u) o ty /\
    all_visible c (mcs_fungibles u) = all_visible (unfiltered_view demo_stock u) (mcs_fungibles u).
Proof.
  exists (match contract_state demo_stock "contract" with Ok c => c | Err _ => empty_state end).
  assert (contract_state demo_stock "contract" =
    Ok (match contract_state demo_stock "contract" with Ok c => c | Err _ => empty_state end)) as E by (vm_compute; reflexivity).
  split; [exact E|]. split; [vm_compute; reflexivity|]. exact (contract_view_complete _ _ _ E).
Defined.

(** With room for both items, the newer one comes first. *)
Definition two_state : MemContract := mkMemContract ∅ ∅ (mkMemContractState "schema" "contract" {[ 7 := mkMemGlobal ∅ 2 ]} ∅ ∅ ∅).
Definition two_contract : MemContract := (evolve_all two_items two_state).1.
Definition two_global : MemGlobalState := default (mkMemGlobal ∅ 0) (mcs_global (mc_unfiltered two_contract) !! 7).

Lemma global_newest_first_witness : exists g, mem_global two_contract 7 = Ok (Some g) /\
  StronglySorted (fun a b => older b a) g /\ Z.of_nat (length g) <= Z.max 0 (mg_limit two_global) /\
  (exists rest, g ++ rest ≡ₚ global_entries two_contract two_global) /\
  (Z.of_nat (length (global_entries two_contract two_global)) <= mg_limit two_global -> g ≡ₚ global_entries two_contract two_global).
Proof.
  refine (global_newest_first L1_Bitcoin two_contract 7 two_global _ _).
  - intros w p Hw. change ((<["a" := mined 6]> (<["b" := mined 5]> ∅) : gmap Txid WitnessOrd) !! w = Some (Mined p)) in Hw.
    apply lookup_insert_Some in Hw as [[_ Hp]|[_ Hw]].
    + injection Hp as <-. split; reflexivity.
    + apply lookup_insert_Some in Hw as [[_ Hp]|[_ Hw]]; [injection Hp as <-; split; reflexivity|].
      rewrite lookup_empty in Hw. discriminate.
  - vm_compute. reflexivity.
Defined.

End HistoryDemo.
