(* ===== verification/OpsIndex.v ===== *)
(** * rgb-ops: the index of a stock (persistence/index.rs, persistence/memory.rs)

    The index knows the bundle of each operation, the bundles that spend its outputs, the
    witnesses and the contract of each bundle, and which operation outputs are assigned to
    an outpoint or a concealed seal.  [index_exact] shows that it holds what the indexed
    bundles say, no more and no less. *)

From S2P Require Import Prelude Layer1 AluNumber RgbTypes RgbOrder RgbSchema RgbIsa RgbLogic RgbValidator OpsState.
Local Open Scope Z_scope.

(** ** The index in memory *)

Record ContractIndex := mkContractIndex {
  ci_public_opouts : gset Opout;
  outpoint_opouts : gmap Outpoint (gset Opout);
}.

Record MemIndex := mkMemIndex {
  op_bundle_children_index : gmap OpId (gset BundleId);
  op_bundle_index : gmap OpId BundleId;
  bundle_contract_index : gmap BundleId ContractId;
  bundle_witness_index : gmap BundleId (gset Txid);
  contract_index : gmap ContractId ContractIndex;
  terminal_index : gmap SecretSeal (gset Opout);
}.

Definition index_in_memory : MemIndex := mkMemIndex ∅ ∅ ∅ ∅ ∅ ∅.

Inductive IndexInconsistency :=
| ContractAbsent (id : ContractId)
| BundleAbsent (opid : OpId)
| OutpointUnknown (o : Outpoint) (id : ContractId)
| DistinctBundleContract (bundle_id : BundleId) (present expected : ContractId)
| DistinctBundleOp (opid : OpId) (present expected : BundleId)
| BundleContractUnknown (bundle_id : BundleId)
| BundleWitnessUnknown (bundle_id : BundleId).

Inductive IndexError := IE_Inconsistency (e : IndexInconsistency) | IE_Oversize | IE_Panic (p : panic).

(** [push] of a confined set *)
Definition MEDIUM : Z := 2 ^ 24 - 1.
Definition push_elem `{Countable A} (max : Z) (x : A) (s : gset A) : result IndexError (gset A) :=
  if Z.of_nat (size s) <? max then Ok ({[ x ]} ∪ s) else Err IE_Oversize.
Definition insert_map `{Countable K} {A} (max : Z) (k : K) (v : A) (m : gmap K A) : result IndexError (gmap K A) :=
  ok_or (insert_confined max k v m) IE_Oversize.

Definition set_children v (i : MemIndex) := mkMemIndex v (op_bundle_index i) (bundle_contract_index i)
  (bundle_witness_index i) (contract_index i) (terminal_index i).
Definition set_op_bundle v (i : MemIndex) := mkMemIndex (op_bundle_children_index i) v (bundle_contract_index i)
  (bundle_witness_index i) (contract_index i) (terminal_index i).
Definition set_bundle_contract v (i : MemIndex) := mkMemIndex (op_bundle_children_index i) (op_bundle_index i) v
  (bundle_witness_index i) (contract_index i) (terminal_index i).
Definition set_bundle_witness v (i : MemIndex) := mkMemIndex (op_bundle_children_index i) (op_bundle_index i)
  (bundle_contract_index i) v (contract_index i) (terminal_index i).
Definition set_contracts v (i : MemIndex) := mkMemIndex (op_bundle_children_index i) (op_bundle_index i)
  (bundle_contract_index i) (bundle_witness_index i) v (terminal_index i).
Definition set_terminals v (i : MemIndex) := mkMemIndex (op_bundle_children_index i) (op_bundle_index i)
  (bundle_contract_index i) (bundle_witness_index i) (contract_index i) v.

(** [IndexWriteProvider::register_contract] *)
Definition index_register_contract (contract_id : ContractId) : SE MemIndex IndexError bool :=
  i ← get;
  match contract_index i !! contract_id with
  | Some _ => mret false
  | None => m ← lift (insert_map SMALL contract_id (mkContractIndex ∅ ∅) (contract_index i)); put (set_contracts m i) ;; mret true
  end.

(** [if let Some(alt) = present.filter(|alt| *alt != expected) { return Err(..) }] *)
Definition not_another (present : option string) (expected : string) (e : string -> IndexInconsistency)
    : result IndexError unit :=
  match present with
  | Some alt => ensure (bool_decide (alt = expected)) (IE_Inconsistency (e alt))
  | None => Ok tt
  end.

(** [register_bundle]; [entry] fails in a full map *)
Definition register_bundle (bundle_id : BundleId) (witness_id : Txid) (contract_id : ContractId) : SE MemIndex IndexError bool :=
  i ← get;
  lift (not_another (bundle_contract_index i !! bundle_id) contract_id
          (fun alt => DistinctBundleContract bundle_id alt contract_id)) ;;
  let set := default ∅ (bundle_witness_index i !! bundle_id) in
  m ← lift (insert_map LARGE bundle_id set (bundle_witness_index i));
  put (set_bundle_witness m i) ;;
  set' ← lift (push_elem LARGE witness_id set);
  modify (fun i => set_bundle_witness (<[bundle_id := set']> m) i) ;;
  i ← get;
  m ← lift (insert_map LARGE bundle_id contract_id (bundle_contract_index i));
  put (set_bundle_contract m i) ;;
  mret (negb (bool_decide (is_Some (bundle_contract_index i !! bundle_id)))).

(** [register_operation] *)
Definition register_operation (opid : OpId) (bundle_id : BundleId) : SE MemIndex IndexError bool :=
  i ← get;
  lift (not_another (op_bundle_index i !! opid) bundle_id (fun alt => DistinctBundleOp opid alt bundle_id)) ;;
  m ← lift (insert_map LARGE opid bundle_id (op_bundle_index i));
  put (set_op_bundle m i) ;;
  mret (negb (bool_decide (is_Some (op_bundle_index i !! opid)))).

(** [register_spending] *)
Definition register_spending (opid : OpId) (bundle_id : BundleId) : SE MemIndex IndexError bool :=
  i ← get;
  match op_bundle_children_index i !! opid with
  | Some opids =>
      s ← lift (push_elem SMALL bundle_id opids);
      put (set_children (<[opid := s]> (op_bundle_children_index i)) i) ;; mret true
  | None =>
      m ← lift (insert_map LARGE opid {[ bundle_id ]} (op_bundle_children_index i));
      put (set_children m i) ;; mret false
  end.

(** [add_terminal]: the opouts of a seal are removed while they are extended. *)
Definition add_terminal (seal : SecretSeal) (opout : Opout) : SE MemIndex IndexError unit :=
  i ← get;
  match terminal_index i !! seal with
  | Some existing =>
      put (set_terminals (delete seal (terminal_index i)) i) ;;
      s ← lift (push_elem MEDIUM opout existing);
      modify (fun i => set_terminals (default (terminal_index i) (insert_confined LARGE seal s (terminal_index i))) i)
  | None => m ← lift (insert_map LARGE seal {[ opout ]} (terminal_index i)); put (set_terminals m i)
  end.

Fixpoint extend_terminals {State Seal} (l : list (Assign Seal State)) (no : nat) (opid : OpId) (type_id : AssignmentType)
    : SE MemIndex IndexError unit :=
  match l with
  | [] => mret tt
  | assign :: l' =>
      match assign with
      | ConfidentialSeal seal _ => add_terminal seal (mkOpout opid type_id (Z.of_nat no mod 65536))
      | Revealed _ _ => mret tt
      end ;;
      extend_terminals l' (S no) opid type_id
  end.

(** The opouts of an outpoint with one more *)
Definition add_outpoint (output : Outpoint) (opout : Opout) (m : gmap Outpoint (gset Opout))
    : result IndexError (gmap Outpoint (gset Opout)) :=
  match m !! output with
  | Some opouts => s ← push_elem MEDIUM opout opouts; Ok (<[output := s]> m)
  | None => insert_map LARGE output {[ opout ]} m
  end.

(** The loop of [index_genesis_assignments] and [index_transition_assignments]; [seal_output]
    resolves a seal. *)
Fixpoint index_revealed {State Seal} (seal_output : Seal -> result IndexError Outpoint) (contract_id : ContractId)
    (l : list (Assign Seal State)) (no : nat) (opid : OpId) (type_id : AssignmentType) : SE MemIndex IndexError unit :=
  match l with
  | [] => mret tt
  | assign :: l' =>
      match assign with
      | Revealed seal _ =>
          output ← lift (seal_output seal);
          i ← get;
          ci ← lift (ok_or (contract_index i !! contract_id) (IE_Inconsistency (ContractAbsent contract_id)));
          m ← lift (add_outpoint output (mkOpout opid type_id (Z.of_nat no mod 65536)) (outpoint_opouts ci));
          put (set_contracts (<[contract_id := mkContractIndex (ci_public_opouts ci) m]> (contract_index i)) i)
      | ConfidentialSeal _ _ => mret tt
      end ;;
      index_revealed seal_output contract_id l' (S no) opid type_id
  end.

Definition index_assignments {State Seal} (seal_output : Seal -> result IndexError Outpoint) (contract_id : ContractId)
    (l : list (Assign Seal State)) (opid : OpId) (type_id : AssignmentType) : SE MemIndex IndexError unit :=
  i ← get;
  lift (ok_or (contract_index i !! contract_id) (IE_Inconsistency (ContractAbsent contract_id))) ;;
  index_revealed seal_output contract_id l 0 opid type_id ;;
  extend_terminals l 0 opid type_id.

(** [index_genesis_assignments] *)
Definition index_genesis_assignments {State} (contract_id : ContractId) (l : list (Assign GenesisSeal State)) (opid : OpId)
    (type_id : AssignmentType) : SE MemIndex IndexError unit :=
  index_assignments (fun seal => ok_or (seal_outpoint seal) (IE_Panic (Abort "genesis seals always have outpoint")))
    contract_id l opid type_id.

(** [index_transition_assignments] *)
Definition index_transition_assignments {State} (contract_id : ContractId) (l : list (Assign GraphSeal State)) (opid : OpId)
    (type_id : AssignmentType) (witness_id : Txid) : SE MemIndex IndexError unit :=
  index_assignments (fun seal => Ok (to_output_seal_or_default seal witness_id)) contract_id l opid type_id.

(** ** Reading the index *)

Definition bundle_id_for_op (i : MemIndex) (opid : OpId) : result IndexError BundleId :=
  ok_or (op_bundle_index i !! opid) (IE_Inconsistency (BundleAbsent opid)).

Definition bundle_ids_children_of_op (i : MemIndex) (opid : OpId) : result IndexError (gset BundleId) :=
  ok_or (op_bundle_children_index i !! opid) (IE_Inconsistency (BundleAbsent opid)).

Definition bundle_info (i : MemIndex) (bundle_id : BundleId) : result IndexError (gset Txid * ContractId) :=
  witness_id ← ok_or (bundle_witness_index i !! bundle_id) (IE_Inconsistency (BundleWitnessUnknown bundle_id));
  contract_id ← ok_or (bundle_contract_index i !! bundle_id) (IE_Inconsistency (BundleContractUnknown bundle_id));
  Ok (witness_id, contract_id).

Definition public_opouts (i : MemIndex) (contract_id : ContractId) : result IndexError (gset Opout) :=
  ci ← ok_or (contract_index i !! contract_id) (IE_Inconsistency (ContractAbsent contract_id));
  Ok (ci_public_opouts ci).

(** An outpoint is a key of the map at most once. *)
Definition opouts_by_outputs (i : MemIndex) (contract_id : ContractId) (outpoints : list Outpoint)
    : result IndexError (gset Opout) :=
  ci ← ok_or (contract_index i !! contract_id) (IE_Inconsistency (ContractAbsent contract_id));
  try_fold (fun opouts output =>
    set ← ok_or (outpoint_opouts ci !! output) (IE_Inconsistency (OutpointUnknown output contract_id));
    Ok (opouts ∪ set)) ∅ outpoints.

Definition opouts_by_terminals (i : MemIndex) (terminals : gset SecretSeal) : gset Opout :=
  ⋃ (base.filter (fun '(seal, _) => seal ∈ terminals) (map_to_list (terminal_index i))).*2.

(** A contract is listed once for each of the outpoints. *)
Definition contracts_assigning (i : MemIndex) (outpoints : gset Outpoint) : list ContractId :=
  '(contract_id, index) ← sorted_by str_cmp (contract_index i);
  omap (fun outpoint => (fun _ => contract_id) <$> outpoint_opouts index !! outpoint) (elements outpoints).

(** ** Indexing bundles (persistence/index.rs) *)

Section index.
Context `{OperationIds} `{ContainerIds}.

Definition index_genesis (contract_id : ContractId) (genesis : Genesis) : SE MemIndex IndexError unit :=
  let opid := genesis_id genesis in
  for_each (entries (g_assignments genesis)) (fun '(type_id, assign) =>
    match assign with
    | Declarative l => index_genesis_assignments contract_id l opid type_id
    | Fungible l => index_genesis_assignments contract_id l opid type_id
    | Structured l => index_genesis_assignments contract_id l opid type_id
    end).

Definition index_transition (contract_id : ContractId) (id : BundleId) (witness_id : Txid) (k : KnownTransition)
    : SE MemIndex IndexError unit :=
  let opid := kt_opid k in
  register_operation opid id ;;
  for_each (t_inputs (kt_transition k)) (fun input => register_spending (opout_op input) id ;; mret tt) ;;
  for_each (entries (t_assignments (kt_transition k))) (fun '(type_id, assign) =>
    match assign with
    | Declarative l => index_transition_assignments contract_id l opid type_id witness_id
    | Fungible l => index_transition_assignments contract_id l opid type_id witness_id
    | Structured l => index_transition_assignments contract_id l opid type_id witness_id
    end).

Definition index_bundle (contract_id : ContractId) (bundle : TransitionBundle) (witness_id : Txid)
    : SE MemIndex IndexError unit :=
  let id := bundle_id bundle in
  register_bundle id witness_id contract_id ;;
  for_each (known_transitions bundle) (index_transition contract_id id witness_id).

Definition index_consignment (genesis : Genesis) (bundles : list (TransitionBundle * Txid)) : SE MemIndex IndexError unit :=
  let contract_id := genesis_id genesis in
  index_register_contract contract_id ;;
  index_genesis contract_id genesis ;;
  for_each bundles (fun '(bundle, witness_id) => index_bundle contract_id bundle witness_id).

End index.

(** ** What the index knows *)

Inductive fact :=
| F_op (opid : OpId) (b : BundleId)
| F_child (opid : OpId) (b : BundleId)
| F_witness (b : BundleId) (w : Txid)
| F_contract (b : BundleId) (c : ContractId)
| F_outpoint (c : ContractId) (o : Outpoint) (opout : Opout)
| F_terminal (seal : SecretSeal) (opout : Opout).

(** The key has the element in a map of sets. *)
Definition at_key `{Countable K} `{Countable A} (m : gmap K (gset A)) (k : K) (x : A) : Prop := exists s, m !! k = Some s /\ x ∈ s.

Definition holds (i : MemIndex) (f : fact) : Prop :=
  match f with
  | F_op opid b => op_bundle_index i !! opid = Some b
  | F_child opid b => at_key (op_bundle_children_index i) opid b
  | F_witness b w => at_key (bundle_witness_index i) b w
  | F_contract b c => bundle_contract_index i !! b = Some c
  | F_outpoint c o opout => exists ci, contract_index i !! c = Some ci /\ at_key (outpoint_opouts ci) o opout
  | F_terminal seal opout => at_key (terminal_index i) seal opout
  end.

(** The type of the map of terminals: at most 2^32 - 1 items *)
Definition index_ok (i : MemIndex) : Prop := Z.of_nat (size (terminal_index i)) <= LARGE.

(** When [m] succeeds, it has added the facts of [F] and no others. *)
Definition adds {A} (m : SE MemIndex IndexError A) (F : fact -> Prop) : Prop :=
  forall i i' a, index_ok i -> m i = (i', Ok a) -> index_ok i' /\ forall f, holds i' f <-> holds i f \/ F f.

Lemma at_key_insert `{Countable K} `{Countable A} (m : gmap K (gset A)) k s s' x k' :
  (forall y, y ∈ s' <-> y = x \/ y ∈ s) -> (m !! k = Some s \/ m !! k = None /\ s = ∅) -> forall y,
  at_key (<[k := s']> m) k' y <-> at_key m k' y \/ (k' = k /\ y = x).
Proof.
  intros Hs Hm y. unfold at_key. destruct (decide (k' = k)) as [->|Hne].
  - rewrite lookup_insert_eq. split.
    + intros (? & [= <-] & [->|Hy]%Hs); [by right|]. destruct Hm as [Hm|[_ ->]]; [eauto|set_solver].
    + intros [(s0 & Hs0 & Hy)|[_ ->]]; exists s'; (split; [done|]); apply Hs; [right|by left].
      destruct Hm as [Hm|[Hm _]]; congruence.
  - rewrite lookup_insert_ne by done. naive_solver.
Qed.

Lemma adds_ret {A} (a : A) : adds (mret a) (fun _ => False).
Proof. intros i i' b Hi [= <- <-]. split; [done|]. intros f. tauto. Qed.
Lemma adds_lift {A} (r : result IndexError A) : adds (lift r) (fun _ => False).
Proof. intros i i' b Hi [= <- ->]. split; [done|]. intros f. tauto. Qed.
Lemma adds_bind {A B} (m : SE MemIndex IndexError A) (k : A -> SE MemIndex IndexError B) F G :
  adds m F -> (forall a, adds (k a) G) -> adds (m ≫= k) (fun f => F f \/ G f).
Proof.
  intros Hm Hk i i' b Hi. unfold mbind, SE_bind. destruct (m i) as [i1 [a|]] eqn:E; [|done]. intros Hb.
  destruct (Hm i i1 a Hi E) as [Hi1 Hf1]. destruct (Hk a i1 i' b Hi1 Hb) as [Hi2 Hf2]. split; [done|]. intros f.
  rewrite Hf2, Hf1. tauto.
Qed.
Lemma adds_equiv {A} (m : SE MemIndex IndexError A) F G : adds m F -> (forall f, F f <-> G f) -> adds m G.
Proof. intros Hm E i i' a Hi Ha. destruct (Hm i i' a Hi Ha) as [Hi' Hf]. split; [done|]. intros f. by rewrite Hf, E. Qed.
Lemma adds_each {A} (l : list A) (f : A -> SE MemIndex IndexError unit) F : (forall x, x ∈ l -> adds (f x) (F x)) ->
  adds (for_each l f) (fun y => exists x, x ∈ l /\ F x y).
Proof.
  induction l as [|x l IH]; intros Hf; cbn [for_each].
  - eapply adds_equiv; [apply adds_ret|]. intros y. split; [done|]. by intros (x & Hx%elem_of_nil & _).
  - eapply adds_equiv; [apply adds_bind; [apply Hf; by left|intros _; apply IH; intros y Hy; apply Hf; by right]|].
    intros y. cbn. split.
    + intros [Hx|(z & Hz & Hy)]; [exists x; by split; [left|]|exists z; by split; [right|]].
    + intros (z & [->|Hz]%elem_of_cons & Hy); eauto.
Qed.

Lemma push_elem_Ok `{Countable A} max (x : A) s s' : push_elem max x s = Ok s' -> forall y, y ∈ s' <-> y = x \/ y ∈ s.
Proof. unfold push_elem. case_match; [|done]. intros [= <-] y. set_solver. Qed.
Lemma insert_map_Ok `{Countable K} {A} max (k : K) (v : A) m m' : insert_map max k v m = Ok m' -> m' = <[k := v]> m.
Proof. unfold insert_map, insert_confined. rewrite ok_or_Ok. case_match; naive_solver. Qed.

(** Runs the state monad on a goal [m i = (i', Ok a) -> _]. *)
Ltac run_index := unfold mbind, SE_bind, get, put, lift, modify, mret, SE_ret; cbn beta iota zeta.

(** A map that gets a value it can have already *)
Lemma insert_fact `{Countable K} {A} (m : gmap K A) k v k' v' : (m !! k = None \/ m !! k = Some v) ->
  <[k := v]> m !! k' = Some v' <-> m !! k' = Some v' \/ (k' = k /\ v' = v).
Proof.
  intros Hm. destruct (decide (k' = k)) as [->|Hne].
  - rewrite lookup_insert_eq. destruct Hm as [-> | ->]; naive_solver.
  - rewrite lookup_insert_ne by done. naive_solver.
Qed.

Lemma not_another_Ok present expected e u : not_another present expected e = Ok u -> present = None \/ present = Some expected.
Proof. unfold not_another, ensure. destruct present; [|by left]. case_bool_decide; naive_solver. Qed.

Lemma register_contract_adds c : adds (index_register_contract c) (fun _ => False).
Proof.
  intros i i' a Hi. unfold index_register_contract. run_index. destruct (contract_index i !! c) as [ci|] eqn:E; [intros [= <- <-]; split; [done|]; intros f; tauto|].
  destruct (insert_map _ _ _ _) as [m|] eqn:Em; [|done]. apply insert_map_Ok in Em as ->. intros [= <- <-]. split; [done|]. intros f.
  destruct f as [| | | |c' o opout|]; cbn; [tauto..| |tauto]. destruct (decide (c' = c)) as [->|Hne].
  - rewrite lookup_insert_eq, E. split; [|naive_solver]. intros (ci & [= <-] & (s & Hs & _)). cbn in Hs. by rewrite lookup_empty in Hs.
  - rewrite lookup_insert_ne by done. tauto.
Qed.

Lemma register_bundle_adds b w c : adds (register_bundle b w c) (fun f => f = F_witness b w \/ f = F_contract b c).
Proof.
  intros i i' a Hi. unfold register_bundle. run_index.
  destruct (not_another _ _ _) as [u|] eqn:Ec; [|done]. apply not_another_Ok in Ec.
  destruct (insert_map _ _ _ (bundle_witness_index i)) as [m|] eqn:Em; [|done]. apply insert_map_Ok in Em as ->. cbn.
  destruct (push_elem _ _ _) as [s|] eqn:Es; [|done]. pose proof (push_elem_Ok _ _ _ _ Es) as Hs. cbn.
  destruct (insert_map _ _ _ _) as [m|] eqn:Em; [|done]. apply insert_map_Ok in Em as ->. intros [= <- <-]. split; [done|]. intros f.
  destruct f as [| |b' w'|b' c'| |]; cbn; [naive_solver..| | |naive_solver|naive_solver].
  - rewrite insert_insert_eq. rewrite (at_key_insert _ _ _ _ w _ Hs); [naive_solver|].
    destruct (bundle_witness_index i !! b); [by left|by right].
  - rewrite insert_fact by done. naive_solver.
Qed.

Lemma register_operation_adds o b : adds (register_operation o b) (fun f => f = F_op o b).
Proof.
  intros i i' a Hi. unfold register_operation. run_index.
  destruct (not_another _ _ _) as [u|] eqn:Ec; [|done]. apply not_another_Ok in Ec.
  destruct (insert_map _ _ _ _) as [m|] eqn:Em; [|done]. apply insert_map_Ok in Em as ->. intros [= <- <-]. split; [done|]. intros f.
  destruct f; cbn; [|naive_solver..]. rewrite insert_fact by done. naive_solver.
Qed.

Lemma register_spending_adds o b : adds (register_spending o b) (fun f => f = F_child o b).
Proof.
  intros i i' a Hi. unfold register_spending. run_index.
  destruct (op_bundle_children_index i !! o) as [s|] eqn:E.
  - destruct (push_elem _ _ _) as [s'|] eqn:Es; [|done]. pose proof (push_elem_Ok _ _ _ _ Es) as Hs. intros [= <- <-]. split; [done|]. intros f.
    destruct f; cbn; [naive_solver| |naive_solver..]. rewrite (at_key_insert _ _ _ _ b _ Hs) by (by left). naive_solver.
  - destruct (insert_map _ _ _ _) as [m|] eqn:Em; [|done]. apply insert_map_Ok in Em as ->. intros [= <- <-]. split; [done|]. intros f.
    destruct f; cbn; [naive_solver| |naive_solver..].
    rewrite (at_key_insert _ _ ∅ _ b); [naive_solver| |by right]. intros y. set_solver.
Qed.

Lemma add_terminal_adds seal opout : adds (add_terminal seal opout) (fun f => f = F_terminal seal opout).
Proof.
  intros i i' a Hi. unfold add_terminal. run_index. destruct (terminal_index i !! seal) as [s|] eqn:E.
  - destruct (push_elem _ _ _) as [s'|] eqn:Es; [|done]. pose proof (push_elem_Ok _ _ _ _ Es) as Hs. cbn.
    unfold index_ok in Hi. pose proof (map_size_delete_Some seal (terminal_index i) (mk_is_Some _ _ E)) as Hd.
    pose proof (map_size_ne_0_lookup_2 (terminal_index i) seal (mk_is_Some _ _ E)) as Hn.
    unfold insert_confined. rewrite (proj2 (Z.ltb_lt _ _)) by lia. cbn [default from_option].
    rewrite insert_delete_eq. intros [= <- <-]. split.
    { unfold index_ok. cbn. by rewrite map_size_insert_Some by (by eexists). }
    intros f. destruct f; cbn; [naive_solver..|]. rewrite (at_key_insert _ _ _ _ opout _ Hs) by (by left). naive_solver.
  - unfold insert_map, insert_confined. destruct (_ <? LARGE) eqn:El; [|done]. apply Z.ltb_lt in El. intros [= <- <-]. split.
    { unfold index_ok. cbn. rewrite map_size_insert_None by done. lia. }
    intros f. destruct f; cbn; [naive_solver..|].
    rewrite (at_key_insert _ _ ∅ _ opout); [naive_solver| |by right]. intros y. set_solver.
Qed.

(** A fact of some item of a list, with the number of the item *)
Definition of_item {A} (g : nat -> A -> fact -> Prop) (no : nat) (l : list A) (f : fact) : Prop :=
  exists k a, l !! k = Some a /\ g (no + k)%nat a f.

Lemma of_item_cons {A} (g : nat -> A -> fact -> Prop) no x l f : of_item g no (x :: l) f <-> g no x f \/ of_item g (S no) l f.
Proof.
  unfold of_item. split.
  - intros ([|k] & a & Ha & Hg); cbn in Ha.
    + injection Ha as ->. left. by rewrite Nat.add_0_r in Hg.
    + right. exists k, a. split; [done|]. by replace (S no + k)%nat with (no + S k)%nat by lia.
  - intros [Hg|(k & a & Ha & Hg)].
    + exists 0%nat, x. split; [done|]. by rewrite Nat.add_0_r.
    + exists (S k), a. split; [done|]. by replace (no + S k)%nat with (S no + k)%nat by lia.
Qed.

Definition terminal_fact {State Seal} (opid : OpId) (ty : AssignmentType) (no : nat) (a : Assign Seal State) (f : fact) : Prop :=
  exists seal st, a = ConfidentialSeal seal st /\ f = F_terminal seal (mkOpout opid ty (Z.of_nat no mod 65536)).

Definition outpoint_fact {State Seal} (seal_output : Seal -> result IndexError Outpoint) (c : ContractId) (opid : OpId)
    (ty : AssignmentType) (no : nat) (a : Assign Seal State) (f : fact) : Prop :=
  exists seal st o, a = Revealed seal st /\ seal_output seal = Ok o /\
    f = F_outpoint c o (mkOpout opid ty (Z.of_nat no mod 65536)).

Lemma extend_terminals_adds {State Seal} (l : list (Assign Seal State)) no opid ty :
  adds (extend_terminals l no opid ty) (of_item (terminal_fact opid ty) no l).
Proof.
  revert no. induction l as [|a l IH]; intros no; cbn [extend_terminals].
  - eapply adds_equiv; [apply adds_ret|]. intros f. split; [done|]. by intros (k & a & Ha & _).
  - eapply adds_equiv; [eapply adds_bind; [|intros _; apply IH]|intros f; symmetry; apply of_item_cons].
    destruct a as [seal st|seal st].
    + eapply adds_equiv; [apply adds_ret|]. intros f. split; [done|]. by intros (? & ? & ? & _).
    + eapply adds_equiv; [apply add_terminal_adds|]. intros f. unfold terminal_fact. naive_solver.
Qed.

Lemma add_outpoint_Ok o opout m m' : add_outpoint o opout m = Ok m' -> forall o' x,
  at_key m' o' x <-> at_key m o' x \/ (o' = o /\ x = opout).
Proof.
  unfold add_outpoint. destruct (m !! o) as [s|] eqn:E.
  - rewrite result_bind_Ok. intros (s' & Hs & [= <-]) o' x. apply (at_key_insert _ _ s); [by apply (push_elem_Ok MEDIUM)|by left].
  - intros ->%insert_map_Ok o' x. apply (at_key_insert _ _ ∅); [set_solver|by right].
Qed.

Lemma index_revealed_adds {State Seal} seal_output c (l : list (Assign Seal State)) no opid ty :
  adds (index_revealed seal_output c l no opid ty) (of_item (outpoint_fact seal_output c opid ty) no l).
Proof.
  revert no. induction l as [|a l IH]; intros no; cbn [index_revealed].
  - eapply adds_equiv; [apply adds_ret|]. intros f. split; [done|]. by intros (k & a & Ha & _).
  - eapply adds_equiv; [eapply adds_bind; [|intros _; apply IH]|intros f; symmetry; apply of_item_cons].
    destruct a as [seal st|seal st].
    2: { eapply adds_equiv; [apply adds_ret|]. intros f. split; [done|]. by intros (? & ? & ? & ? & _). }
    intros i i' u Hi. run_index. destruct (seal_output seal) as [o|] eqn:Eo; [|done].
    destruct (contract_index i !! c) as [ci|] eqn:Ec; [|done]. cbn.
    destruct (add_outpoint _ _ _) as [m|] eqn:Em; [|done]. pose proof (add_outpoint_Ok _ _ _ _ Em) as Hm.
    intros [= <- <-]. split; [done|]. intros f. unfold outpoint_fact.
    destruct f as [| | | |c' o' x|]; cbn; [naive_solver..| |naive_solver].
    destruct (decide (c' = c)) as [->|Hne].
    + rewrite lookup_insert_eq, Ec. split.
      * intros (? & [= <-] & [Hk|[-> ->]]%Hm); [left; eauto|right; eauto 10].
      * intros [(? & [= <-] & Hk)|(seal' & st' & o2 & [= <- <-] & Ho2 & [= -> ->])].
        -- eexists. split; [done|]. cbn. apply Hm. by left.
        -- eexists. split; [done|]. cbn. apply Hm. right. split; [congruence|done].
    + rewrite lookup_insert_ne by done. naive_solver.
Qed.

(** The facts of the assignments of an operation *)
Definition assign_fact {State Seal} (seal_output : Seal -> result IndexError Outpoint) (c : ContractId) (opid : OpId)
    (ty : AssignmentType) (no : nat) (a : Assign Seal State) (f : fact) : Prop :=
  outpoint_fact seal_output c opid ty no a f \/ terminal_fact opid ty no a f.

Lemma index_assignments_adds {State Seal} seal_output c (l : list (Assign Seal State)) opid ty :
  adds (index_assignments seal_output c l opid ty) (of_item (assign_fact seal_output c opid ty) 0 l).
Proof.
  intros i i' u Hi. unfold index_assignments. unfold mbind at 1, SE_bind at 1, get at 1. unfold mbind at 1, SE_bind at 1, lift at 1.
  destruct (contract_index i !! c) as [ci|]; [|done]. cbn [ok_or]. intros Hr.
  assert (adds (index_revealed seal_output c l 0 opid ty ;; extend_terminals l 0 opid ty)
    (of_item (assign_fact seal_output c opid ty) 0 l)) as Ha; [|by apply (Ha i i' u)].
  eapply adds_equiv; [apply adds_bind; [apply index_revealed_adds|intros _; apply extend_terminals_adds]|].
  intros f. unfold of_item, assign_fact. naive_solver.
Qed.

Definition typed_fact {Seal} (seal_output : Seal -> result IndexError Outpoint) (c : ContractId) (opid : OpId)
    (ty : AssignmentType) (a : TypedAssigns Seal) : fact -> Prop :=
  match a with
  | Declarative l => of_item (assign_fact seal_output c opid ty) 0 l
  | Fungible l => of_item (assign_fact seal_output c opid ty) 0 l
  | Structured l => of_item (assign_fact seal_output c opid ty) 0 l
  end.

Definition assignments_fact {Seal} (seal_output : Seal -> result IndexError Outpoint) (c : ContractId) (opid : OpId)
    (m : Assignments Seal) (f : fact) : Prop :=
  exists ty a, m !! ty = Some a /\ typed_fact seal_output c opid ty a f.

Definition transition_fact (c : ContractId) (b : BundleId) (w : Txid) (k : KnownTransition) (f : fact) : Prop :=
  f = F_op (kt_opid k) b \/
  (exists input, input ∈ t_inputs (kt_transition k) /\ f = F_child (opout_op input) b) \/
  assignments_fact (fun seal => Ok (to_output_seal_or_default seal w)) c (kt_opid k) (t_assignments (kt_transition k)) f.

Section exact.
Context `{OperationIds} `{ContainerIds}.

Definition genesis_fact (c : ContractId) (genesis : Genesis) (f : fact) : Prop :=
  assignments_fact (fun seal => ok_or (seal_outpoint seal) (IE_Panic (Abort "genesis seals always have outpoint")))
    c (genesis_id genesis) (g_assignments genesis) f.

Definition bundle_fact (c : ContractId) (bundle : TransitionBundle) (w : Txid) (f : fact) : Prop :=
  f = F_witness (bundle_id bundle) w \/ f = F_contract (bundle_id bundle) c \/
  exists k, k ∈ known_transitions bundle /\ transition_fact c (bundle_id bundle) w k f.

Lemma assignments_adds {Seal} seal_output c opid (m : Assignments Seal) (index : AssignmentType * TypedAssigns Seal -> SE MemIndex IndexError unit) :
  (forall ty a, adds (index (ty, a)) (typed_fact seal_output c opid ty a)) ->
  adds (for_each (entries m) index) (assignments_fact seal_output c opid m).
Proof.
  intros Hi. eapply adds_equiv; [apply (adds_each _ _ (fun x => typed_fact seal_output c opid x.1 x.2)); by intros [ty a] _|].
  intros f. unfold assignments_fact. split.
  - intros ([ty a] & Ha%elem_of_entries & Hf). eauto.
  - intros (ty & a & Ha & Hf). exists (ty, a). by split; [apply elem_of_entries|].
Qed.

Lemma index_genesis_adds c genesis : adds (index_genesis c genesis) (genesis_fact c genesis).
Proof.
  unfold index_genesis. cbv zeta. apply assignments_adds. intros ty a.
  destruct a as [l|l|l]; apply index_assignments_adds.
Qed.

Lemma index_bundle_adds c bundle w : adds (index_bundle c bundle w) (bundle_fact c bundle w).
Proof.
  unfold index_bundle. cbv zeta. eapply adds_equiv; [apply adds_bind; [apply register_bundle_adds|intros _]|].
  { apply (adds_each _ _ (transition_fact c (bundle_id bundle) w)). intros k _. unfold index_transition. cbv zeta.
    eapply adds_equiv; [apply adds_bind; [apply register_operation_adds|intros _; apply adds_bind; [|intros _]]|].
    - apply (adds_each _ _ (fun input f => f = F_child (opout_op input) (bundle_id bundle))). intros input _.
      eapply adds_equiv; [apply adds_bind; [apply register_spending_adds|intros _; apply adds_ret]|]. cbn. tauto.
    - apply assignments_adds. intros ty a. destruct a as [l|l|l]; apply index_assignments_adds.
    - intros f. unfold transition_fact. tauto. }
  intros f. unfold bundle_fact. tauto.
Qed.

(** C19. When a consignment is indexed, the index holds what it held and exactly what the
    consignment says: the bundle of each known operation, the bundles that spend an
    operation, the witnesses and the contract of each bundle, and the operation outputs
    of each outpoint and concealed seal. *)
Theorem index_exact genesis bundles i i' : index_ok i -> index_consignment genesis bundles i = (i', Ok tt) ->
  index_ok i' /\ forall f, holds i' f <-> holds i f \/ genesis_fact (genesis_id genesis) genesis f \/
    exists bundle w, (bundle, w) ∈ bundles /\ bundle_fact (genesis_id genesis) bundle w f.
Proof.
  assert (adds (index_consignment genesis bundles) (fun f => False \/ genesis_fact (genesis_id genesis) genesis f \/
    exists x, x ∈ bundles /\ bundle_fact (genesis_id genesis) x.1 x.2 f)) as Ha.
  { unfold index_consignment. cbv zeta. apply adds_bind; [apply register_contract_adds|intros _].
    apply adds_bind; [apply index_genesis_adds|intros _]. apply adds_each. intros [bundle w] _. apply index_bundle_adds. }
  intros Hi Hr. destruct (Ha i i' tt Hi Hr) as [Hi' Hf]. split; [done|]. intros f. rewrite Hf. split.
  - intros [?|[[]|[?|([b w] & ? & ?)]]]; eauto 8.
  - intros [?|[?|(b & w & ? & ?)]]; [by left|by right; right; left|]. do 3 right. by exists (b, w).
Qed.

End exact.
