(* ===== verification/OpsStash.v ===== *)
(** * rgb-ops: the stash (persistence/stash.rs, persistence/memory.rs, contract/merge_reveal.rs)

    The stash keeps geneses, bundles and witnesses.  What comes in again is merged with
    what is there, so that revealed data are not concealed by a later consignment.  The
    merkle blocks of witnesses are those of MpcBlock, merged by [merge_reveal] of MpcMerge. *)

From S2P Require Import Prelude Layer1 MpcMerkle MpcBlock MpcTree MpcMerge AluNumber AluLib RgbTypes RgbOrder RgbSchema RgbIsa RgbLogic RgbValidator OpsState.
Local Open Scope Z_scope.

(** ** Merging operations (contract/merge_reveal.rs) *)

Inductive MergeRevealError :=
| OperationMismatch (a b : OpId)
| SignatureMismatch (opid : OpId)
| TxidMismatch (a b : Txid)
| AssignmentsDifferentKeys
| MergePanic (why : string).

(** Anything and a revealed assignment make a revealed one. *)
Definition merge_assign {Seal State} (a other : Assign Seal State) : Assign Seal State :=
  match other with Revealed _ _ => other | ConfidentialSeal _ _ => a end.

(** [zip]: what has no counterpart stays. *)
Fixpoint merge_assigns {Seal State} (l other : list (Assign Seal State)) : list (Assign Seal State) :=
  match l, other with
  | a :: l', b :: other' => merge_assign a b :: merge_assigns l' other'
  | _, _ => l
  end.

Definition merge_typed {Seal} (a other : TypedAssigns Seal) : result MergeRevealError (TypedAssigns Seal) :=
  match a, other with
  | Declarative l, Declarative l' => Ok (Declarative (merge_assigns l l'))
  | Fungible l, Fungible l' => Ok (Fungible (merge_assigns l l'))
  | Structured l, Structured l' => Ok (Structured (merge_assigns l l'))
  | _, _ => Err (MergePanic "Assignments::consensus_commitments is broken")
  end.

Definition merge_assignments {Seal} (m other : Assignments Seal) : result MergeRevealError (Assignments Seal) :=
  try_fold (fun (m : gmap AssignmentType (TypedAssigns Seal)) '(ty, other_typed) =>
    typed ← ok_or (m !! ty) AssignmentsDifferentKeys;
    typed' ← merge_typed typed other_typed;
    Ok (<[ty := typed']> m)) m (entries other).

Definition with_g_assignments (a : Assignments GenesisSeal) (g : Genesis) : Genesis :=
  mkGenesis (g_ffv g) (g_schema_id g) (g_timestamp g) (g_issuer g) (g_chain_net g) (g_seal_closing_strategy g)
    (g_metadata g) (g_globals g) a.
Definition with_t_assignments (a : Assignments GraphSeal) (sig : option string) (t : Transition) : Transition :=
  mkTransition (t_ffv t) (t_contract_id t) (t_nonce t) (t_transition_type t) (t_metadata t) (t_globals t) (t_inputs t) a sig.

Section merge.
Context `{OperationIds}.

(** [MergeReveal for Genesis] *)
Definition merge_genesis (g other : Genesis) : result MergeRevealError Genesis :=
  ensure (bool_decide (genesis_id g = genesis_id other)) (OperationMismatch (genesis_id g) (genesis_id other)) ;;
  a ← merge_assignments (g_assignments g) (g_assignments other);
  Ok (with_g_assignments a g).

(** [MergeReveal for Transition] *)
Definition merge_transition (t other : Transition) : result MergeRevealError Transition :=
  ensure (bool_decide (transition_id t = transition_id other)) (OperationMismatch (transition_id t) (transition_id other)) ;;
  a ← merge_assignments (t_assignments t) (t_assignments other);
  sig ← match t_signature t, t_signature other with
    | None, None => Ok None
    | Some sig, None => Ok (Some sig)
    | None, Some sig => Ok (Some sig)
    | Some sig1, Some sig2 =>
        if String.eqb sig1 sig2 then Ok (Some sig1) else Err (SignatureMismatch (transition_id t))
    end;
  Ok (with_t_assignments a sig t).

(** [iter_mut().find(..)]: the first transition with the identifier is merged. *)
Fixpoint merge_known_one (l : list KnownTransition) (other : KnownTransition) : result MergeRevealError (list KnownTransition) :=
  match l with
  | [] => Ok [other]
  | kt :: l' =>
      if String.eqb (kt_opid kt) (kt_opid other)
      then t ← merge_transition (kt_transition kt) (kt_transition other); Ok (mkKnown (kt_opid kt) t :: l')
      else l'' ← merge_known_one l' other; Ok (kt :: l'')
  end.

(** [MergeReveal for TransitionBundle] *)
Definition merge_bundle (b other : TransitionBundle) : result MergeRevealError TransitionBundle :=
  l ← try_fold merge_known_one (known_transitions b) (known_transitions other);
  Ok (mkBundle (input_map b) l).

End merge.

(** ** Witnesses of seals (containers/anchors.rs) *)

Section seal_witness.
Context `{BitcoinTx} `{!DbcProofs} `{!EqDecision Dbc} `{MerkleIds}.

Inductive PubWitness := PW_Txid (txid : Txid) | PW_Tx (tx : Tx).

Definition pw_txid (w : PubWitness) : Txid := match w with PW_Txid txid => txid | PW_Tx tx => compute_txid tx end.

(** [MergeReveal for PubWitness]: the first test is the equality of [PubWitness], which
    compares identifiers, and the second returns when the identifiers differ.  What
    follows them in the source, and would take over the transaction, is not reached. *)
Definition merge_pub_witness (w other : PubWitness) : result MergeRevealError PubWitness :=
  if String.eqb (pw_txid w) (pw_txid other) then Ok w
  else Err (TxidMismatch (pw_txid w) (pw_txid other)).

Record SealWitness := mkSealWitness { sw_public : PubWitness; sw_merkle_block : MerkleBlock; sw_dbc_proof : Dbc }.

Inductive SealWitnessMergeError :=
| MpcMismatch (e : Fault MergeError)
| WitnessMergeError (e : MergeRevealError)
| DbcMismatch.

Definition sw_witness_id (w : SealWitness) : Txid := pw_txid (sw_public w).

(** [SealWitness::merge_reveal] *)
Definition merge_seal_witness (w other : SealWitness) : result SealWitnessMergeError SealWitness :=
  ensure (bool_decide (sw_dbc_proof w = sw_dbc_proof other)) DbcMismatch ;;
  public ← map_err WitnessMergeError (merge_pub_witness (sw_public w) (sw_public other));
  '(block, _) ← map_err MpcMismatch (merge_reveal (sw_merkle_block w) (sw_merkle_block other));
  Ok (mkSealWitness public block (sw_dbc_proof w)).

(** [SealWitness::known_bundle_ids] *)
Definition known_bundle_ids (w : SealWitness) : list BundleId := (map_to_list (known_messages (sw_merkle_block w))).*2.

End seal_witness.

(** ** The stash in memory *)

(** The commitment of a seal: a tagged hash *)
Class SealHash := { conceal_seal : GraphSeal -> SecretSeal }.

(** [TypeSystem::extend] of strict-types *)
Class TypeSystemExtend `{TypeLibrary} := { ts_extend : TypeSystem -> TypeSystem -> option TypeSystem }.

(** [TypedAssigns::reveal_seal], [TransitionBundle::reveal_seal] (operation/assignments.rs, bundle.rs) *)
Section reveal.
Context `{SealHash} `{ContainerIds}.

Definition reveal_assign {State} (revealed : GraphSeal) (a : Assign GraphSeal State) : Assign GraphSeal State :=
  match a with
  | ConfidentialSeal seal state => if String.eqb seal (conceal_seal revealed) then Revealed revealed state else a
  | Revealed _ _ => a
  end.

Definition reveal_typed (seal : GraphSeal) (a : TypedAssigns GraphSeal) : TypedAssigns GraphSeal :=
  match a with
  | Declarative v => Declarative (reveal_assign seal <$> v)
  | Fungible v => Fungible (reveal_assign seal <$> v)
  | Structured v => Structured (reveal_assign seal <$> v)
  end.

Definition reveal_seal (id : BundleId) (seal : GraphSeal) (b : TransitionBundle) : TransitionBundle :=
  if negb (String.eqb (bundle_id b) id) then b else
  mkBundle (input_map b) ((fun k => mkKnown (kt_opid k)
    (with_t_assignments (reveal_typed seal <$> t_assignments (kt_transition k)) (t_signature (kt_transition k)) (kt_transition k)))
    <$> known_transitions b).

End reveal.

Section stash.
Context `{TypeLibrary} `{!TypeSystemExtend} `{OperationIds} `{ContainerIds} `{SealHash}.
Context `{BitcoinTx} `{!DbcProofs} `{!EqDecision Dbc} `{MerkleIds} (lib_id : Lib -> string).

(** [WitnessBundle], with the fields of its anchor *)
Record WitnessBundle := mkWitnessBundle {
  wb_pub_witness : PubWitness;
  wb_mpc_proof : MpcBlock.MerkleProof;
  wb_dbc_proof : Dbc;
  wb_bundle : TransitionBundle;
}.

(** [containers::Consignment] *)
Record StockConsignment := mkStockConsignment {
  sc_schema : Schema;
  sc_types : TypeSystem;
  sc_scripts : list Lib;
  sc_genesis : Genesis;
  sc_terminals : list (BundleId * list SecretSeal);
  sc_bundles : list WitnessBundle;
}.

Definition sc_contract_id (c : StockConsignment) : ContractId := genesis_id (sc_genesis c).

(** The set of secret seals is the list of its elements. *)
Record MemStash := mkMemStash {
  st_schemata : gmap SchemaId Schema;
  st_geneses : gmap ContractId Genesis;
  st_bundles : gmap BundleId TransitionBundle;
  st_witnesses : gmap Txid SealWitness;
  st_secret_seals : list GraphSeal;
  st_type_system : TypeSystem;
  st_libs : gmap string Lib;
}.

Inductive StashInconsistency :=
| StashLibAbsent (id : string)
| StashContractAbsent (id : ContractId)
| StashSchemaAbsent (id : SchemaId)
| StashWitnessAbsent (id : Txid)
| StashBundleAbsent (id : BundleId)
| WitnessMissesContract (witness_id : Txid) (bundle_id : BundleId) (contract_id : ContractId) (method : CloseMethod).

Inductive StashError :=
| StashInconsistent (e : StashInconsistency)
| StashMerge (e : SealWitnessMergeError)
| StashMergeReveal (e : MergeRevealError)
| StashAnchor (e : Fault InvalidProof)
| StashTypes
| StashTooManyLibs (id : SchemaId)
| StashOversize.

Definition st_genesis (s : MemStash) (id : ContractId) : result StashError Genesis :=
  ok_or (st_geneses s !! id) (StashInconsistent (StashContractAbsent id)).
Definition st_bundle (s : MemStash) (id : BundleId) : result StashError TransitionBundle :=
  ok_or (st_bundles s !! id) (StashInconsistent (StashBundleAbsent id)).
Definition st_witness (s : MemStash) (id : Txid) : result StashError SealWitness :=
  ok_or (st_witnesses s !! id) (StashInconsistent (StashWitnessAbsent id)).
Definition st_schema (s : MemStash) (id : SchemaId) : result StashError Schema :=
  ok_or (st_schemata s !! id) (StashInconsistent (StashSchemaAbsent id)).
(** [seal_secret] *)
Definition seal_secret (s : MemStash) (secret : SecretSeal) : option GraphSeal :=
  snd <$> list_find (fun seal => conceal_seal seal = secret) (st_secret_seals s).

Definition TINY : Z := 2 ^ 8 - 1.
Definition stash_insert `{Countable K} {A} (max : Z) (k : K) (v : A) (m : gmap K A) : result StashError (gmap K A) :=
  ok_or (insert_confined max k v m) StashOversize.

Definition replace_schema (schema : Schema) : SE MemStash StashError unit := fun s =>
  match st_schemata s !! schema_id schema with
  | Some _ => (s, Ok tt)
  | None => match stash_insert TINY (schema_id schema) schema (st_schemata s) with
            | Ok m => (mkMemStash m (st_geneses s) (st_bundles s) (st_witnesses s) (st_secret_seals s) (st_type_system s) (st_libs s), Ok tt)
            | Err e => (s, Err e)
            end
  end.
Definition replace_genesis (g : Genesis) : SE MemStash StashError unit := fun s =>
  match stash_insert SMALL (genesis_id g) g (st_geneses s) with
  | Ok m => (mkMemStash (st_schemata s) m (st_bundles s) (st_witnesses s) (st_secret_seals s) (st_type_system s) (st_libs s), Ok tt)
  | Err e => (s, Err e)
  end.
Definition replace_bundle (b : TransitionBundle) : SE MemStash StashError unit := fun s =>
  match stash_insert LARGE (bundle_id b) b (st_bundles s) with
  | Ok m => (mkMemStash (st_schemata s) (st_geneses s) m (st_witnesses s) (st_secret_seals s) (st_type_system s) (st_libs s), Ok tt)
  | Err e => (s, Err e)
  end.
Definition replace_witness (w : SealWitness) : SE MemStash StashError unit := fun s =>
  match stash_insert LARGE (sw_witness_id w) w (st_witnesses s) with
  | Ok m => (mkMemStash (st_schemata s) (st_geneses s) (st_bundles s) m (st_secret_seals s) (st_type_system s) (st_libs s), Ok tt)
  | Err e => (s, Err e)
  end.
Definition consume_types (types : TypeSystem) : SE MemStash StashError unit := fun s =>
  match ts_extend (st_type_system s) types with
  | Some ts => (mkMemStash (st_schemata s) (st_geneses s) (st_bundles s) (st_witnesses s) (st_secret_seals s) ts (st_libs s), Ok tt)
  | None => (s, Err StashTypes)
  end.
Definition replace_lib (lib : Lib) : SE MemStash StashError unit := fun s =>
  match stash_insert SMALL (lib_id lib) lib (st_libs s) with
  | Ok m => (mkMemStash (st_schemata s) (st_geneses s) (st_bundles s) (st_witnesses s) (st_secret_seals s) (st_type_system s) m, Ok tt)
  | Err e => (s, Err e)
  end.
(** [add_secret_seal] *)
Definition add_secret_seal (seal : GraphSeal) : SE MemStash StashError unit := fun s =>
  if Z.of_nat (length (st_secret_seals s)) <? LARGE
  then (mkMemStash (st_schemata s) (st_geneses s) (st_bundles s) (st_witnesses s)
          (if decide (seal ∈ st_secret_seals s) then st_secret_seals s else st_secret_seals s ++ [seal])
          (st_type_system s) (st_libs s), Ok tt)
  else (s, Err StashOversize).

(** ** Taking in consignments (persistence/stash.rs) *)

Definition consume_bundle (b : TransitionBundle) : SE MemStash StashError unit :=
  s ← get;
  b' ← lift (match st_bundles s !! bundle_id b with
             | Some known => map_err StashMergeReveal (merge_bundle known b)
             | None => Ok b
             end);
  replace_bundle b'.

Definition consume_witness (w : SealWitness) : SE MemStash StashError unit :=
  s ← get;
  w' ← lift (match st_witnesses s !! sw_witness_id w with
             | Some known => map_err StashMerge (merge_seal_witness known w)
             | None => Ok w
             end);
  replace_witness w'.

Definition consume_witness_bundle (contract_id : ContractId) (wb : WitnessBundle) : SE MemStash StashError unit :=
  consume_bundle (wb_bundle wb) ;;
  block ← lift (map_err StashAnchor (block_with (wb_mpc_proof wb) contract_id (bundle_id (wb_bundle wb))));
  consume_witness (mkSealWitness (wb_pub_witness wb) block (wb_dbc_proof wb)).

Definition consume_kit (types : TypeSystem) (scripts : list Lib) (schemata : list Schema) : SE MemStash StashError unit :=
  consume_types types ;;
  for_each scripts replace_lib ;;
  for_each schemata replace_schema.

(** [Consignment::reveal_terminal_seals] with the seals of the stash *)
Definition resolve_secrets (s : MemStash) (c : StockConsignment) : StockConsignment :=
  mkStockConsignment (sc_schema c) (sc_types c) (sc_scripts c) (sc_genesis c) (sc_terminals c)
    ((fun wb => mkWitnessBundle (wb_pub_witness wb) (wb_mpc_proof wb) (wb_dbc_proof wb)
       (foldl (fun b '(id, secrets) =>
          foldl (fun b secret => match seal_secret s secret with Some seal => reveal_seal id seal b | None => b end) b secrets)
        (wb_bundle wb) (sc_terminals c))) <$> sc_bundles c).

Definition stash_consume_consignment (c : StockConsignment) : SE MemStash StashError unit :=
  s ← get;
  genesis ← lift (match st_geneses s !! sc_contract_id c with
                  | Some g => map_err StashMergeReveal (merge_genesis g (sc_genesis c))
                  | None => Ok (sc_genesis c)
                  end);
  replace_genesis genesis ;;
  for_each (sc_bundles c) (consume_witness_bundle (sc_contract_id c)) ;;
  consume_kit (sc_types c) (sc_scripts c) [sc_schema c].

End stash.
