(* ===== verification/OpsStock.v ===== *)
(** * rgb-ops: the stock (persistence/stock.rs)

    A stock is a stash, the state of contracts and an index.  Here is how it takes in
    consignments and fascias, and how it follows the chain: [update_witnesses] asks for
    the status of the witnesses and marks the bundles that became invalid or valid again
    with it.  The recursion over descendants and ancestors takes fuel; the bundles of a
    contract are acyclic, and [invalidation_exact] gives the fuel that is enough.

    Ordered sets are walked in the order of their elements. *)

From S2P Require Import Prelude Layer1 MpcMerkle MpcBlock MpcTree MpcMerge AluNumber AluLib RgbTypes RgbOrder RgbSchema RgbIsa RgbLogic RgbValidator OpsState OpsIndex OpsStash.
Local Open Scope Z_scope.

(** A set of identifiers in the order of iteration *)
Definition sorted_set (s : gset string) : list string := merge_sort (fun a b => str_cmp a b <> Gt) (elements s).

Section stock.
Context `{TypeLibrary} `{!TypeSystemExtend} `{OperationIds} `{ContainerIds} `{SealHash}.
Context `{BitcoinTx} `{!DbcProofs} `{!EqDecision Dbc} `{MerkleIds} (lib_id : Lib -> string).

Record Stock := mkStock { stash : MemStash; state : MemState; index : MemIndex }.

Inductive ConsignError :=
| TooManyTerminals
| InvalidSecretSealsNumber
| TooManyBundles
| UnrelatedTransition (opid : OpId)
| ConcealedState (bundle_id : BundleId) (opid : OpId)
| UnrelatedContract (contract_id : ContractId)
| ConcealedTransition (bundle_id : BundleId) (opid : OpId)
| UnorderedTransition (bundle_id : BundleId) (opid : OpId).

Inductive StockError :=
| InvalidInput (e : ConsignError)
| BundlesInconsistency
| StockStash (e : StashError)
| StockState (e : StateError)
| StockIndex (e : IndexError)
| WitnessUnresolved (id : Txid) (e : WitnessResolverError)
| InvalidBundle (contract_id : ContractId) (bundle_id : BundleId)
| StockPanic (p : panic)
| OutOfFuel.

(** A call on a part of the stock; what it wrote stays when it fails. *)
Definition in_stash {A} (m : SE MemStash StashError A) : SE Stock StockError A := fun s =>
  let '(x, r) := m (stash s) in (mkStock x (state s) (index s), map_err StockStash r).
Definition in_state {A} (m : SE MemState StateError A) : SE Stock StockError A := fun s =>
  let '(x, r) := m (state s) in (mkStock (stash s) x (index s), map_err StockState r).
Definition in_index {A} (m : SE MemIndex IndexError A) : SE Stock StockError A := fun s =>
  let '(x, r) := m (index s) in (mkStock (stash s) (state s) x, map_err StockIndex r).

(** ** Taking in consignments *)

(** [Stock::consume_consignment]: in memory a transaction begins and commits without
    effect, and nothing is rolled back when a step fails. *)
Definition consume_consignment (c : StockConsignment) (resolver : ResolveWitness) : SE Stock StockError unit :=
  s ← get;
  let c := resolve_secrets (stash s) c in
  let bundles := map (fun wb => (wb_bundle wb, pw_txid (wb_pub_witness wb))) (sc_bundles c) in
  in_state (update_from_consignment (sc_schema c) (sc_genesis c) bundles resolver) ;;
  in_index (index_consignment (sc_genesis c) bundles) ;;
  in_stash (stash_consume_consignment lib_id c).

(** [TransitionBundle::check_opid_commitments] *)
Definition check_opid_commitments (b : TransitionBundle) : bool :=
  forallb (fun k => existsb (fun '(_, opid) => String.eqb opid (kt_opid k)) (map_to_list (input_map b))) (known_transitions b).

(** [Fascia] *)
Record Fascia := mkFascia { seal_witness : SealWitness; fascia_bundles : gmap ContractId TransitionBundle }.

(** [Stock::consume_fascia] *)
Definition consume_fascia (f : Fascia) (witness_ord : Txid -> result WitnessResolverError WitnessOrd) : SE Stock StockError unit :=
  let witness_id := sw_witness_id (seal_witness f) in
  in_stash (consume_witness (seal_witness f)) ;;
  for_each (sorted_by str_cmp (fascia_bundles f)) (fun '(contract_id, bundle) =>
    lift (ensure (check_opid_commitments bundle) (InvalidBundle contract_id (bundle_id bundle))) ;;
    in_index (index_bundle contract_id bundle witness_id) ;;
    in_state (update_from_bundle contract_id bundle witness_id witness_ord) ;;
    in_stash (consume_bundle bundle)).

(** [Stock::store_secret_seal] *)
Definition store_secret_seal (seal : GraphSeal) : SE Stock StockError unit := in_stash (add_secret_seal seal).

(** ** Following the chain *)

Definition known_transitions_opids (b : TransitionBundle) : gset OpId := list_to_set (map kt_opid (known_transitions b)).

(** The bundles that spend an operation; [None] when it has no children yet *)
Definition children_of (i : MemIndex) (opid : OpId) : result StockError (option (gset BundleId)) :=
  match bundle_ids_children_of_op i opid with
  | Ok ids => Ok (Some ids)
  | Err (IE_Inconsistency (BundleAbsent _)) => Ok None
  | Err e => Err (StockIndex e)
  end.

(** The bundle of an operation; [None] is the genesis *)
Definition parent_of (i : MemIndex) (opid : OpId) : result StockError (option BundleId) :=
  match bundle_id_for_op i opid with
  | Ok id => Ok (Some id)
  | Err (IE_Inconsistency (BundleAbsent _)) => Ok None
  | Err e => Err (StockIndex e)
  end.

(** The loop over the operations of a bundle: it returns at the first one that has no
    children. *)
Fixpoint invalidate_children (invalidate : BundleId -> SE Stock StockError unit) (opids : list OpId) : SE Stock StockError unit :=
  match opids with
  | [] => mret tt
  | opid :: rest =>
      s ← get;
      children ← lift (children_of (index s) opid);
      match children with
      | None => mret tt
      | Some ids => for_each (sorted_set ids) invalidate ;; invalidate_children invalidate rest
      end
  end.

(** [Stock::set_bundles_as_invalid] *)
Fixpoint set_bundles_as_invalid (fuel : nat) (id : BundleId) : SE Stock StockError unit :=
  match fuel with
  | O => fail OutOfFuel
  | S fuel' =>
      in_state (update_bundle id false) ;;
      s ← get;
      bundle ← lift (map_err StockStash (st_bundle (stash s) id));
      invalidate_children (set_bundles_as_invalid fuel') (sorted_set (known_transitions_opids bundle))
  end.

(** The variables of [maybe_update_bundles_as_valid]: the stock, the invalid bundles and
    those that may become valid *)
Record Revalidation := mkRevalidation { rv_stock : Stock; rv_invalid : gset BundleId; rv_maybe : gset BundleId }.

Definition on_stock {A} (m : SE Stock StockError A) : SE Revalidation StockError A := fun r =>
  let '(s, x) := m (rv_stock r) in (mkRevalidation s (rv_invalid r) (rv_maybe r), x).

(** The loop over the inputs of a transition *)
Fixpoint valid_inputs (revalidate : BundleId -> SE Revalidation StockError bool) (valid : bool) (inputs : list Opout)
    : SE Revalidation StockError bool :=
  match inputs with
  | [] => mret valid
  | input :: rest =>
      r ← get;
      parent ← lift (parent_of (index (rv_stock r)) (opout_op input));
      match parent with
      | None => valid_inputs revalidate valid rest
      | Some parent =>
          if bool_decide (parent ∈ rv_maybe r) then
            valid ← revalidate parent;
            valid_inputs revalidate valid rest
          else if bool_decide (parent ∈ rv_invalid r) then mret false
          else valid_inputs revalidate valid rest
      end
  end.

Fixpoint valid_transitions (revalidate : BundleId -> SE Revalidation StockError bool) (valid : bool) (l : list KnownTransition)
    : SE Revalidation StockError bool :=
  match l with
  | [] => mret valid
  | k :: rest =>
      valid ← valid_inputs revalidate valid (t_inputs (kt_transition k));
      valid_transitions revalidate valid rest
  end.

(** [Stock::maybe_update_bundles_as_valid] *)
Fixpoint maybe_update_bundles_as_valid (fuel : nat) (id : BundleId) : SE Revalidation StockError bool :=
  match fuel with
  | O => fail OutOfFuel
  | S fuel' =>
      r ← get;
      bundle ← lift (map_err StockStash (st_bundle (stash (rv_stock r)) id));
      valid ← valid_transitions (maybe_update_bundles_as_valid fuel') true (known_transitions bundle);
      modify (fun r => mkRevalidation (rv_stock r) (rv_invalid r) (rv_maybe r ∖ {[ id ]})) ;;
      (if valid : bool then
         on_stock (in_state (update_bundle id true)) ;;
         modify (fun r => mkRevalidation (rv_stock r) (rv_invalid r ∖ {[ id ]}) (rv_maybe r)) ;;
         for_each (known_transitions bundle) (fun k =>
           r ← get;
           children ← lift (children_of (index (rv_stock r)) (kt_opid k));
           for_each (sorted_set (default ∅ children)) (fun child =>
             maybe_update_bundles_as_valid fuel' child ;; mret tt))
       else mret tt) ;;
      mret valid
  end.

(** ** The status of the witnesses *)

(** The variables of the first phase of [update_witnesses]: the stock, the bundles of the
    witnesses that became invalid and valid, the statuses, and the report *)
Record Update := mkUpdate {
  up_stock : Stock;
  became_invalid : gmap Txid (gset BundleId);
  became_valid : gmap Txid (gset BundleId);
  up_witnesses : gmap Txid WitnessOrd;
  succeeded : nat;
  failed : gmap Txid StockError;
}.

Definition in_update {A} (m : SE Stock StockError A) : SE Update StockError A := fun u =>
  let '(s, r) := m (up_stock u) in
  (mkUpdate s (became_invalid u) (became_valid u) (up_witnesses u) (succeeded u) (failed u), r).

Definition bundle_validity (old new : WitnessOrd) : option bool :=
  match old, new with Archived, _ => Some true | _, Archived => Some false | _, _ => None end.

(** [Stock::update_witness_ord]; the new status is written to the map of statuses. *)
Definition update_witness_ord (resolver : ResolveWitness) (id : Txid) (ord : WitnessOrd) : SE Update StockError unit :=
  status ← lift (map_err (WitnessUnresolved id) (inner_resolve resolver id));
  let new := status_witness_ord status in
  if decide (ord = new) then mret tt else
  u ← get;
  match bundle_validity ord new with
  | None => mret tt
  | Some valid =>
      w ← lift (map_err StockStash (st_witness (stash (up_stock u)) id));
      let bundle_ids := list_to_set (known_bundle_ids w) in
      modify (fun u => if valid : bool
        then mkUpdate (up_stock u) (became_invalid u) (<[id := bundle_ids]> (became_valid u)) (up_witnesses u) (succeeded u) (failed u)
        else mkUpdate (up_stock u) (<[id := bundle_ids]> (became_invalid u)) (became_valid u) (up_witnesses u) (succeeded u) (failed u))
  end ;;
  in_update (in_state (upsert_witness id new)) ;;
  modify (fun u => mkUpdate (up_stock u) (became_invalid u) (became_valid u) (<[id := new]> (up_witnesses u)) (succeeded u) (failed u)).

(** A witness that the update passes over *)
Definition passed_over (after_height : Z) (force_witnesses : list Txid) (id : Txid) (ord : WitnessOrd) : bool :=
  match ord with
  | Ignored => negb (bool_decide (id ∈ force_witnesses))
  | Mined pos => pos_height pos <? after_height
  | _ => false
  end.

(** One round of the loop: an error is recorded in the report. *)
Definition update_round (resolver : ResolveWitness) (after_height : Z) (force_witnesses : list Txid) (u : Update)
    (x : Txid * WitnessOrd) : Update :=
  let '(id, ord) := x in
  if passed_over after_height force_witnesses id ord then u else
  match update_witness_ord resolver id ord u with
  | (u', Ok _) => mkUpdate (up_stock u') (became_invalid u') (became_valid u') (up_witnesses u') (S (succeeded u')) (failed u')
  | (u', Err e) => mkUpdate (up_stock u') (became_invalid u') (became_valid u') (up_witnesses u') (succeeded u') (<[id := e]> (failed u'))
  end.

(** The second phase: bundles without a valid witness *)
Definition invalidate_bundles (fuel : nat) (witnesses : gmap Txid WitnessOrd) (ids : list BundleId) : SE Stock StockError unit :=
  for_each ids (fun id =>
    s ← get;
    '(bundle_witness_ids, _) ← lift (map_err StockIndex (bundle_info (index s) id));
    none_valid ← lift (try_fold (fun none w =>
        if none : bool then
          ord ← ok_or (witnesses !! w) (StockPanic (Abort "called Option::unwrap() on a None value"));
          Ok (negb (is_valid ord))
        else Ok false) true (sorted_set bundle_witness_ids));
    if none_valid : bool then set_bundles_as_invalid fuel id else mret tt).

(** The third phase starts with the invalid bundles of the state. *)
Definition revalidating {A} (maybe : gset BundleId) (m : SE Revalidation StockError A) : SE Stock StockError A := fun s =>
  let '(r, x) := m (mkRevalidation s (ms_invalid_bundles (state s)) maybe) in (rv_stock r, x).

(** [Stock::update_witnesses] *)
Definition update_witnesses (fuel : nat) (resolver : ResolveWitness) (after_height : Z) (force_witnesses : list Txid)
    : SE Stock StockError (nat * gmap Txid StockError) :=
  s ← get;
  let after_height := if after_height =? 0 then 1 else after_height in
  let witnesses := ms_witnesses (state s) in
  let u := foldl (update_round resolver after_height force_witnesses) (mkUpdate s ∅ ∅ witnesses 0 ∅)
             (sorted_by str_cmp witnesses) in
  put (up_stock u) ;;
  for_each (sorted_by str_cmp (became_invalid u)) (fun '(_, ids) =>
    invalidate_bundles fuel (up_witnesses u) (sorted_set ids)) ;;
  revalidating (⋃ (map_to_list (became_valid u)).*2)
    (for_each (sorted_by str_cmp (became_valid u)) (fun '(_, ids) =>
       for_each (sorted_set ids) (fun id => maybe_update_bundles_as_valid fuel id ;; mret tt))) ;;
  mret (succeeded u, failed u).

(** [Stock::upsert_witness] *)
Definition stock_upsert_witness (id : Txid) (ord : WitnessOrd) : SE Stock StockError unit := in_state (upsert_witness id ord).

End stock.
