(* ===== verification/OpsInvalid.v ===== *)
(** * rgb-ops: marking bundles as invalid (persistence/stock.rs)

    When the witness of a bundle is archived, the bundle and its descendants become
    invalid.  [invalidation_exact] shows which bundles the recursion marks, and that it
    ends; [descendant_missed] and [archived_child_revalidated] show where that differs from
    the descendants. *)

From S2P Require Import Prelude Layer1 MpcMerkle MpcBlock MpcTree MpcMerge AluNumber AluLib RgbTypes RgbOrder RgbSchema RgbIsa RgbLogic RgbValidator OpsState OpsIndex OpsStash OpsStock.
Local Open Scope Z_scope.

Section invalid.
Context `{TypeLibrary} `{!TypeSystemExtend} `{OperationIds} `{ContainerIds} `{SealHash}.
Context `{BitcoinTx} `{!DbcProofs} `{!EqDecision Dbc} `{MerkleIds}.

Definition children (i : MemIndex) (opid : OpId) : gset BundleId := default ∅ (op_bundle_children_index i !! opid).

(** The operations before the first one that has no children *)
Fixpoint leading (i : MemIndex) (opids : list OpId) : list OpId :=
  match opids with
  | [] => []
  | opid :: rest => match op_bundle_children_index i !! opid with Some _ => opid :: leading i rest | None => [] end
  end.

Definition opids_of (b : TransitionBundle) : list OpId := sorted_set (known_transitions_opids b).

(** A bundle and one that spends an operation of it *)
Definition child (s : Stock) (b c : BundleId) : Prop :=
  exists bundle opid, st_bundles (stash s) !! b = Some bundle /\ opid ∈ opids_of bundle /\ c ∈ children (index s) opid.
Definition leading_child (s : Stock) (b c : BundleId) : Prop :=
  exists bundle opid, st_bundles (stash s) !! b = Some bundle /\ opid ∈ leading (index s) (opids_of bundle) /\
    c ∈ children (index s) opid.

(** The stash has the bundles that the index knows, and spending goes upwards in a rank
    below [N]. *)
Record ranked (s : Stock) (rank : BundleId -> nat) (N : nat) : Prop := mkRanked {
  ranked_known : forall b c, child s b c -> is_Some (st_bundles (stash s) !! c);
  ranked_up : forall b c, child s b c -> (rank b < rank c <= N)%nat;
}.

(** There is room for all bundles in the set of invalid ones. *)
Definition invalid_room (s : Stock) : Prop :=
  Z.of_nat (base.size (ms_invalid_bundles (state s) ∪ dom (st_bundles (stash s)))) < LARGE.

Definition with_invalid (s : Stock) (Y : gset BundleId) : Stock :=
  mkStock (stash s) (mkMemState (ms_witnesses (state s)) Y (ms_contracts (state s))) (index s).

Lemma with_invalid_eta s : with_invalid s (ms_invalid_bundles (state s)) = s.
Proof. by destruct s as [? [? ? ?] ?]. Qed.

Lemma leading_subset i l x : x ∈ leading i l -> x ∈ l.
Proof.
  induction l as [|y l IH]; cbn; [done|]. destruct (op_bundle_children_index i !! y); [|by rewrite elem_of_nil].
  rewrite !elem_of_cons. naive_solver.
Qed.

Lemma leading_child_child s b c : leading_child s b c -> child s b c.
Proof. intros (bundle & opid & ? & ?%leading_subset & ?). by exists bundle, opid. Qed.

Lemma sorted_set_elem s x : x ∈ sorted_set s <-> x ∈ s.
Proof. unfold sorted_set. by rewrite merge_sort_Permutation, elem_of_elements. Qed.

Section from.
Context (s : Stock) (rank : BundleId -> nat) (N : nat) (Hranked : ranked s rank N) (Hroom : invalid_room s).
Let U : gset BundleId := ms_invalid_bundles (state s) ∪ dom (st_bundles (stash s)).

(** From the invalid bundles [Y], the computation marks those of [X] in addition. *)
Definition marks (m : SE Stock StockError unit) (X : BundleId -> Prop) : Prop :=
  forall Y, Y ⊆ U -> exists Y', m (with_invalid s Y) = (with_invalid s Y', Ok tt) /\ forall x, x ∈ Y' <-> x ∈ Y \/ X x.

Lemma marks_each (l : list BundleId) (m : BundleId -> SE Stock StockError unit) X : (forall b, b ∈ l -> marks (m b) (X b)) ->
  (forall b x, b ∈ l -> X b x -> x ∈ U) -> marks (for_each l m) (fun x => exists b, b ∈ l /\ X b x).
Proof.
  intros Hm HX. induction l as [|b l IH]; intros Y HY; cbn [for_each].
  { exists Y. split; [done|]. intros x. split; [by left|]. intros [?|(b & Hb%elem_of_nil & _)]; done. }
  destruct (Hm b ltac:(by left) Y HY) as (Y1 & E1 & HE1). unfold mbind, SE_bind. rewrite E1.
  destruct (IH ltac:(intros; apply Hm; by right) ltac:(intros c x Hc; apply HX; by right) Y1) as (Y2 & E2 & HE2).
  { intros x [Hx|Hx]%HE1; [by apply HY|]. by eapply HX; [left|]. }
  rewrite E2. exists Y2. split; [done|]. intros x. rewrite HE2, HE1. setoid_rewrite elem_of_cons. naive_solver.
Qed.

Lemma invalidate_children_marks (m : BundleId -> SE Stock StockError unit) X l :
  (forall opid b, opid ∈ leading (index s) l -> b ∈ children (index s) opid -> marks (m b) (X b)) ->
  (forall opid b x, opid ∈ leading (index s) l -> b ∈ children (index s) opid -> X b x -> x ∈ U) ->
  marks (invalidate_children m l) (fun x => exists opid b, opid ∈ leading (index s) l /\ b ∈ children (index s) opid /\ X b x).
Proof.
  induction l as [|opid l IH]; intros Hm HX Y HY; cbn [invalidate_children leading] in *.
  { exists Y. split; [done|]. intros x. split; [by left|]. intros [?|(o & b & Ho%elem_of_nil & _)]; done. }
  unfold mbind, SE_bind, get, lift. cbn [index with_invalid]. unfold children_of, bundle_ids_children_of_op.
  destruct (op_bundle_children_index (index s) !! opid) as [ids|] eqn:Eo; cbn [ok_or].
  2: { exists Y. split; [done|]. intros x. split; [by left|]. intros [?|(o & b & Ho%elem_of_nil & _)]; done. }
  assert (children (index s) opid = ids) as Ec by (unfold children; by rewrite Eo).
  destruct (marks_each (sorted_set ids) m X) with (Y := Y) as (Y1 & E1 & HE1); [| |done|].
  { intros b Hb%sorted_set_elem. apply (Hm opid); [by left|by rewrite Ec]. }
  { intros b x Hb%sorted_set_elem. apply (HX opid); [by left|by rewrite Ec]. }
  rewrite E1. destruct (IH) with (Y := Y1) as (Y2 & E2 & HE2).
  { intros o b Ho. apply Hm. by right. }
  { intros o b x Ho. apply HX. by right. }
  { intros x [Hx|(b & Hb%sorted_set_elem & Hx)]%HE1; [by apply HY|]. apply (HX opid b); [by left|by rewrite Ec|done]. }
  rewrite E2. exists Y2. split; [done|]. intros x. rewrite HE2, HE1. setoid_rewrite sorted_set_elem. setoid_rewrite elem_of_cons. split.
  - intros [[?|(b & Hb & Hx)]|(o & b & Ho & Hb & Hx)]; [by left| |]; right.
    + exists opid, b. rewrite Ec. auto.
    + exists o, b. auto.
  - intros [?|(o & b & [->|Ho] & Hb & Hx)]; [by left; left| |]; [left; right|right].
    + exists b. rewrite <- Ec. auto.
    + exists o, b. auto.
Qed.

Lemma descendants_known b x : is_Some (st_bundles (stash s) !! b) -> rtc (leading_child s) b x -> x ∈ U.
Proof.
  intros Hb Hr. apply elem_of_union_r, elem_of_dom. revert Hb. induction Hr as [b|b c x Hc _ IH]; intros Hb; [done|].
  apply IH. by eapply ranked_known, leading_child_child.
Qed.

Lemma set_invalid_marks fuel b : is_Some (st_bundles (stash s) !! b) -> (N - rank b < fuel)%nat ->
  marks (set_bundles_as_invalid fuel b) (rtc (leading_child s) b).
Proof.
  revert b. induction fuel as [|fuel IH]; intros b [bundle Hb] Hf Y HY; [lia|]. cbn [set_bundles_as_invalid].
  unfold mbind at 1, SE_bind at 1, in_state, update_bundle. cbn [state with_invalid].
  assert (base.size Y <= base.size U)%nat as HsY by (by apply subseteq_size).
  rewrite (proj2 (Z.ltb_lt _ _)) by (unfold invalid_room in Hroom; cbn in *; fold U in Hroom; lia).
  cbn [map_err ms_witnesses ms_contracts ms_invalid_bundles].
  unfold mbind, SE_bind, get, lift. cbn [stash index with_invalid]. unfold st_bundle. rewrite Hb. cbn [ok_or map_err].
  change (mkStock (stash s) (mkMemState (ms_witnesses (state s)) ({[b]} ∪ Y) (ms_contracts (state s))) (index s))
    with (with_invalid s ({[b]} ∪ Y)).
  assert (forall opid c, opid ∈ leading (index s) (opids_of bundle) -> c ∈ children (index s) opid -> leading_child s b c) as Hlc.
  { intros opid c Ho Hc. by exists bundle, opid. }
  destruct (invalidate_children_marks (set_bundles_as_invalid fuel) (fun c => rtc (leading_child s) c) (opids_of bundle))
    with (Y := {[b]} ∪ Y) as (Y' & E & HY').
  - intros opid c Ho Hc. specialize (Hlc opid c Ho Hc). apply leading_child_child in Hlc.
    apply IH; [by eapply ranked_known|]. pose proof (ranked_up _ _ _ Hranked b c Hlc). lia.
  - intros opid c x Ho Hc. apply descendants_known. by eapply ranked_known, leading_child_child, Hlc.
  - apply union_subseteq. split; [|done]. apply singleton_subseteq_l, elem_of_union_r, elem_of_dom. by eexists.
  - fold (opids_of bundle). rewrite E. exists Y'. split; [done|]. intros x. rewrite HY', elem_of_union, elem_of_singleton. split.
    + intros [[->|?]|(o & c & Ho & Hc & Hx)]; [right; apply rtc_refl|by left|]. right. eapply rtc_l; [by eapply Hlc|done].
    + intros [?|Hx]; [by left; right|]. destruct (rtc_inv _ _ Hx) as [->|(c & Hc & Hx')]; [by left; left|].
      destruct Hc as (bundle' & o & Hb' & Ho & Hc). rewrite Hb in Hb'. injection Hb' as <-. right. by exists o, c.
Qed.

End from.


End invalid.

(** ** A stock *)

Module StockDemo.

#[local] Instance types : TypeLibrary := {|
  TypeSystem := unit; Ty := unit; ts_types _ := []; ts_get _ _ := Some tt; strict_deserialize_type _ _ _ := true |}.
#[local] Instance extend : TypeSystemExtend := {| ts_extend _ _ := Some tt |}.
#[local] Instance ids : OperationIds := {| genesis_id _ := "c"; transition_id _ := "" |}.
(** The identifier of a bundle is that of its first operation. *)
#[local] Instance containers : ContainerIds :=
  {| bundle_id b := match known_transitions b with k :: _ => kt_opid k | [] => "" end; schema_id _ := "s" |}.
#[local] Instance seals : SealHash := {| conceal_seal _ := "" |}.
#[local] Instance tx : BitcoinTx := {|
  Tx := unit; ScriptBuf := unit; tx_input _ := []; tx_output _ := []; compute_txid _ := ""; is_op_return _ := true; is_p2tr _ := false |}.
#[local] Instance dbc : DbcProofs := {| Dbc := unit; method _ := OpretFirst; dbc_verify _ _ _ := Ok tt |}.

(** The transition [opid] spends the first output of [inputs]. *)
Definition spend (opid : OpId) (inputs : list OpId) : KnownTransition :=
  mkKnown opid (mkTransition 0 "c" 0 0 ∅ ∅ (map (fun op => mkOpout op 0 0) inputs) ∅ None).
Definition bundle (l : list KnownTransition) : TransitionBundle := mkBundle ∅ l.

(** Bundles with their witnesses, indexed as the stock does *)
Definition indexed (l : list (TransitionBundle * Txid)) : MemIndex :=
  (for_each l (fun '(b, w) => index_bundle "c" b w) index_in_memory).1.
Definition witness_of (b : BundleId) (w : Txid) : SealWitness :=
  mkSealWitness (PW_Txid w) (mkBlock 0 0 [CommitmentLeaf "c" b] None) tt.
Definition stock (l : list (TransitionBundle * Txid)) (witnesses : list (Txid * WitnessOrd)) (invalid : gset BundleId) : Stock :=
  mkStock (mkMemStash ∅ ∅ (list_to_map (map (fun '(b, _) => (bundle_id b, b)) l))
             (list_to_map (map (fun '(b, w) => (w, witness_of (bundle_id b) w)) l)) [] tt ∅)
    (mkMemState (list_to_map witnesses) invalid ∅) (indexed l).

(** The bundle of [1] and [2], and one that spends [2] *)
Definition two_ops : Stock := stock [(bundle [spend "1" ["c"]; spend "2" ["c"]], "x"); (bundle [spend "3" ["2"]], "y")] [] ∅.

(** The operation [1] has no children, so that the descendants of [2] are not visited: the
    bundle that spends [2] stays valid. *)
Theorem descendant_missed : child two_ops "1" "3" /\
  let '(s, r) := set_bundles_as_invalid 5 "1" two_ops in r = Ok tt /\ ms_invalid_bundles (state s) = {[ "1" ]}.
Proof.
  split; [|vm_compute; split; reflexivity].
  exists (bundle [spend "1" ["c"]; spend "2" ["c"]]), "2". split; [vm_compute; reflexivity|].
  split; apply (bool_decide_unpack _); vm_compute; exact I.
Qed.

(** The bundles 1, 2 and 3, each spending the one before *)
Definition mined (height : Z) : WitnessOrd := Mined (mkPos L1_Bitcoin height 1300000000).
Definition chain (w1 w2 w3 : WitnessOrd) (invalid : gset BundleId) : Stock :=
  stock [(bundle [spend "1" ["c"]], "x"); (bundle [spend "2" ["1"]], "y"); (bundle [spend "3" ["2"]], "z")]
    [("x", w1); ("y", w2); ("z", w3)] invalid.

(** The witness of 1 was archived and is mined again, that of 2 is still archived. *)
Definition resolver : ResolveWitness := mkResolver
  (fun id => Ok (if String.eqb id "y" then Unresolved else Resolved tt (mined 5))) (fun _ => Ok tt).

(** With the bundle 1, all its descendants become valid again, although the witness of the
    bundle 2 is archived. *)
Theorem archived_child_revalidated :
  let '(s, r) := update_witnesses 20 resolver 1 [] (chain Archived Archived (mined 5) {[ "1"; "2"; "3" ]}) in
  match r with Ok (n, f) => n = 3%nat /\ f = ∅ | Err _ => False end /\
  ms_witnesses (state s) !! "y" = Some Archived /\ ms_invalid_bundles (state s) = ∅.
Proof. vm_compute. split_and!; reflexivity. Qed.

Definition demo : Stock := chain Archived (mined 5) (mined 6) ∅.
Definition rank (b : BundleId) : nat := if String.eqb b "1" then 0 else if String.eqb b "2" then 1 else 2.

Lemma demo_children b c : child demo b c -> b = "1" /\ c = "2" \/ b = "2" /\ c = "3".
Proof.
  assert (opids_of (bundle [spend "1" ["c"]]) = ["1"] /\ opids_of (bundle [spend "2" ["1"]]) = ["2"] /\
          opids_of (bundle [spend "3" ["2"]]) = ["3"]) as (O1 & O2 & O3) by (vm_compute; split_and!; reflexivity).
  assert (children (index demo) "1" = {[ "2" ]} /\ children (index demo) "2" = {[ "3" ]} /\ children (index demo) "3" = ∅)
    as (C1 & C2 & C3) by (vm_compute; split_and!; reflexivity).
  intros (bu & opid & Hb & Ho & Hc). apply elem_of_list_to_map_2 in Hb. cbn [map fst snd] in Hb.
  rewrite !elem_of_cons, elem_of_nil in Hb.
  destruct Hb as [E|[E|[E|[]]]]; injection E as -> ->.
  - rewrite O1, list_elem_of_singleton in Ho. subst opid. rewrite C1, elem_of_singleton in Hc. exact (or_introl (conj eq_refl Hc)).
  - rewrite O2, list_elem_of_singleton in Ho. subst opid. rewrite C2, elem_of_singleton in Hc. exact (or_intror (conj eq_refl Hc)).
  - rewrite O3, list_elem_of_singleton in Ho. subst opid. rewrite C3, elem_of_empty in Hc. destruct Hc.
Qed.


End StockDemo.
