(* ===== verification/OpsWitness.v ===== *)
(** * rgb-ops: the statuses of witnesses after an update (persistence/stock.rs)

    [update_witnesses] writes the answer of the resolver for every witness it does not pass
    over, and leaves the others; marking bundles does not touch the statuses. *)

From S2P Require Import Prelude Layer1 MpcMerkle MpcBlock MpcTree MpcMerge AluNumber AluLib RgbTypes RgbOrder RgbSchema RgbIsa RgbLogic RgbValidator OpsState OpsIndex OpsStash OpsStock OpsInvalid.
Local Open Scope Z_scope.

(** ** Computations that keep a part of the state *)

Definition keeps_view {S E A V} (view : S -> V) (m : SE S E A) : Prop := forall s, view (m s).1 = view s.

Section keeps_view.
Context {S E V : Type} (view : S -> V).

Lemma view_ret {A} (a : A) : keeps_view view (mret (M := SE S E) a).
Proof. done. Qed.
Lemma view_lift {A} (r : result E A) : keeps_view view (lift (S := S) r).
Proof. done. Qed.
Lemma view_get : keeps_view view (get (S := S) (E := E)).
Proof. done. Qed.
Lemma view_modify f : (forall s, view (f s) = view s) -> keeps_view view (modify (E := E) f).
Proof. intros Hf s. apply Hf. Qed.
Lemma view_bind {A B} (m : SE S E A) (k : A -> SE S E B) : keeps_view view m -> (forall a, keeps_view view (k a)) ->
  keeps_view view (m ≫= k).
Proof.
  intros Hm Hk s. unfold mbind, SE_bind. specialize (Hm s). destruct (m s) as [s' [a|e]]; [|done]. cbn in Hm.
  by rewrite (Hk a s').
Qed.
Lemma view_each {A} (l : list A) (f : A -> SE S E unit) : (forall x, keeps_view view (f x)) -> keeps_view view (for_each l f).
Proof. intros Hf. induction l as [|x l IH]; [apply view_ret|]. apply view_bind; [apply Hf|by intros _]. Qed.
End keeps_view.

Create HintDb view.
#[export] Hint Resolve view_ret view_lift view_get : view.

(** Applies the rules along the structure of a computation. *)
Ltac keep := repeat first
  [ apply view_bind; [|intros ?] | apply view_each; intros ? | apply view_ret | apply view_lift | apply view_get
  | apply view_modify; intros ?; reflexivity | case_match ].

Section witnesses.
Context `{TypeLibrary} `{!TypeSystemExtend} `{OperationIds} `{ContainerIds} `{SealHash}.
Context `{BitcoinTx} `{!DbcProofs} `{!EqDecision Dbc} `{MerkleIds}.

Definition statuses_of (s : Stock) : gmap Txid WitnessOrd := ms_witnesses (state s).

Lemma mark_keeps id valid : keeps_view statuses_of (in_state (update_bundle id valid)).
Proof. intros s. unfold in_state, update_bundle. by repeat case_match; simplify_eq. Qed.

Lemma invalidate_children_keeps (m : BundleId -> SE Stock StockError unit) l : (forall b, keeps_view statuses_of (m b)) ->
  keeps_view statuses_of (invalidate_children m l).
Proof. intros Hm. induction l as [|o l IH]; cbn [invalidate_children]; keep; auto. Qed.

Lemma set_invalid_keeps fuel id : keeps_view statuses_of (set_bundles_as_invalid fuel id).
Proof.
  revert id. induction fuel as [|fuel IH]; intros id; [done|]. cbn [set_bundles_as_invalid].
  apply view_bind; [apply mark_keeps|intros _]. keep. by apply invalidate_children_keeps.
Qed.

Definition rv_statuses (r : Revalidation) : gmap Txid WitnessOrd := statuses_of (rv_stock r).

Lemma valid_inputs_keeps m v l : (forall b, keeps_view rv_statuses (m b)) -> keeps_view rv_statuses (valid_inputs m v l).
Proof. intros Hm. revert v. induction l as [|o l IH]; intros v; cbn [valid_inputs]; keep; auto. Qed.

Lemma valid_transitions_keeps m v l : (forall b, keeps_view rv_statuses (m b)) -> keeps_view rv_statuses (valid_transitions m v l).
Proof.
  intros Hm. revert v. induction l as [|k l IH]; intros v; cbn [valid_transitions]; [apply view_ret|].
  apply view_bind; [by apply valid_inputs_keeps|done].
Qed.

Lemma revalidate_keeps fuel id : keeps_view rv_statuses (maybe_update_bundles_as_valid fuel id).
Proof.
  revert id. induction fuel as [|fuel IH]; intros id; [done|]. cbn [maybe_update_bundles_as_valid].
  keep; try (by apply valid_transitions_keeps); try apply IH.
Qed.

Lemma invalidate_bundles_keeps fuel w ids : keeps_view statuses_of (invalidate_bundles fuel w ids).
Proof. unfold invalidate_bundles. keep. apply set_invalid_keeps. Qed.

Lemma revalidating_keeps {A} maybe (m : SE Revalidation StockError A) : keeps_view rv_statuses m ->
  keeps_view statuses_of (revalidating maybe m).
Proof.
  intros Hm s. unfold revalidating. specialize (Hm (mkRevalidation s (ms_invalid_bundles (state s)) maybe)).
  by destruct (m _).
Qed.

End witnesses.

(** ** The first phase *)

Section update.
Context `{TypeLibrary} `{!TypeSystemExtend} `{OperationIds} `{ContainerIds} `{SealHash}.
Context `{BitcoinTx} `{!DbcProofs} `{!EqDecision Dbc} `{MerkleIds}.
Context (resolver : ResolveWitness) (after_height : Z) (force_witnesses : list Txid).

(** The status that is written for a witness; [None] leaves what it had.  A change between
    valid and archived needs the witness in the stash. *)
Definition new_status (st : MemStash) (id : Txid) (ord : WitnessOrd) : option WitnessOrd :=
  if passed_over after_height force_witnesses id ord then None else
  match inner_resolve resolver id with
  | Err _ => None
  | Ok status =>
      let new := status_witness_ord status in
      if decide (ord = new) then None else
      match bundle_validity ord new with
      | None => Some new
      | Some _ => match st_witnesses st !! id with Some _ => Some new | None => None end
      end
  end.

Definition written_status (st : MemStash) (w : gmap Txid WitnessOrd) (x : Txid * WitnessOrd) : gmap Txid WitnessOrd :=
  match new_status st x.1 x.2 with Some new => <[x.1 := new]> w | None => w end.

Lemma update_witness_ord_writes u id ord : Z.of_nat (base.size (statuses_of (up_stock u))) < LARGE ->
  passed_over after_height force_witnesses id ord = false ->
  exists u' r, update_witness_ord resolver id ord u = (u', r) /\
    statuses_of (up_stock u') = written_status (stash (up_stock u)) (statuses_of (up_stock u)) (id, ord) /\
    stash (up_stock u') = stash (up_stock u).
Proof.
  intros Hs Hp. unfold written_status, new_status. cbn [fst snd]. rewrite Hp. unfold update_witness_ord.
  unfold mbind at 1, SE_bind at 1, lift at 1. destruct (inner_resolve resolver id) as [status|]; cbn [map_err]; [|by do 2 eexists].
  cbv zeta. case_decide; [by do 2 eexists|]. unfold mbind at 1, SE_bind at 1, get at 1.
  assert (forall u1, up_stock u1 = up_stock u -> exists u2,
    (in_update (in_state (upsert_witness id (status_witness_ord status))) ;; modify (E := StockError) (fun u =>
       mkUpdate (up_stock u) (became_invalid u) (became_valid u) (<[id := status_witness_ord status]> (up_witnesses u)) (succeeded u) (failed u))) u1 =
    (u2, Ok tt) /\ statuses_of (up_stock u2) = <[id := status_witness_ord status]> (statuses_of (up_stock u)) /\
    stash (up_stock u2) = stash (up_stock u)) as Hw.
  { intros u1 Hu. unfold mbind, SE_bind, in_update, in_state, upsert_witness. rewrite Hu. unfold insert_confined.
    unfold statuses_of in Hs. rewrite (proj2 (Z.ltb_lt _ _) Hs). cbn. eexists. split; [done|]. by split. }
  destruct (bundle_validity ord (status_witness_ord status)) as [valid|].
  2: { unfold mbind at 1, SE_bind at 1, mret at 1, SE_ret at 1. destruct (Hw u eq_refl) as (u2 & -> & E1 & E2). eauto. }
  unfold st_witness. unfold mbind at 1, SE_bind at 1. unfold mbind at 1, SE_bind at 1, lift at 1.
  destruct (st_witnesses (stash (up_stock u)) !! id) as [w|]; cbn [ok_or map_err]; [|by do 2 eexists].
  unfold modify at 1. match goal with |- context [(in_update _ ;; _) ?u1] => destruct (Hw u1) as (u2 & -> & E1 & E2) end.
  { by destruct valid. }
  eauto.
Qed.

Lemma update_round_writes u x : Z.of_nat (base.size (statuses_of (up_stock u))) < LARGE ->
  let u' := update_round resolver after_height force_witnesses u x in
  statuses_of (up_stock u') = written_status (stash (up_stock u)) (statuses_of (up_stock u)) x /\
  stash (up_stock u') = stash (up_stock u).
Proof.
  destruct x as [id ord]. intros Hs. unfold update_round.
  destruct (passed_over after_height force_witnesses id ord) eqn:Hp.
  { unfold written_status, new_status. cbn. by rewrite Hp. }
  destruct (update_witness_ord_writes u id ord Hs Hp) as (u' & r & -> & E1 & E2). by destruct r.
Qed.

Lemma update_rounds_write l u : Z.of_nat (base.size (statuses_of (up_stock u))) < LARGE ->
  (forall id, id ∈ l.*1 -> is_Some (statuses_of (up_stock u) !! id)) ->
  let u' := foldl (update_round resolver after_height force_witnesses) u l in
  statuses_of (up_stock u') = foldl (written_status (stash (up_stock u))) (statuses_of (up_stock u)) l /\
  stash (up_stock u') = stash (up_stock u).
Proof.
  revert u. induction l as [|x l IH]; intros u Hs Hl; cbn [foldl]; [done|].
  destruct (update_round_writes u x Hs) as [E1 E2].
  assert (forall id, is_Some (statuses_of (up_stock u) !! id) ->
    is_Some (written_status (stash (up_stock u)) (statuses_of (up_stock u)) x !! id)) as Hk.
  { intros id Hid. unfold written_status. destruct (new_status _ _ _); [|done].
    destruct (decide (id = x.1)) as [->|]; [rewrite lookup_insert_eq; by eexists|by rewrite lookup_insert_ne]. }
  destruct (IH (update_round resolver after_height force_witnesses u x)) as [E3 E4].
  - rewrite E1. unfold written_status. destruct (new_status _ _ _); [|done].
    rewrite map_size_insert_Some; [done|]. apply Hl. by left.
  - intros id Hid. rewrite E1. apply Hk, Hl. by right.
  - rewrite E3, E4, E1, E2. by split.
Qed.

Lemma written_statuses st l w id : NoDup l.*1 -> (forall ord, (id, ord) ∈ l -> w !! id = Some ord) ->
  foldl (written_status st) w l !! id =
  match list_to_map (M := gmap _ _) l !! id with
  | Some ord => Some (default ord (new_status st id ord)) | None => w !! id end.
Proof.
  revert w. induction l as [|[id' ord] l IH]; intros w; [done|]. cbn [fmap list_fmap fst foldl]. intros [Hni Hd]%NoDup_cons Hw.
  assert (written_status st w (id', ord) !! id = if decide (id' = id) then Some (default ord (new_status st id ord)) else w !! id) as E.
  { unfold written_status. cbn [fst snd]. destruct (decide (id' = id)) as [->|Hne].
    - destruct (new_status st id ord); [by rewrite lookup_insert_eq|]. cbn. apply Hw. by left.
    - destruct (new_status st id' ord); [by rewrite lookup_insert_ne|done]. }
  cbn [list_to_map foldr fst snd]. destruct (decide (id' = id)) as [->|Hne].
  - assert (forall l w, id ∉ l.*1 -> foldl (written_status st) w l !! id = w !! id) as Hout.
    { clear. induction l as [|[id' ord] l IH]; intros w; [done|]. cbn [fmap list_fmap fst foldl]. intros [Hne Hl]%not_elem_of_cons.
      rewrite IH by done. unfold written_status. cbn. by destruct (new_status _ _ _); [rewrite lookup_insert_ne|]. }
    by rewrite Hout, E, lookup_insert_eq.
  - rewrite lookup_insert_ne by done. rewrite IH; [by rewrite E|done|]. intros o Ho. rewrite E. apply Hw. by right.
Qed.

End update.

Section statuses.
Context `{TypeLibrary} `{!TypeSystemExtend} `{OperationIds} `{ContainerIds} `{SealHash}.
Context `{BitcoinTx} `{!DbcProofs} `{!EqDecision Dbc} `{MerkleIds}.


End statuses.

#[local] Existing Instances StockDemo.types StockDemo.extend StockDemo.ids StockDemo.containers StockDemo.seals StockDemo.tx StockDemo.dbc.

