(* ===== verification/OpsConsign.v ===== *)
(** * rgb-ops: consignments made from a stock (persistence/stock.rs)

    A consignment for a contract holds the operations that are asked for and their history
    down to the genesis: the stock walks the inputs of transitions, reveals each transition
    in its bundle and sorts the bundles.  [consignment_complete] shows that the history is
    closed under inputs, that a bundle comes after those it spends from, and how much fuel
    the walk takes.

    The order of a hash set and the type system are parameters.  The walk of the inputs
    takes fuel; a stack is a list with its top first. *)

From S2P Require Import Prelude Layer1 MpcMerkle MpcBlock MpcTree MpcMerge AluNumber AluInstr AluLib RgbTypes RgbOrder RgbSchema RgbIsa RgbLogic RgbValidator OpsState OpsIndex OpsStash OpsStock.
Local Open Scope Z_scope.

(** [Ord] of operation outputs *)
Definition opout_cmp (a b : Opout) : comparison :=
  then_cmp (str_cmp (opout_op a) (opout_op b)) (then_cmp (opout_ty a ?= opout_ty b) (opout_no a ?= opout_no b)).

Definition U16MAX : Z := 2 ^ 16 - 1.

(** [Schema::types], [Schema::libs] *)
Definition schema_types (s : Schema) : list SemId :=
  map (fun '(_, d) => md_sem_id d) (entries (meta_types s)) ++
  map (fun '(_, d) => gs_sem_id (global_state_schema d)) (entries (global_types s)) ++
  omap (fun '(_, d) => match owned_state_schema d with OS_Structured id => Some id | _ => None end) (entries (owned_types s)).
Definition schema_libs (s : Schema) : list string :=
  map site_lib (option_list (gsc_validator (s_genesis s)) ++
    omap (fun '(_, d) => tsc_validator (transition_schema d)) (entries (s_transitions s))).

(** The bundles of a consignment, with the heights of their witnesses *)
Abbreviation Consigned := (gmap BundleId (WitnessBundle * Z)).

(** The bundles that each bundle depends on *)
Abbreviation Dependencies := (gmap BundleId (gset BundleId)).

Section consign.
Context `{TypeLibrary} `{!TypeSystemExtend} `{OperationIds} `{ContainerIds} `{SealHash}.
Context `{BitcoinTx} `{!DbcProofs} `{!EqDecision Dbc} `{MerkleIds} `{Daggy}.

(** ** Bundles with the transitions that a consignment needs *)

Definition input_map_opids (b : TransitionBundle) : gset OpId := list_to_set (map_to_list (input_map b)).*2.

Definition known_transitions_contain_opid (b : TransitionBundle) (opid : OpId) : bool :=
  existsb (fun k => String.eqb (kt_opid k) opid) (known_transitions b).

Definition get_transition (b : TransitionBundle) (opid : OpId) : option Transition :=
  (fun '(_, k) => kt_transition k) <$> list_find (fun k => kt_opid k = opid) (known_transitions b).

(** [TransitionBundle::reveal_transition]: before the first child of the input map, if it
    is known, else at the end *)
Definition reveal_transition (b : TransitionBundle) (t : Transition) : result StockError TransitionBundle :=
  let opid := transition_id t in
  if negb (bool_decide (opid ∈ input_map_opids b)) then Err (InvalidInput (UnrelatedTransition opid)) else
  if known_transitions_contain_opid b opid then Ok b else
  let pos :=
    match list_find (fun '(opout, _) => opout_op opout = opid) (sorted_by opout_cmp (input_map b)) with
    | Some (_, (_, child_opid)) => fst <$> list_find (fun k => kt_opid k = child_opid) (known_transitions b)
    | None => None
    end in
  if U16MAX <=? Z.of_nat (length (known_transitions b)) then Err (StockPanic (Abort "same size as input map")) else
  Ok (mkBundle (input_map b)
    match pos with
    | Some pos => take pos (known_transitions b) ++ mkKnown opid t :: drop pos (known_transitions b)
    | None => known_transitions b ++ [mkKnown opid t]
    end).

(** [TransitionBundle::to_concealed_except] *)
Definition to_concealed_except (b : TransitionBundle) (opid : OpId) : result StockError TransitionBundle :=
  match base.filter (fun k => opid = kt_opid k) (known_transitions b) with
  | [] => Err (InvalidInput (UnrelatedTransition opid))
  | known => Ok (mkBundle (input_map b) known)
  end.

(** [Stock::transition] *)
Definition transition (s : Stock) (opid : OpId) : result StockError Transition :=
  bundle_id ← map_err StockIndex (bundle_id_for_op (index s) opid);
  bundle ← map_err StockStash (st_bundle (stash s) bundle_id);
  ok_or (get_transition bundle opid) (InvalidInput (ConcealedState bundle_id opid)).

Definition witness_height (ord : WitnessOrd) : result StockError Z :=
  match ord with
  | Mined pos => Ok (pos_height pos)
  | Tentative => Ok (2 ^ 32 - 2)
  | Ignored => Ok (2 ^ 32 - 1)
  | Archived => Err (StockPanic (Abort "select_valid_witness prevents this"))
  end.

(** [Stock::witness_bundle] *)
Definition witness_bundle (s : Stock) (id : BundleId) (opid : OpId) : result StockError (WitnessBundle * Z) :=
  '(witness_ids, contract_id) ← map_err StockIndex (bundle_info (index s) id);
  stored ← map_err StockStash (st_bundle (stash s) id);
  bundle ← to_concealed_except stored opid;
  '(witness_id, witness_ord) ← map_err StockState (select_valid_witness (state s) (sorted_set witness_ids));
  witness ← map_err StockStash (st_witness (stash s) witness_id);
  mpc_proof ← match to_merkle_proof (sw_merkle_block witness) contract_id with
              | Ok p => Ok p
              | Err (Fails _) => Err (StockStash (StashInconsistent
                  (WitnessMissesContract witness_id id contract_id (method (sw_dbc_proof witness)))))
              | Err (Panics why) => Err (StockPanic (Abort why))
              end;
  height ← witness_height witness_ord;
  Ok (mkWitnessBundle (sw_public witness) mpc_proof (sw_dbc_proof witness) bundle, height).

Definition with_bundle (wb : WitnessBundle) (b : TransitionBundle) : WitnessBundle :=
  mkWitnessBundle (wb_pub_witness wb) (wb_mpc_proof wb) (wb_dbc_proof wb) b.

(** [if let Some(..) = bundles.get_mut(..) { reveal } else { insert }] *)
Definition include_transition (s : Stock) (bundles : Consigned) (id : BundleId) (opid : OpId) (t : Transition)
    : result StockError Consigned :=
  match bundles !! id with
  | Some (wb, height) =>
      b ← reveal_transition (wb_bundle wb) t; Ok (<[id := (with_bundle wb b, height)]> bundles)
  | None => wb ← witness_bundle s id opid; Ok (<[id := wb]> bundles)
  end.

(** ** The order of bundles *)

Definition bundle_of_input (s : Stock) (input : Opout) : result StockError BundleId :=
  map_err StockIndex (bundle_id_for_op (index s) (opout_op input)).

Definition connect (input : Opout) (opid : OpId) (dag : option OpoutsDagInfo) : option OpoutsDagInfo :=
  connect_input_to_outputs_by_opid input opid <$> dag.
Definition register (k : KnownTransition) (dag : option OpoutsDagInfo) : option OpoutsDagInfo :=
  register_outputs (t_assignments (kt_transition k)) (kt_opid k) <$> dag.

(** The search for a bundle that comes before one it spends from; the result tells whether
    the search was left with [break 'outer]. *)
Fixpoint scan_inputs (s : Stock) (contract_id : ContractId) (positions : gmap BundleId nat) (i : nat) (opid : OpId)
    (inputs : list Opout) (dag : option OpoutsDagInfo) : result StockError (option OpoutsDagInfo * bool) :=
  match inputs with
  | [] => Ok (dag, false)
  | input :: rest =>
      let dag := connect input opid dag in
      if String.eqb (opout_op input) contract_id then scan_inputs s contract_id positions i opid rest dag else
      id ← bundle_of_input s input;
      match positions !! id with
      | Some pos => if (i <? pos)%nat then Ok (dag, true) else scan_inputs s contract_id positions i opid rest dag
      | None => scan_inputs s contract_id positions i opid rest dag
      end
  end.
Fixpoint scan_known (s : Stock) (contract_id : ContractId) (positions : gmap BundleId nat) (i : nat)
    (known : list KnownTransition) (dag : option OpoutsDagInfo) : result StockError (option OpoutsDagInfo * bool) :=
  match known with
  | [] => Ok (dag, false)
  | k :: rest =>
      '(dag, stop) ← scan_inputs s contract_id positions i (kt_opid k) (t_inputs (kt_transition k)) (register k dag);
      if stop : bool then Ok (dag, true) else scan_known s contract_id positions i rest dag
  end.
Fixpoint scan_bundles (s : Stock) (contract_id : ContractId) (positions : gmap BundleId nat) (i : nat)
    (l : list (BundleId * (WitnessBundle * Z))) (dag : option OpoutsDagInfo) : result StockError (option OpoutsDagInfo * bool) :=
  match l with
  | [] => Ok (dag, false)
  | (_, (wb, _)) :: rest =>
      '(dag, stop) ← scan_known s contract_id positions i (known_transitions (wb_bundle wb)) dag;
      if stop : bool then Ok (dag, true) else scan_bundles s contract_id positions (S i) rest dag
  end.

Definition depends (deps : Dependencies) (id : BundleId) : gset BundleId := default ∅ (deps !! id).

Definition note_input (s : Stock) (contract_id : ContractId) (positions : gmap BundleId nat) (id : BundleId) (opid : OpId)
    (x : Dependencies * option OpoutsDagInfo) (input : Opout) : result StockError (Dependencies * option OpoutsDagInfo) :=
  let '(deps, dag) := x in
  let dag := connect input opid dag in
  if String.eqb (opout_op input) contract_id then Ok (deps, dag) else
  input_id ← bundle_of_input s input;
  Ok (if bool_decide (is_Some (positions !! input_id) /\ input_id <> id)
      then <[id := {[ input_id ]} ∪ depends deps id]> deps else deps, dag).
Definition note_known (s : Stock) (contract_id : ContractId) (positions : gmap BundleId nat) (id : BundleId)
    (x : Dependencies * option OpoutsDagInfo) (k : KnownTransition) : result StockError (Dependencies * option OpoutsDagInfo) :=
  try_fold (note_input s contract_id positions id (kt_opid k)) (x.1, register k x.2) (t_inputs (kt_transition k)).
Definition note_bundle (s : Stock) (contract_id : ContractId) (positions : gmap BundleId nat)
    (x : Dependencies * option OpoutsDagInfo) (e : BundleId * (WitnessBundle * Z)) : result StockError (Dependencies * option OpoutsDagInfo) :=
  try_fold (note_known s contract_id positions e.1) x (known_transitions (wb_bundle e.2.1)).

(** The first remaining bundle whose dependencies are processed is moved, until none is left;
    each round takes one, so that their number bounds the rounds. *)
Fixpoint topological (rounds : nat) (deps : Dependencies) (sorted : list WitnessBundle) (remaining : list (BundleId * WitnessBundle))
    : result StockError (list WitnessBundle) :=
  match remaining, rounds with
  | [], _ => Ok sorted
  | _, O => Err OutOfFuel
  | _, S rounds' =>
      let processed : gset BundleId := list_to_set (map (fun wb => bundle_id (wb_bundle wb)) sorted) in
      match list_find (fun '(id, _) => depends deps id ⊆ processed) remaining with
      | Some (i, (_, wb)) => topological rounds' deps (sorted ++ [wb]) (delete i remaining)
      | None => Err BundlesInconsistency
      end
  end.

(** [sort_by_key] is stable. *)
Definition by_height (bundles : Consigned) : list (BundleId * (WitnessBundle * Z)) :=
  merge_sort (fun a b => (a.2.2 ?= b.2.2) <> Gt) (sorted_by str_cmp bundles).
Definition positions_of (l : list (BundleId * (WitnessBundle * Z))) : gmap BundleId nat :=
  list_to_map (imap (fun i e => (e.1, i)) l).

(** [Stock::sort_bundles] *)
Definition sort_bundles (s : Stock) (bundles : Consigned) (contract_id : ContractId) (build_opouts_dag : bool) (genesis : Genesis)
    : result StockError (list WitnessBundle * option (Dag * gmap Opout NodeIndex)) :=
  let dag := if build_opouts_dag
             then Some (register_outputs (g_assignments genesis) (genesis_id genesis) dag_info_new) else None in
  if (base.size bundles <=? 1)%nat then
    let l := map (fun e => e.2.1) (sorted_by str_cmp bundles) in
    Ok (l, to_opouts_dag_data <$> (build_dag (wb ← l; known_transitions (wb_bundle wb)) <$> dag))
  else
  let l := by_height bundles in
  let positions := positions_of l in
  '(dag, needs_reordering) ← scan_bundles s contract_id positions 0 l dag;
  if negb needs_reordering then Ok (map (fun e => e.2.1) l, to_opouts_dag_data <$> dag) else
  '(deps, dag) ← try_fold (note_bundle s contract_id positions) (∅, dag) l;
  sorted ← topological (length l) deps [] (map (fun e => (e.1, e.2.1)) l);
  Ok (sorted, to_opouts_dag_data <$> dag).


(** ** Consignments *)

(** The seals of a transition, concealed *)
Definition to_confidential_seal {State} (a : Assign GraphSeal State) : SecretSeal :=
  match a with Revealed seal _ => conceal_seal seal | ConfidentialSeal seal _ => seal end.
Definition to_confidential_seals (a : TypedAssigns GraphSeal) : list SecretSeal :=
  match a with
  | Declarative l => map to_confidential_seal l
  | Fungible l => map to_confidential_seal l
  | Structured l => map to_confidential_seal l
  end.

(** The variables of [consign_operations]; the parents are a stack, its top first. *)
Record Request := mkRequest {
  rq_bundles : Consigned;
  rq_parents : list OpId;
  rq_seals : gmap BundleId (gset SecretSeal);
}.

Definition input_ops (t : Transition) : list OpId := map opout_op (t_inputs t).

Definition request_operation (s : Stock) (contract_id : ContractId) (secret_seals : list SecretSeal) (witness_id : option Txid)
    (r : Request) (opid : OpId) : result StockError Request :=
  if String.eqb opid contract_id then Ok r else
  t ← transition s opid;
  id ← map_err StockIndex (bundle_id_for_op (index s) (transition_id t));
  skip ← match witness_id with
         | Some w => '(witness_ids, _) ← map_err StockIndex (bundle_info (index s) id); Ok (bool_decide (w ∉ witness_ids))
         | None => Ok false
         end;
  if skip : bool then Ok r else
  let seals := base.filter (fun seal => seal ∈ secret_seals) ('(_, a) ← entries (t_assignments t); to_confidential_seals a) in
  let sec := if bool_decide (seals = []) then rq_seals r
             else <[id := list_to_set seals ∪ default ∅ (rq_seals r !! id)]> (rq_seals r) in
  bundles ← include_transition s (rq_bundles r) id opid t;
  Ok (mkRequest bundles (rev (input_ops t) ++ rq_parents r) sec).

(** The loop over the parents *)
Fixpoint collect (fuel : nat) (s : Stock) (contract_id : ContractId) (bundles : Consigned) (seen : gset OpId) (parents : list OpId)
    : result StockError Consigned :=
  match parents, fuel with
  | [], _ => Ok bundles
  | _, O => Err OutOfFuel
  | opid :: rest, S fuel' =>
      if String.eqb opid contract_id then collect fuel' s contract_id bundles seen rest else
      if bool_decide (opid ∈ seen) then collect fuel' s contract_id bundles seen rest else
      t ← transition s opid;
      id ← map_err StockIndex (bundle_id_for_op (index s) (transition_id t));
      bundles ← include_transition s bundles id opid t;
      collect fuel' s contract_id bundles ({[ opid ]} ∪ seen) (rev (input_ops t) ++ rest)
  end.

(** [TypeSystem::extract] of strict_types, and the order of iteration of a hash set *)
Variable ts_extract : TypeSystem -> list SemId -> option TypeSystem.
Variable hash_order : gset OpId -> list OpId.

Definition CONSIGNMENT_MAX_LIBS : Z := 1024.

(** [Stash::extract] *)
Definition stash_extract (st : MemStash) (s : Schema) : result StashError (TypeSystem * gmap string Lib) :=
  types ← ok_or (ts_extract (st_type_system st) (schema_types s)) StashTypes;
  scripts ← try_fold (fun scripts id =>
    lib ← ok_or (st_libs st !! id) (StashInconsistent (StashLibAbsent id)); Ok (<[id := lib]> scripts)) ∅ (schema_libs s);
  ensure (Z.of_nat (base.size scripts) <=? CONSIGNMENT_MAX_LIBS) (StashTooManyLibs (schema_id s)) ;;
  Ok (types, scripts).

(** The terminals: at least one and at most 65535 seals of a bundle *)
Definition confined_terminals (seals : gmap BundleId (gset SecretSeal)) : result StockError (list (BundleId * list SecretSeal)) :=
  try_each (sorted_by str_cmp seals) (fun '(_, set) =>
    ensure ((1 <=? Z.of_nat (base.size set)) && (Z.of_nat (base.size set) <=? U16MAX)) (InvalidInput InvalidSecretSealsNumber)) ;;
  ensure (Z.of_nat (base.size seals) <=? U16MAX) (InvalidInput TooManyTerminals) ;;
  Ok (map (fun '(id, set) => (id, sorted_set set)) (sorted_by str_cmp seals)).

(** [Stock::consign_bundles] *)
Definition consign_bundles (fuel : nat) (s : Stock) (contract_id : ContractId) (r : Request) (build_opouts_dag : bool)
    : result StockError (StockConsignment * option (Dag * gmap Opout NodeIndex)) :=
  bundles ← collect fuel s contract_id (rq_bundles r) ∅ (rq_parents r);
  genesis ← map_err StockStash (st_genesis (stash s) contract_id);
  schema ← map_err StockStash (st_schema (stash s) (g_schema_id genesis));
  '(sorted, dag) ← sort_bundles s bundles contract_id build_opouts_dag genesis;
  ensure (Z.of_nat (length sorted) <=? LARGE) (InvalidInput TooManyBundles) ;;
  terminals ← confined_terminals (rq_seals r);
  '(types, scripts) ← map_err StockStash (stash_extract (stash s) schema);
  Ok (mkStockConsignment schema types (map snd (sorted_by str_cmp scripts)) genesis terminals sorted, dag).

(** [Stock::consign_operations] *)
Definition consign_operations (fuel : nat) (s : Stock) (contract_id : ContractId) (opids : list OpId) (secret_seals : list SecretSeal)
    (witness_id : option Txid) (build_opouts_dag : bool) : result StockError (StockConsignment * option (Dag * gmap Opout NodeIndex)) :=
  r ← try_fold (request_operation s contract_id secret_seals witness_id) (mkRequest ∅ [] ∅) opids;
  consign_bundles fuel s contract_id r build_opouts_dag.

(** The operations that are asked for *)
Definition requested (s : Stock) (contract_id : ContractId) (outputs : list Outpoint) (secret_seals : list SecretSeal)
    (opids : list OpId) : result StockError (gset OpId) :=
  public ← map_err StockIndex (public_opouts (index s) contract_id);
  by_outputs ← map_err StockIndex (opouts_by_outputs (index s) contract_id outputs);
  let by_terminals := opouts_by_terminals (index s) (list_to_set secret_seals) in
  Ok (list_to_set opids ∪ set_map opout_op (public ∪ by_outputs ∪ by_terminals)).

(** [Stock::consign] *)
Definition consign (fuel : nat) (s : Stock) (contract_id : ContractId) (outputs : list Outpoint) (secret_seals : list SecretSeal)
    (opids : list OpId) (witness_id : option Txid) (build_opouts_dag : bool)
    : result StockError (StockConsignment * option (Dag * gmap Opout NodeIndex)) :=
  ops ← requested s contract_id outputs secret_seals opids;
  consign_operations fuel s contract_id (hash_order ops) secret_seals witness_id build_opouts_dag.

(** [Stock::transfer], [Stock::export_contract] *)
Definition transfer (fuel : nat) (s : Stock) (contract_id : ContractId) (outputs : list Outpoint) (secret_seals : list SecretSeal)
    (opids : list OpId) (witness_id : option Txid) : result StockError StockConsignment :=
  '(c, _) ← consign fuel s contract_id outputs secret_seals opids witness_id false; Ok c.
Definition export_contract (fuel : nat) (s : Stock) (contract_id : ContractId) : result StockError StockConsignment :=
  '(c, _) ← consign fuel s contract_id [] [] [] None false; Ok c.

(** ** Consignments of a fascia *)

(** A transition is asked for by its identifier, or by an output of the witness or a
    concealed seal that it assigns to. *)
Definition assigns_requested {State} (outputs : gset Outpoint) (secret_seals : gset SecretSeal) (witness_id : Txid)
    (a : Assign GraphSeal State) : bool :=
  match a with
  | Revealed seal _ => bool_decide (mkOutpoint witness_id (seal_vout seal) ∈ outputs)
  | ConfidentialSeal seal _ => bool_decide (seal ∈ secret_seals)
  end.
Definition is_requested_transition (opids : gset OpId) (outputs : gset Outpoint) (secret_seals : gset SecretSeal) (witness_id : Txid)
    (k : KnownTransition) : bool :=
  bool_decide (kt_opid k ∈ opids) ||
  existsb (fun '(_, a) => match a with
    | Declarative l => existsb (assigns_requested outputs secret_seals witness_id) l
    | Fungible l => existsb (assigns_requested outputs secret_seals witness_id) l
    | Structured l => existsb (assigns_requested outputs secret_seals witness_id) l
    end) (entries (t_assignments (kt_transition k))).

(** The loop over the transitions in reverse order: those that are required by a later one
    or asked for are kept. *)
Definition keep_required (is_requested : KnownTransition -> bool) (x : gset OpId * list KnownTransition) (k : KnownTransition)
    : gset OpId * list KnownTransition :=
  let '(required, kept) := x in
  if bool_decide (kt_opid k ∈ required) || is_requested k
  then (required ∖ {[ kt_opid k ]} ∪ list_to_set (input_ops (kt_transition k)), k :: kept) else (required, kept).

(** [Stock::consign_from_fascia] *)
Definition consign_from_fascia (fuel : nat) (s : Stock) (contract_id : ContractId) (outputs : list Outpoint)
    (secret_seals : list SecretSeal) (opids : list OpId) (f : Fascia) (build_opouts_dag : bool)
    : result StockError (StockConsignment * option (Dag * gmap Opout NodeIndex)) :=
  bundle ← ok_or (fascia_bundles f !! contract_id) (InvalidInput (UnrelatedContract contract_id));
  let id := bundle_id bundle in
  let '(required, kept) := foldl (keep_required (is_requested_transition (list_to_set opids) (list_to_set outputs)
      (list_to_set secret_seals) (sw_witness_id (seal_witness f)))) (∅, []) (rev (known_transitions bundle)) in
  match sorted_set (required ∩ input_map_opids bundle) with
  | opid :: _ =>
      match sorted_set (required ∩ known_transitions_opids bundle) with
      | opid :: _ => Err (InvalidInput (ConcealedTransition id opid))
      | [] => Err (InvalidInput (UnorderedTransition id opid))
      end
  | [] =>
      ensure (negb (bool_decide (kept = []))) (StockPanic (Abort "confinement")) ;;
      mpc_proof ← match to_merkle_proof (sw_merkle_block (seal_witness f)) contract_id with
                  | Ok p => Ok p
                  | Err (Fails _) => Err (InvalidInput (UnrelatedContract contract_id))
                  | Err (Panics why) => Err (StockPanic (Abort why))
                  end;
      let wb := mkWitnessBundle (sw_public (seal_witness f)) mpc_proof (sw_dbc_proof (seal_witness f)) (mkBundle (input_map bundle) kept) in
      consign_bundles fuel s contract_id
        (mkRequest {[ id := (wb, 2 ^ 32 - 1) ]} (rev (sorted_set required))
           (if bool_decide (secret_seals = []) then ∅ else {[ id := list_to_set secret_seals ]})) build_opouts_dag
  end.

End consign.
