(* ===== verification/OpsComplete.v ===== *)
(** * rgb-ops: the consignments of a stock are complete

    Theorems on [OpsConsign]: the bundles of a consignment are ordered, its history is
    closed under inputs, and the walk of the history ends. *)

From S2P Require Import Prelude Layer1 MpcMerkle MpcBlock MpcTree MpcMerge AluNumber AluInstr AluLib RgbTypes RgbOrder RgbSchema RgbIsa RgbLogic RgbValidator OpsState OpsIndex OpsStash OpsStock OpsConsign.
Local Open Scope Z_scope.

(** A condition that each step keeps *)
Lemma try_fold_keeps {E S A} (f : S -> A -> result E S) (I : S -> Prop) l s s' :
  (forall x s s', x ∈ l -> I s -> f s x = Ok s' -> I s') -> I s -> try_fold f s l = Ok s' -> I s'.
Proof.
  revert s. induction l as [|x l IH]; intros s Hf Hs; cbn [try_fold]; [by intros [= <-]|].
  destruct (f s x) as [s1|] eqn:E1; [|done]. cbn [mbind result_bind]. apply IH; [|by eapply Hf; [left| |]].
  intros y z z' Hy. apply Hf. by right.
Qed.

(** What each step gives and the later ones keep *)
Lemma try_fold_covers {E S A} (f : S -> A -> result E S) (R : relation S) `{!PreOrder R} (P : A -> S -> Prop) l s s' :
  (forall s x s', f s x = Ok s' -> R s s' /\ P x s') -> (forall x s s', R s s' -> P x s -> P x s') ->
  try_fold f s l = Ok s' -> R s s' /\ forall x, x ∈ l -> P x s'.
Proof.
  intros Hf Hm. revert s. induction l as [|x l IH]; intros s; cbn [try_fold].
  - intros [= <-]. split; [done|]. intros x Hx. by apply elem_of_nil in Hx.
  - destruct (f s x) as [s1|] eqn:E1; [|done]. cbn [mbind result_bind]. intros [HR HP]%IH. apply Hf in E1 as [H1 H2].
    split; [by transitivity s1|]. intros y [->|Hy]%elem_of_cons; [by eapply Hm|by apply HP].
Qed.

Section order.
Context `{TypeLibrary} `{!TypeSystemExtend} `{OperationIds} `{ContainerIds} `{SealHash}.
Context `{BitcoinTx} `{!DbcProofs} `{!EqDecision Dbc} `{MerkleIds} `{Daggy}.
Context (s : Stock) (contract_id : ContractId).

(** A transition of a bundle spends from an operation of the bundle [id]. *)
Definition spends_from (wb : WitnessBundle) (id : BundleId) : Prop :=
  exists k input, k ∈ known_transitions (wb_bundle wb) /\ input ∈ t_inputs (kt_transition k) /\
    opout_op input <> contract_id /\ bundle_of_input s input = Ok id.

Definition wb_id (wb : WitnessBundle) : BundleId := bundle_id (wb_bundle wb).

(** A bundle comes after those that it spends from. *)
Definition ordered (l : list WitnessBundle) : Prop :=
  forall i j wb wb', l !! i = Some wb -> l !! j = Some wb' -> spends_from wb (wb_id wb') -> (j <= i)%nat.

Lemma scan_inputs_Ok positions i opid inputs dag dag' :
  scan_inputs s contract_id positions i opid inputs dag = Ok (dag', false) ->
  forall input id pos, input ∈ inputs -> opout_op input <> contract_id -> bundle_of_input s input = Ok id ->
    positions !! id = Some pos -> (pos <= i)%nat.
Proof.
  revert dag. induction inputs as [|x inputs IH]; intros dag Hs input id pos Hin Hc Hid Hp; [by apply elem_of_nil in Hin|].
  cbn [scan_inputs] in Hs. apply elem_of_cons in Hin as [<-|Hin].
  - rewrite (proj2 (String.eqb_neq _ _) Hc), Hid in Hs. cbn [mbind result_bind] in Hs. rewrite Hp in Hs.
    destruct (Nat.ltb_spec i pos); [done|lia].
  - destruct (String.eqb _ _); [by eapply IH|]. destruct (bundle_of_input s x) as [y|]; [|done]. cbn [mbind result_bind] in Hs.
    destruct (positions !! y) as [p|]; [destruct (i <? p)%nat; [done|]|]; by eapply IH.
Qed.

Lemma scan_known_Ok positions i known dag dag' : scan_known s contract_id positions i known dag = Ok (dag', false) ->
  forall k input id pos, k ∈ known -> input ∈ t_inputs (kt_transition k) -> opout_op input <> contract_id ->
    bundle_of_input s input = Ok id -> positions !! id = Some pos -> (pos <= i)%nat.
Proof.
  revert dag. induction known as [|x known IH]; intros dag Hs k input id pos Hk Hin Hc Hid Hp; [by apply elem_of_nil in Hk|].
  cbn [scan_known] in Hs. destruct (scan_inputs _ _ _ _ _ _ _) as [[d [|]]|] eqn:E; cbn in Hs; [done| |done].
  apply elem_of_cons in Hk as [->|Hk]; [by eapply scan_inputs_Ok|by eapply IH].
Qed.

Lemma scan_bundles_Ok positions i l dag dag' : scan_bundles s contract_id positions i l dag = Ok (dag', false) ->
  forall j e id pos, l !! j = Some e -> spends_from e.2.1 id -> positions !! id = Some pos -> (pos <= i + j)%nat.
Proof.
  revert i dag. induction l as [|[x [wb h]] l IH]; intros i dag Hs j e id pos He Hsp Hp; [done|].
  cbn [scan_bundles] in Hs. destruct (scan_known _ _ _ _ _ _) as [[d [|]]|] eqn:E; cbn in Hs; [done| |done].
  destruct j as [|j]; cbn in He.
  - injection He as <-. destruct Hsp as (k & input & Hk & Hin & Hc & Hid). pose proof (scan_known_Ok _ _ _ _ _ E _ _ _ _ Hk Hin Hc Hid Hp). lia.
  - pose proof (IH _ _ Hs j e id pos He Hsp Hp). lia.
Qed.

Lemma positions_lookup (l : list (BundleId * (WitnessBundle * Z))) j e : NoDup l.*1 -> l !! j = Some e -> positions_of l !! e.1 = Some j.
Proof.
  intros Hd He. unfold positions_of. apply elem_of_list_to_map_1.
  - replace (imap _ l).*1 with l.*1; [done|]. rewrite fmap_imap. symmetry. apply (imap_const fst).
  - apply elem_of_lookup_imap. by exists j, e.
Qed.

Definition grows (x x' : Dependencies * option OpoutsDagInfo) : Prop := forall id, depends x.1 id ⊆ depends x'.1 id.
#[local] Instance grows_preorder : PreOrder grows.
Proof. split; [by intros x id|intros x y z Hxy Hyz id; by etrans; [apply Hxy|apply Hyz]]. Qed.

Definition input_noted (positions : gmap BundleId nat) (id : BundleId) (input : Opout) (x : Dependencies * option OpoutsDagInfo) : Prop :=
  forall id', opout_op input <> contract_id -> bundle_of_input s input = Ok id' -> is_Some (positions !! id') -> id' <> id ->
    id' ∈ depends x.1 id.

Lemma note_input_Ok positions id opid x input x' : note_input s contract_id positions id opid x input = Ok x' ->
  grows x x' /\ input_noted positions id input x'.
Proof.
  destruct x as [deps dag]. unfold note_input. destruct (String.eqb_spec (opout_op input) contract_id) as [E|E].
  { intros [= <-]. split; [by intros y|]. by intros id' Hne. }
  destruct (bundle_of_input s input) as [y|] eqn:Ey; [|done]. cbn [mbind result_bind]. intros [= <-].
  unfold grows, input_noted, depends. rewrite Ey. cbn [fst]. case_bool_decide as Hy.
  - split; [|intros id' _ [= ->] _ _; rewrite lookup_insert_eq; set_solver]. intros z.
    destruct (decide (z = id)) as [->|]; [rewrite lookup_insert_eq; set_solver|by rewrite lookup_insert_ne].
  - split; [done|]. intros id' _ [= ->] Hs Hne. by destruct Hy.
Qed.

Lemma input_noted_mono positions id input x x' : grows x x' -> input_noted positions id input x -> input_noted positions id input x'.
Proof. intros Hg Hn id' H1' H2' H3' H4'. apply Hg, Hn; done. Qed.

Lemma note_bundles_Ok positions l x x' : try_fold (note_bundle s contract_id positions) x l = Ok x' ->
  forall e id, e ∈ l -> spends_from e.2.1 id -> is_Some (positions !! id) -> id <> e.1 -> id ∈ depends x'.1 e.1.
Proof.
  intros Hr. pose (P := fun (e : BundleId * (WitnessBundle * Z)) x => forall k, k ∈ known_transitions (wb_bundle e.2.1) ->
    forall input, input ∈ t_inputs (kt_transition k) -> input_noted positions e.1 input x).
  assert (grows x x' /\ forall e, e ∈ l -> P e x') as [_ HP]; [eapply (try_fold_covers _ grows P); [| |exact Hr]|].
  - intros y e y' Hy. unfold note_bundle in Hy. 
    eapply (try_fold_covers _ grows (fun k x => forall input, input ∈ t_inputs (kt_transition k) -> input_noted positions e.1 input x));
      [| |exact Hy].
    + intros z k z' Hz. unfold note_known in Hz.
      destruct (try_fold_covers _ grows (input_noted positions e.1) _ _ _ (note_input_Ok _ _ _) (input_noted_mono _ _) Hz) as [Hg Hn].
      split; [exact Hg|exact Hn].
    + intros k z z' Hg Hn input Hin. by eapply input_noted_mono; [|apply Hn].
  - intros e y y' Hg Hn k Hk input Hin. by eapply input_noted_mono; [|by eapply Hn].
  - intros e id He (k & input & Hk & Hin & Hc & Hid) Hp Hne. by apply (HP e He k Hk input Hin).
Qed.


(** Each bundle comes after those that it depends on. *)
Definition in_order (deps : Dependencies) (l : list WitnessBundle) : Prop :=
  forall i wb id, l !! i = Some wb -> id ∈ depends deps (wb_id wb) -> exists j wb', (j < i)%nat /\ l !! j = Some wb' /\ wb_id wb' = id.

Lemma in_order_snoc deps l wb : in_order deps l -> depends deps (wb_id wb) ⊆ list_to_set (map wb_id l) -> in_order deps (l ++ [wb]).
Proof.
  intros Hl Hwb i x id. rewrite lookup_app_Some. intros [Hi|[Hi Hx]] Hid.
  - destruct (Hl i x id Hi Hid) as (j & y & Hj & Hy & E). exists j, y. split_and!; [done|by apply lookup_app_l_Some|done].
  - apply list_lookup_singleton_Some in Hx as [Hx <-]. apply Hwb in Hid. rewrite elem_of_list_to_set, list_elem_of_fmap in Hid.
    destruct Hid as (y & -> & [j Hj]%list_elem_of_lookup). exists j, y. split_and!; [|by apply lookup_app_l_Some|done].
    apply lookup_lt_Some in Hj. lia.
Qed.

Lemma delete_pairs {A B} (l : list (A * B)) i a b : l !! i = Some (a, b) -> l.*2 ≡ₚ b :: (delete i l).*2.
Proof. intros Hl. by rewrite (delete_Permutation l i (a, b) Hl) at 1. Qed.

Lemma topological_Ok n deps sorted remaining out : (forall e, e ∈ remaining -> wb_id e.2 = e.1) -> in_order deps sorted ->
  topological n deps sorted remaining = Ok out -> in_order deps out /\ out ≡ₚ sorted ++ remaining.*2.
Proof.
  revert sorted remaining. induction n as [|n IH]; intros sorted remaining Hid Hs; destruct remaining as [|e0 rest] eqn:Er;
    cbn [topological]; try done; try (intros [= <-]; by rewrite app_nil_r).
  rewrite <- Er in *. clear Er. destruct (list_find _ _) as [[i [id wb]]|] eqn:E; [|done].
  apply list_find_Some in E as (Hi & Hsub & _). intros [Ho Hp]%IH.
  - split; [done|]. by rewrite Hp, <- app_assoc, (delete_pairs _ _ _ _ Hi).
  - intros e He. apply Hid. rewrite (delete_Permutation _ _ _ Hi). by right.
  - apply in_order_snoc; [done|]. specialize (Hid (id, wb) (list_elem_of_lookup_2 _ _ _ Hi)). cbn in Hid. by rewrite Hid.
Qed.

(** The element of least rank *)
Lemma least_rank {A} (rank : A -> nat) (l : list A) : l <> [] -> exists x, x ∈ l /\ forall y, y ∈ l -> (rank x <= rank y)%nat.
Proof.
  induction l as [|a l IH]; [done|]. intros _. destruct l as [|b l].
  - exists a. split; [by left|]. intros y [->|Hy%elem_of_nil]%elem_of_cons; [done|done].
  - destruct IH as (x & Hx & Hl); [done|]. destruct (le_lt_dec (rank a) (rank x)) as [Hle|Hlt].
    + exists a. split; [by left|]. intros y [->|Hy]%elem_of_cons; [done|]. specialize (Hl y Hy). lia.
    + exists x. split; [by right|]. intros y [->|Hy]%elem_of_cons; [lia|by apply Hl].
Qed.

(** Bundles whose dependencies have no cycle can be sorted. *)
Lemma topological_total n deps (rank : BundleId -> nat) sorted remaining : (length remaining <= n)%nat ->
  (forall e, e ∈ remaining -> wb_id e.2 = e.1) ->
  (forall e id, e ∈ remaining -> id ∈ depends deps e.1 -> (rank id < rank e.1)%nat /\ (id ∈ map wb_id sorted \/ id ∈ remaining.*1)) ->
  exists out, topological n deps sorted remaining = Ok out.
Proof.
  revert sorted remaining. induction n as [|n IH]; intros sorted remaining Hn Hk Hr; destruct remaining as [|e0 rest] eqn:Er;
    cbn [topological]; eauto; [cbn in Hn; lia|]. rewrite <- Er in *. assert (remaining <> []) as Hne by (by rewrite Er). clear Er.
  destruct (list_find _ _) as [[i [id wb]]|] eqn:E.
  - apply list_find_Some in E as (Hi & _ & _). apply IH.
    + rewrite length_delete by eauto. assert (length remaining <> 0%nat) by (by rewrite length_zero_iff_nil). lia.
    + intros e He. apply Hk. rewrite (delete_Permutation _ _ _ Hi). by right.
    + intros e x He Hx. destruct (Hr e x) as [Hlt Hin]; [rewrite (delete_Permutation _ _ _ Hi); by right|done|]. split; [done|].
      rewrite map_app, elem_of_app. destruct Hin as [Hin|Hin]; [by left; left|].
      rewrite (delete_Permutation _ _ _ Hi) in Hin. cbn in Hin. apply elem_of_cons in Hin as [->|Hin]; [|by right].
      left; right. specialize (Hk (id, wb) (list_elem_of_lookup_2 _ _ _ Hi)). cbn in Hk. rewrite <- Hk. by left.
  - exfalso. destruct (least_rank (fun e => rank e.1) remaining Hne) as ([id wb] & He & Hl).
    apply list_find_None in E. rewrite Forall_forall in E. apply (E (id, wb) He). intros x Hx.
    destruct (Hr _ _ He Hx) as [Hlt [Hin|([y wb'] & -> & Hin)%list_elem_of_fmap]]; [|specialize (Hl _ Hin); cbn in *; lia].
    by rewrite elem_of_list_to_set.
Qed.


(** Only dependencies are noted. *)
Lemma note_bundles_bound positions l dag deps dag' : try_fold (note_bundle s contract_id positions) (∅, dag) l = Ok (deps, dag') ->
  forall id y, y ∈ depends deps id -> is_Some (positions !! y) /\ exists e, e ∈ l /\ e.1 = id /\ spends_from e.2.1 y /\ y <> id.
Proof.
  pose (I := fun x : Dependencies * option OpoutsDagInfo => forall id y, y ∈ depends x.1 id ->
    is_Some (positions !! y) /\ exists e, e ∈ l /\ e.1 = id /\ spends_from e.2.1 y /\ y <> id).
  intros Hr. apply (try_fold_keeps _ I _ _ _) in Hr; [exact Hr| |intros id y; unfold depends; cbn; set_solver].
  intros e x x' He Hx Hb. unfold note_bundle in Hb. eapply (try_fold_keeps _ I); [|exact Hx|exact Hb].
  intros k z z' Hk Hz Hn. unfold note_known in Hn. eapply (try_fold_keeps _ I); [| |exact Hn]; [|exact Hz].
  intros input [d1 g1] x2 Hin Hi. unfold note_input. destruct (String.eqb_spec (opout_op input) contract_id) as [E|E].
  { intros [= <-]. exact Hi. }
  destruct (bundle_of_input s input) as [y|] eqn:Ey; [|done]. cbn [mbind result_bind]. intros [= <-].
  case_bool_decide as Hy; [|exact Hi]. intros id v. cbn [fst]. unfold depends. destruct (decide (id = e.1)) as [->|Hne].
  - rewrite lookup_insert_eq. cbn. rewrite elem_of_union, elem_of_singleton. intros [->|Hv]; [|by apply (Hi e.1 v)].
    destruct Hy. split; [done|]. exists e. split_and!; [done|done|by exists k, input|done].
  - rewrite lookup_insert_ne by done. apply Hi.
Qed.

Lemma by_height_perm (bundles : Consigned) : by_height bundles ≡ₚ map_to_list bundles.
Proof. unfold by_height, sorted_by. by rewrite !merge_sort_Permutation. Qed.

(** The only errors are those of the index. *)
Definition index_errors {A} (r : result StockError A) : Prop := forall e, r = Err e -> exists i, e = StockIndex i.

Lemma index_errors_Ok {A} (a : A) : index_errors (Ok a).
Proof. by intros e. Qed.
Lemma index_errors_bind {A B} (r : result StockError A) (f : A -> result StockError B) :
  index_errors r -> (forall a, index_errors (f a)) -> index_errors (r ≫= f).
Proof. intros Hr Hf. destruct r as [a|e0]; [apply Hf|]. intros e [= <-]. by apply Hr. Qed.
Lemma index_errors_input input : index_errors (bundle_of_input s input).
Proof. unfold bundle_of_input. intros e. destruct (bundle_id_for_op _ _) as [|i]; [done|]. intros [= <-]. by exists i. Qed.
Lemma index_errors_fold {S A} (f : S -> A -> result StockError S) l x : (forall x a, index_errors (f x a)) -> index_errors (try_fold f x l).
Proof.
  intros Hf. revert x. induction l as [|a l IH]; intros x; [apply index_errors_Ok|]. by apply index_errors_bind.
Qed.
#[local] Hint Resolve index_errors_Ok index_errors_bind index_errors_input index_errors_fold : core.

Lemma scan_errors positions i l dag : index_errors (scan_bundles s contract_id positions i l dag).
Proof.
  revert i dag. induction l as [|[x [wb h]] l IH]; intros i dag; cbn [scan_bundles]; [done|]. apply index_errors_bind.
  - generalize dag. induction (known_transitions (wb_bundle wb)) as [|k known IHk]; intros dag'; cbn [scan_known]; [done|].
    apply index_errors_bind; [|intros [d [|]]; auto]. generalize (register k dag').
    induction (t_inputs (kt_transition k)) as [|input inputs IHi]; intros d; cbn [scan_inputs]; [done|].
    destruct (String.eqb _ _); [done|]. apply index_errors_bind; [done|]. intros id.
    destruct (positions !! id) as [pos|]; [destruct (i <? pos)%nat|]; done.
  - intros [d [|]]; auto.
Qed.

Lemma note_errors positions x l : index_errors (try_fold (note_bundle s contract_id positions) x l).
Proof.
  apply index_errors_fold. intros y e. apply index_errors_fold. intros z k. apply index_errors_fold. intros [deps dag] input.
  unfold note_input. destruct (String.eqb _ _); [done|]. by apply index_errors_bind.
Qed.

Section sorting.
Context (bundles : Consigned) (Hid : forall id wb h, bundles !! id = Some (wb, h) -> wb_id wb = id).

Lemma by_height_id e : e ∈ by_height bundles -> wb_id e.2.1 = e.1.
Proof. rewrite by_height_perm. destruct e as [id [wb h]]. rewrite elem_of_map_to_list. apply Hid. Qed.
Lemma by_height_NoDup : NoDup (by_height bundles).*1.
Proof. rewrite by_height_perm. apply NoDup_fst_map_to_list. Qed.

Lemma ids_NoDup l : l ≡ₚ map (fun e => e.2.1) (map_to_list bundles) -> NoDup (map wb_id l).
Proof.
  intros ->. rewrite map_map. pose proof (NoDup_fst_map_to_list bundles) as Hd. revert Hd.
  replace (map (fun x => wb_id x.2.1) (map_to_list bundles)) with (map_to_list bundles).*1; [done|].
  apply list_fmap_ext. intros i [id [wb h]] Hi. symmetry. apply (Hid id wb h), elem_of_map_to_list. by eapply list_elem_of_lookup_2.
Qed.

Lemma in_order_ordered deps l (positions : gmap BundleId nat) : l ≡ₚ map (fun e => e.2.1) (map_to_list bundles) -> in_order deps l ->
  (forall e id, e ∈ by_height bundles -> spends_from e.2.1 id -> is_Some (positions !! id) -> id <> e.1 -> id ∈ depends deps e.1) ->
  (forall id, id ∈ (by_height bundles).*1 -> is_Some (positions !! id)) -> ordered l.
Proof.
  intros Hp Ho Hd Hpos i j wb wb' Hi Hj Hsp. pose proof (ids_NoDup _ Hp) as Hn.
  assert (forall x, x ∈ l -> exists e, e ∈ by_height bundles /\ x = e.2.1) as Hin.
  { intros x Hx. rewrite Hp in Hx. apply list_elem_of_fmap in Hx as (e & -> & He). exists e. by rewrite by_height_perm. }
  assert (forall a b x y, l !! a = Some x -> l !! b = Some y -> wb_id x = wb_id y -> a = b) as Hu.
  { intros a b x y Ha Hb E. apply (NoDup_lookup (map wb_id l) a b (wb_id x) Hn); [by rewrite list_lookup_fmap, Ha|].
    by rewrite list_lookup_fmap, Hb, E. }
  destruct (Hin wb) as (e & He & ->); [by eapply list_elem_of_lookup_2|].
  destruct (Hin wb') as (e' & He' & ->); [by eapply list_elem_of_lookup_2|].
  destruct (decide (wb_id e'.2.1 = wb_id e.2.1)) as [E|E]; [by rewrite (Hu _ _ _ _ Hj Hi E)|].
  pose proof (by_height_id e He) as Ke. rewrite Ke in E.
  destruct (Ho i e.2.1 (wb_id e'.2.1)) as (j' & wb'' & Hlt & Hj' & E'); [done| |].
  - rewrite Ke. apply Hd; [done|done| |done]. apply Hpos. rewrite (by_height_id e' He'). by apply list_elem_of_fmap_2.
  - rewrite (Hu _ _ _ _ Hj Hj'); [lia|done].
Qed.

Lemma positions_is_Some id : is_Some (positions_of (by_height bundles) !! id) <-> id ∈ (by_height bundles).*1.
Proof.
  split.
  - intros [j (i & e & E & Hi)%elem_of_list_to_map_2%elem_of_lookup_imap]. injection E as -> ->. apply list_elem_of_fmap_2. by eapply list_elem_of_lookup_2.
  - intros (e & -> & [j Hj]%list_elem_of_lookup)%list_elem_of_fmap. exists j. by apply positions_lookup; [apply by_height_NoDup|].
Qed.

Lemma sort_bundles_Ok build genesis l d : sort_bundles s bundles contract_id build genesis = Ok (l, d) ->
  l ≡ₚ map (fun e => e.2.1) (map_to_list bundles) /\ ordered l.
Proof.
  unfold sort_bundles. destruct (Nat.leb_spec (base.size bundles) 1) as [Hs|_].
  { intros [= <- _]. assert (map (fun e => e.2.1) (sorted_by str_cmp bundles) ≡ₚ map (fun e => e.2.1) (map_to_list bundles)) as Hp.
    { unfold sorted_by. by rewrite merge_sort_Permutation. }
    split; [done|]. intros i j wb wb' Hi%lookup_lt_Some Hj%lookup_lt_Some _. rewrite Hp, length_map, length_map_to_list in Hi, Hj. lia. }
  destruct (scan_bundles _ _ _ _ _ _) as [[dag reorder]|] eqn:E; [|done]. cbn [mbind result_bind].
  destruct reorder; cbn [negb].
  - destruct (try_fold _ _ _) as [[deps dag']|] eqn:En; [|done]. cbn [mbind result_bind].
    destruct (topological _ _ _ _) as [sorted|] eqn:Et; [|done]. intros [= <- _].
    apply topological_Ok in Et as [Ho Hp].
    + assert (sorted ≡ₚ map (fun e => e.2.1) (map_to_list bundles)) as Hp'.
      { rewrite Hp, <- by_height_perm. cbn [app]. clear. by induction (by_height bundles); cbn; [|f_equiv]. }
      split; [done|]. apply (in_order_ordered deps _ (positions_of (by_height bundles))); [done|done| |].
      * intros e id He. by apply (note_bundles_Ok _ _ _ _ En).
      * intros id. apply positions_is_Some.
    + intros x ([id [wb h]] & -> & He)%list_elem_of_fmap. apply (by_height_id _ He).
    + by intros i wb id Hi.
  - intros [= <- _]. split; [by rewrite by_height_perm|]. intros i j wb wb' Hi Hj Hsp.
    apply list_lookup_fmap_Some in Hi as (e & -> & Hi), Hj as (e' & -> & Hj).
    apply (scan_bundles_Ok _ _ _ _ _ E i e (wb_id e'.2.1) j); [done|done|].
    rewrite (by_height_id e') by (by eapply list_elem_of_lookup_2). apply positions_lookup; [apply by_height_NoDup|done].
Qed.

(** Bundles that can be ordered are sorted, unless an operation that they spend is unknown. *)
Lemma sort_bundles_sorts (rank : BundleId -> nat) build genesis :
  (forall x id, x ∈ map_to_list bundles -> spends_from x.2.1 id -> id <> x.1 -> (rank id < rank x.1)%nat) ->
  index_errors (sort_bundles s bundles contract_id build genesis).
Proof.
  intros Hr. unfold sort_bundles. destruct (_ <=? _)%nat; [done|]. apply index_errors_bind; [apply scan_errors|].
  intros [dag [|]]; cbn [negb]; [|done]. intros e.
  destruct (try_fold _ _ _) as [[deps dag']|e'] eqn:En; [|intros [= <-]; by eapply note_errors].
  cbn [mbind result_bind]. destruct (topological_total (length (by_height bundles)) deps rank [] (map (fun e => (e.1, e.2.1)) (by_height bundles)))
    as [out ->]; [by rewrite length_map| | |done].
  - intros x (y & -> & He)%list_elem_of_fmap. apply (by_height_id _ He).
  - intros x id (y & -> & He)%list_elem_of_fmap Hd. cbn [fst] in *.
    apply (note_bundles_bound _ _ _ _ _ En) in Hd as [Hp (z & Hz & Ez & Hsp & Hne)]. split.
    + rewrite <- Ez. apply Hr; [by rewrite <- by_height_perm|done|by rewrite Ez].
    + right. apply positions_is_Some in Hp. by rewrite <- list_fmap_compose.
Qed.

End sorting.

End order.

Section closed.
Context `{TypeLibrary} `{!TypeSystemExtend} `{OperationIds} `{ContainerIds} `{SealHash}.
Context `{BitcoinTx} `{!DbcProofs} `{!EqDecision Dbc} `{MerkleIds} `{Daggy}.
Context (s : Stock) (contract_id : ContractId).

(** The bundles of a stash: their keys are their identifiers, and those of transitions are
    the identifiers of operations.  The identifier of a bundle commits to its input map. *)
Record stash_ok : Prop := {
  so_key id b : st_bundles (stash s) !! id = Some b -> bundle_id b = id;
  so_opid id b k : st_bundles (stash s) !! id = Some b -> k ∈ known_transitions b -> transition_id (kt_transition k) = kt_opid k;
  so_distinct id b : st_bundles (stash s) !! id = Some b -> NoDup (map kt_opid (known_transitions b));
}.
Hypothesis Hok : stash_ok.
Hypothesis bundle_id_commits : forall b known, bundle_id (mkBundle (input_map b) known) = bundle_id b.

Definition knows (bundles : Consigned) (k : KnownTransition) : Prop :=
  exists id wb h, bundles !! id = Some (wb, h) /\ k ∈ known_transitions (wb_bundle wb).
Definition includes (bundles : Consigned) (opid : OpId) : Prop := exists k, knows bundles k /\ kt_opid k = opid.
Definition keyed (bundles : Consigned) : Prop := forall id wb h, bundles !! id = Some (wb, h) -> wb_id wb = id.

Lemma transition_Ok opid t : transition s opid = Ok t -> transition_id t = opid /\ is_Some (op_bundle_index (index s) !! opid) /\
  exists id b, op_bundle_index (index s) !! opid = Some id /\ st_bundles (stash s) !! id = Some b /\
    mkKnown opid t ∈ known_transitions b /\ forall k, k ∈ known_transitions b -> kt_opid k = opid -> k = mkKnown opid t.
Proof.
  unfold transition, bundle_id_for_op, st_bundle. destruct (op_bundle_index (index s) !! opid) as [id|] eqn:Ei; [|done].
  cbn [ok_or map_err mbind result_bind]. destruct (st_bundles (stash s) !! id) as [b|] eqn:Eb; [|done].
  cbn [ok_or map_err mbind result_bind]. unfold get_transition. destruct (list_find _ _) as [[i [o t']]|] eqn:El; [|done]. intros [= <-].
  apply list_find_Some in El as (Hi & Ho & _). cbn in Ho. subst o. pose proof (list_elem_of_lookup_2 _ _ _ Hi) as Hin.
  split_and!; [exact (so_opid Hok _ _ _ Eb Hin)|by eexists|]. exists id, b. split_and!; [done|done|done|]. intros k Hk Hko.
  apply list_elem_of_lookup in Hk as [j Hj]. pose proof (so_distinct Hok _ _ Eb) as Hd.
  assert (i = j) as ->; [|rewrite Hi in Hj; by injection Hj]. eapply (NoDup_lookup _ i j opid Hd); rewrite list_lookup_fmap; [by rewrite Hi|].
  by rewrite Hj, <- Hko.
Qed.

Lemma reveal_Ok b t b' : reveal_transition b t = Ok b' -> bundle_id b' = bundle_id b /\
  (forall k, k ∈ known_transitions b -> k ∈ known_transitions b') /\
  (forall k, k ∈ known_transitions b' -> k ∈ known_transitions b \/ k = mkKnown (transition_id t) t) /\
  exists k, k ∈ known_transitions b' /\ kt_opid k = transition_id t.
Proof.
  unfold reveal_transition. destruct (negb _); [done|]. destruct (known_transitions_contain_opid b _) eqn:Ek.
  { intros [= <-]. split_and!; [done|done|by left|]. unfold known_transitions_contain_opid in Ek. apply existsb_exists in Ek as (k & Hk & E).
    exists k. by rewrite list_elem_of_In, <- (proj1 (String.eqb_eq _ _) E). }
  destruct (_ <=? _); [done|]. intros [= <-]. rewrite bundle_id_commits. split; [done|]. cbn [known_transitions].
  set (l := known_transitions b). set (x := mkKnown _ t).
  match goal with |- context [match ?p with Some n => take n _ ++ _ | None => _ end] => generalize p end. intros pos.
  assert (match pos with Some p => take p l ++ x :: drop p l | None => l ++ [x] end ≡ₚ x :: l) as Hp.
  { destruct pos as [p|]; [|by rewrite Permutation_app_comm]. rewrite <- Permutation_middle. by rewrite take_drop. }
  setoid_rewrite Hp.
  split_and!; [by right|intros k [->|Hk]%elem_of_cons; auto|]. exists x. split; [by left|done].
Qed.

Lemma witness_bundle_Ok id opid t wb h : transition s opid = Ok t -> op_bundle_index (index s) !! opid = Some id ->
  witness_bundle s id opid = Ok (wb, h) -> wb_id wb = id /\ forall k, k ∈ known_transitions (wb_bundle wb) <-> k = mkKnown opid t.
Proof.
  intros (_ & _ & id' & b & Hid & Hb & Hin & Hu)%transition_Ok Hid'. rewrite Hid in Hid'. injection Hid' as ->.
  unfold witness_bundle, st_bundle. rewrite Hb. destruct (bundle_info _ _) as [[ws c]|]; [|done]. cbn [ok_or map_err mbind result_bind].
  destruct (to_concealed_except b opid) as [b'|] eqn:Ec; [|done]. cbn [mbind result_bind].
  destruct (select_valid_witness _ _) as [[w ord]|]; [|done]. cbn [map_err mbind result_bind].
  destruct (st_witness _ _) as [sw|]; [|done]. cbn [map_err mbind result_bind].
  destruct (to_merkle_proof _ _) as [p|[]]; [|done|done]. cbn [mbind result_bind].
  destruct (witness_height ord) as [h'|]; [|done]. cbn [mbind result_bind]. intros [= <- _]. unfold wb_id. cbn [wb_bundle].
  unfold to_concealed_except in Ec. destruct (base.filter _ _) as [|x l] eqn:Ef; [done|]. injection Ec as <-. rewrite bundle_id_commits.
  split; [by apply (so_key Hok)|]. intros k. cbn [known_transitions]. rewrite <- Ef, list_elem_of_filter. split; [|by intros ->]. intros [Hk1 Hk2]. by apply Hu.
Qed.


(** What an included transition adds *)
Lemma include_Ok bundles id opid t bundles' : keyed bundles -> transition s opid = Ok t -> op_bundle_index (index s) !! opid = Some id ->
  include_transition s bundles id opid t = Ok bundles' ->
  keyed bundles' /\ (forall k, knows bundles k -> knows bundles' k) /\
  (forall k, knows bundles' k -> knows bundles k \/ k = mkKnown opid t) /\ includes bundles' opid.
Proof.
  intros Hk Ht Hid. pose proof (transition_Ok _ _ Ht) as [Eo _]. unfold include_transition.
  destruct (bundles !! id) as [[wb h]|] eqn:Eb.
  - destruct (reveal_transition (wb_bundle wb) t) as [b|] eqn:Er; [|done]. cbn [mbind result_bind]. intros [= <-].
    apply reveal_Ok in Er as (Hb & Hold & Hnew & k0 & Hk0 & Ek0). rewrite Eo in *. split_and!.
    + intros id' wb' h'. rewrite lookup_insert_Some. intros [[<- [= <- <-]]|[_ Hl]]; [|by eapply Hk]. unfold wb_id. cbn. rewrite Hb. by eapply Hk.
    + intros k (id' & wb' & h' & Hl & Hin). destruct (decide (id' = id)) as [->|Hne].
      * rewrite Eb in Hl. injection Hl as <- <-. exists id, (with_bundle wb b), h. rewrite lookup_insert_eq. split; [done|]. by apply Hold.
      * exists id', wb', h'. by rewrite lookup_insert_ne.
    + intros k (id' & wb' & h' & [[<- [= <- <-]]|[_ Hl]]%lookup_insert_Some & Hin).
      * apply Hnew in Hin as [Hin| ->]; [|by right]. left. by exists id, wb, h.
      * left. by exists id', wb', h'.
    + exists k0. split; [|done]. exists id, (with_bundle wb b), h. by rewrite lookup_insert_eq.
  - destruct (witness_bundle s id opid) as [[wb h]|] eqn:Ew; [|done]. cbn [mbind result_bind]. intros [= <-].
    apply (witness_bundle_Ok _ _ t) in Ew as [Ei Hw]; [|done|done]. split_and!.
    + intros id' wb' h'. rewrite lookup_insert_Some. intros [[<- [= <- <-]]|[_ Hl]]; [done|by eapply Hk].
    + intros k (id' & wb' & h' & Hl & Hin). exists id', wb', h'. rewrite lookup_insert_ne; [done|]. by intros <-; rewrite Eb in Hl.
    + intros k (id' & wb' & h' & [[<- [= <- <-]]|[_ Hl]]%lookup_insert_Some & Hin); [right; by apply Hw|left; by exists id', wb', h'].
    + exists (mkKnown opid t). split; [|done]. exists id, wb, h. rewrite lookup_insert_eq. split; [done|]. by apply Hw.
Qed.

(** The inputs of what is known are included, or still to be visited. *)
Definition pending (bundles : Consigned) (parents : list OpId) : Prop :=
  forall k opid, knows bundles k -> opid ∈ input_ops (kt_transition k) -> opid = contract_id \/ includes bundles opid \/ opid ∈ parents.

Lemma includes_mono bundles bundles' opid : (forall k, knows bundles k -> knows bundles' k) -> includes bundles opid -> includes bundles' opid.
Proof. intros Hm (k & Hk & E). exists k. auto. Qed.

(** One transition: found by its identifier, included, its inputs to be visited *)
Lemma include_pending bundles opid t id bundles' parents :
  keyed bundles -> pending bundles (opid :: parents) -> transition s opid = Ok t ->
  map_err StockIndex (bundle_id_for_op (index s) (transition_id t)) = Ok id -> include_transition s bundles id opid t = Ok bundles' ->
  keyed bundles' /\ pending bundles' (rev (input_ops t) ++ parents) /\ includes bundles' opid /\ forall o, includes bundles o -> includes bundles' o.
Proof.
  intros Hk Hp Ht Hid Hi. destruct (transition_Ok _ _ Ht) as [Eo _].
  assert (op_bundle_index (index s) !! opid = Some id) as Hx.
  { rewrite Eo in Hid. unfold bundle_id_for_op in Hid. destruct (op_bundle_index _ !! opid); [|done]. cbn in Hid. congruence. }
  destruct (include_Ok _ _ _ _ _ Hk Ht Hx Hi) as (Hk' & Hm & Hn & Ho). split_and!; [done| |done|by intros o; apply includes_mono].
  intros k o Hko Hin. rewrite elem_of_app, list_elem_of_In, <- in_rev, <- list_elem_of_In. destruct (Hn k Hko) as [Hold| ->]; [|by right; right; left].
  destruct (Hp k o Hold Hin) as [?|[Hinc|[->|?]%elem_of_cons]]; [by left|right; left; by eapply includes_mono|by right; left|by right; right; right].
Qed.

Lemma pending_drop bundles opid parents : pending bundles (opid :: parents) -> opid = contract_id \/ includes bundles opid -> pending bundles parents.
Proof.
  intros Hp Ho k o Hk Hin. destruct (Hp k o Hk Hin) as [?|[?|[->|?]%elem_of_cons]]; [by left|by right; left|tauto|by right; right].
Qed.

Lemma collect_Ok fuel bundles seen parents bundles' : keyed bundles -> pending bundles parents -> (forall o, o ∈ seen -> includes bundles o) ->
  collect fuel s contract_id bundles seen parents = Ok bundles' ->
  keyed bundles' /\ pending bundles' [] /\ forall o, includes bundles o -> includes bundles' o.
Proof.
  revert bundles seen parents. induction fuel as [|fuel IH]; intros bundles seen parents Hk Hp Hs; destruct parents as [|opid parents];
    cbn [collect]; try (by intros [= <-]).
  destruct (String.eqb_spec opid contract_id) as [Ec|_].
  { apply IH; [done|eapply pending_drop; [done|by left]|done]. }
  case_bool_decide as Hseen. { apply IH; [done|eapply pending_drop; [done|right; by apply Hs]|done]. }
  destruct (transition s opid) as [t|] eqn:Et; [|done]. cbn [mbind result_bind].
  destruct (map_err StockIndex _) as [id|] eqn:Ei; [|done]. cbn [mbind result_bind].
  destruct (include_transition _ _ _ _ _) as [bundles1|] eqn:Eb; [|done]. cbn [mbind result_bind].
  destruct (include_pending _ _ _ _ _ _ Hk Hp Et Ei Eb) as (Hk1 & Hp1 & Ho1 & Hm1). intros Hc. apply IH in Hc as (Hk' & Hp' & Hm'); [|done|done|].
  - split_and!; [done|done|]. intros o Ho. by apply Hm', Hm1.
  - intros o [->%elem_of_singleton|Ho]%elem_of_union; [done|by apply Hm1, Hs].
Qed.


Lemma request_Ok seals witness_id r opid r' : keyed (rq_bundles r) -> pending (rq_bundles r) (rq_parents r) ->
  request_operation s contract_id seals witness_id r opid = Ok r' ->
  keyed (rq_bundles r') /\ pending (rq_bundles r') (rq_parents r') /\
  (forall o, includes (rq_bundles r) o -> includes (rq_bundles r') o) /\
  (witness_id = None -> opid = contract_id \/ includes (rq_bundles r') opid).
Proof.
  intros Hk Hp. unfold request_operation. destruct (String.eqb_spec opid contract_id) as [Ec|_].
  { intros [= <-]. split_and!; [done|done|done|by left]. }
  destruct (transition s opid) as [t|] eqn:Et; [|done]. cbn [mbind result_bind].
  destruct (map_err StockIndex _) as [id|] eqn:Ei; [|done]. cbn [mbind result_bind].
  assert (forall skip, (if skip : bool then Ok r else
    bundles ← include_transition s (rq_bundles r) id opid t;
    Ok (mkRequest bundles (rev (input_ops t) ++ rq_parents r)
      (let seals := base.filter (fun seal => seal ∈ seals) ('(_, a) ← entries (t_assignments t); to_confidential_seals a) in
       if bool_decide (seals = []) then rq_seals r else <[id := list_to_set seals ∪ default ∅ (rq_seals r !! id)]> (rq_seals r)))) = Ok r' ->
    keyed (rq_bundles r') /\ pending (rq_bundles r') (rq_parents r') /\
    (forall o, includes (rq_bundles r) o -> includes (rq_bundles r') o) /\ (skip = false -> includes (rq_bundles r') opid)) as Hs.
  { intros [|]; [by intros [= <-]|]. destruct (include_transition _ _ _ _ _) as [bundles|] eqn:Eb; [|done]. cbn [mbind result_bind].
    intros [= <-]. cbn [rq_bundles rq_parents].
    assert (pending (rq_bundles r) (opid :: rq_parents r)) as Hp0.
    { intros k o Hko Hin. destruct (Hp k o Hko Hin) as [?|[?|?]]; [by left|by right; left|right; right; by right]. }
    destruct (include_pending _ _ _ _ _ _ Hk Hp0 Et Ei Eb) as (Hk' & Hp' & Ho & Hm). by split_and!. }
  destruct witness_id as [w|].
  - destruct (bundle_info _ _) as [[ws c]|]; [|done]. cbn [map_err mbind result_bind]. intros Hr.
    apply Hs in Hr as (? & ? & ? & _). by split_and!.
  - intros Hr. apply (Hs false) in Hr as (? & ? & ? & Ho). split_and!; [done|done|done|]. intros _. right. by apply Ho.
Qed.

Lemma requests_Ok seals witness_id ops r r' : keyed (rq_bundles r) -> pending (rq_bundles r) (rq_parents r) ->
  try_fold (request_operation s contract_id seals witness_id) r ops = Ok r' ->
  keyed (rq_bundles r') /\ pending (rq_bundles r') (rq_parents r') /\
  (forall o, includes (rq_bundles r) o -> includes (rq_bundles r') o) /\
  (witness_id = None -> forall o, o ∈ ops -> o = contract_id \/ includes (rq_bundles r') o).
Proof.
  revert r. induction ops as [|op ops IH]; intros r Hk Hp; cbn [try_fold].
  { intros [= <-]. split_and!; [done|done|done|]. intros _ o Ho. by apply elem_of_nil in Ho. }
  destruct (request_operation _ _ _ _ _ _) as [r1|] eqn:E; [|done]. cbn [mbind result_bind].
  apply request_Ok in E as (Hk1 & Hp1 & Hm1 & Ho1); [|done|done]. intros (Hk' & Hp' & Hm' & Ho')%IH; [|done|done].
  split_and!; [done|done|auto|]. intros Hw o [->|Ho]%elem_of_cons; [|by apply Ho']. destruct (Ho1 Hw); [by left|right; by apply Hm'].
Qed.

(** ** The walk ends *)

Definition inputs_count (opid : OpId) : nat := match transition s opid with Ok t => length (t_inputs t) | Err _ => 0 end.

(** The inputs of all operations that are not in [seen] *)
Definition history (seen : gset OpId) : nat := sum_list_with inputs_count (elements (dom (op_bundle_index (index s)) ∖ seen)).

Lemma history_add opid seen t : transition s opid = Ok t -> opid ∉ seen -> (history ({[ opid ]} ∪ seen) + length (t_inputs t))%nat = history seen.
Proof.
  intros Ht Hn. pose proof (transition_Ok _ _ Ht) as (_ & Hd & _). apply elem_of_dom in Hd. unfold history.
  set (D := dom (op_bundle_index (index s))) in *. replace (D ∖ seen) with ({[ opid ]} ∪ (D ∖ ({[ opid ]} ∪ seen))).
  - rewrite elements_union_singleton by set_solver. cbn. unfold inputs_count at 2. rewrite Ht. lia.
  - apply set_eq. intros x. destruct (decide (x = opid)) as [->|]; set_solver.
Qed.
Lemma history_mono opid seen : (history ({[ opid ]} ∪ seen) <= history seen)%nat.
Proof.
  unfold history. set (D := dom (op_bundle_index (index s))). destruct (decide (opid ∈ D ∖ seen)) as [Hin|Hn].
  - replace (D ∖ seen) with ({[ opid ]} ∪ (D ∖ ({[ opid ]} ∪ seen))); [rewrite elements_union_singleton by set_solver; cbn; lia|].
    apply set_eq. intros x. destruct (decide (x = opid)) as [->|]; set_solver.
  - replace (D ∖ ({[ opid ]} ∪ seen)) with (D ∖ seen) by set_solver. done.
Qed.


Definition in_time {A} (r : result StockError A) : Prop := r <> Err OutOfFuel.
Lemma in_time_bind {A B} (r : result StockError A) (f : A -> result StockError B) :
  in_time r -> (forall a, r = Ok a -> in_time (f a)) -> in_time (r ≫= f).
Proof. intros Hr Hf. destruct r as [a|e]; [by apply Hf|]. intros [= ->]. by apply Hr. Qed.
Lemma in_time_Ok {A} (a : A) : in_time (Ok a).
Proof. done. Qed.
Lemma in_time_map {E A} (wrap : E -> StockError) (r : result E A) : (forall e, wrap e <> OutOfFuel) -> in_time (map_err wrap r).
Proof. intros Hw. destruct r as [|e]; [done|]. intros [= He]. by apply (Hw e). Qed.
Lemma in_time_ok_or {A} (o : option A) e : e <> OutOfFuel -> in_time (ok_or o e).
Proof. destruct o; [done|]. intros He [= ->]. done. Qed.
Lemma in_time_ensure b e : e <> OutOfFuel -> in_time (ensure b e).
Proof. destruct b; [done|]. intros He [= ->]. done. Qed.
Lemma in_time_index {A} (r : result StockError A) : index_errors r -> in_time r.
Proof. intros Hr Ht. by destruct (Hr _ Ht). Qed.
Lemma in_time_each {A} (l : list A) f : (forall x, in_time (f x)) -> in_time (try_each (E := StockError) l f).
Proof. intros Hf. induction l as [|x l IH]; [done|]. by apply in_time_bind. Qed.
#[local] Hint Resolve in_time_Ok : core.
#[local] Hint Extern 1 (in_time (map_err _ _)) => apply in_time_map; done : core.
#[local] Hint Extern 1 (in_time (ok_or _ _)) => apply in_time_ok_or; done : core.
#[local] Hint Extern 1 (in_time (ensure _ _)) => apply in_time_ensure; done : core.

Ltac in_time := repeat first
  [ apply in_time_Ok | progress auto | apply in_time_bind; [|intros ? _] | case_match | discriminate ].

Lemma transition_in_time opid : in_time (transition s opid).
Proof. unfold transition. in_time. Qed.
Lemma include_in_time bundles id opid t : in_time (include_transition s bundles id opid t).
Proof.
  unfold include_transition, reveal_transition, witness_bundle, to_concealed_except, witness_height. in_time.
Qed.

Lemma collect_in_time fuel bundles seen parents : (length parents + history seen <= fuel)%nat ->
  in_time (collect fuel s contract_id bundles seen parents).
Proof.
  revert bundles seen parents. induction fuel as [|fuel IH]; intros bundles seen parents Hf; destruct parents as [|opid parents];
    cbn [collect]; try done; cbn [length] in Hf; [lia|].
  destruct (String.eqb opid contract_id); [apply IH; lia|]. case_bool_decide as Hs; [apply IH; lia|].
  apply in_time_bind; [apply transition_in_time|]. intros t Ht. apply in_time_bind; [by auto|intros id _].
  apply in_time_bind; [apply include_in_time|]. intros bundles' _. apply IH. pose proof (history_add _ _ _ Ht Hs).
  rewrite length_app, length_rev. unfold input_ops. rewrite length_map. lia.
Qed.

Lemma request_in_time seals witness_id r opid : in_time (request_operation s contract_id seals witness_id r opid).
Proof.
  unfold request_operation. destruct (String.eqb _ _); [done|]. apply in_time_bind; [apply transition_in_time|intros t _].
  apply in_time_bind; [by auto|intros id _]. apply in_time_bind; [destruct witness_id; in_time|intros skip _].
  destruct skip; [done|]. apply in_time_bind; [apply include_in_time|done].
Qed.

(** Each operation that is asked for is new, and takes its inputs from the history. *)
Lemma request_parents seals witness_id r opid r' seen : opid ∉ seen -> request_operation s contract_id seals witness_id r opid = Ok r' ->
  (length (rq_parents r') + history ({[ opid ]} ∪ seen) <= length (rq_parents r) + history seen)%nat.
Proof.
  intros Hn. unfold request_operation. pose proof (history_mono opid seen). destruct (String.eqb _ _); [intros [= <-]; lia|].
  destruct (transition s opid) as [t|] eqn:Et; [|done]. cbn [mbind result_bind]. pose proof (history_add _ _ _ Et Hn).
  destruct (map_err _ _); [|done]. cbn [mbind result_bind].
  match goal with |- (?m ≫= _) = _ -> _ => destruct m as [[|]|]; [intros [= <-]; lia| |done] end. cbn [mbind result_bind].
  destruct (include_transition _ _ _ _ _); [|done]. cbn [mbind result_bind]. intros [= <-]. cbn [rq_parents].
  rewrite length_app, length_rev. unfold input_ops. rewrite length_map. lia.
Qed.

Lemma requests_parents seals witness_id ops r r' seen : NoDup ops -> (forall o, o ∈ ops -> o ∉ seen) ->
  try_fold (request_operation s contract_id seals witness_id) r ops = Ok r' ->
  (length (rq_parents r') <= length (rq_parents r) + history seen)%nat.
Proof.
  revert r seen. induction ops as [|op ops IH]; intros r seen Hd Hs; cbn [try_fold]; [intros [= <-]; lia|].
  destruct (request_operation _ _ _ _ _ _) as [r1|] eqn:E; [|done]. cbn [mbind result_bind]. apply NoDup_cons in Hd as [Hop Hd].
  apply (request_parents _ _ _ _ _ seen) in E; [|apply Hs; by left]. intros Hr.
  apply (IH _ ({[ op ]} ∪ seen)) in Hr; [lia|done|]. intros o Ho. rewrite elem_of_union, elem_of_singleton.
  intros [->|Hos]; [done|]. eapply Hs; [by right|done].
Qed.

Lemma topological_in_time n deps sorted remaining : (length remaining <= n)%nat -> in_time (topological n deps sorted remaining).
Proof.
  revert sorted remaining. induction n as [|n IH]; intros sorted remaining Hn; destruct remaining as [|e l]; cbn [topological]; try done; [cbn in Hn; lia|].
  destruct (list_find _ _) as [[i [id wb]]|] eqn:E; [|done]. apply list_find_Some in E as [Hi _]. apply IH.
  rewrite length_delete by eauto. cbn in *. lia.
Qed.

Lemma sort_in_time bundles build genesis : in_time (sort_bundles s bundles contract_id build genesis).
Proof.
  unfold sort_bundles. destruct (_ <=? _)%nat; [done|]. apply in_time_bind; [apply in_time_index, scan_errors|].
  intros [dag [|]] _; [|done]. cbn [negb]. apply in_time_bind; [apply in_time_index, note_errors|]. intros [deps dag'] _.
  apply in_time_bind; [|done]. apply topological_in_time. by rewrite length_map.
Qed.


Context (ts_extract : TypeSystem -> list SemId -> option TypeSystem) (hash_order : gset OpId -> list OpId).
Hypothesis hash_order_perm : forall set, hash_order set ≡ₚ elements set.

Definition carries (c : StockConsignment) (opid : OpId) : Prop :=
  exists wb k, wb ∈ sc_bundles c /\ k ∈ known_transitions (wb_bundle wb) /\ kt_opid k = opid.

Lemma consign_bundles_in_time fuel r build : (length (rq_parents r) + history ∅ <= fuel)%nat ->
  in_time (consign_bundles ts_extract fuel s contract_id r build).
Proof.
  intros Hf. unfold consign_bundles. apply in_time_bind; [by apply collect_in_time|intros bundles _].
  apply in_time_bind; [by auto|intros genesis _]. apply in_time_bind; [by auto|intros schema _].
  apply in_time_bind; [apply sort_in_time|intros [sorted dag] _]. apply in_time_bind; [by auto|intros _ _].
  apply in_time_bind; [|intros terminals _; in_time]. unfold confined_terminals.
  apply in_time_bind; [apply in_time_each; intros []; by auto|intros _ _; in_time].
Qed.

Lemma consign_bundles_Ok fuel r build c d : keyed (rq_bundles r) -> pending (rq_bundles r) (rq_parents r) ->
  consign_bundles ts_extract fuel s contract_id r build = Ok (c, d) ->
  (forall o, includes (rq_bundles r) o -> carries c o) /\
  (forall wb k o, wb ∈ sc_bundles c -> k ∈ known_transitions (wb_bundle wb) -> o ∈ input_ops (kt_transition k) ->
     o = contract_id \/ carries c o) /\ ordered s contract_id (sc_bundles c).
Proof.
  intros Hk Hp. unfold consign_bundles. destruct (collect _ _ _ _ _ _) as [bundles|] eqn:Ec; [|done]. cbn [mbind result_bind].
  apply collect_Ok in Ec as (Hk' & Hp' & Hm); [|done|done|by intros o Ho%elem_of_empty].
  destruct (st_genesis _ _) as [genesis|]; [|done]. cbn [map_err mbind result_bind].
  destruct (st_schema _ _) as [schema|]; [|done]. cbn [map_err mbind result_bind].
  destruct (sort_bundles _ _ _ _ _) as [[sorted dag]|] eqn:Es; [|done]. cbn [mbind result_bind].
  apply sort_bundles_Ok in Es as [Hperm Ho]; [|exact Hk'].
  destruct (ensure _ _); [|done]. cbn [mbind result_bind]. destruct (confined_terminals _) as [terminals|]; [|done]. cbn [mbind result_bind].
  destruct (stash_extract _ _ _) as [[types scripts]|]; [|done]. cbn [map_err mbind result_bind]. intros [= <- _]. cbn [sc_bundles].
  assert (forall o, includes bundles o -> carries (mkStockConsignment schema types (map snd (sorted_by str_cmp scripts)) genesis terminals sorted) o) as Hc.
  { intros o (k & (id & wb & h & Hl & Hin) & <-). exists wb, k. split_and!; [|done|done]. cbn [sc_bundles]. rewrite Hperm.
    apply list_elem_of_fmap. exists (id, (wb, h)). by rewrite elem_of_map_to_list. }
  split_and!; [auto| |done]. intros wb k o Hwb Hkn Hin. rewrite Hperm in Hwb. apply list_elem_of_fmap in Hwb as ([id [wb' h]] & -> & Hl%elem_of_map_to_list).
  destruct (Hp' k o) as [?|[?|?%elem_of_nil]]; [by exists id, wb', h|done|by left|right; by apply Hc|done].
Qed.


(** What is kept of a fascia: its inputs are required or kept. *)
Lemma keep_required_Ok is_requested l x :
  (forall k o, k ∈ x.2 -> o ∈ input_ops (kt_transition k) -> o ∈ x.1 \/ o ∈ map kt_opid x.2) ->
  let y := foldl (keep_required is_requested) x l in
  (forall k o, k ∈ y.2 -> o ∈ input_ops (kt_transition k) -> o ∈ y.1 \/ o ∈ map kt_opid y.2) /\
  (forall k, k ∈ x.2 -> k ∈ y.2) /\ forall k, k ∈ l -> is_requested k = true -> k ∈ y.2.
Proof.
  revert x. induction l as [|k0 l IH]; intros [required kept] Hx; cbn [foldl]; [split_and!; [done|done|by intros k Hk%elem_of_nil]|].
  destruct (IH (keep_required is_requested (required, kept) k0)) as (Hy & Hkept & Hreq).
  - unfold keep_required. destruct (_ || _); [|done]. cbn [fst snd] in *. intros k o Hk Ho. cbn [map].
    rewrite elem_of_cons, elem_of_union, elem_of_difference, elem_of_singleton, elem_of_list_to_set.
    destruct (decide (o = kt_opid k0)) as [->|Hne]; [by right; left|].
    apply elem_of_cons in Hk as [->|Hk]; [by left; right|]. destruct (Hx k o Hk Ho); [by left; left|by right; right].
  - split_and!; [done| |].
    + intros k Hk. apply Hkept. unfold keep_required. destruct (_ || _); [by right|done].
    + intros k [->|Hk]%elem_of_cons Hr; [|by apply Hreq]. apply Hkept. unfold keep_required. rewrite Hr, orb_true_r. by left.
Qed.

(** A consignment made from a fascia carries the transitions of its bundle that are
    asked for, by identifier, output or concealed seal, and for each transition that it
    carries the operations that it spends, in order. *)
Theorem fascia_consignment_complete fuel outputs secret_seals opids f build c d :
  consign_from_fascia ts_extract fuel s contract_id outputs secret_seals opids f build = Ok (c, d) ->
  (exists bundle, fascia_bundles f !! contract_id = Some bundle /\ forall k, k ∈ known_transitions bundle ->
     is_requested_transition (list_to_set opids) (list_to_set outputs) (list_to_set secret_seals) (sw_witness_id (seal_witness f)) k = true ->
     carries c (kt_opid k)) /\
  (forall wb k o, wb ∈ sc_bundles c -> k ∈ known_transitions (wb_bundle wb) -> o ∈ input_ops (kt_transition k) ->
     o = contract_id \/ carries c o) /\ ordered s contract_id (sc_bundles c).
Proof.
  unfold consign_from_fascia. destruct (fascia_bundles f !! contract_id) as [bundle|]; [|done]. cbn [ok_or mbind result_bind].
  set (is_requested := is_requested_transition _ _ _ _).
  destruct (keep_required_Ok is_requested (rev (known_transitions bundle)) (∅, [])) as (Hy & _ & Hreq); [by intros k o Hk%elem_of_nil|].
  destruct (foldl _ _ _) as [required kept]. cbn [fst snd] in *.
  destruct (sorted_set _); [|by destruct (sorted_set _)]. destruct (ensure _ _); [|done]. cbn [mbind result_bind].
  destruct (to_merkle_proof _ _) as [p|[]]; [|done|done]. cbn [mbind result_bind]. set (wb := mkWitnessBundle _ _ _ _).
  intros Hc. apply consign_bundles_Ok in Hc as (Hi & Hcl & Ho).
  - split_and!; [|done|done]. exists bundle. split; [done|]. intros k Hk Hr. apply Hi. exists k. split; [|done].
    exists (bundle_id bundle), wb, (2 ^ 32 - 1). split; [apply lookup_singleton_eq|]. apply Hreq; [|done].
    by rewrite list_elem_of_In, <- in_rev, <- list_elem_of_In.
  - intros id wb' h. cbn [rq_bundles]. intros [<- [= <- <-]]%lookup_singleton_Some. apply bundle_id_commits.
  - cbn [rq_bundles rq_parents]. intros k o (id & wb' & h & [<- [= <- <-]]%lookup_singleton_Some & Hk) Hin. cbn [wb_bundle known_transitions] in Hk.
    right. destruct (Hy k o Hk Hin) as [Hr|(k' & -> & Hk')%list_elem_of_fmap].
    + right. rewrite list_elem_of_In, <- in_rev, <- list_elem_of_In. unfold sorted_set. by rewrite merge_sort_Permutation, elem_of_elements.
    + left. exists k'. split; [|done]. exists (bundle_id bundle), wb, (2 ^ 32 - 1). split; [apply lookup_singleton_eq|done].
Qed.

End closed.

(** ** A contract with two transitions in one block *)

Module ConsignDemo.

#[local] Instance types : TypeLibrary := {|
  TypeSystem := unit; Ty := unit; ts_types _ := []; ts_get _ _ := Some tt; strict_deserialize_type _ _ _ := true |}.
#[local] Instance extend : TypeSystemExtend := {| ts_extend _ _ := Some tt |}.
(** The nonce is the identifier of a transition; that of a bundle is its first operation. *)
#[local] Instance ids : OperationIds :=
  {| genesis_id _ := "c"; transition_id t := if t_nonce t =? 1 then "1" else "2" |}.
#[local] Instance containers : ContainerIds :=
  {| bundle_id b := match map_to_list (input_map b) with (_, opid) :: _ => opid | [] => "" end; schema_id _ := "s" |}.
#[local] Instance seals : SealHash := {| conceal_seal _ := "" |}.
#[local] Instance tx : BitcoinTx := {|
  Tx := unit; ScriptBuf := unit; tx_input _ := []; tx_output _ := []; compute_txid _ := ""; is_op_return _ := true; is_p2tr _ := false |}.
#[local] Instance dbc : DbcProofs := {| Dbc := unit; method _ := OpretFirst; dbc_verify _ _ _ := Ok tt |}.
#[local] Instance merkle : MerkleIds := {| node_id _ := ""; leaf_id _ := ""; concealed_id _ := "" |}.
#[local] Instance daggy : Daggy := {|
  Dag := list Opout * list (nat * nat); NodeIndex := nat; dag_new := ([], []);
  add_node g o := ((g.1 ++ [o], g.2), length g.1); add_edge g a b := (g.1, g.2 ++ [(a, b)]) |}.

(** The transition of [nonce] spends [input] and has one output. *)
Definition spend (nonce : Z) (input : OpId) : Transition :=
  mkTransition 0 "c" nonce 0 ∅ ∅ [mkOpout input 0 0] {[ 0 := Declarative [ConfidentialSeal "x" tt] ]} None.
Definition bundle (opid input : OpId) (t : Transition) : TransitionBundle :=
  mkBundle {[ mkOpout input 0 0 := opid ]} [mkKnown opid t].
(** The operation 1 spends 2, which spends the genesis; both are mined at one height. *)
Definition child : TransitionBundle := bundle "1" "2" (spend 1 "2").
Definition parent : TransitionBundle := bundle "2" "c" (spend 2 "c").
Definition genesis : Genesis :=
  mkGenesis 0 "s" 0 "" BitcoinRegtest FirstOpretOrTapret ∅ ∅ {[ 0 := Declarative [ConfidentialSeal "x" tt] ]}.
Definition schema : Schema := mkSchema 0 "" ∅ ∅ ∅ (mkGenesisSchema ∅ ∅ ∅ None) ∅ None.
Definition mined : WitnessOrd := Mined (mkPos L1_Bitcoin 5 1300000000).
Definition witness_of (id : BundleId) : SealWitness := mkSealWitness (PW_Txid id) (mkBlock 0 0 [CommitmentLeaf "c" id] None) tt.
Definition stock : Stock := mkStock
  (mkMemStash {[ "s" := schema ]} {[ "c" := genesis ]} (<["1" := child]> {[ "2" := parent ]})
     (<["1" := witness_of "1"]> {[ "2" := witness_of "2" ]}) [] tt ∅)
  (mkMemState (<["1" := mined]> {[ "2" := mined ]}) ∅ ∅)
  (index_consignment genesis [(parent, "2"); (child, "1")] index_in_memory).1.
Definition consigned (build : bool) : result StockError (StockConsignment * option (Dag * gmap Opout NodeIndex)) :=
  consign (fun _ _ => Some tt) elements 4 stock "c" [] [] ["1"] None build.

(** The bundles are put in order, but the output of 2 has no edge to that of 1, which it
    was registered after. *)
Theorem dag_misses_edge :
  match consigned true with
  | Ok (c, Some ((nodes, edges), _)) =>
      map wb_id (sc_bundles c) = ["2"; "1"] /\ nodes = [mkOpout "c" 0 0; mkOpout "1" 0 0; mkOpout "2" 0 0] /\ edges = [(0, 2)%nat]
  | _ => False
  end.
Proof. vm_compute. split_and!; reflexivity. Qed.


Lemma stored id b : st_bundles (stash stock) !! id = Some b -> id = "1" /\ b = child \/ id = "2" /\ b = parent.
Proof.
  change (st_bundles (stash stock)) with (<["1" := child]> {[ "2" := parent ]} : gmap BundleId TransitionBundle).
  intros [[<- <-]|[_ [<- <-]%lookup_singleton_Some]]%lookup_insert_Some; [by left|by right].
Qed.

Lemma stock_ok : stash_ok stock.
Proof.
  constructor.
  - intros id b [[-> ->]|[-> ->]]%stored; vm_compute; reflexivity.
  - intros id b k [[-> ->]|[-> ->]]%stored ->%list_elem_of_singleton; vm_compute; reflexivity.
  - intros id b [[-> ->]|[-> ->]]%stored; apply NoDup_singleton.
Qed.


(** A fascia with the child: the parent comes from the stock. *)
Definition fascia : Fascia := mkFascia (witness_of "1") {[ "c" := child ]}.
Definition from_fascia : result StockError (StockConsignment * option (Dag * gmap Opout NodeIndex)) :=
  consign_from_fascia (fun _ _ => Some tt) 4 stock "c" [] [] ["1"] fascia false.

Lemma fascia_consignment_complete_witness :
  match from_fascia with Ok (c, _) => ordered stock "c" (sc_bundles c) /\ length (sc_bundles c) = 2%nat | Err _ => False end.
Proof.
  destruct from_fascia as [[c d]|e] eqn:E; [|vm_compute in E; discriminate E]. split.
  - exact (proj2 (proj2 (fascia_consignment_complete stock "c" stock_ok (fun b known => eq_refl) (fun _ _ => Some tt)
      4 [] [] ["1"] fascia false c d E))).
  - vm_compute in E. injection E as <- _. reflexivity.
Defined.

(** A bundle whose transitions are revealed in the wrong order is reported as concealed. *)
Theorem unordered_reported_concealed :
  let b := mkBundle (<[mkOpout "2" 0 0 := "1"]> {[ mkOpout "c" 0 0 := "2" ]}) [mkKnown "1" (spend 1 "2"); mkKnown "2" (spend 2 "c")] in
  consign_from_fascia (fun _ _ => Some tt) 4 stock "c" [] [] ["1"] (mkFascia (witness_of "1") {[ "c" := mkBundle (input_map b) (rev (known_transitions b)) ]}) false
    <> Err (InvalidInput (ConcealedTransition (bundle_id b) "2")) /\
  consign_from_fascia (fun _ _ => Some tt) 4 stock "c" [] [] ["1"] (mkFascia (witness_of "1") {[ "c" := b ]}) false
    = Err (InvalidInput (ConcealedTransition (bundle_id b) "2")).
Proof. vm_compute. split; [discriminate|reflexivity]. Qed.

End ConsignDemo.
