(* ===== verification/RgbDemo.v ===== *)
(** * RGB consensus: a contract of a non-inflatable asset, evaluated

    Stand-ins for the libraries, and a small contract: a genesis that issues 100 of an
    asset and a transfer of 60 of them.  The theorems on validation are applied to it. *)

From S2P Require Import Prelude Layer1 MpcMerkle MpcBlock MpcTree MpcDemo AluReg AluNumber AluCursor AluInstr AluBytecode AluLib AluRegs AluExec AluShift AluFrame AluProgress AluVm RgbTypes RgbOrder RgbSchema RgbIsa RgbLogic RgbScripts RgbValidator RgbLedger RgbAnchor RgbSchemata OpsState OpsHistory OpsIndex.
Local Open Scope Z_scope.

#[local] Existing Instance exact_wide.
#[local] Existing Instance no_floats.
#[local] Existing Instance demo_digests.
#[local] Existing Instance demo_secp.

#[local] Instance demo_types : TypeLibrary := {|
  TypeSystem := unit; Ty := unit; ts_types _ := []; ts_get _ _ := Some tt; strict_deserialize_type _ _ _ := true |}.
#[local] Instance demo_ids : OperationIds := {| genesis_id _ := "contract"; transition_id _ := "transfer" |}.
#[local] Instance demo_container_ids : ContainerIds := {| bundle_id _ := "bundle"; schema_id _ := "schema" |}.
#[local] Instance demo_ecdsa : Ecdsa :=
  {| is_public_key _ := true; is_compact_signature _ := true; ecdsa_verify _ _ _ := true |}.
#[local] Instance demo_access : ContractStateAccess unit :=
  {| cs_global _ _ := Some []; cs_rights _ _ _ := 0; cs_fungible _ _ _ := []; cs_data _ _ _ := [] |}.
#[local] Instance demo_evolve : ContractStateEvolve unit := fun _ s => (s, Ok tt).
(** A transaction is its identifier and its inputs, with one [OP_RETURN] output. *)
#[local] Instance demo_tx : BitcoinTx := {|
  Tx := string * list Outpoint; ScriptBuf := unit; tx_input := snd; tx_output _ := [tt];
  compute_txid := fst; is_op_return _ := true; is_p2tr _ := false |}.
(** The merkle proof of a tree with one message, and its commitment *)
Definition demo_mpc : short_proof := exist _ (mkProof 0 0 []) eq_refl.
Definition demo_committed : string := concealed_id (mkConcealed 0 0 (leaf_id (Inhabited "contract" "bundle"))).
#[local] Instance demo_dbc : DbcProofs := {|
  Dbc := unit; method _ := OpretFirst;
  dbc_verify _ c _ := if String.eqb c demo_committed then Ok tt else Err "other commitment" |}.
#[local] Instance demo_dag : Daggy := {|
  Dag := list Opout * list (nat * nat); NodeIndex := nat; dag_new := ([], []);
  add_node g o := ((g.1 ++ [o], g.2), length g.1); add_edge g a b := (g.1, g.2 ++ [(a, b)]) |}.

#[local] Instance Lib_eq_dec : EqDecision Lib.
Proof. solve_decision. Defined.

(** The code of the library of the non-inflatable asset *)
Definition demo_nia : Lib := mkLib "RGB"
  [11; 0; 0; 0; 208; 160; 15; 1; 7; 11; 0; 1; 0; 11; 8; 0; 0; 11; 1; 2; 0; 200; 218; 7; 1; 57; 48; 0; 209; 160; 15; 1; 7]
  [0; 1; 0; 0] [].

Lemma demo_nia_lib : nia_lib "RGB" = demo_nia.
Proof. apply nia_lib_code. Qed.

Definition demo_lib_id (lib : Lib) : string := if decide (lib = demo_nia) then "nia" else "other".

Lemma demo_lib_id_nia lib : demo_lib_id lib = demo_lib_id (nia_lib "RGB") -> lib = nia_lib "RGB".
Proof. rewrite demo_nia_lib. unfold demo_lib_id at 2. rewrite decide_True by done. unfold demo_lib_id. by case_decide. Qed.

Definition demo_schema : Schema := nia_schema "RGB" demo_lib_id (fun name => name).

Definition demo_seal (txid : Txid) : GenesisSeal := mkSeal txid 0 7.

Definition demo_genesis : Genesis := mkGenesis 0 "schema" 0 "issuer" BitcoinRegtest FirstOpretOrTapret ∅
  (<[GS_NOMINAL := [[1]]]> (<[GS_TERMS := [[2]]]> {[ GS_ISSUED_SUPPLY := [[100; 0; 0; 0; 0; 0; 0; 0]] ]}))
  {[ OS_ASSET := Fungible [Revealed (demo_seal "funding") (Bits64 100)] ]}.

Definition demo_transfer : Transition := mkTransition 0 "contract" 0 TS_TRANSFER ∅ ∅ [mkOpout "contract" OS_ASSET 0]
  {[ OS_ASSET := Fungible [Revealed (mkSeal WitnessTx 1 7) (Bits64 60); ConfidentialSeal "secret" (Bits64 40)] ]} None.

Definition demo_bundle : TransitionBundle :=
  mkBundle {[ mkOpout "contract" OS_ASSET 0 := "transfer" ]} [mkKnown "transfer" demo_transfer].

Definition demo_consignment : Consignment :=
  mkConsignment demo_schema tt [nia_lib "RGB"] demo_genesis [(demo_bundle, mkAnchor _ _ _ demo_mpc tt, "witness")].

Definition demo_config : ValidationConfig := mkConfig BitcoinRegtest (Some 5) tt true.

Definition demo_resolver_rgb : ResolveWitness := mkResolver
  (fun txid => if String.eqb txid "witness"
               then Ok (Resolved ("witness", [mkOutpoint "funding" 0]) (Mined (mkPos L1_Bitcoin 9 1300000000)))
               else Ok Unresolved)
  (fun _ => Ok tt).

Definition demo_start : Validator (S := unit) :=
  mkValidator (mkStatus [] ∅ None) tt ∅ ∅ (Some dag_info_new).

Definition demo_run : Validator * result ValidationError unit :=
  validate_all true (fun s => elements s) demo_lib_id 2 20 demo_consignment demo_config demo_resolver_rgb demo_start.

Lemma demo_consignment_code : demo_consignment = mkConsignment
  (mkSchema 0 "NonInflatableAsset" ∅ (global_types demo_schema) (owned_types demo_schema)
     (mkGenesisSchema ∅ (gsc_globals (s_genesis demo_schema)) (gsc_assignments (s_genesis demo_schema)) (Some (mkSite "nia" 9)))
     {[ TS_TRANSFER := asset_transfer (mkSite "nia" 0) ]} (Some OS_ASSET))
  tt [demo_nia] demo_genesis [(demo_bundle, mkAnchor _ _ _ demo_mpc tt, "witness")].
Proof. unfold demo_consignment, demo_schema, nia_schema. rewrite demo_nia_lib. reflexivity. Qed.

Lemma demo_init : init demo_lib_id demo_consignment tt demo_config = Ok demo_start.
Proof. rewrite demo_consignment_code. vm_compute. reflexivity. Qed.

Lemma demo_accepted : demo_run.2 = Ok tt.
Proof. unfold demo_run. rewrite demo_consignment_code. vm_compute. reflexivity. Qed.

Lemma demo_validated :
  validate_all true (fun s => elements s) demo_lib_id 2 20 demo_consignment demo_config demo_resolver_rgb demo_start =
  (demo_run.1, Ok tt).
Proof. fold demo_run. rewrite <- demo_accepted. apply surjective_pairing. Qed.

Lemma validation_is_ledger_run_witness :
  ledger_run demo_resolver_rgb "contract" (opening demo_consignment) (steps_of (bundles_info demo_consignment))
    (opout_assigns demo_run.1) /\
  NoDup [mkOpout "contract" OS_ASSET 0] /\ input_opouts demo_run.1 = {[ mkOpout "contract" OS_ASSET 0 ]} ∪ ∅.
Proof.
  exact (validation_is_ledger_run true (fun s => elements s) demo_lib_id 2 20 demo_consignment demo_config
    demo_resolver_rgb tt demo_start demo_run.1 demo_init demo_validated).
Defined.

Lemma demo_consignment_ok : consignment_ok demo_consignment.
Proof.
  split.
  - intros ty a Ha. unfold demo_consignment, demo_genesis, Assignments in Ha. cbn [c_genesis g_assignments] in Ha.
    apply lookup_singleton_Some in Ha as [_ <-]. by repeat constructor.
  - intros ty l d Hl Hd. assert (map_Forall (fun _ => Forall str_ok) (g_globals demo_genesis)) as HF.
    { repeat apply map_Forall_insert_2; [..|apply map_Forall_empty]; by repeat constructor. }
    by eapply Forall_forall; [apply (HF ty l)|].
  - intros bundle anchor txid known [= -> _ _]%list_elem_of_singleton ->%list_elem_of_singleton.
    intros ty a Ha. unfold demo_transfer, Assignments in Ha. cbn [kt_transition t_assignments] in Ha.
    apply lookup_singleton_Some in Ha as [_ <-]. by repeat constructor.
Qed.

Lemma supply_bounded_witness : exists n, genesis_supply demo_genesis = Some n /\ held OS_ASSET (opout_assigns demo_run.1) <= n.
Proof.
  apply (supply_bounded true (fun s => elements s) demo_lib_id 2 20 "RGB" demo_consignment demo_config demo_resolver_rgb)
    with (state := tt) (v0 := demo_start).
  - apply nia_conserving.
  - apply demo_lib_id_nia.
  - apply demo_consignment_ok.
  - lia.
  - lia.
  - apply demo_init.
  - apply demo_validated.
Defined.

Lemma demo_operation_ok : operation_ok (Op_Genesis demo_genesis) ∅.
Proof.
  split.
  - intros ty. assert (map_Forall (fun _ l => Z.of_nat (length l) <= 65535) (g_globals demo_genesis)) as HF.
    { repeat apply map_Forall_insert_2; [..|apply map_Forall_empty]; done. }
    unfold count_of. cbn [op_globals]. destruct (g_globals demo_genesis !! ty) as [l|] eqn:E; [exact (HF ty l E)|done].
  - intros ty. unfold PrevState. by rewrite lookup_empty.
  - intros ty a (b & Hb & ->)%fmap_Some_1. unfold demo_genesis, Assignments in Hb. cbn [g_assignments] in Hb.
    by apply lookup_singleton_Some in Hb as [_ <-].
Qed.

Lemma validate_state_refines_witness : exists os, structure_valid demo_schema tt (Op_Genesis demo_genesis) ∅ os /\
  match os_validator os with
  | None => tt = tt
  | Some site => script_accepts true demo_lib_id 2 20 (scripts_of demo_lib_id demo_consignment) demo_genesis
      (Op_Genesis demo_genesis) ∅ site tt /\ evolve_state (Op_Genesis demo_genesis) tt = (tt, Ok tt)
  end.
Proof.
  apply (validate_state_refines (H2 := demo_types) true (fun s => elements s) (fun s => Permutation_refl _) demo_lib_id 2 20 demo_schema tt
    (scripts_of demo_lib_id demo_consignment) demo_genesis (Op_Genesis demo_genesis) ∅ tt tt demo_operation_ok).
  vm_compute. reflexivity.
Defined.

(** A script that generates a key of the curve that is not implemented *)
Definition panic_lib : Lib := mkLib "RGB" [INSTR_ED_GEN; 0] [] [].
Definition panic_schema : Schema :=
  mkSchema 0 "Panic" ∅ (global_types demo_schema) (owned_types demo_schema)
    (mkGenesisSchema ∅ (gsc_globals (s_genesis demo_schema)) (gsc_assignments (s_genesis demo_schema)) (Some (mkSite "other" 0)))
    ∅ None.

Definition panic_scripts : gmap string Lib := {[ "other" := panic_lib ]}.

(** The state in memory, before the genesis *)
Definition demo_mem : MemContract := mem_init panic_schema "contract".

Lemma demo_has_room : has_room (Op_Genesis demo_genesis) (mc_unfiltered demo_mem).
Proof.
  assert (op_count (Op_Genesis demo_genesis) = 1) as E by (vm_compute; reflexivity).
  constructor; [|rewrite E; vm_compute; discriminate..].
  intros ty l m Hl Hm. cbn [demo_mem mem_init mc_unfiltered mem_contract_new mcs_global] in Hm.
  rewrite lookup_fmap in Hm. destruct (global_types panic_schema !! ty); [|done]. injection Hm as <-.
  pose proof (oo_globals _ _ demo_operation_ok ty) as Hc. rewrite Hl in Hc.
  change (Z.of_nat (length l) <= 65535) in Hc. cbn [known]. rewrite map_size_empty. unfold LARGE. lia.
Qed.

Lemma validation_panics_in_script_witness : mem_ok panic_schema demo_mem /\ forall p,
  Err (A := unit) (Panicked (Abort "todo")) = Err (Panicked p) -> demo_mem = demo_mem /\ exists os site regs,
  structure_valid panic_schema tt (Op_Genesis demo_genesis) ∅ os /\ os_validator os = Some site /\
  Vm_exec (A := Instr RgbIsa) (H0 := the_set true) demo_lib_id 2 20 (fun id => panic_scripts !! id)
    (mkVmContext (genesis_id demo_genesis) (mkOpInfo (op_id (Op_Genesis demo_genesis)) ∅ (Op_Genesis demo_genesis)) demo_mem) site
    (initial_regs (Op_Genesis demo_genesis)) = Some (regs, Err p).
Proof.
  refine (validation_panics_in_script (H2 := demo_types) true (fun s => elements s) (fun s => Permutation_refl _) demo_lib_id 2 20
    panic_schema tt tt panic_scripts demo_genesis (Op_Genesis demo_genesis) ∅ demo_mem demo_mem _ demo_operation_ok _
    (mem_init_ok _ _) demo_has_room _).
  - vm_compute. reflexivity.
  - vm_compute. reflexivity.
Defined.


Lemma pfa_script_decides_witness :
  run_script true (fun _ => "pfa") 2 20 {[ "pfa" := pfa_lib_transition "RGB" ]} demo_genesis
    (Op_Transition demo_transfer "witness" Tentative "bundle") {[ OS_ASSET := [RS_Fungible (Bits64 100)] ]}
    (mkSite "pfa" 0) tt = Err (InvalidConsignment (ScriptFailure "transfer" (Some ERRNO_MISSING_PUBKEY))).
Proof.
  rewrite (pfa_script_decides true (fun _ => "pfa") "RGB"); [|lia|lia|apply lookup_singleton_eq|reflexivity|reflexivity].
  vm_compute. reflexivity.
Defined.

Lemma library_schemata_verify_witness : verify demo_schema tt = Ok tt.
Proof. apply (library_schemata_verify "RGB" demo_lib_id (fun name => name)); [by eexists|left]. Defined.

Lemma demo_binding (proof : Dbc) c c' (tx : Tx) : dbc_verify proof c tx = Ok tt -> dbc_verify proof c' tx = Ok tt -> c = c'.
Proof.
  cbn [dbc_verify demo_dbc]. intros H1 H2. destruct (String.eqb_spec c demo_committed) as [->|]; [|discriminate H1].
  destruct (String.eqb_spec c' demo_committed) as [->|]; [reflexivity|discriminate H2].
Qed.


(** What the genesis and the transfer assign, read back *)
Definition demo_history : list OrdOpRef :=
  [Op_Genesis demo_genesis; Op_Transition demo_transfer "tx" (Mined (mkPos L1_Bitcoin 5 1300000000)) "bundle"].
Definition demo_state : MemContract := (evolve_all demo_history (mem_init demo_schema "contract")).1.


(** The genesis and the transfer, indexed *)
Definition demo_indexed : MemIndex * result IndexError unit :=
  index_consignment demo_genesis [(demo_bundle, "witness")] index_in_memory.

Lemma index_exact_witness :
  holds demo_indexed.1 (F_op "transfer" "bundle") /\ holds demo_indexed.1 (F_child "contract" "bundle") /\
  ~ holds demo_indexed.1 (F_op "contract" "bundle").
Proof.
  assert (index_consignment demo_genesis [(demo_bundle, "witness")] index_in_memory = (demo_indexed.1, Ok tt)) as E
    by (vm_compute; reflexivity).
  assert (index_ok index_in_memory) as Hi by (vm_compute; discriminate).
  destruct (index_exact demo_genesis [(demo_bundle, "witness")] index_in_memory demo_indexed.1 Hi E) as [_ Hf].
  split_and!.
  - apply (proj2 (Hf (F_op "transfer" "bundle"))). right; right. exists demo_bundle, "witness".
    split; [apply list_elem_of_In; left; reflexivity|]. right; right. exists (mkKnown "transfer" demo_transfer).
    split; [apply list_elem_of_In; left; reflexivity|]. left. reflexivity.
  - apply (proj2 (Hf (F_child "contract" "bundle"))). right; right. exists demo_bundle, "witness".
    split; [apply list_elem_of_In; left; reflexivity|]. right; right. exists (mkKnown "transfer" demo_transfer).
    split; [apply list_elem_of_In; left; reflexivity|]. right; left. exists (mkOpout "contract" OS_ASSET 0).
    split; [apply list_elem_of_In; left; reflexivity|reflexivity].
  - vm_compute. discriminate.
Defined.
