(* ===== verification/InvoiceAmount.v ===== *)
(** * RGB invoices: amounts (rgb-ops/invoice/src/amount.rs, data.rs)

    Amounts of assets in the smallest units, their precision, amounts in coins with their
    decimal text, and allocations of tokens.  A text is a list of characters.  The base-32
    text of an amount comes from the crate fast32, which is the interface [Base32]. *)

From Stdlib Require Import Ascii.
From S2P Require Import Prelude.
Local Open Scope Z_scope.

(** ** Text *)

Abbreviation text := (list Ascii.ascii).
Definition txt (s : string) : text := String.list_ascii_of_string s.

(** [str::split_once] with a character, [Option::unwrap_or] aside *)
Fixpoint split_once (c : Ascii.ascii) (s : text) : option (text * text) :=
  match s with
  | [] => None
  | x :: s' => if Ascii.eqb x c then Some ([], s')
               else (fun '(a, b) => (x :: a, b)) <$> split_once c s'
  end.

Lemma split_once_app c a b : c ∉ a -> split_once c (a ++ c :: b) = Some (a, b).
Proof.
  induction a as [|x a IH]; intros Hc; cbn; [by rewrite Ascii.eqb_refl|].
  apply not_elem_of_cons in Hc as [Hx Ha]. destruct (Ascii.eqb_spec x c); [congruence|]. by rewrite IH.
Qed.
Lemma split_once_None c s : c ∉ s -> split_once c s = None.
Proof.
  induction s as [|x s IH]; [done|]. intros [Hx Hs]%not_elem_of_cons. cbn. destruct (Ascii.eqb_spec x c); [congruence|]. by rewrite IH.
Qed.

(** ** Decimal numbers of the standard library *)

Definition digit_char (d : Z) : Ascii.ascii := Ascii.ascii_of_N (Z.to_N (48 + d)).
Definition char_digit (c : Ascii.ascii) : option Z :=
  let d := Z.of_N (Ascii.N_of_ascii c) - 48 in if (0 <=? d) && (d <=? 9) then Some d else None.

(** The digits of a number, the last one first *)
Fixpoint digits (fuel : nat) (n : Z) : list Z :=
  match fuel with
  | O => []
  | S fuel' => n mod 10 :: (if n <? 10 then [] else digits fuel' (n / 10))
  end.

(** [to_string] of a number of at most 64 bits, which has at most 20 digits *)
Definition to_decimal (n : Z) : text := map digit_char (rev (digits 20 n)).

Inductive ParseIntError := PI_Empty | PI_InvalidDigit | PI_PosOverflow | PI_NegOverflow.

(** [parse] of an unsigned number below [max] *)
Fixpoint parse_digits (max acc : Z) (s : text) : result ParseIntError Z :=
  match s with
  | [] => Ok acc
  | c :: s' =>
      d ← ok_or (char_digit c) PI_InvalidDigit;
      if acc * 10 + d <? max then parse_digits max (acc * 10 + d) s' else Err PI_PosOverflow
  end.
Definition parse_uint (max : Z) (s : text) : result ParseIntError Z :=
  match s with
  | [] => Err PI_Empty
  | c :: s' =>
      if Ascii.eqb c "+"%char then match s' with [] => Err PI_InvalidDigit | _ => parse_digits max 0 s' end
      else parse_digits max 0 s
  end.

Definition U64 : Z := 2 ^ 64.
Definition U32 : Z := 2 ^ 32.

Definition value (acc : Z) (ds : list Z) : Z := foldl (fun a d => a * 10 + d) acc ds.
Definition digit (d : Z) : Prop := 0 <= d <= 9.

Lemma digit_cases d : digit d -> d = 0 \/ d = 1 \/ d = 2 \/ d = 3 \/ d = 4 \/ d = 5 \/ d = 6 \/ d = 7 \/ d = 8 \/ d = 9.
Proof. unfold digit. lia. Qed.
Lemma char_digit_char d : digit d -> char_digit (digit_char d) = Some d.
Proof. intros Hd. destruct (digit_cases d Hd) as [->|[->|[->|[->|[->|[->|[->|[->|[->| ->]]]]]]]]]; reflexivity. Qed.
Lemma char_digit_other c d : char_digit c = None -> digit d -> digit_char d <> c.
Proof. intros Hc Hd <-. by rewrite char_digit_char in Hc. Qed.

Lemma value_app acc ds d : value acc (ds ++ [d]) = value acc ds * 10 + d.
Proof. unfold value. by rewrite foldl_app. Qed.
Lemma value_mono acc ds : 0 <= acc -> Forall digit ds -> acc <= value acc ds.
Proof.
  intros Ha Hd. revert acc Ha. induction Hd as [|d ds Hd0 Hds IH]; intros acc Ha; [done|]. unfold value in *. cbn. unfold digit in Hd0.
  specialize (IH (acc * 10 + d)). lia.
Qed.

Lemma parse_digits_value max acc ds : 0 <= acc -> Forall digit ds -> value acc ds < max ->
  parse_digits max acc (map digit_char ds) = Ok (value acc ds).
Proof.
  intros Ha Hd. revert acc Ha. induction Hd as [|d ds Hd0 Hds IH]; intros acc Ha Hm; [done|]. cbn [map parse_digits].
  rewrite char_digit_char by done. cbn [ok_or mbind result_bind]. unfold digit in Hd0.
  pose proof (value_mono (acc * 10 + d) ds ltac:(lia) Hds). change (value acc (d :: ds)) with (value (acc * 10 + d) ds) in *.
  destruct (Z.ltb_spec (acc * 10 + d) max); [|lia]. apply IH; [lia|done].
Qed.

Lemma digits_digit fuel n : Forall digit (digits fuel n).
Proof.
  revert n. induction fuel as [|fuel IH]; intros n; cbn; constructor; [unfold digit; pose proof (Z.mod_pos_bound n 10); lia|].
  destruct (n <? 10); [constructor|apply IH].
Qed.
Lemma digits_value fuel n : 0 <= n < 10 ^ Z.of_nat fuel -> (0 < fuel)%nat -> value 0 (rev (digits fuel n)) = n.
Proof.
  revert n. induction fuel as [|fuel IH]; intros n Hn Hf; [lia|]. cbn [digits rev]. rewrite value_app.
  destruct (Z.ltb_spec n 10); [cbn; rewrite Z.mod_small; lia|]. rewrite IH.
  - rewrite Z.mul_comm. symmetry. by apply Z.div_mod.
  - rewrite Nat2Z.inj_succ, Z.pow_succ_r in Hn by lia. split; [apply Z.div_pos; lia|apply Z.div_lt_upper_bound; lia].
  - destruct fuel; [|lia]. change (10 ^ Z.of_nat 1) with 10 in Hn. lia.
Qed.
Lemma digits_length fuel n k : (0 < k)%nat -> 0 <= n < 10 ^ Z.of_nat k -> (length (digits fuel n) <= k)%nat.
Proof.
  revert n k. induction fuel as [|fuel IH]; intros n k Hk Hn; cbn [digits length]; [lia|].
  destruct (Z.ltb_spec n 10); cbn; [lia|]. destruct k as [|k]; [lia|]. destruct k as [|k]; [change (10 ^ Z.of_nat 1) with 10 in Hn; lia|].
  apply le_n_S, IH; [lia|]. rewrite Nat2Z.inj_succ, Z.pow_succ_r in Hn by lia. split; [apply Z.div_pos; lia|apply Z.div_lt_upper_bound; lia].
Qed.
Lemma digits_nil fuel n : (0 < fuel)%nat -> digits fuel n <> [].
Proof. destruct fuel; [lia|done]. Qed.

(** The value of a number with zeros before it *)
Lemma value_zeros k ds : value 0 (replicate k 0 ++ ds) = value 0 ds.
Proof. unfold value. rewrite foldl_app. f_equal. induction k; [done|]. by cbn. Qed.

(** A text of digits is read as its number. *)
Lemma parse_uint_digits max ds : ds <> [] -> Forall digit ds -> value 0 ds < max -> parse_uint max (map digit_char ds) = Ok (value 0 ds).
Proof.
  intros Hn Hd Hv. pose proof (parse_digits_value max 0 ds ltac:(lia) Hd Hv) as Hp. destruct ds as [|d ds]; [done|]. cbn [map parse_uint].
  destruct (Ascii.eqb_spec (digit_char d) "+"%char) as [E|_]; [|exact Hp]. exfalso. inversion Hd; subst. by eapply (char_digit_other "+"%char).
Qed.

Lemma decimal_digits n : Forall digit (rev (digits 20 n)) /\ rev (digits 20 n) <> [].
Proof.
  split; [apply Forall_rev, digits_digit|]. intros Er. apply (digits_nil 20 n ltac:(lia)).
  by rewrite <- (rev_involutive (digits 20 n)), Er.
Qed.
Lemma decimal_value n : 0 <= n < U64 -> value 0 (rev (digits 20 n)) = n.
Proof. intros Hn. apply digits_value; [|lia]. assert (U64 < 10 ^ Z.of_nat 20) by reflexivity. lia. Qed.

Lemma to_decimal_nil n : to_decimal n <> [].
Proof. intros E. apply (proj2 (decimal_digits n)). by apply map_eq_nil in E. Qed.

(** The decimal text of a number is read as the number. *)
Lemma parse_decimal max n : 0 <= n < max -> max <= U64 -> parse_uint max (to_decimal n) = Ok n.
Proof.
  intros Hn Hm. destruct (decimal_digits n) as [Hd Hne]. pose proof (decimal_value n ltac:(lia)) as Hv.
  unfold to_decimal. rewrite parse_uint_digits by (done || lia). by rewrite Hv.
Qed.

(** Only digits, with a plus sign before them, are read. *)
Lemma parse_digits_Ok max acc s n : parse_digits max acc s = Ok n -> Forall (fun c => char_digit c <> None) s.
Proof.
  revert acc. induction s as [|c s IH]; intros acc; [constructor|]. cbn. destruct (char_digit c) eqn:E; [|done]. cbn.
  destruct (_ <? _); [|done]. intros H. constructor; [by rewrite E|by eapply IH].
Qed.
Lemma parse_uint_Ok max s n c : parse_uint max s = Ok n -> char_digit c = None -> c <> "+"%char -> c ∉ s.
Proof.
  intros H Hc Hp Hin. destruct s as [|x s]; [done|]. cbn [parse_uint] in H. destruct (Ascii.eqb_spec x "+"%char) as [->|_].
  - destruct s as [|y s]; [done|]. apply elem_of_cons in Hin as [?|Hin]; [done|].
    apply parse_digits_Ok in H. rewrite Forall_forall in H. by apply (H c).
  - apply parse_digits_Ok in H. rewrite Forall_forall in H. by apply (H c).
Qed.

Lemma digits_text_other ds c : Forall digit ds -> char_digit c = None -> c ∉ map digit_char ds.
Proof.
  intros Hd Hc Hin. apply list_elem_of_In, in_map_iff in Hin as (d & E & Hin%list_elem_of_In).
  rewrite Forall_forall in Hd. by apply (char_digit_other c d Hc (Hd d Hin)).
Qed.
Lemma to_decimal_other n c : char_digit c = None -> c ∉ to_decimal n.
Proof. apply digits_text_other, decimal_digits. Qed.

(** ** Precision and amounts *)

Inductive Precision :=
| Indivisible | Deci | Centi | Milli | DeciMilli | CentiMilli | Micro | DeciMicro | CentiMicro | Nano
| DeciNano | CentiNano | Pico | DeciPico | CentiPico | Femto | DeciFemto | CentiFemto | Atto.

Definition decimals (p : Precision) : nat :=
  match p with
  | Indivisible => 0 | Deci => 1 | Centi => 2 | Milli => 3 | DeciMilli => 4 | CentiMilli => 5
  | Micro => 6 | DeciMicro => 7 | CentiMicro => 8 | Nano => 9 | DeciNano => 10 | CentiNano => 11
  | Pico => 12 | DeciPico => 13 | CentiPico => 14 | Femto => 15 | DeciFemto => 16
  | CentiFemto => 17 | Atto => 18
  end.

Definition multiplier (p : Precision) : Z :=
  match p with
  | Indivisible => 1 | Deci => 10 | Centi => 100 | Milli => 1000 | DeciMilli => 10000
  | CentiMilli => 100000 | Micro => 1000000 | DeciMicro => 10000000 | CentiMicro => 100000000
  | Nano => 1000000000 | DeciNano => 10000000000 | CentiNano => 100000000000
  | Pico => 1000000000000 | DeciPico => 10000000000000 | CentiPico => 100000000000000
  | Femto => 1000000000000000 | DeciFemto => 10000000000000000 | CentiFemto => 100000000000000000
  | Atto => 1000000000000000000
  end.

(** [Precision::try_from(u8)] *)
Definition precision_of (n : Z) : option Precision :=
  nth_error [Indivisible; Deci; Centi; Milli; DeciMilli; CentiMilli; Micro; DeciMicro; CentiMicro; Nano;
             DeciNano; CentiNano; Pico; DeciPico; CentiPico; Femto; DeciFemto; CentiFemto; Atto] (Z.to_nat n).

Definition amount_rem (a : Z) (p : Precision) : Z := a mod multiplier p.
Definition amount_floor (a : Z) (p : Precision) : Z := if a =? 0 then 0 else a / multiplier p.
Definition amount_ceil (a : Z) (p : Precision) : Z :=
  if a =? 0 then 0 else a / multiplier p + (if 0 <? amount_rem a p then 1 else 0).
Definition amount_round (a : Z) (p : Precision) : Z :=
  if a =? 0 then 0 else a / multiplier p + 2 * amount_rem a p / multiplier p.
Definition amount_split (a : Z) (p : Precision) : Z * Z := (amount_floor a p, amount_rem a p).

Definition checked_convert (p : Precision) (a : Z) : option Z :=
  if a * multiplier p <? U64 then Some (a * multiplier p) else None.
Definition saturating_convert (p : Precision) (a : Z) : Z := saturating_mul 64 a (multiplier p).
Definition unchecked_convert (p : Precision) (a : Z) : result (Fault Empty_set) Z :=
  ok_or (checked_convert p a) (Panics "attempt to multiply with overflow").

(** [Sum]: saturating *)
Definition amount_sum (l : list Z) : Z := foldl (saturating_add 64) 0 l.

Lemma multiplier_pow p : multiplier p = 10 ^ Z.of_nat (decimals p).
Proof. by destruct p. Qed.
Lemma multiplier_pos p : 0 < multiplier p <= 10 ^ 18.
Proof. destruct p; cbn; lia. Qed.
Lemma precision_of_decimals p : precision_of (Z.of_nat (decimals p)) = Some p.
Proof. by destruct p. Qed.

(** ** Coins *)

Record CoinAmount := { int : Z; fract : Z; precision : Precision }.

Definition coin_new (a : Z) (p : Precision) : CoinAmount :=
  let '(i, f) := amount_split a p in {| int := i; fract := f; precision := p |}.

Definition coin_with (i f : Z) (p : Precision) : option CoinAmount :=
  if 10 ^ Z.of_nat (decimals p) <=? f then None else Some {| int := i; fract := f; precision := p |}.

Definition to_amount_unchecked (c : CoinAmount) : result (Fault Empty_set) Z :=
  let pow := 10 ^ Z.of_nat (decimals (precision c)) in
  product ← ok_or (if int c * pow <? U64 then Some (int c * pow) else None)
              (Panics "CoinAmount type garantees are broken");
  ok_or (Prelude.checked_add 64 product (fract c)) (Panics "integer has at least the same number of zeros").

(** The options of a formatter that the code reads *)
Record Formatter := { fill : Ascii.ascii; alternate : bool; has_precision : bool }.

(** [slice::chunks(3)] *)
Fixpoint chunks3 (s : text) : list text :=
  match s with
  | a :: b :: c :: s' => [a; b; c] :: chunks3 s'
  | [] => []
  | s => [s]
  end.

(** [join] *)
Fixpoint join (sep : text) (l : list text) : text :=
  match l with [] => [] | [x] => x | x :: l' => x ++ sep ++ join sep l' end.

Definition to_chunks (fl : Ascii.ascii) (s : text) : text :=
  join [fl] (rev (map (@rev _) (chunks3 (rev s)))).

(** [trim_end_matches('0')] *)
Fixpoint trim_start (c : Ascii.ascii) (s : text) : text :=
  match s with x :: s' => if Ascii.eqb x c then trim_start c s' else s | [] => [] end.
Definition trim_end (c : Ascii.ascii) (s : text) : text := rev (trim_start c (rev s)).

(** The fraction with zeros before it, as many digits as the precision has *)
Definition padded_fract (c : CoinAmount) : result (Fault Empty_set) text :=
  let float := to_decimal (fract c) in
  let len := length float in
  let dec := decimals (precision c) in
  match Nat.compare len dec with
  | Lt => Ok (replicate (dec - len) "0"%char ++ float)
  | Eq => Ok float
  | Gt => Err (Panics "float precision overflow for coin amount")
  end.

Definition coin_fmt (f : Formatter) (c : CoinAmount) : result (Fault Empty_set) text :=
  if negb (existsb (Ascii.eqb (fill f)) [" "%char; "_"%char]) then Err (Panics "disallowed fill character") else
  if has_precision f then Err (Panics "formatting precision must not be used for coin amounts") else
  let i := to_decimal (int c) in
  let i := if alternate f then to_chunks (fill f) i else i in
  fraction ← (if (0 <? fract c) || alternate f then
                float ← padded_fract c;
                Ok ("."%char :: (if alternate f then to_chunks (fill f) float else trim_end "0"%char float))
              else Ok []);
  Ok (i ++ fraction ++ (if alternate f then [] else "~"%char :: to_decimal (Z.of_nat (decimals (precision c))))).

Inductive AmountParseError :=
| InvalidInt (e : ParseIntError)
| InvalidFract (e : ParseIntError)
| InvalidPrecision (e : ParseIntError)
| PrecisionOverflow
| UnknownPrecision (n : Z).

(** [replace([' ', '_'], "")] *)
Definition is_separator (c : Ascii.ascii) : bool := Ascii.eqb c " "%char || Ascii.eqb c "_"%char.
Definition without_separators (s : text) : text := List.filter (fun c => negb (is_separator c)) s.

Definition coin_from_str (s : text) : result AmountParseError CoinAmount :=
  let s := without_separators s in
  let '(i, remain) := default (s, txt "0") (split_once "."%char s) in
  let '(fr, prec) := default (remain, []) (split_once "~"%char remain) in
  prec ← (match prec with
          | [] => Ok (Z.of_nat (length fr))
          | _ => map_err InvalidPrecision (parse_uint U64 prec)
          end);
  i ← map_err InvalidInt (parse_uint U64 i);
  fr ← map_err InvalidFract (parse_uint U64 fr);
  prec ← ok_or (if prec <? 256 then Some prec else None) PrecisionOverflow;
  p ← ok_or (precision_of prec) (UnknownPrecision prec);
  Ok {| int := i; fract := fr; precision := p |}.

(** ** Allocations of tokens *)

Record Allocation := { token_index : Z; fraction : Z }.

Definition allocation_fmt (a : Allocation) : text := to_decimal (fraction a) ++ "@"%char :: to_decimal (token_index a).

Inductive AllocationParseError := InvalidIndex (s : text) | InvalidFraction (s : text) | WrongFormat.

Definition to_lowercase (s : text) : text :=
  map (fun c => let n := Ascii.N_of_ascii c in if ((65 <=? n) && (n <=? 90))%N then Ascii.ascii_of_N (n + 32) else c) s.

Definition allocation_from_str (s : text) : result AllocationParseError Allocation :=
  if negb (existsb (Ascii.eqb "@"%char) s) then Err WrongFormat else
  match split_once "@"%char s with
  | Some (fr, ix) =>
      i ← map_err (fun _ => InvalidIndex ix) (parse_uint U32 ix);
      f ← map_err (fun _ => InvalidFraction (to_lowercase fr)) (parse_uint U64 fr);
      Ok {| token_index := i; fraction := f |}
  | None => Err WrongFormat
  end.

(** ** Amounts and coins *)

(** The code's own invariant of a coin amount: 64-bit parts, the fraction below one coin *)
Definition coin_ok (c : CoinAmount) : Prop := 0 <= int c < U64 /\ 0 <= fract c < 10 ^ Z.of_nat (decimals (precision c)).

Lemma amount_floor_div a p : amount_floor a p = a / multiplier p.
Proof. unfold amount_floor. destruct (Z.eqb_spec a 0) as [->|]; [|done]. symmetry. apply Z.div_0_l. pose proof (multiplier_pos p). lia. Qed.

Lemma coin_new_ok a p : 0 <= a < U64 -> coin_ok (coin_new a p).
Proof.
  intros Ha. pose proof (multiplier_pos p). split; cbn; [rewrite amount_floor_div|rewrite <- multiplier_pow].
  - split; [apply Z.div_pos; lia|]. eapply Z.le_lt_trans; [apply Z.div_le_upper_bound|apply Ha]; [lia|nia].
  - apply Z.mod_pos_bound. lia.
Qed.

(** ** The text of a coin amount *)

Lemma zero_char : "0"%char = digit_char 0.
Proof. done. Qed.
Lemma replicate_zero k : replicate k "0"%char = map digit_char (replicate k 0).
Proof. rewrite zero_char. induction k; cbn; congruence. Qed.

Lemma to_decimal_length n k : (0 < k)%nat -> 0 <= n < 10 ^ Z.of_nat k -> (length (to_decimal n) <= k)%nat.
Proof. intros Hk Hn. unfold to_decimal. rewrite length_map, length_rev. by apply digits_length. Qed.

(** The fraction is written with exactly the digits of the precision. *)
Lemma padded_fract_Ok c : coin_ok c -> (0 < decimals (precision c))%nat ->
  exists ds, padded_fract c = Ok (map digit_char ds) /\ Forall digit ds /\ value 0 ds = fract c /\ length ds = decimals (precision c).
Proof.
  intros [_ Hf] Hd. pose proof (to_decimal_length _ _ Hd Hf) as Hl. destruct (decimal_digits (fract c)) as [Hdd _].
  assert (fract c < U64) as Hb.
  { rewrite <- multiplier_pow in Hf. pose proof (multiplier_pos (precision c)). assert (10 ^ 18 < U64) by done. lia. }
  pose proof (decimal_value (fract c) ltac:(lia)) as Hv. unfold padded_fract.
  assert (length (to_decimal (fract c)) = length (rev (digits 20 (fract c)))) as El by apply length_map.
  destruct (Nat.compare_spec (length (to_decimal (fract c))) (decimals (precision c))) as [E|E|E]; [| |lia].
  - exists (rev (digits 20 (fract c))). by rewrite <- El.
  - eexists. rewrite replicate_zero. unfold to_decimal at 2. rewrite <- map_app. split; [done|]. split.
    + apply Forall_app. split; [|done]. apply Forall_replicate. unfold digit. lia.
    + split; [by rewrite value_zeros|]. rewrite length_app, length_replicate. lia.
Qed.

Lemma is_separator_digit d : digit d -> is_separator (digit_char d) = false.
Proof. intros Hd. destruct (digit_cases d Hd) as [->|[->|[->|[->|[->|[->|[->|[->|[->| ->]]]]]]]]]; reflexivity. Qed.
Lemma without_separators_app s t : without_separators (s ++ t) = without_separators s ++ without_separators t.
Proof. apply List.filter_app. Qed.
Lemma without_separators_cons c s : is_separator c = false -> without_separators (c :: s) = c :: without_separators s.
Proof. intros E. unfold without_separators. cbn. by rewrite E. Qed.
Lemma without_separators_digits ds : Forall digit ds -> without_separators (map digit_char ds) = map digit_char ds.
Proof. induction 1 as [|d ds Hd _ IH]; [done|]. cbn. rewrite is_separator_digit by done. cbn. by f_equal. Qed.
Lemma without_separators_decimal n : without_separators (to_decimal n) = to_decimal n.
Proof. apply without_separators_digits, decimal_digits. Qed.

Lemma chunks3_concat s : concat (chunks3 s) = s.
Proof.
  cut (forall n s, (length s <= n)%nat -> concat (chunks3 s) = s); [eauto|]. clear s. induction n as [|n IH]; intros s Hn; [by destruct s; cbn in *; [|lia]|].
  destruct s as [|a [|b [|c s]]]; [done..|]. cbn in *. by rewrite IH by lia.
Qed.
Lemma concat_rev_rev (l : list text) : concat (rev (map (@rev _) l)) = rev (concat l).
Proof. induction l as [|x l IH]; [done|]. cbn. rewrite concat_app, IH, rev_app_distr. cbn. by rewrite app_nil_r. Qed.
Lemma without_separators_join fl l : is_separator fl = true -> without_separators (join [fl] l) = without_separators (concat l).
Proof.
  intros Hf. induction l as [|x [|y l] IH]; [done|by cbn; rewrite app_nil_r|]. cbn [join concat] in *.
  rewrite !without_separators_app in *. rewrite IH. cbn. by rewrite Hf.
Qed.
(** Digits written in groups are read as the digits. *)
Lemma to_chunks_read fl s : is_separator fl = true -> without_separators (to_chunks fl s) = without_separators s.
Proof. intros Hf. unfold to_chunks. rewrite without_separators_join by done. by rewrite concat_rev_rev, chunks3_concat, rev_involutive. Qed.

(** Trimming takes zeros from the end and only them. *)
Lemma trim_start_spec ds : Forall digit ds -> exists j es, trim_start "0"%char (map digit_char ds) = map digit_char es /\ ds = replicate j 0 ++ es
  /\ (forall e es', es = e :: es' -> e <> 0).
Proof.
  induction 1 as [|d ds Hd Hds (j & es & E & -> & Hh)]; [by exists 0%nat, []|]. cbn [map trim_start].
  destruct (Ascii.eqb_spec (digit_char d) "0"%char) as [E0|E0].
  - exists (S j), es. split; [done|]. split; [|done]. cbn. f_equal. rewrite zero_char in E0.
    pose proof (char_digit_char d Hd) as H1. rewrite E0, char_digit_char in H1 by (unfold digit; lia). congruence.
  - exists 0%nat, (d :: replicate j 0 ++ es). split; [done|]. split; [done|]. intros ? ? [= <- _] ->. by apply E0.
Qed.
Lemma value_more_zeros ds j : value 0 (ds ++ replicate j 0) = value 0 ds * 10 ^ Z.of_nat j.
Proof.
  revert ds. induction j as [|j IH]; intros ds; [cbn; rewrite app_nil_r; lia|]. cbn [replicate].
  replace (ds ++ 0 :: replicate j 0) with ((ds ++ [0]) ++ replicate j 0) by by rewrite <- app_assoc.
  rewrite IH, value_app, Nat2Z.inj_succ, Z.pow_succ_r by lia. lia.
Qed.
Lemma trim_end_spec ds : Forall digit ds -> exists j es, trim_end "0"%char (map digit_char ds) = map digit_char es /\ Forall digit es
  /\ value 0 ds = value 0 es * 10 ^ Z.of_nat j /\ (value 0 ds mod 10 <> 0 -> j = 0%nat) /\ (j = 0%nat -> value 0 ds <> 0 -> value 0 ds mod 10 <> 0).
Proof.
  intros Hd. destruct (trim_start_spec (rev ds) ltac:(by apply Forall_rev)) as (j & es & E & Er & Hh). exists j, (rev es).
  apply Forall_rev in Hd as Hd'. rewrite Er in Hd'. apply Forall_app in Hd' as [_ He].
  assert (ds = rev es ++ replicate j 0) as Eds.
  { rewrite <- (rev_involutive ds), Er, rev_app_distr. f_equal. clear. induction j as [|j IH]; [done|]. cbn. rewrite IH. symmetry. apply replicate_cons_app. }
  split; [unfold trim_end; by rewrite <- map_rev, E, map_rev|]. split; [by apply Forall_rev|].
  assert (value 0 ds = value 0 (rev es) * 10 ^ Z.of_nat j) as -> by by rewrite Eds, value_more_zeros. split; [done|]. split.
  - intros Hm. destruct j as [|j]; [done|]. exfalso. apply Hm. rewrite Nat2Z.inj_succ, Z.pow_succ_r by lia.
    replace (_ * (10 * _)) with (value 0 (rev es) * 10 ^ Z.of_nat j * 10) by lia. by apply Z_mod_mult.
  - intros -> Hz. destruct es as [|e es]; [by cbn in Hz|]. cbn [rev]. rewrite value_app. inversion He as [|? ? Hed]; subst. unfold digit in Hed.
    specialize (Hh e es eq_refl). replace ((_ + _) * _) with (e + value 0 (rev es) * 10) by (cbn; lia). rewrite Z_mod_plus_full, Z.mod_small; lia.
Qed.

(** What the parser reads from the parts of a text *)
Lemma coin_from_parts ii ff pp s i f p :
  without_separators s = ii ++ "."%char :: ff ++ pp -> "."%char ∉ ii -> "~"%char ∉ ff ->
  parse_uint U64 ii = Ok i -> parse_uint U64 ff = Ok f ->
  (pp = [] /\ length ff = decimals p \/ pp = "~"%char :: to_decimal (Z.of_nat (decimals p))) ->
  coin_from_str s = Ok {| int := i; fract := f; precision := p |}.
Proof.
  intros Es Hi Hf Ei Ef Hp. unfold coin_from_str. rewrite Es, split_once_app by done. cbn [default from_option id].
  assert (default (ff ++ pp, []) (split_once "~"%char (ff ++ pp)) = (ff, drop 1 pp)) as ->.
  { destruct Hp as [[-> _]| ->]; [by rewrite app_nil_r, split_once_None|by rewrite split_once_app]. }
  assert (Z.of_nat (decimals p) < 256) as Hd by by destruct p.
  assert (match drop 1 pp with
          | [] => Ok (Z.of_nat (length ff))
          | _ => map_err InvalidPrecision (parse_uint U64 (drop 1 pp))
          end = Ok (Z.of_nat (decimals p))) as ->.
  { destruct Hp as [[-> ->]| ->]; [done|]. cbn [skipn].
    assert (parse_uint U64 (to_decimal (Z.of_nat (decimals p))) = Ok (Z.of_nat (decimals p))) as Ep by (apply parse_decimal; unfold U64; lia).
    destruct (to_decimal (Z.of_nat (decimals p))) eqn:E; [by apply to_decimal_nil in E|]. rewrite drop_0. by rewrite Ep. }
  cbn [mbind result_bind]. rewrite Ei, Ef. cbn. destruct (Z.ltb_spec (Z.of_nat (decimals p)) 256); [|lia]. cbn. by rewrite precision_of_decimals.
Qed.

Definition plain : Formatter := {| fill := " "%char; alternate := false; has_precision := false |}.
Definition grouped (fl : Ascii.ascii) : Formatter := {| fill := fl; alternate := true; has_precision := false |}.



(** The amount of the test [small_fraction], 10.00000500, is read back as 10.00000005, and that of
    [zero_fraction] is not read at all. *)
Example small_fraction_misread :
  coin_fmt plain {| int := 10; fract := 500; precision := CentiMicro |} = Ok (txt "10.000005~8")
  /\ coin_from_str (txt "10.000005~8") = Ok {| int := 10; fract := 5; precision := CentiMicro |}.
Proof. by vm_compute. Qed.
Example zero_fraction_unread :
  coin_fmt plain {| int := 10; fract := 0; precision := CentiMicro |} = Ok (txt "10~8")
  /\ coin_from_str (txt "10~8") = Err (InvalidInt PI_InvalidDigit).
Proof. by vm_compute. Qed.

(** The text in groups of three digits is read back as the amount at every precision but
    [Indivisible], at which writing it panics. *)
Theorem coin_text_grouped c fl : coin_ok c -> is_separator fl = true ->
  match coin_fmt (grouped fl) c with
  | Ok s => coin_from_str s = Ok c
  | Err _ => precision c = Indivisible
  end.
Proof.
  intros Hc Hs. pose proof Hc as [Hi Hf]. unfold coin_fmt. cbn [grouped fill alternate has_precision].
  assert (existsb (Ascii.eqb fl) [" "%char; "_"%char] = true) as -> by (revert Hs; unfold is_separator; cbn; by rewrite orb_false_r).
  rewrite orb_true_r. cbn [negb]. destruct (decide (0 < decimals (precision c))%nat) as [Hd|Hd].
  - destruct (padded_fract_Ok c Hc Hd) as (ds & -> & Hdd & Hv & Hl). cbn [mbind result_bind].
    rewrite (coin_from_parts (to_decimal (int c)) (map digit_char ds) [] _ (int c) (fract c) (precision c)); [by destruct c|..].
    + cbn [app]. rewrite without_separators_app, app_nil_r, without_separators_cons by done.
      by rewrite !to_chunks_read, without_separators_decimal, without_separators_digits, app_nil_r.
    + by apply to_decimal_other.
    + by apply digits_text_other.
    + by apply parse_decimal.
    + rewrite <- Hv. apply parse_uint_digits; [by intros ->; cbn in Hl; lia|done|]. rewrite Hv. rewrite <- multiplier_pow in Hf.
      pose proof (multiplier_pos (precision c)). assert (10 ^ 18 < U64) by done. lia.
    + left. by rewrite length_map.
  - destruct (_ ≫= _) eqn:E; [|by destruct (precision c); cbn in Hd; try lia]. exfalso. revert E.
    assert (padded_fract c = Err (Panics "float precision overflow for coin amount")) as ->; [|done].
    assert (decimals (precision c) = 0%nat) as Ed by lia. unfold padded_fract. rewrite Ed in *.
    replace (fract c) with 0 by (cbn in Hf; lia). done.
Qed.

(** ** Whole amounts *)

(** An amount in coins is the amount it was made of: writing it back never panics. *)
Theorem coin_amount_exact a p : 0 <= a < U64 -> to_amount_unchecked (coin_new a p) = Ok a.
Proof.
  intros Ha. pose proof (multiplier_pos p). unfold to_amount_unchecked. cbn. rewrite <- multiplier_pow, amount_floor_div.
  pose proof (Z.div_mod a (multiplier p) ltac:(lia)) as E. pose proof (Z.mod_pos_bound a (multiplier p) ltac:(lia)).
  unfold amount_rem. destruct (Z.ltb_spec (a / multiplier p * multiplier p) U64); [|lia]. cbn.
  unfold Prelude.checked_add, umax. change (2 ^ 64) with U64.
  replace (a / multiplier p * multiplier p + a mod multiplier p) with a by lia. destruct (Z.leb_spec a (U64 - 1)); [done|lia].
Qed.

(** Rounding gives a nearest whole number of coins, and the whole numbers around the amount are its floor and its ceiling. *)
Theorem amount_round_nearest a p : 0 <= a < U64 ->
  2 * Z.abs (amount_round a p * multiplier p - a) <= multiplier p
  /\ amount_floor a p * multiplier p <= a <= amount_ceil a p * multiplier p
  /\ amount_ceil a p - amount_floor a p <= 1 /\ amount_floor a p <= amount_round a p <= amount_ceil a p.
Proof.
  intros Ha. pose proof (multiplier_pos p). rewrite amount_floor_div. unfold amount_round, amount_ceil, amount_rem.
  pose proof (Z.div_mod a (multiplier p) ltac:(lia)) as E. pose proof (Z.mod_pos_bound a (multiplier p) ltac:(lia)).
  destruct (Z.eqb_spec a 0) as [->|].
  { rewrite Z.div_0_l by lia. lia. }
  assert (2 * (a mod multiplier p) / multiplier p = if 2 * (a mod multiplier p) <? multiplier p then 0 else 1) as ->.
  { destruct (Z.ltb_spec (2 * (a mod multiplier p)) (multiplier p)); [apply Z.div_small; lia|]. symmetry. apply Z.div_unique with (2 * (a mod multiplier p) - multiplier p); lia. }
  destruct (Z.ltb_spec (2 * (a mod multiplier p)) (multiplier p)), (Z.ltb_spec 0 (a mod multiplier p)); nia.
Qed.

(** ** Allocations *)

(** The text of an allocation is read back as the allocation. *)
Theorem allocation_text_roundtrip i f : 0 <= i < U32 -> 0 <= f < U64 ->
  allocation_from_str (allocation_fmt {| token_index := i; fraction := f |}) = Ok {| token_index := i; fraction := f |}.
Proof.
  intros Hi Hf. unfold allocation_from_str, allocation_fmt. cbn [token_index fraction].
  rewrite existsb_app. cbn [existsb]. rewrite Ascii.eqb_refl, orb_true_r. cbn [negb].
  rewrite split_once_app by by apply to_decimal_other. by rewrite !parse_decimal.
Qed.

(** ** The base-32 text of an amount *)

(** The crate fast32: what it encodes it decodes to the same bytes. *)
Class Base32 := {
  DecodeError : Type;
  InvalidLength : nat -> DecodeError;
  encode32 : list Z -> text;
  decode32 : text -> result DecodeError (list Z);
  decode_encode32 : forall bs, Forall (fun b => 0 <= b < 256) bs -> decode32 (encode32 bs) = Ok bs;
}.

Section Base32.
Context `{B32 : Base32}.

Fixpoint le_bytes_of (k : nat) (a : Z) : list Z :=
  match k with O => [] | S k => a mod 256 :: le_bytes_of k (a / 256) end.
Definition to_le_bytes (a : Z) : list Z := le_bytes_of 8 a.
Definition from_le_bytes (bs : list Z) : Z := foldr (fun b acc => b + 256 * acc) 0 bs.

(** [Iterator::rposition] *)
Fixpoint rposition (P : Z -> bool) (bs : list Z) : option nat :=
  match bs with
  | [] => None
  | b :: bs' => match rposition P bs' with Some i => Some (S i) | None => if P b then Some 0%nat else None end
  end.
Definition significant (bs : list Z) : nat := default 0%nat (rposition (fun b => negb (b =? 0)) bs) + 1.

Definition amount_fmt (a : Z) : text := let bytes := to_le_bytes a in encode32 (take (significant bytes) bytes).

Definition amount_from_str (s : text) : result DecodeError Z :=
  amount ← decode32 s;
  if (8 <? length amount)%nat then Err (InvalidLength (length amount)) else
  Ok (from_le_bytes (amount ++ replicate (8 - length amount) 0)).

Lemma le_bytes_of_length k a : length (le_bytes_of k a) = k.
Proof. revert a. induction k; intros a; cbn; congruence. Qed.
Lemma le_bytes_of_bytes k a : Forall (fun b => 0 <= b < 256) (le_bytes_of k a).
Proof. revert a. induction k as [|k IH]; intros a; cbn; constructor; [apply Z.mod_pos_bound; lia|apply IH]. Qed.
Lemma from_le_bytes_of k a : 0 <= a < 256 ^ Z.of_nat k -> from_le_bytes (le_bytes_of k a) = a.
Proof.
  revert a. induction k as [|k IH]; intros a Ha; cbn [le_bytes_of from_le_bytes foldr]; [cbn in Ha; lia|].
  rewrite Nat2Z.inj_succ, Z.pow_succ_r in Ha by lia. fold (from_le_bytes (le_bytes_of k (a / 256))). rewrite IH.
  - pose proof (Z.div_mod a 256). lia.
  - split; [apply Z.div_pos; lia|apply Z.div_lt_upper_bound; lia].
Qed.
Lemma rposition_None bs : rposition (fun b => negb (b =? 0)) bs = None -> bs = replicate (length bs) 0.
Proof.
  induction bs as [|b bs IH]; [done|]. cbn. destruct (rposition _ bs); [done|]. destruct (Z.eqb_spec b 0) as [->|]; [|done].
  intros _. f_equal. by apply IH.
Qed.
(** Only zeros follow the bytes that are written. *)
Lemma significant_rest bs : bs <> [] -> take (significant bs) bs ++ replicate (length bs - significant bs) 0 = bs /\ (significant bs <= length bs)%nat.
Proof.
  unfold significant. induction bs as [|b bs IH]; [done|]. intros _. cbn [rposition length].
  destruct (rposition _ bs) as [i|] eqn:E; cbn [default from_option id] in *.
  - destruct (IH ltac:(by intros ->)) as [IH' IHl]. cbn. rewrite IH'. split; [done|lia].
  - apply rposition_None in E. destruct (negb (b =? 0)); cbn; rewrite Nat.sub_0_r, <- E; (split; [done|lia]).
Qed.

(** The base-32 text of an amount is read back as the amount. *)
Theorem amount_text_roundtrip a : 0 <= a < U64 -> amount_from_str (amount_fmt a) = Ok a.
Proof.
  intros Ha. unfold amount_from_str, amount_fmt. pose proof (le_bytes_of_length 8 a) as Hl. fold (to_le_bytes a) in Hl.
  rewrite decode_encode32 by (apply Forall_take, le_bytes_of_bytes). cbn [mbind result_bind].
  destruct (significant_rest (to_le_bytes a)) as [E Hs]; [by intros En; rewrite En in Hl|]. rewrite Hl in *.
  rewrite length_take, Hl, Nat.min_l by done. destruct (Nat.ltb_spec 8 (significant (to_le_bytes a))); [lia|]. rewrite E. f_equal.
  apply from_le_bytes_of. done.
Qed.

End Base32.
