(* ===== verification/LnTx.v ===== *)
(** * Interactive transaction construction: data and negotiation context

    [ln/interactivetxs.rs] of ln-rgb-lightning lets the two peers of a channel
    build a funding (or splice) transaction together.  This file has the data of
    the protocol (the [tx_*] messages, inputs and outputs with their owners) and
    [NegotiationContext], which records what either peer has added so far: the
    four handlers of received messages, the four of sent ones, and the sums of
    value and weight the final checks are made of.

    The [bitcoin] crate is the class [Bitcoin]; the iteration order of the
    standard library's hash maps is the class [HashOrder].  Amounts, weights and
    serial ids are [u64], counters [u16]; an overflow of an unchecked operation
    is a panic, as in a build that checks for it, and so is a failed
    [debug_assert!]. *)

From stdpp Require Import base gmap list sorting.
From Stdlib Require Import ZArith Lia.
From S2P Require Import Prelude.
Local Open Scope Z_scope.

(** ** Bitcoin data *)

Definition Bytes : Type := list Z.
Definition Script : Type := Bytes.
Definition Witness : Type := list Bytes.
Definition Txid : Type := Z.
Definition SerialId : Type := Z.
Definition ChannelId : Type := Z.
Definition PublicKey : Type := Bytes.

Record OutPoint := { op_txid : Txid; op_vout : Z }.

Record TxIn := {
  previous_output : OutPoint; script_sig : Script; sequence : Z; witness : Witness }.

Record TxOut := { value : Z; script_pubkey : Script }.

Record Transaction := {
  version : Z; lock_time : Z; input : list TxIn; output : list TxOut }.

#[export] Instance OutPoint_eq_dec : EqDecision OutPoint.
Proof. solve_decision. Defined.
#[export] Instance OutPoint_countable : Countable OutPoint.
Proof.
  refine (inj_countable' (fun o => (op_txid o, op_vout o))
    (fun p => {| op_txid := p.1; op_vout := p.2 |}) _).
  by intros [].
Defined.
#[export] Instance TxIn_eq_dec : EqDecision TxIn.
Proof. solve_decision. Defined.
#[export] Instance TxOut_eq_dec : EqDecision TxOut.
Proof. solve_decision. Defined.
#[export] Instance Transaction_eq_dec : EqDecision Transaction.
Proof. solve_decision. Defined.

(** [TxIn { previous_output, sequence, ..Default::default() }] *)
Definition unsigned_txin (o : OutPoint) (seq : Z) : TxIn :=
  {| previous_output := o; script_sig := []; sequence := seq; witness := [] |}.

(** [u64::from_be_bytes] and the like *)
Definition from_be_bytes (b : Bytes) : Z := foldl (fun acc x => acc * 256 + x) 0 b.

(** What the [bitcoin] crate gives: the encoding of a script is bounded by the
    address space, and the compressed encoding of a public key determines the
    key. *)
Class Bitcoin := {
  compute_txid : Transaction -> Txid;
  tx_weight : Transaction -> Z;
  is_p2wpkh : Script -> bool;
  is_p2wsh : Script -> bool;
  is_p2tr : Script -> bool;
  is_witness_program : Script -> bool;
  witness_version : Script -> option Z;
  minimal_non_dust : Script -> Z;
  script_encoded_len : Script -> Z;
  script_encoded_len_bound : forall s, 0 <= script_encoded_len s < 2 ^ 56;
  serialize : PublicKey -> Bytes;
  serialize_inj : forall k k', serialize k = serialize k' -> k = k';
}.

(** The order in which a [HashMap] is iterated: some order of its entries *)
Class HashOrder := {
  hash_iter : forall {A}, gmap SerialId A -> list (SerialId * A);
  hash_iter_perm : forall A (m : gmap SerialId A), hash_iter m ≡ₚ map_to_list m;
}.

(** ** Constants (interactivetxs.rs, chan_utils.rs, sign/mod.rs) *)

Definition WITNESS_SCALE_FACTOR : Z := 4.
Definition MAX_RECEIVED_TX_ADD_INPUT_COUNT : Z := 4096.
Definition MAX_RECEIVED_TX_ADD_OUTPUT_COUNT : Z := 4096.
Definition MAX_INPUTS_OUTPUTS_COUNT : nat := 252.
Definition TX_COMMON_FIELDS_WEIGHT : Z := (4 + 4 + 1 + 1) * WITNESS_SCALE_FACTOR + 2.
Definition MAX_STANDARD_TX_WEIGHT : Z := 400000.
Definition TOTAL_BITCOIN_SUPPLY_SATOSHIS : Z := 21000000 * 100000000.
Definition REMOTE_FEE_TOLERANCE_PERCENT : Z := 95.

Definition COMPRESSED_PUBLIC_KEY_SIZE : Z := 33.
Definition MAX_STANDARD_SIGNATURE_SIZE : Z := 72.
Definition SCHNORR_SIGNATURE_SIZE : Z := 64.
Definition P2WPKH_WITNESS_WEIGHT : Z :=
  1 + 1 + MAX_STANDARD_SIGNATURE_SIZE + 1 + COMPRESSED_PUBLIC_KEY_SIZE.
Definition P2TR_KEY_PATH_WITNESS_WEIGHT : Z := 1 + 1 + SCHNORR_SIGNATURE_SIZE.
Definition MULTISIG_SCRIPT_SIZE : Z :=
  1 + 1 + COMPRESSED_PUBLIC_KEY_SIZE + 1 + COMPRESSED_PUBLIC_KEY_SIZE + 1 + 1.
Definition FUNDING_TRANSACTION_WITNESS_WEIGHT : Z :=
  1 + 1 + 1 + MAX_STANDARD_SIGNATURE_SIZE + 1 + MAX_STANDARD_SIGNATURE_SIZE + 1 +
  MULTISIG_SCRIPT_SIZE.
Definition SEGWIT_MARKER_FLAG_WEIGHT : Z := 2.
Definition EMPTY_SCRIPT_SIG_WEIGHT : Z := 1 * WITNESS_SCALE_FACTOR.
Definition BASE_INPUT_SIZE : Z := 32 + 4 + 4.
Definition BASE_INPUT_WEIGHT : Z := BASE_INPUT_SIZE * WITNESS_SCALE_FACTOR.

Definition P2WPKH_INPUT_WEIGHT_LOWER_BOUND : Z :=
  BASE_INPUT_WEIGHT + EMPTY_SCRIPT_SIG_WEIGHT + P2WPKH_WITNESS_WEIGHT.
Definition P2WSH_INPUT_WEIGHT_LOWER_BOUND : Z := P2WPKH_INPUT_WEIGHT_LOWER_BOUND.
Definition P2TR_INPUT_WEIGHT_LOWER_BOUND : Z :=
  BASE_INPUT_WEIGHT + EMPTY_SCRIPT_SIG_WEIGHT + P2TR_KEY_PATH_WITNESS_WEIGHT.
Definition UNKNOWN_SEGWIT_VERSION_INPUT_WEIGHT_LOWER_BOUND : Z :=
  P2WPKH_INPUT_WEIGHT_LOWER_BOUND.

(** ** Unsigned arithmetic *)

Abbreviation sat_add := (saturating_add 64).

(** [a + b] and [a * b] on [w] bits, where an overflow panics *)
Definition uadd {E} (w a b : Z) : result (Fault E) Z :=
  if is_uint w (a + b) then Ok (a + b) else Err (Panics "attempt to add with overflow").
Definition umul {E} (w a b : Z) : result (Fault E) Z :=
  if is_uint w (a * b) then Ok (a * b) else Err (Panics "attempt to multiply with overflow").

(** [assert!] and [debug_assert!] *)
Definition assert_or {E} (b : bool) (why : string) : result (Fault E) unit :=
  ensure b (Panics why).

(** [chaininterface.rs]: the fee of a weight, rounded up *)
Definition fee_for_weight {E} (feerate weight : Z) : result (Fault E) Z :=
  product ← umul 64 feerate weight;
  rounded ← uadd 64 product 1000;
  Ok ((rounded - 1) / 1000).

(** ** Reasons to abort a negotiation *)

Inductive AbortReason :=
| InvalidStateTransition
| UnexpectedCounterpartyMessage
| ReceivedTooManyTxAddInputs
| ReceivedTooManyTxAddOutputs
| IncorrectInputSequenceValue
| IncorrectSerialIdParity
| SerialIdUnknown
| DuplicateSerialId
| PrevTxOutInvalid
| ExceededMaximumSatsAllowed
| ExceededNumberOfInputsOrOutputs
| TransactionTooLarge
| BelowDustLimit
| InvalidOutputScript
| InsufficientFees
| OutputsValueExceedsInputsValue
| InvalidTx
| MissingFundingInput
| UnexpectedFundingInput
| MissingPrevTx
| UnexpectedPrevTx
| MissingFundingOutput
| DuplicateFundingOutput
| DuplicateFundingInput
| InternalError (text : string).

#[export] Instance AbortReason_eq_dec : EqDecision AbortReason.
Proof. solve_decision. Defined.

Abbreviation NR A := (result (Fault AbortReason) A).

Definition abort {A} (r : AbortReason) : NR A := Err (Fails r).

(** ** Serial ids *)

Definition is_for_initiator (serial_id : SerialId) : bool := serial_id `mod` 2 =? 0.
Definition is_for_non_initiator (serial_id : SerialId) : bool := negb (is_for_initiator serial_id).

Definition is_serial_id_valid_for_counterparty
    (holder_is_initiator : bool) (serial_id : SerialId) : bool :=
  Bool.eqb holder_is_initiator (is_for_non_initiator serial_id).

(** ** Messages (ln/msgs.rs) *)

Record TxAddInput := {
  tai_channel_id : ChannelId; tai_serial_id : SerialId; tai_prevtx : option Transaction;
  tai_prevtx_out : Z; tai_sequence : Z; tai_shared_input_txid : option Txid }.

Record TxAddOutput := {
  tao_channel_id : ChannelId; tao_serial_id : SerialId; tao_sats : Z; tao_script : Script }.

Record TxRemoveInput := { tri_channel_id : ChannelId; tri_serial_id : SerialId }.
Record TxRemoveOutput := { tro_channel_id : ChannelId; tro_serial_id : SerialId }.
Record TxComplete := { tc_channel_id : ChannelId }.

(** ** Inputs and outputs with their owner *)

Inductive AddingRole := Local | Remote.

Record SingleOwnedInput := {
  so_input : TxIn; so_prev_tx : Transaction; so_prev_output : TxOut;
  so_satisfaction_weight : Z }.

Record SharedOwnedInput := {
  sh_input : TxIn; sh_prev_output : TxOut; sh_local_owned : Z;
  sh_holder_sig_first : bool; sh_witness_script : Script }.

Inductive InputOwned :=
| SingleInput (single : SingleOwnedInput)
| SharedInput (shared : SharedOwnedInput).

Record InteractiveTxInput := {
  iti_serial_id : SerialId; iti_added_by : AddingRole; iti_input : InputOwned }.

Record SharedOwnedOutput := { sho_tx_out : TxOut; sho_local_owned : Z }.

Inductive OutputOwned :=
| SingleOutput (tx_out : TxOut)
| SharedOutput (output : SharedOwnedOutput).

Record InteractiveTxOutput := {
  ito_serial_id : SerialId; ito_added_by : AddingRole; ito_output : OutputOwned }.

Record TxInMetadata := { tim_serial_id : SerialId; tim_prev_output : TxOut }.
Record TxOutMetadata := { tom_serial_id : SerialId }.

Definition shared_input_new (input : TxIn) (prev_output : TxOut) (local_owned : Z)
    (holder_sig_first : bool) (witness_script : Script) : NR SharedOwnedInput :=
  assert_or (local_owned <=? value prev_output) "SharedOwnedInput: Inconsistent local_owned value";;
  Ok {| sh_input := input; sh_prev_output := prev_output; sh_local_owned := local_owned;
        sh_holder_sig_first := holder_sig_first; sh_witness_script := witness_script |}.

Definition sh_remote_owned (s : SharedOwnedInput) : Z :=
  saturating_sub (value (sh_prev_output s)) (sh_local_owned s).

Definition io_tx_in (i : InputOwned) : TxIn :=
  match i with
  | SingleInput single => so_input single
  | SharedInput shared => sh_input shared
  end.

Definition io_prev_output (i : InputOwned) : TxOut :=
  match i with
  | SingleInput single => so_prev_output single
  | SharedInput shared => sh_prev_output shared
  end.

Definition io_value (i : InputOwned) : Z := value (io_prev_output i).

Definition io_is_shared (i : InputOwned) : bool :=
  match i with SingleInput _ => false | SharedInput _ => true end.

Definition io_local_value (i : InputOwned) (local_role : AddingRole) : Z :=
  match i with
  | SingleInput single =>
    match local_role with
    | Local => value (so_prev_output single)
    | Remote => 0
    end
  | SharedInput shared => sh_local_owned shared
  end.

Definition io_remote_value (i : InputOwned) (local_role : AddingRole) : Z :=
  match i with
  | SingleInput single =>
    match local_role with
    | Local => 0
    | Remote => value (so_prev_output single)
    end
  | SharedInput shared => sh_remote_owned shared
  end.

(** With the default feature [grind_signatures], which gives a low-R signature *)
Definition io_satisfaction_weight (i : InputOwned) : Z :=
  match i with
  | SingleInput single => so_satisfaction_weight single
  | SharedInput _ => 0 + (EMPTY_SCRIPT_SIG_WEIGHT + FUNDING_TRANSACTION_WITNESS_WEIGHT) - 1
  end.

Definition iti_value (i : InteractiveTxInput) : Z := io_value (iti_input i).
Definition iti_local_value (i : InteractiveTxInput) : Z :=
  io_local_value (iti_input i) (iti_added_by i).
Definition iti_remote_value (i : InteractiveTxInput) : Z :=
  io_remote_value (iti_input i) (iti_added_by i).
Definition iti_satisfaction_weight (i : InteractiveTxInput) : Z :=
  io_satisfaction_weight (iti_input i).

Definition into_txin_and_metadata (i : InteractiveTxInput) : TxIn * TxInMetadata :=
  (io_tx_in (iti_input i),
   {| tim_serial_id := iti_serial_id i; tim_prev_output := io_prev_output (iti_input i) |}).

Definition shared_output_new (tx_out : TxOut) (local_owned : Z) : NR SharedOwnedOutput :=
  assert_or (local_owned <=? value tx_out) "SharedOwnedOutput: Inconsistent local_owned value";;
  Ok {| sho_tx_out := tx_out; sho_local_owned := local_owned |}.

Definition sho_remote_owned (s : SharedOwnedOutput) : Z :=
  saturating_sub (value (sho_tx_out s)) (sho_local_owned s).

Definition oo_tx_out (o : OutputOwned) : TxOut :=
  match o with
  | SingleOutput tx_out => tx_out
  | SharedOutput output => sho_tx_out output
  end.

Definition oo_value (o : OutputOwned) : Z := value (oo_tx_out o).

Definition oo_is_shared (o : OutputOwned) : bool :=
  match o with SingleOutput _ => false | SharedOutput _ => true end.

Definition oo_local_value (o : OutputOwned) (local_role : AddingRole) : Z :=
  match o with
  | SingleOutput tx_out =>
    match local_role with
    | Local => value tx_out
    | Remote => 0
    end
  | SharedOutput output => sho_local_owned output
  end.

Definition oo_remote_value (o : OutputOwned) (local_role : AddingRole) : Z :=
  match o with
  | SingleOutput tx_out =>
    match local_role with
    | Local => 0
    | Remote => value tx_out
    end
  | SharedOutput output => sho_remote_owned output
  end.

Definition ito_tx_out (o : InteractiveTxOutput) : TxOut := oo_tx_out (ito_output o).
Definition ito_value (o : InteractiveTxOutput) : Z := value (ito_tx_out o).
Definition ito_local_value (o : InteractiveTxOutput) : Z :=
  oo_local_value (ito_output o) (ito_added_by o).
Definition ito_remote_value (o : InteractiveTxOutput) : Z :=
  oo_remote_value (ito_output o) (ito_added_by o).
Definition ito_script_pubkey (o : InteractiveTxOutput) : Script := script_pubkey (ito_tx_out o).

Definition into_txout_and_metadata (o : InteractiveTxOutput) : TxOut * TxOutMetadata :=
  (oo_tx_out (ito_output o), {| tom_serial_id := ito_serial_id o |}).

(** ** The negotiation context *)

Record NegotiationContext := {
  nc_holder_node_id : PublicKey;
  nc_counterparty_node_id : PublicKey;
  nc_holder_is_initiator : bool;
  nc_received_tx_add_input_count : Z;
  nc_received_tx_add_output_count : Z;
  nc_inputs : gmap SerialId InteractiveTxInput;
  nc_shared_funding_input : option SharedOwnedInput;
  nc_shared_funding_output : SharedOwnedOutput;
  nc_prevtx_outpoints : gset OutPoint;
  nc_outputs : gmap SerialId InteractiveTxOutput;
  nc_tx_locktime : Z;
  nc_feerate_sat_per_kw : Z;
}.

(** Updates of the fields the handlers assign *)
Definition nc_set_inputs (inputs : gmap SerialId InteractiveTxInput) (outpoints : gset OutPoint)
    (count : Z) (c : NegotiationContext) : NegotiationContext :=
  {| nc_holder_node_id := nc_holder_node_id c;
     nc_counterparty_node_id := nc_counterparty_node_id c;
     nc_holder_is_initiator := nc_holder_is_initiator c;
     nc_received_tx_add_input_count := count;
     nc_received_tx_add_output_count := nc_received_tx_add_output_count c;
     nc_inputs := inputs;
     nc_shared_funding_input := nc_shared_funding_input c;
     nc_shared_funding_output := nc_shared_funding_output c;
     nc_prevtx_outpoints := outpoints;
     nc_outputs := nc_outputs c;
     nc_tx_locktime := nc_tx_locktime c;
     nc_feerate_sat_per_kw := nc_feerate_sat_per_kw c |}.

Definition nc_set_outputs (outputs : gmap SerialId InteractiveTxOutput) (count : Z)
    (c : NegotiationContext) : NegotiationContext :=
  {| nc_holder_node_id := nc_holder_node_id c;
     nc_counterparty_node_id := nc_counterparty_node_id c;
     nc_holder_is_initiator := nc_holder_is_initiator c;
     nc_received_tx_add_input_count := nc_received_tx_add_input_count c;
     nc_received_tx_add_output_count := count;
     nc_inputs := nc_inputs c;
     nc_shared_funding_input := nc_shared_funding_input c;
     nc_shared_funding_output := nc_shared_funding_output c;
     nc_prevtx_outpoints := nc_prevtx_outpoints c;
     nc_outputs := outputs;
     nc_tx_locktime := nc_tx_locktime c;
     nc_feerate_sat_per_kw := nc_feerate_sat_per_kw c |}.

Definition negotiation_context_new (holder_node_id counterparty_node_id : PublicKey)
    (holder_is_initiator : bool) (shared_funding_input : option SharedOwnedInput)
    (shared_funding_output : SharedOwnedOutput) (tx_locktime feerate_sat_per_kw : Z)
    : NegotiationContext :=
  {| nc_holder_node_id := holder_node_id;
     nc_counterparty_node_id := counterparty_node_id;
     nc_holder_is_initiator := holder_is_initiator;
     nc_received_tx_add_input_count := 0;
     nc_received_tx_add_output_count := 0;
     nc_inputs := ∅;
     nc_shared_funding_input := shared_funding_input;
     nc_shared_funding_output := shared_funding_output;
     nc_prevtx_outpoints := ∅;
     nc_outputs := ∅;
     nc_tx_locktime := tx_locktime;
     nc_feerate_sat_per_kw := feerate_sat_per_kw |}.

Section context.
Context `{Bitcoin} `{HashOrder}.

Definition estimate_input_satisfaction_weight (prev_output : TxOut) : Z :=
  (if is_p2wpkh (script_pubkey prev_output) then P2WPKH_INPUT_WEIGHT_LOWER_BOUND
   else if is_p2wsh (script_pubkey prev_output) then P2WSH_INPUT_WEIGHT_LOWER_BOUND
   else if is_p2tr (script_pubkey prev_output) then P2TR_INPUT_WEIGHT_LOWER_BOUND
   else UNKNOWN_SEGWIT_VERSION_INPUT_WEIGHT_LOWER_BOUND) - BASE_INPUT_WEIGHT.

Definition get_output_weight (s : Script) : Z :=
  (8 + script_encoded_len s) * WITNESS_SCALE_FACTOR.

(** [map.iter().fold(0u64, |acc, x| acc.saturating_add(f(x)))] *)
Definition sat_fold {A} (f : A -> Z) (l : list A) : Z :=
  foldl (fun acc x => sat_add acc (f x)) 0 l.

Definition nc_is_serial_id_valid_for_counterparty (c : NegotiationContext) (s : SerialId) : bool :=
  is_serial_id_valid_for_counterparty (nc_holder_is_initiator c) s.

Definition remote_inputs_value (c : NegotiationContext) : Z :=
  sat_fold (fun p => iti_remote_value p.2) (hash_iter (nc_inputs c)).

Definition remote_outputs_value (c : NegotiationContext) : Z :=
  sat_fold (fun p => ito_remote_value p.2) (hash_iter (nc_outputs c)).

Definition remote_inputs_weight (c : NegotiationContext) : Z :=
  foldl (fun weight p => sat_add (sat_add weight BASE_INPUT_WEIGHT) (iti_satisfaction_weight p.2)) 0
    (filter (fun p => nc_is_serial_id_valid_for_counterparty c p.1 = true)
      (hash_iter (nc_inputs c))).

Definition remote_outputs_weight (c : NegotiationContext) : Z :=
  sat_fold (fun p => get_output_weight (ito_script_pubkey p.2))
    (filter (fun p => nc_is_serial_id_valid_for_counterparty c p.1 = true)
      (hash_iter (nc_outputs c))).

Definition remote_weight_contributed (c : NegotiationContext) : Z :=
  sat_add (sat_add (remote_inputs_weight c) (remote_outputs_weight c))
    (if nc_holder_is_initiator c then 0 else TX_COMMON_FIELDS_WEIGHT).

(** [matches!(input.input, InputOwned::Shared(_))] for some input, and the same
    for outputs *)
Definition has_shared_input (c : NegotiationContext) : bool :=
  existsb (fun p => io_is_shared (iti_input p.2)) (hash_iter (nc_inputs c)).
Definition has_shared_output (c : NegotiationContext) : bool :=
  existsb (fun p => oo_is_shared (ito_output p.2)) (hash_iter (nc_outputs c)).

(** [Vec::get] at a [u32] index *)
Definition get_at {A} (l : list A) (i : Z) : option A := l !! Z.to_nat i.

(** The input a received [tx_add_input] stands for, with the outpoint it spends *)
Definition received_input (c : NegotiationContext) (msg : TxAddInput) : NR (InputOwned * OutPoint) :=
  match tai_shared_input_txid msg with
  | Some shared_txid =>
    if nc_holder_is_initiator c then abort DuplicateFundingInput else
    if decide (is_Some (tai_prevtx msg)) then abort UnexpectedPrevTx else
    match nc_shared_funding_input c with
    | Some shared_funding_input =>
      if has_shared_input c then abort DuplicateFundingInput else
      let prev := {| op_txid := shared_txid; op_vout := tai_prevtx_out msg |} in
      if decide (prev = previous_output (sh_input shared_funding_input)) then
        Ok (SharedInput shared_funding_input, prev)
      else abort UnexpectedFundingInput
    | None => abort UnexpectedFundingInput
    end
  | None =>
    match tai_prevtx msg with
    | Some prevtx =>
      let txid := compute_txid prevtx in
      match get_at (output prevtx) (tai_prevtx_out msg) with
      | Some tx_out =>
        if is_witness_program (script_pubkey tx_out) then
          let prev_outpoint := {| op_txid := txid; op_vout := tai_prevtx_out msg |} in
          Ok (SingleInput {| so_input := unsigned_txin prev_outpoint (tai_sequence msg);
                             so_prev_tx := prevtx;
                             so_prev_output := tx_out;
                             so_satisfaction_weight := estimate_input_satisfaction_weight tx_out |},
              prev_outpoint)
        else abort PrevTxOutInvalid
      | None => abort PrevTxOutInvalid
      end
    | None => abort MissingPrevTx
    end
  end.

Definition received_tx_add_input (c : NegotiationContext) (msg : TxAddInput) : NR NegotiationContext :=
  if negb (nc_is_serial_id_valid_for_counterparty c (tai_serial_id msg)) then
    abort IncorrectSerialIdParity else
  count ← uadd 16 (nc_received_tx_add_input_count c) 1;
  if MAX_RECEIVED_TX_ADD_INPUT_COUNT <? count then abort ReceivedTooManyTxAddInputs else
  if 0xFFFFFFFE <=? tai_sequence msg then abort IncorrectInputSequenceValue else
  '(input, prev_outpoint) ← received_input c msg;
  match nc_inputs c !! tai_serial_id msg with
  | Some _ => abort DuplicateSerialId
  | None =>
    if decide (prev_outpoint ∈ nc_prevtx_outpoints c) then abort PrevTxOutInvalid else
    Ok (nc_set_inputs
          (<[tai_serial_id msg := {| iti_serial_id := tai_serial_id msg;
                                     iti_added_by := Remote; iti_input := input |}]> (nc_inputs c))
          ({[prev_outpoint]} ∪ nc_prevtx_outpoints c) count c)
  end.

Definition received_tx_remove_input (c : NegotiationContext) (msg : TxRemoveInput) : NR NegotiationContext :=
  if negb (nc_is_serial_id_valid_for_counterparty c (tri_serial_id msg)) then
    abort IncorrectSerialIdParity else
  match nc_inputs c !! tri_serial_id msg with
  | Some _ =>
    Ok (nc_set_inputs (delete (tri_serial_id msg) (nc_inputs c)) (nc_prevtx_outpoints c)
          (nc_received_tx_add_input_count c) c)
  | None => abort SerialIdUnknown
  end.

(** The scripts an output of the peer may have: P2WPKH, P2WSH, and any witness
    program of a version from 1 *)
Definition output_script_allowed (s : Script) : bool :=
  is_p2wpkh s || is_p2wsh s ||
  (is_witness_program s &&
   match witness_version s with Some v => 1 <=? v | None => false end).

Definition received_tx_add_output (c : NegotiationContext) (msg : TxAddOutput) : NR NegotiationContext :=
  if negb (nc_is_serial_id_valid_for_counterparty c (tao_serial_id msg)) then
    abort IncorrectSerialIdParity else
  count ← uadd 16 (nc_received_tx_add_output_count c) 1;
  if MAX_RECEIVED_TX_ADD_OUTPUT_COUNT <? count then abort ReceivedTooManyTxAddOutputs else
  if tao_sats msg <? minimal_non_dust (tao_script msg) then abort BelowDustLimit else
  let outputs_value := sat_fold (fun p => ito_value p.2) (hash_iter (nc_outputs c)) in
  if TOTAL_BITCOIN_SUPPLY_SATOSHIS <? sat_add outputs_value (tao_sats msg) then
    abort ExceededMaximumSatsAllowed else
  if negb (output_script_allowed (tao_script msg)) then abort InvalidOutputScript else
  let txout := {| value := tao_sats msg; script_pubkey := tao_script msg |} in
  output ←
    (if decide (txout = sho_tx_out (nc_shared_funding_output c)) then
       if nc_holder_is_initiator c then abort DuplicateFundingOutput else
       if has_shared_output c then abort DuplicateFundingOutput else
       Ok (SharedOutput (nc_shared_funding_output c))
     else Ok (SingleOutput txout));
  match nc_outputs c !! tao_serial_id msg with
  | Some _ => abort DuplicateSerialId
  | None =>
    Ok (nc_set_outputs
          (<[tao_serial_id msg := {| ito_serial_id := tao_serial_id msg;
                                     ito_added_by := Remote; ito_output := output |}]> (nc_outputs c))
          count c)
  end.

Definition received_tx_remove_output (c : NegotiationContext) (msg : TxRemoveOutput) : NR NegotiationContext :=
  if negb (nc_is_serial_id_valid_for_counterparty c (tro_serial_id msg)) then
    abort IncorrectSerialIdParity else
  match nc_outputs c !! tro_serial_id msg with
  | Some _ =>
    Ok (nc_set_outputs (delete (tro_serial_id msg) (nc_outputs c))
          (nc_received_tx_add_output_count c) c)
  | None => abort SerialIdUnknown
  end.

Definition sent_input (c : NegotiationContext) (msg : TxAddInput) (satisfaction_weight : Z)
    : NR (OutPoint * InputOwned) :=
  match tai_shared_input_txid msg with
  | Some shared_input_txid =>
    let prev_outpoint := {| op_txid := shared_input_txid; op_vout := tai_prevtx_out msg |} in
    match nc_shared_funding_input c with
    | Some shared_funding_input => Ok (prev_outpoint, SharedInput shared_funding_input)
    | None => abort UnexpectedFundingInput
    end
  | None =>
    match tai_prevtx msg with
    | Some prevtx =>
      let prev_outpoint := {| op_txid := compute_txid prevtx; op_vout := tai_prevtx_out msg |} in
      prev_output ← ok_or (get_at (output prevtx) (tai_prevtx_out msg)) (Fails PrevTxOutInvalid);
      Ok (prev_outpoint,
          SingleInput {| so_input := unsigned_txin prev_outpoint (tai_sequence msg);
                         so_prev_tx := prevtx;
                         so_prev_output := prev_output;
                         so_satisfaction_weight := satisfaction_weight |})
    | None => abort MissingPrevTx
    end
  end.

Definition sent_tx_add_input (c : NegotiationContext) (msg : TxAddInput) (satisfaction_weight : Z)
    : NR NegotiationContext :=
  '(prev_outpoint, input) ← sent_input c msg satisfaction_weight;
  if decide (prev_outpoint ∈ nc_prevtx_outpoints c) then abort PrevTxOutInvalid else
  Ok (nc_set_inputs
        (<[tai_serial_id msg := {| iti_serial_id := tai_serial_id msg;
                                   iti_added_by := Local; iti_input := input |}]> (nc_inputs c))
        ({[prev_outpoint]} ∪ nc_prevtx_outpoints c) (nc_received_tx_add_input_count c) c).

Definition sent_tx_add_output (c : NegotiationContext) (msg : TxAddOutput) : NR NegotiationContext :=
  let txout := {| value := tao_sats msg; script_pubkey := tao_script msg |} in
  let output := if decide (txout = sho_tx_out (nc_shared_funding_output c))
                then SharedOutput (nc_shared_funding_output c) else SingleOutput txout in
  Ok (nc_set_outputs
        (<[tao_serial_id msg := {| ito_serial_id := tao_serial_id msg;
                                   ito_added_by := Local; ito_output := output |}]> (nc_outputs c))
        (nc_received_tx_add_output_count c) c).

Definition sent_tx_remove_input (c : NegotiationContext) (msg : TxRemoveInput) : NR NegotiationContext :=
  Ok (nc_set_inputs (delete (tri_serial_id msg) (nc_inputs c)) (nc_prevtx_outpoints c)
        (nc_received_tx_add_input_count c) c).

Definition sent_tx_remove_output (c : NegotiationContext) (msg : TxRemoveOutput) : NR NegotiationContext :=
  Ok (nc_set_outputs (delete (tro_serial_id msg) (nc_outputs c))
        (nc_received_tx_add_output_count c) c).

End context.

(** ** What a handler that accepts its message has checked *)

Lemma uadd_Ok {E} w a b c : uadd (E := E) w a b = Ok c <-> c = a + b /\ is_uint w (a + b) = true.
Proof. unfold uadd. destruct (is_uint w (a + b)); naive_solver. Qed.

Lemma umul_Ok {E} w a b c : umul (E := E) w a b = Ok c <-> c = a * b /\ is_uint w (a * b) = true.
Proof. unfold umul. destruct (is_uint w (a * b)); naive_solver. Qed.

Lemma abort_not_Ok {A} r (a : A) : abort r = Ok a <-> False.
Proof. by unfold abort. Qed.

(** Splits [H : handler c msg = Ok c'] along the guards of the handler *)
Ltac accepted H :=
  repeat first
    [ discriminate H
    | rewrite abort_not_Ok in H; destruct H
    | apply result_bind_Ok in H; destruct H as (? & ? & H)
    | match type of H with
      | context [if decide ?P then _ else _] => destruct (decide P)
      | context [if negb ?b then _ else _] => destruct b eqn:?; cbn [negb] in H
      | context [if ?b then _ else _] => destruct b eqn:?
      | context [match ?x with Some _ => _ | None => _ end] => destruct x eqn:?
      | context [match ?x with (_, _) => _ end] => destruct x
      end ].

Section accepted.
Context `{Bitcoin} `{HashOrder}.

Definition put_input (role : AddingRole) (s : SerialId) (i : InputOwned) (o : OutPoint) (count : Z)
    (c : NegotiationContext) : NegotiationContext :=
  nc_set_inputs (<[s := {| iti_serial_id := s; iti_added_by := role; iti_input := i |}]> (nc_inputs c))
    ({[o]} ∪ nc_prevtx_outpoints c) count c.

Definition put_output (role : AddingRole) (s : SerialId) (o : OutputOwned) (count : Z)
    (c : NegotiationContext) : NegotiationContext :=
  nc_set_outputs (<[s := {| ito_serial_id := s; ito_added_by := role; ito_output := o |}]> (nc_outputs c))
    count c.

Lemma received_tx_add_input_Ok c msg c' :
  received_tx_add_input c msg = Ok c' ->
  nc_is_serial_id_valid_for_counterparty c (tai_serial_id msg) = true /\
  nc_received_tx_add_input_count c + 1 <= MAX_RECEIVED_TX_ADD_INPUT_COUNT /\
  tai_sequence msg < 0xFFFFFFFE /\
  exists i o, received_input c msg = Ok (i, o) /\
    nc_inputs c !! tai_serial_id msg = None /\ (o ∉ nc_prevtx_outpoints c) /\
    c' = put_input Remote (tai_serial_id msg) i o (nc_received_tx_add_input_count c + 1) c.
Proof.
  unfold received_tx_add_input. intros E. accepted E.
  match goal with U : uadd _ _ _ = Ok _ |- _ => apply uadd_Ok in U as [-> _] end.
  injection E as <-. rewrite Z.ltb_ge in *. rewrite Z.leb_gt in *.
  split_and!; try done; try lia. eauto 10.
Qed.

Lemma received_tx_remove_input_Ok c msg c' :
  received_tx_remove_input c msg = Ok c' ->
  nc_is_serial_id_valid_for_counterparty c (tri_serial_id msg) = true /\
  is_Some (nc_inputs c !! tri_serial_id msg) /\
  c' = nc_set_inputs (delete (tri_serial_id msg) (nc_inputs c)) (nc_prevtx_outpoints c)
         (nc_received_tx_add_input_count c) c.
Proof.
  unfold received_tx_remove_input. intros E. accepted E. injection E as <-. eauto.
Qed.

(** The output a [tx_add_output] stands for *)
Definition output_of (c : NegotiationContext) (msg : TxAddOutput) : OutputOwned :=
  let txout := {| value := tao_sats msg; script_pubkey := tao_script msg |} in
  if decide (txout = sho_tx_out (nc_shared_funding_output c))
  then SharedOutput (nc_shared_funding_output c) else SingleOutput txout.

Lemma received_tx_add_output_Ok c msg c' :
  received_tx_add_output c msg = Ok c' ->
  nc_is_serial_id_valid_for_counterparty c (tao_serial_id msg) = true /\
  nc_received_tx_add_output_count c + 1 <= MAX_RECEIVED_TX_ADD_OUTPUT_COUNT /\
  minimal_non_dust (tao_script msg) <= tao_sats msg /\
  sat_add (sat_fold (fun p => ito_value p.2) (hash_iter (nc_outputs c))) (tao_sats msg)
    <= TOTAL_BITCOIN_SUPPLY_SATOSHIS /\
  output_script_allowed (tao_script msg) = true /\
  nc_outputs c !! tao_serial_id msg = None /\
  (oo_is_shared (output_of c msg) = true -> nc_holder_is_initiator c = false /\ has_shared_output c = false) /\
  c' = put_output Remote (tao_serial_id msg) (output_of c msg) (nc_received_tx_add_output_count c + 1) c.
Proof.
  unfold received_tx_add_output, output_of. cbv zeta. intros E. accepted E;
    match goal with U : uadd _ _ _ = Ok _ |- _ => apply uadd_Ok in U as [-> _] end;
    injection E as <-; rewrite Z.ltb_ge in *; split_and!; try done.
  all: match goal with R : _ = Ok _ |- _ => accepted R; by injection R as <- end.
Qed.

Lemma received_tx_remove_output_Ok c msg c' :
  received_tx_remove_output c msg = Ok c' ->
  nc_is_serial_id_valid_for_counterparty c (tro_serial_id msg) = true /\
  is_Some (nc_outputs c !! tro_serial_id msg) /\
  c' = nc_set_outputs (delete (tro_serial_id msg) (nc_outputs c))
         (nc_received_tx_add_output_count c) c.
Proof.
  unfold received_tx_remove_output. intros E. accepted E. injection E as <-. eauto.
Qed.

Lemma sent_tx_add_input_Ok c msg w c' :
  sent_tx_add_input c msg w = Ok c' ->
  exists i o, sent_input c msg w = Ok (o, i) /\ (o ∉ nc_prevtx_outpoints c) /\
    c' = put_input Local (tai_serial_id msg) i o (nc_received_tx_add_input_count c) c.
Proof.
  unfold sent_tx_add_input. intros E. accepted E. injection E as <-. eauto 10.
Qed.

Lemma sent_tx_add_output_eq c msg :
  sent_tx_add_output c msg =
    Ok (put_output Local (tao_serial_id msg) (output_of c msg) (nc_received_tx_add_output_count c) c).
Proof. done. Qed.

Lemma output_of_tx_out c msg :
  oo_tx_out (output_of c msg) = {| value := tao_sats msg; script_pubkey := tao_script msg |}.
Proof. unfold output_of. by case_decide. Qed.

End accepted.
