(* ===== verification/LnSession.v ===== *)
(** * Interactive transaction construction: the constructed transaction and its signing

    [ConstructedTransaction] and [InteractiveTxSigningSession] of
    [ln/interactivetxs.rs]: the checks a finished negotiation must pass, the
    transaction it gives, and the exchange of [tx_signatures] that ends with the
    signed transaction.  Signatures and signature hashes are the class
    [Signatures] (the [bitcoin] and [secp256k1] crates). *)

From stdpp Require Import base gmap list sorting.
From Stdlib Require Import ZArith Lia.
From S2P Require Import Prelude LnTx.
Local Open Scope Z_scope.

Definition Signature : Type := Bytes.

Inductive EcdsaSighashType := SighashAll | SighashOther (ty : Z).
Inductive TapSighashType := TapDefault | TapAll | TapOther (ty : Z).

Class Signatures := {
  ecdsa_from_slice : Bytes -> option (Signature * EcdsaSighashType);
  public_key_from_slice : Bytes -> option PublicKey;
  p2wpkh_signature_hash : Transaction -> nat -> Script -> Z -> option Bytes;
  verify_ecdsa : Bytes -> Signature -> PublicKey -> bool;
  push_bytes_at_1 : Script -> option Bytes;
  x_only_from_slice : Bytes -> option PublicKey;
  taproot_from_slice : Bytes -> option (Signature * TapSighashType);
  taproot_key_spend_signature_hash :
    Transaction -> nat -> list TxOut -> TapSighashType -> option Bytes;
  verify_schnorr : Bytes -> Signature -> PublicKey -> bool;
  sighash_all_bytes : Signature -> Bytes;
}.

Record TxSignatures := {
  ts_channel_id : ChannelId; ts_tx_hash : Txid; ts_witnesses : list Witness;
  ts_shared_input_signature : option Signature }.

(** ** The constructed transaction *)

Record ConstructedTransaction := {
  ct_holder_is_initiator : bool;
  ct_input_metadata : list TxInMetadata;
  ct_output_metadata : list TxOutMetadata;
  ct_tx : Transaction;
  ct_shared_input_index : option Z;
  ct_shared_output_index : Z;
}.

Definition tim_is_local (holder_is_initiator : bool) (m : TxInMetadata) : bool :=
  negb (is_serial_id_valid_for_counterparty holder_is_initiator (tim_serial_id m)).
Definition tom_is_local (holder_is_initiator : bool) (m : TxOutMetadata) : bool :=
  negb (is_serial_id_valid_for_counterparty holder_is_initiator (tom_serial_id m)).

(** [sort_unstable_by_key]: the keys of these lists are the keys of a map *)
Definition key_le {A} (key : A -> Z) (a b : A) : Prop := key a <= key b.
#[export] Instance key_le_dec {A} (key : A -> Z) a b : Decision (key_le key a b).
Proof. unfold key_le. apply _. Defined.

Definition sort_by_key {A} (key : A -> Z) (l : list A) : list A := merge_sort (key_le key) l.

(** [iter().position(p).map(|position| position as u16)] *)
Definition position_u16 {A} (p : A -> bool) (l : list A) : option Z :=
  (fun '(i, _) => Z.of_nat i `mod` 2 ^ 16) <$> list_find (fun a => p a = true) l.

Section construct.
Context `{Bitcoin} `{HashOrder}.

Definition expected_witness_weight (c : NegotiationContext) : Z :=
  foldl (fun value p => saturating_sub (sat_add value (iti_satisfaction_weight p.2))
                          EMPTY_SCRIPT_SIG_WEIGHT) 0 (hash_iter (nc_inputs c)).

Definition constructed_inputs (c : NegotiationContext) : list (TxIn * TxInMetadata) :=
  sort_by_key (fun p => tim_serial_id p.2)
    (map (fun p => into_txin_and_metadata p.2) (hash_iter (nc_inputs c))).

Definition constructed_outputs (c : NegotiationContext) : list (TxOut * TxOutMetadata) :=
  sort_by_key (fun p => tom_serial_id p.2)
    (map (fun p => into_txout_and_metadata p.2) (hash_iter (nc_outputs c))).

(** The transaction [ConstructedTransaction::new] builds, before its checks *)
Definition assemble_tx (c : NegotiationContext) : ConstructedTransaction :=
  let inputs := constructed_inputs c in
  let outputs := constructed_outputs c in
  {| ct_holder_is_initiator := nc_holder_is_initiator c;
     ct_input_metadata := map snd inputs;
     ct_output_metadata := map snd outputs;
     ct_tx := {| version := 2; lock_time := nc_tx_locktime c;
                 input := map fst inputs; output := map fst outputs |};
     ct_shared_input_index :=
       shared ← nc_shared_funding_input c;
       position_u16 (fun txin => bool_decide (previous_output txin =
                                   previous_output (sh_input shared))) (map fst inputs);
     ct_shared_output_index :=
       default (umax 16)
         (position_u16 (fun txout => bool_decide (txout = sho_tx_out (nc_shared_funding_output c)))
            (map fst outputs)) |}.

Definition constructed_transaction_new (c : NegotiationContext) : NR ConstructedTransaction :=
  let tx := assemble_tx c in
  if remote_inputs_value c <? remote_outputs_value c then abort OutputsValueExceedsInputsValue else
  let remote_fees_contributed := saturating_sub (remote_inputs_value c) (remote_outputs_value c) in
  scaled ← umul 64 (nc_feerate_sat_per_kw c) REMOTE_FEE_TOLERANCE_PERCENT;
  required ← fee_for_weight ((scaled / 100) `mod` 2 ^ 32) (remote_weight_contributed c);
  if remote_fees_contributed <? required then abort InsufficientFees else
  if decide (MAX_INPUTS_OUTPUTS_COUNT < length (input (ct_tx tx)) \/
             MAX_INPUTS_OUTPUTS_COUNT < length (output (ct_tx tx)))%nat then
    abort ExceededNumberOfInputsOrOutputs else
  if decide (is_Some (nc_shared_funding_input c) /\ ct_shared_input_index tx = None) then
    abort MissingFundingInput else
  if ct_shared_output_index tx =? umax 16 then abort MissingFundingOutput else
  let weight := sat_add (sat_add (tx_weight (ct_tx tx)) SEGWIT_MARKER_FLAG_WEIGHT)
                  (expected_witness_weight c) in
  if MAX_STANDARD_TX_WEIGHT <? weight then abort TransactionTooLarge else
  Ok tx.

(** [chain::transaction::OutPoint] of the funding output *)
Definition funding_outpoint (t : ConstructedTransaction) : OutPoint :=
  {| op_txid := compute_txid (ct_tx t); op_vout := ct_shared_output_index t |}.

End construct.

(** The inputs of one side that are not the shared one, with their index *)
Definition not_shared_index (t : ConstructedTransaction) (index : nat) : bool :=
  match ct_shared_input_index t with
  | Some shared_index => negb (Z.of_nat index =? shared_index)
  | None => true
  end.

Definition side_input (t : ConstructedTransaction) (local : bool) (index : nat)
    (m : TxInMetadata) : bool :=
  Bool.eqb (tim_is_local (ct_holder_is_initiator t) m) local && not_shared_index t index.

Definition side_output (t : ConstructedTransaction) (index : nat) (m : TxOutMetadata) : bool :=
  tom_is_local (ct_holder_is_initiator t) m && negb (Z.of_nat index =? ct_shared_output_index t).

(** [iter().enumerate()] *)
Definition enumerate {A} (l : list A) : list (nat * A) := imap pair l.

Definition to_contributed_inputs_and_outputs (t : ConstructedTransaction)
    : list OutPoint * list TxOut :=
  (map (fun p => previous_output p.2.1)
     (filter (fun p => side_input t true p.1 p.2.2 = true)
        (enumerate (zip (input (ct_tx t)) (ct_input_metadata t)))),
   map (fun p => p.2.1)
     (filter (fun p => side_output t p.1 p.2.2 = true)
        (enumerate (zip (output (ct_tx t)) (ct_output_metadata t))))).

Record NegotiationError := {
  ne_reason : AbortReason; ne_contributed_inputs : list OutPoint;
  ne_contributed_outputs : list TxOut }.

Definition ct_into_negotiation_error (t : ConstructedTransaction) (reason : AbortReason)
    : NegotiationError :=
  {| ne_reason := reason; ne_contributed_inputs := (to_contributed_inputs_and_outputs t).1;
     ne_contributed_outputs := (to_contributed_inputs_and_outputs t).2 |}.

(** [iter().sum::<Amount>()]: an overflow panics *)
Fixpoint amount_sum {E} (acc : Z) (l : list Z) : result (Fault E) Z :=
  match l with
  | [] => Ok acc
  | a :: l => acc' ← uadd 64 acc a; amount_sum acc' l
  end.

Definition contributed_input_value (local : bool) (t : ConstructedTransaction) : NR Z :=
  amount_sum 0 (map (fun m => value (tim_prev_output m))
    (filter (fun m => tim_is_local (ct_holder_is_initiator t) m = local) (ct_input_metadata t))).
Definition local_contributed_input_value : ConstructedTransaction -> NR Z :=
  contributed_input_value true.
Definition remote_contributed_input_value : ConstructedTransaction -> NR Z :=
  contributed_input_value false.

Definition set_witness (w : Witness) (i : TxIn) : TxIn :=
  {| previous_output := previous_output i; script_sig := script_sig i;
     sequence := sequence i; witness := w |}.

Definition set_inputs (l : list TxIn) (tx : Transaction) : Transaction :=
  {| version := version tx; lock_time := lock_time tx; input := l; output := output tx |}.

(** [iter_mut().zip(metadata).enumerate().filter(..).zip(witnesses)
    .for_each(|(input, witness)| input.witness = witness)], from the index [i] on *)
Fixpoint add_witnesses (chosen : nat -> TxInMetadata -> bool) (i : nat) (l : list TxIn)
    (metadata : list TxInMetadata) (witnesses : list Witness) : list TxIn :=
  match l, metadata with
  | txin :: l', m :: metadata' =>
    if chosen i m then
      match witnesses with
      | w :: witnesses' =>
        set_witness w txin :: add_witnesses chosen (S i) l' metadata' witnesses'
      | [] => l
      end
    else txin :: add_witnesses chosen (S i) l' metadata' witnesses
  | _, _ => l
  end.

Definition add_local_witnesses (t : ConstructedTransaction) (tx : Transaction)
    (witnesses : list Witness) : Transaction :=
  set_inputs (add_witnesses (side_input t true) 0 (input tx) (ct_input_metadata t) witnesses) tx.
Definition add_remote_witnesses (t : ConstructedTransaction) (tx : Transaction)
    (witnesses : list Witness) : Transaction :=
  set_inputs (add_witnesses (side_input t false) 0 (input tx) (ct_input_metadata t) witnesses) tx.

Record SharedInputSignature := {
  sis_holder_signature_first : bool; sis_witness_script : Script }.

(** Errors of the signing session: one constructor per message *)
Inductive SigningError :=
| AlreadyReceivedTxSignatures
| WitnessCountMismatch
| MissingSharedInputSignature
| UnexpectedSharedInputSignature
| HolderWitnessesAlreadyProvided
| ProvidedWitnessCount (provided required : nat)
| EmptyWitness (index : nat)
| P2wpkhElements (index : nat) (got : nat)
| InvalidEcdsaKey (index : nat)
| InvalidEcdsaSignature (index : nat)
| EcdsaNotSighashAll (index : nat)
| EcdsaVerification (index : nat)
| P2trScript (index : nat)
| P2trKey (index : nat)
| P2trSignature (index : nat)
| P2trSighash (index : nat)
| SchnorrVerification (index : nat)
| P2wshSighash (index : nat)
| P2trScriptPathSighash (index : nat).

Section signing.
Context `{Bitcoin} `{Signatures}.

(** Its three [or_else(|| { debug_assert!(false); None })?] *)
Definition expect_signature {A} (o : option A) : result (Fault SigningError) A :=
  ok_or o (Panics "assertion failed: false").

Definition finalize (t : ConstructedTransaction) (holder counterparty : TxSignatures)
    (shared_input_sig : option SharedInputSignature) : result (Fault SigningError) Transaction :=
  let tx := add_local_witnesses t (ct_tx t) (ts_witnesses holder) in
  let tx := add_remote_witnesses t tx (ts_witnesses counterparty) in
  match ct_shared_input_index t with
  | Some shared_input_index =>
    holder_sig ← expect_signature (ts_shared_input_signature holder);
    counterparty_sig ← expect_signature (ts_shared_input_signature counterparty);
    shared ← expect_signature shared_input_sig;
    let sigs := if sis_holder_signature_first shared
                then [sighash_all_bytes holder_sig; sighash_all_bytes counterparty_sig]
                else [sighash_all_bytes counterparty_sig; sighash_all_bytes holder_sig] in
    let w := [] :: sigs ++ [sis_witness_script shared] in
    match input tx !! Z.to_nat shared_input_index with
    | Some txin => Ok (set_inputs (<[Z.to_nat shared_input_index := set_witness w txin]> (input tx)) tx)
    | None => Err (Panics "index out of bounds")
    end
  | None => Ok tx
  end.

(** ** The signing session *)

Record InteractiveTxSigningSession := {
  ss_unsigned_tx : ConstructedTransaction;
  ss_holder_sends_tx_signatures_first : bool;
  ss_has_received_commitment_signed : bool;
  ss_shared_input_signature : option SharedInputSignature;
  ss_holder_tx_signatures : option TxSignatures;
  ss_counterparty_tx_signatures : option TxSignatures;
}.

Definition ss_set_signatures (holder counterparty : option TxSignatures)
    (s : InteractiveTxSigningSession) : InteractiveTxSigningSession :=
  {| ss_unsigned_tx := ss_unsigned_tx s;
     ss_holder_sends_tx_signatures_first := ss_holder_sends_tx_signatures_first s;
     ss_has_received_commitment_signed := ss_has_received_commitment_signed s;
     ss_shared_input_signature := ss_shared_input_signature s;
     ss_holder_tx_signatures := holder;
     ss_counterparty_tx_signatures := counterparty |}.

Definition received_commitment_signed (s : InteractiveTxSigningSession)
    : InteractiveTxSigningSession :=
  {| ss_unsigned_tx := ss_unsigned_tx s;
     ss_holder_sends_tx_signatures_first := ss_holder_sends_tx_signatures_first s;
     ss_has_received_commitment_signed := true;
     ss_shared_input_signature := ss_shared_input_signature s;
     ss_holder_tx_signatures := ss_holder_tx_signatures s;
     ss_counterparty_tx_signatures := ss_counterparty_tx_signatures s |}.

Definition has_received_tx_signatures (s : InteractiveTxSigningSession) : bool :=
  bool_decide (is_Some (ss_counterparty_tx_signatures s)).

Definition side_count (local : bool) (s : InteractiveTxSigningSession) : nat :=
  length (filter (fun p => side_input (ss_unsigned_tx s) local p.1 p.2 = true)
    (enumerate (ct_input_metadata (ss_unsigned_tx s)))).
Definition remote_inputs_count : InteractiveTxSigningSession -> nat := side_count false.
Definition local_inputs_count : InteractiveTxSigningSession -> nat := side_count true.

Definition local_outputs_count (s : InteractiveTxSigningSession) : nat :=
  length (filter (fun m => tom_is_local (ct_holder_is_initiator (ss_unsigned_tx s)) m = true)
    (ct_output_metadata (ss_unsigned_tx s))).

Definition has_local_contribution (s : InteractiveTxSigningSession) : bool :=
  (0 <? local_inputs_count s)%nat || (0 <? local_outputs_count s)%nat.

Definition shared_input (s : InteractiveTxSigningSession) : option TxInMetadata :=
  index ← ct_shared_input_index (ss_unsigned_tx s);
  ct_input_metadata (ss_unsigned_tx s) !! Z.to_nat index.

Definition maybe_finalize_funding_tx (s : InteractiveTxSigningSession)
    : result (Fault SigningError) (option Transaction) :=
  match ss_holder_tx_signatures s, ss_counterparty_tx_signatures s with
  | Some holder, Some counterparty =>
    tx ← finalize (ss_unsigned_tx s) holder counterparty (ss_shared_input_signature s);
    Ok (Some tx)
  | _, _ => Ok None
  end.

Abbreviation Session A := (SE InteractiveTxSigningSession (Fault SigningError) A).

(** [String] errors are returned as they are; the session is left unchanged *)
Definition refuse {A} (e : SigningError) : Session A := fail (Fails e).

Definition received_tx_signatures (tx_signatures : TxSignatures)
    : Session (option TxSignatures * option Transaction) :=
  s ← get;
  if has_received_tx_signatures s then refuse AlreadyReceivedTxSignatures else
  if decide (remote_inputs_count s <> length (ts_witnesses tx_signatures)) then
    refuse WitnessCountMismatch else
  if decide (is_Some (shared_input s) /\ ts_shared_input_signature tx_signatures = None) then
    refuse MissingSharedInputSignature else
  if decide (shared_input s = None /\ is_Some (ts_shared_input_signature tx_signatures)) then
    refuse UnexpectedSharedInputSignature else
  put (ss_set_signatures (ss_holder_tx_signatures s) (Some tx_signatures) s);;
  s ← get;
  let holder_tx_signatures :=
    if ss_holder_sends_tx_signatures_first s then None else ss_holder_tx_signatures s in
  funding_tx_opt ← lift (maybe_finalize_funding_tx s);
  mret (holder_tx_signatures, funding_tx_opt).

(** The checks of one local witness (the body of the loop of
    [verify_interactive_tx_signatures]) *)
Definition verify_p2wpkh (tx : Transaction) (input_idx : nat) (prev_output : TxOut)
    (witness : Witness) : result (Fault SigningError) unit :=
  match witness with
  | [sig_bytes; key_bytes] =>
    pubkey ← ok_or (public_key_from_slice key_bytes) (Fails (InvalidEcdsaKey input_idx));
    '(sig, sighash_type) ← ok_or (ecdsa_from_slice sig_bytes) (Fails (InvalidEcdsaSignature input_idx));
    match sighash_type with
    | SighashAll =>
      sighash ← ok_or (p2wpkh_signature_hash tx input_idx (script_pubkey prev_output) (value prev_output))
                  (Panics "Funding transaction sighash should be calculable");
      ensure (verify_ecdsa sighash sig pubkey) (Fails (EcdsaVerification input_idx))
    | SighashOther _ => Err (Fails (EcdsaNotSighashAll input_idx))
    end
  | _ => Err (Fails (P2wpkhElements input_idx (length witness)))
  end.

Definition verify_p2tr_key_path (tx : Transaction) (all_prevouts : list TxOut) (input_idx : nat)
    (prev_output : TxOut) (sig_bytes : Bytes) : result (Fault SigningError) unit :=
  bytes ← ok_or (push_bytes_at_1 (script_pubkey prev_output)) (Fails (P2trScript input_idx));
  pubkey ← ok_or (x_only_from_slice bytes) (Fails (P2trKey input_idx));
  '(sig, sighash_type) ← ok_or (taproot_from_slice sig_bytes) (Fails (P2trSignature input_idx));
  match sighash_type with
  | TapOther _ => Err (Fails (P2trSighash input_idx))
  | _ =>
    sighash ← ok_or (taproot_key_spend_signature_hash tx input_idx all_prevouts sighash_type)
                (Panics "Funding transaction sighash should be calculable");
    ensure (verify_schnorr sighash sig pubkey) (Fails (SchnorrVerification input_idx))
  end.

(** An element of a P2WSH witness that parses as an ECDSA signature signs all of
    the transaction; one of a taproot script path that parses as a Schnorr
    signature does *)
Definition p2wsh_element_ok (element : Bytes) : bool :=
  if (70 <=? Z.of_nat (length element)) && (Z.of_nat (length element) <=? 73) then
    match ecdsa_from_slice element with
    | Some (_, SighashAll) | None => true
    | Some (_, SighashOther _) => false
    end
  else true.

Definition p2tr_element_ok (element : Bytes) : bool :=
  if Z.of_nat (length element) =? 65 then
    match taproot_from_slice element with
    | Some (_, TapAll) | None => true
    | Some (_, _) => false
    end
  else true.

Definition verify_input (tx : Transaction) (all_prevouts : list TxOut) (input_idx : nat)
    (prev_output : TxOut) (witness : Witness) : result (Fault SigningError) unit :=
  let script := script_pubkey prev_output in
  match witness with
  | [] => Err (Fails (EmptyWitness input_idx))
  | first :: rest =>
    if is_p2wpkh script then verify_p2wpkh tx input_idx prev_output witness else
    if is_p2tr script && (length witness =? 1)%nat then
      verify_p2tr_key_path tx all_prevouts input_idx prev_output first else
    if is_p2wsh script then
      try_each witness (fun element => ensure (p2wsh_element_ok element) (Fails (P2wshSighash input_idx))) else
    if is_p2tr script then
      try_each witness (fun element => ensure (p2tr_element_ok element) (Fails (P2trScriptPathSighash input_idx))) else
    Err (Panics "We don't allow contributing inputs that are not spending P2WPKH, P2WSH, or P2TR")
  end.

Definition verify_interactive_tx_signatures (s : InteractiveTxSigningSession)
    (witnesses : list Witness) : result (Fault SigningError) unit :=
  let unsigned_tx := ss_unsigned_tx s in
  let prev_outputs := map tim_prev_output (ct_input_metadata unsigned_tx) in
  let script_pubkeys :=
    filter (fun p => side_input unsigned_tx true p.1 p.2 = true)
      (enumerate (ct_input_metadata unsigned_tx)) in
  try_each (zip script_pubkeys witnesses) (fun '((input_idx, input), witness) =>
    verify_input (ct_tx unsigned_tx) prev_outputs input_idx (tim_prev_output input) witness).

Definition provide_holder_witnesses (tx_signatures : TxSignatures)
    : Session (option TxSignatures * option Transaction) :=
  s ← get;
  if decide (is_Some (ss_holder_tx_signatures s)) then refuse HolderWitnessesAlreadyProvided else
  if decide (length (ts_witnesses tx_signatures) <> local_inputs_count s) then
    refuse (ProvidedWitnessCount (length (ts_witnesses tx_signatures)) (local_inputs_count s)) else
  lift (verify_interactive_tx_signatures s (ts_witnesses tx_signatures));;
  put (ss_set_signatures (Some tx_signatures) (ss_counterparty_tx_signatures s) s);;
  s ← get;
  funding_tx_opt ← lift (maybe_finalize_funding_tx s);
  holder_tx_signatures ←
    (if ss_holder_sends_tx_signatures_first s || has_received_tx_signatures s then
       lift (assert_or (ss_has_received_commitment_signed s)
               "assertion failed: self.has_received_commitment_signed");;
       mret (ss_holder_tx_signatures s)
     else mret None);
  mret (holder_tx_signatures, funding_tx_opt).

End signing.
