(* ===== verification/LnMachine.v ===== *)
(** * Interactive transaction construction: the state machine and the constructor

    The turn-based protocol of [ln/interactivetxs.rs]: [StateMachine] moves
    between the states of a negotiation when a message is sent or received, and
    [InteractiveTxConstructor] answers every message of the peer with the next
    input or output it contributes, or with [tx_complete]. *)

From stdpp Require Import base gmap list sorting.
From Stdlib Require Import ZArith Lia.
From S2P Require Import Prelude LnTx LnSession.
Local Open Scope Z_scope.

(** ** The state machine *)

Inductive StateMachine :=
| Indeterminate
| SentChangeMsg (c : NegotiationContext)
| ReceivedChangeMsg (c : NegotiationContext)
| SentTxComplete (c : NegotiationContext)
| ReceivedTxComplete (c : NegotiationContext)
| NegotiationComplete (s : InteractiveTxSigningSession)
| NegotiationAborted (reason : AbortReason).

(** The order of arrays of bytes, [a < b] *)
Fixpoint bytes_ltb (a b : Bytes) : bool :=
  match a, b with
  | _, [] => false
  | [], _ :: _ => true
  | x :: a, y :: b => (x <? y) || ((x =? y) && bytes_ltb a b)
  end.

(** [Ok(new_state) => StateMachine::$to_state(new_state),
    Err(abort_reason) => StateMachine::NegotiationAborted(..)] *)
Definition transit {A} (to_state : A -> StateMachine) (r : NR A) : NR StateMachine :=
  match r with
  | Ok a => Ok (to_state a)
  | Err (Fails reason) => Ok (NegotiationAborted reason)
  | Err (Panics why) => Err (Panics why)
  end.

Definition unexpected : NR StateMachine := Ok (NegotiationAborted UnexpectedCounterpartyMessage).

(** Transitions on a message sent: from the states in which it is our turn *)
Definition on_sent (handler : NegotiationContext -> NR NegotiationContext) (sm : StateMachine)
    : NR StateMachine :=
  match sm with
  | ReceivedChangeMsg c | ReceivedTxComplete c => transit SentChangeMsg (handler c)
  | _ => unexpected
  end.

(** Transitions on a message received: from the states in which it is the turn of the peer *)
Definition on_received (handler : NegotiationContext -> NR NegotiationContext) (sm : StateMachine)
    : NR StateMachine :=
  match sm with
  | SentChangeMsg c | SentTxComplete c => transit ReceivedChangeMsg (handler c)
  | _ => unexpected
  end.

Section machine.
Context `{Bitcoin} `{HashOrder}.

Definition state_machine_new (holder_node_id counterparty_node_id : PublicKey)
    (feerate_sat_per_kw : Z) (is_initiator : bool) (tx_locktime : Z)
    (shared_funding_input : option SharedOwnedInput) (shared_funding_output : SharedOwnedOutput)
    : StateMachine :=
  let context := negotiation_context_new holder_node_id counterparty_node_id is_initiator
                   shared_funding_input shared_funding_output tx_locktime feerate_sat_per_kw in
  if is_initiator then ReceivedChangeMsg context else SentChangeMsg context.

Definition sm_sent_tx_add_input (sm : StateMachine) (msg : TxAddInput) (w : Z) : NR StateMachine :=
  on_sent (fun c => sent_tx_add_input c msg w) sm.
Definition sm_received_tx_add_input (sm : StateMachine) (msg : TxAddInput) : NR StateMachine :=
  on_received (fun c => received_tx_add_input c msg) sm.
Definition sm_sent_tx_add_output (sm : StateMachine) (msg : TxAddOutput) : NR StateMachine :=
  on_sent (fun c => sent_tx_add_output c msg) sm.
Definition sm_received_tx_add_output (sm : StateMachine) (msg : TxAddOutput) : NR StateMachine :=
  on_received (fun c => received_tx_add_output c msg) sm.
Definition sm_sent_tx_remove_input (sm : StateMachine) (msg : TxRemoveInput) : NR StateMachine :=
  on_sent (fun c => sent_tx_remove_input c msg) sm.
Definition sm_received_tx_remove_input (sm : StateMachine) (msg : TxRemoveInput) : NR StateMachine :=
  on_received (fun c => received_tx_remove_input c msg) sm.
Definition sm_sent_tx_remove_output (sm : StateMachine) (msg : TxRemoveOutput) : NR StateMachine :=
  on_sent (fun c => sent_tx_remove_output c msg) sm.
Definition sm_received_tx_remove_output (sm : StateMachine) (msg : TxRemoveOutput) : NR StateMachine :=
  on_received (fun c => received_tx_remove_output c msg) sm.

(** The second of two consecutive [tx_complete] messages *)
Definition complete_negotiation (c : NegotiationContext) : NR InteractiveTxSigningSession :=
  let shared_input_signature :=
    (fun shared => {| sis_holder_signature_first := sh_holder_sig_first shared;
                      sis_witness_script := sh_witness_script shared |})
    <$> nc_shared_funding_input c in
  tx ← constructed_transaction_new c;
  local_value ← local_contributed_input_value tx;
  remote_value ← remote_contributed_input_value tx;
  let first :=
    if local_value =? remote_value
    then bytes_ltb (serialize (nc_holder_node_id c)) (serialize (nc_counterparty_node_id c))
    else local_value <? remote_value in
  Ok {| ss_unsigned_tx := tx;
        ss_holder_sends_tx_signatures_first := first;
        ss_has_received_commitment_signed := false;
        ss_shared_input_signature := shared_input_signature;
        ss_holder_tx_signatures := None;
        ss_counterparty_tx_signatures := None |}.

Definition sm_sent_tx_complete (sm : StateMachine) : NR StateMachine :=
  match sm with
  | ReceivedChangeMsg c => Ok (SentTxComplete c)
  | ReceivedTxComplete c => transit NegotiationComplete (complete_negotiation c)
  | _ => unexpected
  end.

Definition sm_received_tx_complete (sm : StateMachine) : NR StateMachine :=
  match sm with
  | SentChangeMsg c => Ok (ReceivedTxComplete c)
  | SentTxComplete c => transit NegotiationComplete (complete_negotiation c)
  | _ => unexpected
  end.

(** ** The constructor *)

Inductive InteractiveTxMessageSend :=
| SendTxAddInput (msg : TxAddInput)
| SendTxAddOutput (msg : TxAddOutput)
| SendTxComplete (msg : TxComplete).

Record InteractiveTxConstructor := {
  ic_state_machine : StateMachine;
  ic_is_initiator : bool;
  ic_initiator_first_message : option InteractiveTxMessageSend;
  ic_channel_id : ChannelId;
  ic_inputs_to_contribute : list (SerialId * InputOwned);
  ic_outputs_to_contribute : list (SerialId * OutputOwned);
  ic_next_input_index : option nat;
  ic_next_output_index : option nat;
}.

Definition ic_set_state (sm : StateMachine) (k : InteractiveTxConstructor) : InteractiveTxConstructor :=
  {| ic_state_machine := sm;
     ic_is_initiator := ic_is_initiator k;
     ic_initiator_first_message := ic_initiator_first_message k;
     ic_channel_id := ic_channel_id k;
     ic_inputs_to_contribute := ic_inputs_to_contribute k;
     ic_outputs_to_contribute := ic_outputs_to_contribute k;
     ic_next_input_index := ic_next_input_index k;
     ic_next_output_index := ic_next_output_index k |}.

Definition ic_set_next (input_index output_index : option nat) (k : InteractiveTxConstructor)
    : InteractiveTxConstructor :=
  {| ic_state_machine := ic_state_machine k;
     ic_is_initiator := ic_is_initiator k;
     ic_initiator_first_message := ic_initiator_first_message k;
     ic_channel_id := ic_channel_id k;
     ic_inputs_to_contribute := ic_inputs_to_contribute k;
     ic_outputs_to_contribute := ic_outputs_to_contribute k;
     ic_next_input_index := input_index;
     ic_next_output_index := output_index |}.

Definition ic_set_first_message (m : option InteractiveTxMessageSend) (k : InteractiveTxConstructor)
    : InteractiveTxConstructor :=
  {| ic_state_machine := ic_state_machine k;
     ic_is_initiator := ic_is_initiator k;
     ic_initiator_first_message := m;
     ic_channel_id := ic_channel_id k;
     ic_inputs_to_contribute := ic_inputs_to_contribute k;
     ic_outputs_to_contribute := ic_outputs_to_contribute k;
     ic_next_input_index := ic_next_input_index k;
     ic_next_output_index := ic_next_output_index k |}.

Abbreviation Constructor A := (SE InteractiveTxConstructor (Fault AbortReason) A).

(** [do_state_transition!]: a transition that panics leaves the machine indeterminate *)
Definition do_state_transition (transition : StateMachine -> NR StateMachine) : Constructor unit :=
  k ← get;
  match transition (ic_state_machine k) with
  | Err e => put (ic_set_state Indeterminate k);; fail e
  | Ok sm =>
    put (ic_set_state sm k);;
    match sm with
    | NegotiationAborted reason => fail (Fails reason)
    | _ => mret tt
    end
  end.

(** [index.checked_add(1).filter(|index| *index < len)] *)
Definition next_index (len index : nat) : option nat :=
  if (S index <? len)%nat then Some (S index) else None.

Definition next_input_to_contribute : Constructor (option (SerialId * InputOwned)) :=
  k ← get;
  match ic_next_input_index k with
  | Some index =>
    put (ic_set_next (next_index (length (ic_inputs_to_contribute k)) index)
           (ic_next_output_index k) k);;
    mret (ic_inputs_to_contribute k !! index)
  | None => mret None
  end.

Definition next_output_to_contribute : Constructor (option (SerialId * OutputOwned)) :=
  k ← get;
  match ic_next_output_index k with
  | Some index =>
    put (ic_set_next (ic_next_input_index k)
           (next_index (length (ic_outputs_to_contribute k)) index) k);;
    mret (ic_outputs_to_contribute k !! index)
  | None => mret None
  end.

Definition tx_add_input_msg (channel_id : ChannelId) (serial_id : SerialId) (i : InputOwned) : TxAddInput :=
  match i with
  | SingleInput single =>
    {| tai_channel_id := channel_id; tai_serial_id := serial_id;
       tai_prevtx := Some (so_prev_tx single);
       tai_prevtx_out := op_vout (previous_output (so_input single));
       tai_sequence := sequence (so_input single);
       tai_shared_input_txid := None |}
  | SharedInput shared =>
    {| tai_channel_id := channel_id; tai_serial_id := serial_id;
       tai_prevtx := None;
       tai_prevtx_out := op_vout (previous_output (sh_input shared));
       tai_sequence := sequence (sh_input shared);
       tai_shared_input_txid := Some (op_txid (previous_output (sh_input shared))) |}
  end.

Definition tx_add_output_msg (channel_id : ChannelId) (serial_id : SerialId) (o : OutputOwned) : TxAddOutput :=
  {| tao_channel_id := channel_id; tao_serial_id := serial_id;
     tao_sats := value (oo_tx_out o); tao_script := script_pubkey (oo_tx_out o) |}.

Definition maybe_send_message : Constructor InteractiveTxMessageSend :=
  channel_id ← gets ic_channel_id;
  next_input ← next_input_to_contribute;
  match next_input with
  | Some (serial_id, i) =>
    let msg := tx_add_input_msg channel_id serial_id i in
    do_state_transition (fun sm => sm_sent_tx_add_input sm msg (io_satisfaction_weight i));;
    mret (SendTxAddInput msg)
  | None =>
    next_output ← next_output_to_contribute;
    match next_output with
    | Some (serial_id, o) =>
      let msg := tx_add_output_msg channel_id serial_id o in
      do_state_transition (fun sm => sm_sent_tx_add_output sm msg);;
      mret (SendTxAddOutput msg)
    | None =>
      do_state_transition sm_sent_tx_complete;;
      mret (SendTxComplete {| tc_channel_id := channel_id |})
    end
  end.

Definition handle_tx_add_input (msg : TxAddInput) : Constructor InteractiveTxMessageSend :=
  do_state_transition (fun sm => sm_received_tx_add_input sm msg);; maybe_send_message.
Definition handle_tx_remove_input (msg : TxRemoveInput) : Constructor InteractiveTxMessageSend :=
  do_state_transition (fun sm => sm_received_tx_remove_input sm msg);; maybe_send_message.
Definition handle_tx_add_output (msg : TxAddOutput) : Constructor InteractiveTxMessageSend :=
  do_state_transition (fun sm => sm_received_tx_add_output sm msg);; maybe_send_message.
Definition handle_tx_remove_output (msg : TxRemoveOutput) : Constructor InteractiveTxMessageSend :=
  do_state_transition (fun sm => sm_received_tx_remove_output sm msg);; maybe_send_message.

Inductive HandleTxCompleteValue :=
| SendTxMessage (msg : InteractiveTxMessageSend)
| NegotiationCompleted (msg : option InteractiveTxMessageSend) (funding : OutPoint).

Definition handle_tx_complete (msg : TxComplete) : Constructor HandleTxCompleteValue :=
  do_state_transition sm_received_tx_complete;;
  sm ← gets ic_state_machine;
  match sm with
  | ReceivedTxComplete _ =>
    msg_send ← maybe_send_message;
    sm ← gets ic_state_machine;
    match sm with
    | NegotiationComplete signing_session =>
      lift (assert_or (match msg_send with SendTxComplete _ => true | _ => false end)
              "assertion failed: matches!(msg_send, InteractiveTxMessageSend::TxComplete(_))");;
      mret (NegotiationCompleted (Some msg_send) (funding_outpoint (ss_unsigned_tx signing_session)))
    | SentChangeMsg _ => mret (SendTxMessage msg_send)
    | _ => fail (Panics "We cannot transition to any other states after receiving `tx_complete` and responding")
    end
  | NegotiationComplete signing_session =>
    mret (NegotiationCompleted None (funding_outpoint (ss_unsigned_tx signing_session)))
  | _ => fail (Panics "We cannot transition to any other states after receiving `tx_complete`")
  end.

Definition into_signing_session (k : InteractiveTxConstructor) : NR InteractiveTxSigningSession :=
  match ic_state_machine k with
  | NegotiationComplete s => Ok s
  | _ => Err (Panics "Signing session is not ready yet")
  end.

Definition ic_contributed_inputs_and_outputs (k : InteractiveTxConstructor)
    : list OutPoint * list TxOut :=
  (map (fun p => previous_output (io_tx_in p.2))
     (filter (fun p => io_is_shared p.2 = false) (ic_inputs_to_contribute k)),
   map (fun p => oo_tx_out p.2)
     (filter (fun p => oo_is_shared p.2 = false) (ic_outputs_to_contribute k))).

Definition ic_into_negotiation_error (k : InteractiveTxConstructor) (reason : AbortReason)
    : NegotiationError :=
  {| ne_reason := reason; ne_contributed_inputs := (ic_contributed_inputs_and_outputs k).1;
     ne_contributed_outputs := (ic_contributed_inputs_and_outputs k).2 |}.

(** ** A new constructor *)

(** A serial id from the first eight of the 32 random bytes drawn, with the
    parity of the holder's role *)
Definition generate_holder_serial_id (rand_bytes : Bytes) (is_initiator : bool) : SerialId :=
  let serial_id := from_be_bytes (take 8 rand_bytes) in
  if Bool.eqb (is_for_initiator serial_id) is_initiator then serial_id else Z.lxor serial_id 1.

Record Utxo := { utxo_outpoint : OutPoint; utxo_output : TxOut; utxo_satisfaction_weight : Z }.
Record FundingTxInput := { fti_utxo : Utxo; fti_sequence : Z; fti_prevtx : Transaction }.

Record InteractiveTxConstructorArgs := {
  args_entropy : nat -> Bytes;
  args_holder_node_id : PublicKey;
  args_counterparty_node_id : PublicKey;
  args_channel_id : ChannelId;
  args_feerate_sat_per_kw : Z;
  args_is_initiator : bool;
  args_funding_tx_locktime : Z;
  args_inputs_to_contribute : list FundingTxInput;
  args_shared_funding_input : option SharedOwnedInput;
  args_shared_funding_output : SharedOwnedOutput;
  args_outputs_to_contribute : list TxOut;
}.

Definition funding_input_owned (f : FundingTxInput) : InputOwned :=
  SingleInput {| so_input := unsigned_txin (utxo_outpoint (fti_utxo f)) (fti_sequence f);
                 so_prev_tx := fti_prevtx f;
                 so_prev_output := utxo_output (fti_utxo f);
                 so_satisfaction_weight := utxo_satisfaction_weight (fti_utxo f) |}.

(** What the holder contributes: the shared input and output are the initiator's
    to add *)
Definition owned_inputs (args : InteractiveTxConstructorArgs) : list InputOwned :=
  map funding_input_owned (args_inputs_to_contribute args) ++
  match args_shared_funding_input args with
  | Some shared => if args_is_initiator args then [SharedInput shared] else []
  | None => []
  end.

Definition owned_outputs (args : InteractiveTxConstructorArgs) : list OutputOwned :=
  map SingleOutput (args_outputs_to_contribute args) ++
  (if args_is_initiator args then [SharedOutput (args_shared_funding_output args)] else []).

(** Random ids in the order of the draws, from the [n]-th one on *)
Definition with_serial_ids {A} (args : InteractiveTxConstructorArgs) (n : nat) (l : list A)
    : list (SerialId * A) :=
  imap (fun i a => (generate_holder_serial_id (args_entropy args (n + i)%nat) (args_is_initiator args), a)) l.

Definition initial_constructor (args : InteractiveTxConstructorArgs) : InteractiveTxConstructor :=
  let inputs := sort_by_key fst (with_serial_ids args 0 (owned_inputs args)) in
  let outputs := sort_by_key fst (with_serial_ids args (length (owned_inputs args)) (owned_outputs args)) in
  {| ic_state_machine :=
       state_machine_new (args_holder_node_id args) (args_counterparty_node_id args)
         (args_feerate_sat_per_kw args) (args_is_initiator args) (args_funding_tx_locktime args)
         (args_shared_funding_input args) (args_shared_funding_output args);
     ic_is_initiator := args_is_initiator args;
     ic_initiator_first_message := None;
     ic_channel_id := args_channel_id args;
     ic_inputs_to_contribute := inputs;
     ic_outputs_to_contribute := outputs;
     ic_next_input_index := match inputs with [] => None | _ => Some 0%nat end;
     ic_next_output_index := match outputs with [] => None | _ => Some 0%nat end |}.

Definition interactive_tx_constructor_new (args : InteractiveTxConstructorArgs)
    : result (Fault NegotiationError) InteractiveTxConstructor :=
  let constructor := initial_constructor args in
  if args_is_initiator args then
    match maybe_send_message constructor with
    | (k, Ok message) => Ok (ic_set_first_message (Some message) k)
    | (k, Err (Fails reason)) => Err (Fails (ic_into_negotiation_error k reason))
    | (_, Err (Panics why)) => Err (Panics why)
    end
  else Ok constructor.

Definition take_initiator_first_message (k : InteractiveTxConstructor)
    : InteractiveTxConstructor * option InteractiveTxMessageSend :=
  (ic_set_first_message None k, ic_initiator_first_message k).

End machine.
