(* ===== verification/LnAgree.v ===== *)
(** * Interactive transaction construction: the two peers agree

    Two state machines that exchange messages build the same transaction: the
    order in which their hash maps are iterated, who added what and how the
    shared input is split do not matter.  The last part is about the order of
    [tx_signatures], which the two peers decide alike. *)

From stdpp Require Import base gmap list sorting.
From Stdlib Require Import ZArith Lia.
From S2P Require Import Prelude LnTx LnSession LnMachine.
Local Open Scope Z_scope.

(** ** Sorting by distinct keys *)

#[export] Instance key_le_trans {A} (key : A -> Z) : Transitive (key_le key).
Proof. unfold key_le. intros a b c. lia. Qed.
#[export] Instance key_le_total {A} (key : A -> Z) : Total (key_le key).
Proof. unfold key_le. intros a b. lia. Qed.

Lemma sort_by_key_perm {A} (key : A -> Z) l : sort_by_key key l ≡ₚ l.
Proof. apply merge_sort_Permutation. Qed.

Lemma sort_by_key_sorted {A} (key : A -> Z) l : StronglySorted (key_le key) (sort_by_key key l).
Proof. apply StronglySorted_merge_sort; apply _. Qed.

(** A sorted list with distinct keys is strictly sorted, so it is unique *)
Lemma sorted_keys_unique {A} (key : A -> Z) (l l' : list A) :
  StronglySorted (key_le key) l -> StronglySorted (key_le key) l' ->
  NoDup (map key l) -> l ≡ₚ l' -> l = l'.
Proof.
  intros Hl. revert l'. induction Hl as [|a l Hs IH Ha]; intros l' Hl' Hd Hp.
  { by apply Permutation_nil_l in Hp. }
  destruct Hl' as [|b l' Hs' Hb]; [by apply Permutation_nil_r in Hp|].
  cbn in Hd. apply NoDup_cons in Hd as [Hna Hd].
  assert (a = b) as <-.
  { assert (a ∈ b :: l') as Hab by (rewrite <- Hp; left).
    assert (b ∈ a :: l) as Hba by (rewrite Hp; left).
    apply elem_of_cons in Hab as [->|Hab]; [done|].
    apply elem_of_cons in Hba as [->|Hba]; [done|].
    rewrite List.Forall_forall in Ha, Hb. unfold key_le in *.
    specialize (Ha b). specialize (Hb a). rewrite <- !list_elem_of_In in *.
    specialize (Ha Hba). specialize (Hb Hab). assert (key a = key b) as E by lia.
    exfalso. apply Hna. rewrite E. by apply list_elem_of_fmap_2. }
  f_equal. apply IH; [done..|]. by apply Permutation_cons_inv in Hp.
Qed.

Lemma sort_by_key_unique {A} (key : A -> Z) (l l' : list A) :
  NoDup (map key l) -> l ≡ₚ l' -> sort_by_key key l = sort_by_key key l'.
Proof.
  intros Hd Hp. apply (sorted_keys_unique key); [apply sort_by_key_sorted..| |].
  - by rewrite sort_by_key_perm.
  - by rewrite !sort_by_key_perm.
Qed.

(** ** Lists of the entries of a map *)

(** The entries of a map whose values carry their key, listed in any two orders *)
Lemma entries_sorted_alike {A B} {OA OB : HashOrder} (f g : A -> B) (key : B -> Z)
    (m m' : gmap SerialId A) :
  (forall s a, m !! s = Some a -> key (f a) = s) -> f <$> m = g <$> m' ->
  sort_by_key key (map (fun p => f p.2) (hash_iter (HashOrder := OA) m)) =
  sort_by_key key (map (fun p => g p.2) (hash_iter (HashOrder := OB) m')).
Proof.
  intros Hk E.
  assert (forall O : HashOrder, map (fun p : SerialId * A => f p.2) (hash_iter m) ≡ₚ
            map snd (map_to_list (f <$> m))) as Hf.
  { intros O. rewrite hash_iter_perm, map_to_list_fmap, map_map. done. }
  assert (forall O : HashOrder, map (fun p : SerialId * A => g p.2) (hash_iter m') ≡ₚ
            map snd (map_to_list (g <$> m'))) as Hg.
  { intros O. rewrite hash_iter_perm, map_to_list_fmap, map_map. done. }
  apply sort_by_key_unique; [|by rewrite Hf, Hg, E].
  rewrite (map_map (fun p : SerialId * A => f p.2) key).
  rewrite (hash_iter_perm (HashOrder := OA)).
  assert (map (fun p : SerialId * A => key (f p.2)) (map_to_list m) = map fst (map_to_list m)) as ->.
  { apply map_ext_in. intros [s a]. rewrite <- list_elem_of_In, elem_of_map_to_list. apply Hk. }
  apply NoDup_fst_map_to_list.
Qed.

(** ** Contexts that mirror each other *)

(** The part of a shared input the peers know alike, and who signs first *)
Definition shared_view (flip : bool) (s : SharedOwnedInput) : TxIn * TxOut * bool * Script :=
  (sh_input s, sh_prev_output s, xorb flip (sh_holder_sig_first s), sh_witness_script s).

Record mirror (c d : NegotiationContext) : Prop := {
  mi_inputs : into_txin_and_metadata <$> nc_inputs c = into_txin_and_metadata <$> nc_inputs d;
  mi_outputs : into_txout_and_metadata <$> nc_outputs c = into_txout_and_metadata <$> nc_outputs d;
  mi_input_keys : forall s i, nc_inputs c !! s = Some i -> iti_serial_id i = s;
  mi_output_keys : forall s o, nc_outputs c !! s = Some o -> ito_serial_id o = s;
  mi_locktime : nc_tx_locktime c = nc_tx_locktime d;
  mi_role : nc_holder_is_initiator d = negb (nc_holder_is_initiator c);
  mi_holder : nc_holder_node_id d = nc_counterparty_node_id c;
  mi_counterparty : nc_counterparty_node_id d = nc_holder_node_id c;
  mi_distinct : nc_holder_node_id c <> nc_counterparty_node_id c;
  mi_shared_input :
    shared_view false <$> nc_shared_funding_input c = shared_view true <$> nc_shared_funding_input d;
  mi_shared_output : sho_tx_out (nc_shared_funding_output c) = sho_tx_out (nc_shared_funding_output d);
}.

Lemma fmap_eq_lookup {A B C} (f : A -> C) (g : B -> C) (m : gmap SerialId A) (m' : gmap SerialId B) s b :
  f <$> m = g <$> m' -> m' !! s = Some b -> exists a, m !! s = Some a /\ f a = g b.
Proof.
  intros E Hb. assert ((f <$> m) !! s = (g <$> m') !! s) as Es by by rewrite E.
  rewrite !lookup_fmap, Hb in Es. destruct (m !! s) as [a|]; [|done].
  exists a. split; [done|]. by injection Es.
Qed.

Lemma shared_view_flip (o o' : option SharedOwnedInput) :
  shared_view false <$> o = shared_view true <$> o' ->
  shared_view false <$> o' = shared_view true <$> o.
Proof.
  unfold shared_view. destruct o as [[i p l f w]|], o' as [[i' p' l' f' w']|]; cbn; intros E; try done.
  injection E as <- <- E <-. destruct f, f'; done.
Qed.

Lemma mirror_sym c d : mirror c d -> mirror d c.
Proof.
  intros []. constructor; try done.
  - intros s i Hi. destruct (fmap_eq_lookup _ _ _ _ _ _ mi_inputs0 Hi) as (j & Hj & E).
    injection E as _ E _. rewrite <- E. eauto.
  - intros s o Ho. destruct (fmap_eq_lookup _ _ _ _ _ _ mi_outputs0 Ho) as (p & Hp & E).
    injection E as _ E. rewrite <- E. eauto.
  - by rewrite mi_role0, negb_involutive.
  - rewrite mi_holder0, mi_counterparty0. congruence.
  - by apply shared_view_flip.
Qed.

(** ** A message that one side sends and the other receives *)

Section steps.
Context `{Bitcoin}.

Lemma mirror_put_input c d ri rj s i j o p n n' :
  mirror c d -> io_tx_in i = io_tx_in j -> io_prev_output i = io_prev_output j ->
  mirror (put_input ri s i o n c) (put_input rj s j p n' d).
Proof.
  intros [] E1 E2. constructor; try done; cbn.
  - rewrite !fmap_insert, mi_inputs0. unfold into_txin_and_metadata at 1 3. cbn. by rewrite E1, E2.
  - intros t k [[<- <-]|[_ Hk]]%lookup_insert_Some; [done|eauto].
Qed.

Lemma mirror_put_output c d ri rj s o p n n' :
  mirror c d -> oo_tx_out o = oo_tx_out p ->
  mirror (put_output ri s o n c) (put_output rj s p n' d).
Proof.
  intros [] E. constructor; try done; cbn.
  - rewrite !fmap_insert, mi_outputs0. unfold into_txout_and_metadata at 1 3. cbn. by rewrite E.
  - intros t k [[<- <-]|[_ Hk]]%lookup_insert_Some; [done|eauto].
Qed.

(** The input both sides put down for a [tx_add_input] *)
Lemma added_input_alike {O : HashOrder} c d msg w i j o p :
  mirror c d -> sent_input c msg w = Ok (o, i) -> received_input d msg = Ok (j, p) ->
  io_tx_in i = io_tx_in j /\ io_prev_output i = io_prev_output j /\ o = p.
Proof.
  intros M. unfold sent_input, received_input.
  destruct (tai_shared_input_txid msg).
  - pose proof (mi_shared_input _ _ M) as E. unfold shared_view in E.
    intros Es Er. accepted Es; accepted Er; cbn in E; try done.
    injection E as E1 E2 _ _. by simplify_eq/=.
  - intros Es Er. accepted Es; accepted Er. cbn in Es.
    match goal with G : ok_or _ _ = Ok _ |- _ => apply ok_or_Ok in G end. by simplify_eq/=.
Qed.

Lemma add_input_alike {OC OD : HashOrder} c d c' d' msg w :
  mirror c d -> sent_tx_add_input c msg w = Ok c' -> received_tx_add_input d msg = Ok d' ->
  mirror c' d'.
Proof.
  intros M (i & o & Ei & _ & ->)%sent_tx_add_input_Ok
    (_ & _ & _ & j & p & Ej & _ & _ & ->)%received_tx_add_input_Ok.
  destruct (added_input_alike _ _ _ _ _ _ _ _ M Ei Ej) as (? & ? & ?). by apply mirror_put_input.
Qed.

Lemma add_output_alike {OD : HashOrder} c d d' msg :
  mirror c d -> received_tx_add_output d msg = Ok d' ->
  exists c', sent_tx_add_output c msg = Ok c' /\ mirror c' d'.
Proof.
  intros M (_ & _ & _ & _ & _ & _ & _ & ->)%received_tx_add_output_Ok.
  eexists. split; [apply sent_tx_add_output_eq|].
  apply mirror_put_output; [done|]. by rewrite !output_of_tx_out.
Qed.

Lemma remove_input_alike {OD : HashOrder} c d d' msg :
  mirror c d -> received_tx_remove_input d msg = Ok d' ->
  exists c', sent_tx_remove_input c msg = Ok c' /\ mirror c' d'.
Proof.
  intros [] (_ & _ & ->)%received_tx_remove_input_Ok. eexists. split; [done|].
  constructor; try done; cbn.
  - by rewrite !fmap_delete, mi_inputs0.
  - intros s i [_ Hi]%lookup_delete_Some. eauto.
Qed.

Lemma remove_output_alike {OD : HashOrder} c d d' msg :
  mirror c d -> received_tx_remove_output d msg = Ok d' ->
  exists c', sent_tx_remove_output c msg = Ok c' /\ mirror c' d'.
Proof.
  intros [] (_ & _ & ->)%received_tx_remove_output_Ok. eexists. split; [done|].
  constructor; try done; cbn.
  - by rewrite !fmap_delete, mi_outputs0.
  - intros s i [_ Hi]%lookup_delete_Some. eauto.
Qed.

(** ** The transactions two mirrored contexts give *)

Lemma assemble_alike {OC OD : HashOrder} c d :
  mirror c d ->
  assemble_tx (H0 := OC) c =
    {| ct_holder_is_initiator := nc_holder_is_initiator c;
       ct_input_metadata := ct_input_metadata (assemble_tx (H0 := OD) d);
       ct_output_metadata := ct_output_metadata (assemble_tx (H0 := OD) d);
       ct_tx := ct_tx (assemble_tx (H0 := OD) d);
       ct_shared_input_index := ct_shared_input_index (assemble_tx (H0 := OD) d);
       ct_shared_output_index := ct_shared_output_index (assemble_tx (H0 := OD) d) |}.
Proof.
  intros [].
  assert (constructed_inputs (H0 := OC) c = constructed_inputs (H0 := OD) d) as Ei
    by by apply entries_sorted_alike.
  assert (constructed_outputs (H0 := OC) c = constructed_outputs (H0 := OD) d) as Eo
    by by apply entries_sorted_alike.
  unfold assemble_tx. rewrite Ei, Eo, mi_locktime0, mi_shared_output0. f_equal.
  unfold shared_view in *. destruct (nc_shared_funding_input c), (nc_shared_funding_input d); cbn in *; try done.
  injection mi_shared_input0 as E _ _ _. by rewrite E.
Qed.

(** ** The sessions they end in *)

Record sessions_agree (s t : InteractiveTxSigningSession) : Prop := {
  sa_tx : ct_tx (ss_unsigned_tx s) = ct_tx (ss_unsigned_tx t);
  sa_input_metadata : ct_input_metadata (ss_unsigned_tx s) = ct_input_metadata (ss_unsigned_tx t);
  sa_output_metadata : ct_output_metadata (ss_unsigned_tx s) = ct_output_metadata (ss_unsigned_tx t);
  sa_input_index : ct_shared_input_index (ss_unsigned_tx s) = ct_shared_input_index (ss_unsigned_tx t);
  sa_output_index : ct_shared_output_index (ss_unsigned_tx s) = ct_shared_output_index (ss_unsigned_tx t);
  sa_role : ct_holder_is_initiator (ss_unsigned_tx t) = negb (ct_holder_is_initiator (ss_unsigned_tx s));
  sa_first : ss_holder_sends_tx_signatures_first t = negb (ss_holder_sends_tx_signatures_first s);
  sa_shared_signature :
    ss_shared_input_signature t =
      (fun x => {| sis_holder_signature_first := negb (sis_holder_signature_first x);
                   sis_witness_script := sis_witness_script x |}) <$> ss_shared_input_signature s;
}.

Lemma bytes_ltb_flip a b : a <> b -> bytes_ltb b a = negb (bytes_ltb a b).
Proof.
  revert b. induction a as [|x a IH]; intros [|y b] Hne; try done. cbn.
  destruct (Z.ltb_spec x y), (Z.ltb_spec y x), (Z.eqb_spec x y), (Z.eqb_spec y x); try lia; try done.
  cbn. subst. apply IH. congruence.
Qed.

(** The side of an input is the other one for the peer *)
Lemma tim_is_local_flip h m : tim_is_local (negb h) m = negb (tim_is_local h m).
Proof.
  unfold tim_is_local, is_serial_id_valid_for_counterparty.
  by destruct h, (is_for_non_initiator (tim_serial_id m)).
Qed.

Lemma contributed_value_flip t u local :
  ct_input_metadata u = ct_input_metadata t ->
  ct_holder_is_initiator u = negb (ct_holder_is_initiator t) ->
  contributed_input_value local u = contributed_input_value (negb local) t.
Proof.
  intros Em Eh. unfold contributed_input_value. rewrite Em, Eh. do 2 f_equal.
  apply list_filter_iff. intros m. rewrite tim_is_local_flip.
  destruct local, (tim_is_local (ct_holder_is_initiator t) m); cbn; naive_solver.
Qed.

Lemma constructed_transaction_new_assemble {O : HashOrder} c t :
  constructed_transaction_new c = Ok t -> t = assemble_tx c.
Proof. unfold constructed_transaction_new. cbv zeta. intros E. accepted E. by injection E. Qed.

Lemma complete_alike {OC OD : HashOrder} c d s t :
  mirror c d -> complete_negotiation (H0 := OC) c = Ok s -> complete_negotiation (H0 := OD) d = Ok t ->
  sessions_agree s t.
Proof.
  intros M. unfold complete_negotiation.
  intros (tx & Etx & Es)%result_bind_Ok (ty & Ety & Et)%result_bind_Ok.
  apply result_bind_Ok in Es as (l & El & Es). apply result_bind_Ok in Es as (r & Er & [= <-]).
  apply result_bind_Ok in Et as (l' & El' & Et). apply result_bind_Ok in Et as (r' & Er' & [= <-]).
  apply constructed_transaction_new_assemble in Etx as ->, Ety as ->.
  pose proof (assemble_alike (OC := OC) (OD := OD) c d M) as A.
  assert (ct_holder_is_initiator (assemble_tx (H0 := OD) d) =
          negb (ct_holder_is_initiator (assemble_tx (H0 := OC) c))) as Hr by apply (mi_role _ _ M).
  assert (ct_input_metadata (assemble_tx (H0 := OD) d) = ct_input_metadata (assemble_tx (H0 := OC) c)) as Hm
    by by rewrite A.
  assert (l' = r /\ r' = l) as [-> ->].
  { unfold local_contributed_input_value, remote_contributed_input_value in *.
    rewrite (contributed_value_flip _ _ _ Hm Hr) in El'. rewrite (contributed_value_flip _ _ _ Hm Hr) in Er'.
    cbn [negb] in El', Er'. split; congruence. }
  constructor; cbn [ss_unsigned_tx ss_holder_sends_tx_signatures_first ss_shared_input_signature];
    try (by rewrite A).
  - rewrite (mi_holder _ _ M), (mi_counterparty _ _ M).
    destruct (Z.eqb_spec l r), (Z.eqb_spec r l), (Z.ltb_spec l r), (Z.ltb_spec r l); try lia; try done.
    all: apply bytes_ltb_flip; intros E%serialize_inj; by apply (mi_distinct _ _ M).
  - pose proof (mi_shared_input _ _ M) as E. unfold shared_view in E.
    destruct (nc_shared_funding_input c) as [u|], (nc_shared_funding_input d) as [v|]; cbn in *; try done.
    injection E as _ _ E ->. rewrite E. by destruct (sh_holder_sig_first v).
Qed.

End steps.

(** ** What every finished negotiation gives *)

Record session_ready (s : InteractiveTxSigningSession) : Prop := {
  sr_holder : ss_holder_tx_signatures s = None;
  sr_counterparty : ss_counterparty_tx_signatures s = None;
  sr_commitment : ss_has_received_commitment_signed s = false;
  sr_lengths : length (input (ct_tx (ss_unsigned_tx s))) = length (ct_input_metadata (ss_unsigned_tx s));
  sr_index : forall i, ct_shared_input_index (ss_unsigned_tx s) = Some i ->
    (Z.to_nat i < length (ct_input_metadata (ss_unsigned_tx s)))%nat;
  sr_shared : is_Some (ct_shared_input_index (ss_unsigned_tx s)) <-> is_Some (ss_shared_input_signature s);
}.

Lemma position_u16_Some {A} (p : A -> bool) l i :
  position_u16 p l = Some i -> Z.of_nat (length l) <= 2 ^ 16 ->
  exists a, l !! Z.to_nat i = Some a /\ p a = true /\ 0 <= i.
Proof.
  unfold position_u16. destruct (list_find _ l) as [[k a]|] eqn:E; cbn; [|done].
  intros [= <-] Hl. apply list_find_Some in E as (Ek & Hp & _).
  pose proof (lookup_lt_Some _ _ _ Ek). exists a.
  rewrite Z.mod_small by lia.
  rewrite Nat2Z.id. split_and!; [done..|lia].
Qed.

Lemma assemble_lengths {O : HashOrder} c :
  length (input (ct_tx (assemble_tx c))) = length (ct_input_metadata (assemble_tx c)) /\
  length (output (ct_tx (assemble_tx c))) = length (ct_output_metadata (assemble_tx c)).
Proof. cbn. by rewrite !length_map. Qed.

Lemma complete_negotiation_Ok `{Bitcoin} `{HashOrder} c s :
  complete_negotiation c = Ok s ->
  constructed_transaction_new c = Ok (assemble_tx c) /\ ss_unsigned_tx s = assemble_tx c.
Proof.
  unfold complete_negotiation. intros (tx & Etx & E)%result_bind_Ok.
  apply result_bind_Ok in E as (l & _ & E). apply result_bind_Ok in E as (r & _ & [= <-]).
  pose proof (constructed_transaction_new_assemble _ _ Etx) as ->. done.
Qed.

(** What [ConstructedTransaction::new] has checked *)
Lemma constructed_transaction_new_Ok `{Bitcoin} `{HashOrder} c t :
  constructed_transaction_new c = Ok t ->
  t = assemble_tx c /\
  remote_outputs_value c <= remote_inputs_value c /\
  (exists required,
     fee_for_weight (E := AbortReason)
       ((nc_feerate_sat_per_kw c * REMOTE_FEE_TOLERANCE_PERCENT / 100) `mod` 2 ^ 32)
       (remote_weight_contributed c) = Ok required /\
     required <= saturating_sub (remote_inputs_value c) (remote_outputs_value c)) /\
  (length (input (ct_tx t)) <= MAX_INPUTS_OUTPUTS_COUNT)%nat /\
  (length (output (ct_tx t)) <= MAX_INPUTS_OUTPUTS_COUNT)%nat /\
  (is_Some (nc_shared_funding_input c) -> is_Some (ct_shared_input_index t)) /\
  ct_shared_output_index t <> umax 16 /\
  sat_add (sat_add (tx_weight (ct_tx t)) SEGWIT_MARKER_FLAG_WEIGHT) (expected_witness_weight c)
    <= MAX_STANDARD_TX_WEIGHT.
Proof.
  intros E. pose proof (constructed_transaction_new_assemble _ _ E) as ->. split; [done|].
  revert E. unfold constructed_transaction_new. generalize (assemble_tx c) as t. cbv zeta. intros t E. accepted E.
  rewrite Z.ltb_ge in *. rewrite Z.eqb_neq in *.
  match goal with U : umul _ _ _ = Ok _ |- _ => apply umul_Ok in U as [-> _] end.
  split_and!; try done; try lia; eauto.
  intros Hs. destruct (ct_shared_input_index t); [done|]. naive_solver.
Qed.

Lemma complete_ready `{Bitcoin} `{HashOrder} c s : complete_negotiation c = Ok s -> session_ready s.
Proof.
  intros E. destruct (complete_negotiation_Ok _ _ E) as [Hn Hu].
  apply constructed_transaction_new_Ok in Hn as (_ & _ & _ & Hi & _ & Hsh & _).
  pose proof (assemble_lengths c) as [Hl _].
  assert (ss_shared_input_signature s =
    (fun shared => {| sis_holder_signature_first := sh_holder_sig_first shared;
                      sis_witness_script := sh_witness_script shared |}) <$> nc_shared_funding_input c /\
    ss_holder_tx_signatures s = None /\ ss_counterparty_tx_signatures s = None /\
    ss_has_received_commitment_signed s = false) as (E1 & E2 & E3 & E4).
  { revert E. unfold complete_negotiation. intros (tx & Etx & E)%result_bind_Ok.
    apply result_bind_Ok in E as (l & _ & E). by apply result_bind_Ok in E as (r & _ & [= <-]). }
  constructor; rewrite ?Hu; try done.
  - intros i. rewrite <- Hl. cbn. destruct (nc_shared_funding_input c) as [u|]; cbn; [|done].
    intros (a & Ha & _)%position_u16_Some; [by apply lookup_lt_Some in Ha|].
    cbn in Hi. unfold MAX_INPUTS_OUTPUTS_COUNT in Hi. lia.
  - rewrite E1, fmap_is_Some. split; [|done]. cbn.
    by destruct (nc_shared_funding_input c); [|intros []].
Qed.

(** ** Conversations *)

(** The messages of a negotiation; the sender knows the satisfaction weight of
    the input it adds *)
Inductive TxMsg :=
| MsgAddInput (msg : TxAddInput) (satisfaction_weight : Z)
| MsgAddOutput (msg : TxAddOutput)
| MsgRemoveInput (msg : TxRemoveInput)
| MsgRemoveOutput (msg : TxRemoveOutput)
| MsgComplete.

Section conversation.
Context `{Bitcoin}.

Definition sm_sent {O : HashOrder} (sm : StateMachine) (m : TxMsg) : NR StateMachine :=
  match m with
  | MsgAddInput msg w => sm_sent_tx_add_input sm msg w
  | MsgAddOutput msg => sm_sent_tx_add_output sm msg
  | MsgRemoveInput msg => sm_sent_tx_remove_input sm msg
  | MsgRemoveOutput msg => sm_sent_tx_remove_output sm msg
  | MsgComplete => sm_sent_tx_complete sm
  end.

Definition sm_received {O : HashOrder} (sm : StateMachine) (m : TxMsg) : NR StateMachine :=
  match m with
  | MsgAddInput msg _ => sm_received_tx_add_input sm msg
  | MsgAddOutput msg => sm_received_tx_add_output sm msg
  | MsgRemoveInput msg => sm_received_tx_remove_input sm msg
  | MsgRemoveOutput msg => sm_received_tx_remove_output sm msg
  | MsgComplete => sm_received_tx_complete sm
  end.

(** The peers take turns: the machine that received a message sends the next one.
    Each has its own hash maps. *)
Fixpoint converse (OX OY : HashOrder) (x y : StateMachine) (l : list TxMsg)
    : NR (StateMachine * StateMachine) :=
  match l with
  | [] => Ok (x, y)
  | m :: l =>
    x' ← sm_sent (O := OX) x m;
    y' ← sm_received (O := OY) y m;
    converse OY OX y' x' l
  end.

(** [x] is to send, [y] to receive *)
Inductive in_step : StateMachine -> StateMachine -> Prop :=
| in_step_change c d : mirror c d -> in_step (ReceivedChangeMsg c) (SentChangeMsg d)
| in_step_complete c d : mirror c d -> in_step (ReceivedTxComplete c) (SentTxComplete d)
| in_step_done s t : sessions_agree s t -> session_ready s -> session_ready t ->
     in_step (NegotiationComplete s) (NegotiationComplete t)
| in_step_aborted_l r y : in_step (NegotiationAborted r) y
| in_step_aborted_r x r : in_step x (NegotiationAborted r).

Lemma transit_Ok {A} (to_state : A -> StateMachine) r sm :
  transit to_state r = Ok sm ->
  (exists a, r = Ok a /\ sm = to_state a) \/ exists reason, sm = NegotiationAborted reason.
Proof. destruct r as [a|[w|e]]; cbn; intros [= <-]; eauto. Qed.

(** A change message: the handlers keep the contexts mirrored, or a side aborts *)
Lemma in_step_message (hs hr : NegotiationContext -> NR NegotiationContext) x y x' y' :
  (forall c d c' d', mirror c d -> hs c = Ok c' -> hr d = Ok d' -> mirror c' d') ->
  in_step x y -> on_sent hs x = Ok x' -> on_received hr y = Ok y' -> in_step y' x'.
Proof.
  intros Hh Hxy Ex Ey.
  assert (forall c d, mirror c d -> transit SentChangeMsg (hs c) = Ok x' ->
            transit ReceivedChangeMsg (hr d) = Ok y' -> in_step y' x') as Hstep.
  { intros c d M [(c' & Ec & ->)|[r ->]]%transit_Ok; [|constructor].
    intros [(d' & Ed & ->)|[r ->]]%transit_Ok; constructor. eauto using mirror_sym. }
  destruct Hxy; cbn in Ex, Ey; unfold unexpected in *; simplify_eq; eauto using in_step.
Qed.

Lemma in_step_tx_complete {OX OY : HashOrder} x y x' y' :
  in_step x y -> sm_sent_tx_complete (H0 := OX) x = Ok x' -> sm_received_tx_complete (H0 := OY) y = Ok y' ->
  in_step y' x'.
Proof.
  intros [c d M|c d M| | |] Ex Ey; cbn in Ex, Ey; unfold unexpected in *; simplify_eq; try constructor.
  - by apply mirror_sym.
  - apply transit_Ok in Ex as [(s & Es & ->)|[r ->]]; [|constructor].
    apply transit_Ok in Ey as [(t & Et & ->)|[r ->]]; [|constructor].
    apply mirror_sym in M. apply in_step_done.
    + by apply (complete_alike (OC := OY) (OD := OX) d c).
    + exact (complete_ready (H0 := OY) _ _ Et).
    + exact (complete_ready (H0 := OX) _ _ Es).
Qed.

Lemma converse_in_step OX OY x y l x' y' :
  in_step x y -> converse OX OY x y l = Ok (x', y') -> in_step x' y'.
Proof.
  revert OX OY x y. induction l as [|m l IH]; intros OX OY x y Hxy; cbn [converse].
  { by intros [= <- <-]. }
  intros (x1 & Ex & (y1 & Ey & E)%result_bind_Ok)%result_bind_Ok.
  apply (IH _ _ _ _) in E; [done|]. clear IH E.
  destruct m as [msg w|msg|msg|msg|]; cbn [sm_sent sm_received] in Ex, Ey.
  5: by apply (in_step_tx_complete (OX := OX) (OY := OY) x y).
  all: eapply in_step_message; [|exact Hxy|exact Ex|exact Ey]; cbn beta; intros c d c' d' M Ec Ed.
  - by apply (add_input_alike (OC := OX) (OD := OY) c d c' d' msg w).
  - destruct (add_output_alike c d d' msg M Ed) as (c2 & E2 & ?). by assert (c2 = c') as <- by congruence.
  - destruct (remove_input_alike c d d' msg M Ed) as (c2 & E2 & ?). by assert (c2 = c') as <- by congruence.
  - destruct (remove_output_alike c d d' msg M Ed) as (c2 & E2 & ?). by assert (c2 = c') as <- by congruence.
Qed.

(** C14. Two peers with distinct node ids start a negotiation for the same funding
    output, lock time and (when splicing) shared input.  Whatever messages they
    then exchange, and however their hash maps are iterated, if both end in a
    signing session then the two sessions hold the same transaction with the same
    metadata and shared indexes, they have opposite roles, and exactly one of the
    peers is to send [tx_signatures] first. *)
Theorem peers_agree (id_a id_b : PublicKey) (feerate_a feerate_b locktime : Z)
    (shared_in_a shared_in_b : option SharedOwnedInput) (shared_out_a shared_out_b : SharedOwnedOutput)
    (OA OB : HashOrder) (messages : list TxMsg) (s t : InteractiveTxSigningSession) :
  id_a <> id_b ->
  shared_view false <$> shared_in_a = shared_view true <$> shared_in_b ->
  sho_tx_out shared_out_a = sho_tx_out shared_out_b ->
  converse OA OB
    (state_machine_new id_a id_b feerate_a true locktime shared_in_a shared_out_a)
    (state_machine_new id_b id_a feerate_b false locktime shared_in_b shared_out_b)
    messages = Ok (NegotiationComplete s, NegotiationComplete t) ->
  sessions_agree s t /\ session_ready s /\ session_ready t.
Proof.
  intros Hid Hin Hout E.
  assert (in_step (NegotiationComplete s) (NegotiationComplete t)) as Hs.
  { apply (converse_in_step _ _ _ _ _ _ _) in E; [done|]. by constructor. }
  by inversion Hs.
Qed.

End conversation.
