(* ===== verification/LnSign.v ===== *)
(** * Interactive transaction construction: exchanging signatures

    Two sessions of a finished negotiation ([LnAgree]) give each other their
    witnesses.  Both end with the same signed transaction, whichever of them
    signs first, and the peer that is to send second keeps its witnesses until
    it has those of the first. *)

From stdpp Require Import base gmap list relations.
From Stdlib Require Import ZArith Lia.
From S2P Require Import Prelude LnTx LnSession LnMachine LnAgree.
Local Open Scope Z_scope.

(** ** Both sides sign the same transaction *)

Lemma add_witnesses_comm (p q : nat -> TxInMetadata -> bool) i l ms ws vs :
  (forall k m, p k m = true -> q k m = false) ->
  add_witnesses q i (add_witnesses p i l ms ws) ms vs =
  add_witnesses p i (add_witnesses q i l ms vs) ms ws.
Proof.
  intros Hpq. revert i ms ws vs. induction l as [|x l IH]; intros i [|m ms] ws vs; try done.
  cbn [add_witnesses]. destruct (p i m) eqn:Ep, (q i m) eqn:Eq.
  - by rewrite (Hpq _ _ Ep) in Eq.
  - destruct ws as [|w ws]; cbn [add_witnesses]; rewrite ?Ep, ?Eq; [done|]. by rewrite IH.
  - destruct vs as [|v vs]; cbn [add_witnesses]; rewrite ?Ep, ?Eq; [done|]. by rewrite IH.
  - cbn [add_witnesses]. rewrite Ep, Eq. by rewrite IH.
Qed.

Lemma add_witnesses_ext (p q : nat -> TxInMetadata -> bool) i l ms ws :
  (forall k m, p k m = q k m) -> add_witnesses p i l ms ws = add_witnesses q i l ms ws.
Proof.
  intros Hpq. revert i ms ws. induction l as [|x l IH]; intros i [|m ms] ws; try done.
  cbn [add_witnesses]. rewrite Hpq. destruct (q i m), ws; by rewrite ?IH.
Qed.

Lemma length_add_witnesses p i l ms ws : length (add_witnesses p i l ms ws) = length l.
Proof.
  revert i ms ws. induction l as [|x l IH]; intros i [|m ms] ws; try done.
  cbn [add_witnesses]. destruct (p i m), ws; cbn; by rewrite ?IH.
Qed.

Lemma side_input_flip s t local i m :
  sessions_agree s t ->
  side_input (ss_unsigned_tx t) local i m = side_input (ss_unsigned_tx s) (negb local) i m.
Proof.
  intros A. unfold side_input, not_shared_index.
  rewrite (sa_role _ _ A), tim_is_local_flip, <- (sa_input_index _ _ A). f_equal.
  by destruct (tim_is_local _ _), local.
Qed.

Section sign.
Context `{Bitcoin} `{Signatures}.

(** The signed transaction does not depend on the side that puts it together *)
Lemma finalize_alike s t holder counterparty :
  sessions_agree s t ->
  finalize (ss_unsigned_tx t) counterparty holder (ss_shared_input_signature t) =
  finalize (ss_unsigned_tx s) holder counterparty (ss_shared_input_signature s).
Proof.
  intros A. unfold finalize. rewrite <- (sa_input_index _ _ A).
  assert (add_remote_witnesses (ss_unsigned_tx t)
            (add_local_witnesses (ss_unsigned_tx t) (ct_tx (ss_unsigned_tx t)) (ts_witnesses counterparty))
            (ts_witnesses holder) =
          add_remote_witnesses (ss_unsigned_tx s)
            (add_local_witnesses (ss_unsigned_tx s) (ct_tx (ss_unsigned_tx s)) (ts_witnesses holder))
            (ts_witnesses counterparty)) as ->.
  { unfold add_remote_witnesses, add_local_witnesses, set_inputs. cbn [input version lock_time output].
    rewrite <- (sa_tx _ _ A), <- (sa_input_metadata _ _ A). f_equal.
    rewrite (add_witnesses_ext (side_input (ss_unsigned_tx t) false) (side_input (ss_unsigned_tx s) true)),
      (add_witnesses_ext (side_input (ss_unsigned_tx t) true) (side_input (ss_unsigned_tx s) false))
      by (intros; by apply side_input_flip).
    apply add_witnesses_comm. intros k m. unfold side_input. destruct (tim_is_local _ _); done. }
  destruct (ct_shared_input_index (ss_unsigned_tx s)); [|done].
  rewrite (sa_shared_signature _ _ A).
  destruct (ts_shared_input_signature holder), (ts_shared_input_signature counterparty),
    (ss_shared_input_signature s) as [[f w]|]; try done. by destruct f.
Qed.

(** ** The exchange of [tx_signatures] *)

(** A peer: its session, the messages on their way to it, and the signed
    transaction it was given *)
Record Side := {
  sd_session : InteractiveTxSigningSession;
  sd_inbox : list TxSignatures;
  sd_tx : option Transaction;
}.

(** The peer gives its session the witnesses [sig], or handles the next message *)
Inductive side_step (sig : TxSignatures) (a b : Side) : Side -> Side -> Prop :=
| side_provides s' send tx :
  provide_holder_witnesses sig (sd_session a) = (s', Ok (send, tx)) ->
  side_step sig a b
    {| sd_session := s'; sd_inbox := sd_inbox a; sd_tx := union tx (sd_tx a) |}
    {| sd_session := sd_session b; sd_inbox := sd_inbox b ++ option_list send; sd_tx := sd_tx b |}
| side_receives m rest s' send tx :
  sd_inbox a = m :: rest ->
  received_tx_signatures m (sd_session a) = (s', Ok (send, tx)) ->
  side_step sig a b
    {| sd_session := s'; sd_inbox := rest; sd_tx := union tx (sd_tx a) |}
    {| sd_session := sd_session b; sd_inbox := sd_inbox b ++ option_list send; sd_tx := sd_tx b |}.

Inductive exchange_step (sig_a sig_b : TxSignatures) : Side * Side -> Side * Side -> Prop :=
| exchange_step_a a b a' b' : side_step sig_a a b a' b' -> exchange_step sig_a sig_b (a, b) (a', b')
| exchange_step_b a b a' b' : side_step sig_b b a b' a' -> exchange_step sig_a sig_b (a, b) (a', b').

(** The witnesses a session accepts from its holder *)
Record acceptable (s : InteractiveTxSigningSession) (sig : TxSignatures) : Prop := {
  ac_count : length (ts_witnesses sig) = local_inputs_count s;
  ac_verified : verify_interactive_tx_signatures s (ts_witnesses sig) = Ok tt;
  ac_shared : is_Some (ts_shared_input_signature sig) <-> is_Some (ct_shared_input_index (ss_unsigned_tx s));
}.

Definition signing_side (s : InteractiveTxSigningSession) : Side :=
  {| sd_session := received_commitment_signed s; sd_inbox := []; sd_tx := None |}.

Lemma finalize_total s sig sig' :
  session_ready s -> is_Some (ts_shared_input_signature sig) <-> is_Some (ct_shared_input_index (ss_unsigned_tx s)) ->
  is_Some (ts_shared_input_signature sig') <-> is_Some (ct_shared_input_index (ss_unsigned_tx s)) ->
  exists tx, finalize (ss_unsigned_tx s) sig sig' (ss_shared_input_signature s) = Ok tx.
Proof.
  intros R H1 H2. unfold finalize. pose proof (sr_shared _ R) as H3. pose proof (sr_index _ R) as Hi.
  destruct (ct_shared_input_index (ss_unsigned_tx s)) as [i|]; [|by eexists].
  destruct (proj2 H1 ltac:(done)) as [x ->], (proj2 H2 ltac:(done)) as [y ->], (proj1 H3 ltac:(done)) as [z ->].
  cbn [expect_signature ok_or mbind result_bind].
  destruct (lookup_lt_is_Some_2 (input (add_remote_witnesses (ss_unsigned_tx s)
    (add_local_witnesses (ss_unsigned_tx s) (ct_tx (ss_unsigned_tx s)) (ts_witnesses sig))
    (ts_witnesses sig'))) (Z.to_nat i)) as [txin ->]; [|by eexists].
  cbn. rewrite !length_add_witnesses, (sr_lengths _ R). by apply Hi.
Qed.

(** The session [s] with the signatures of the holder and of the peer *)
Definition signed_with (h c : option TxSignatures) (s : InteractiveTxSigningSession)
    : InteractiveTxSigningSession :=
  ss_set_signatures h c (received_commitment_signed s).

Lemma provide_spec s sig c :
  acceptable s sig ->
  provide_holder_witnesses sig (signed_with None c s) =
    (signed_with (Some sig) c s,
     tx ← match c with
          | Some sig' => fmap Some (finalize (ss_unsigned_tx s) sig sig' (ss_shared_input_signature s))
          | None => Ok None
          end;
     Ok (if ss_holder_sends_tx_signatures_first s || bool_decide (is_Some c) then Some sig else None, tx)).
Proof.
  intros []. unfold provide_holder_witnesses, signed_with, refuse, fail, get, put, lift, mret, mbind, SE_bind, SE_ret, assert_or.
  cbn beta iota. rewrite decide_False by by intros []. rewrite decide_False by (intros Hn; by apply Hn).
  assert (verify_interactive_tx_signatures (ss_set_signatures None c (received_commitment_signed s))
            (ts_witnesses sig) = Ok tt) as -> by exact ac_verified0.
  cbn beta iota. unfold maybe_finalize_funding_tx.
  destruct c as [sig'|]; cbn -[finalize].
  - destruct (finalize _ _ _ _); cbn; by rewrite ?orb_true_r.
  - by destruct (ss_holder_sends_tx_signatures_first s).
Qed.

Lemma receive_spec s h sig :
  remote_inputs_count s = length (ts_witnesses sig) -> session_ready s ->
  is_Some (ts_shared_input_signature sig) <-> is_Some (ct_shared_input_index (ss_unsigned_tx s)) ->
  received_tx_signatures sig (signed_with h None s) =
    (signed_with h (Some sig) s,
     tx ← match h with
          | Some sig' => fmap Some (finalize (ss_unsigned_tx s) sig' sig (ss_shared_input_signature s))
          | None => Ok None
          end;
     Ok (if ss_holder_sends_tx_signatures_first s then None else h, tx)).
Proof.
  intros Hc R Hs. unfold received_tx_signatures, signed_with, refuse, fail, get, put, lift, mret, mbind, SE_bind, SE_ret.
  assert (is_Some (shared_input (signed_with h None s)) <-> is_Some (ct_shared_input_index (ss_unsigned_tx s))) as Hsh.
  { unfold shared_input, signed_with. cbn. pose proof (sr_index _ R) as Hi.
    destruct (ct_shared_input_index (ss_unsigned_tx s)) as [i|]; cbn; [|done].
    rewrite lookup_lt_is_Some. naive_solver. }
  unfold signed_with in Hsh. cbn beta iota.
  change (has_received_tx_signatures (ss_set_signatures h None (received_commitment_signed s))) with false.
  cbn beta iota. rewrite decide_False by (intros Hn; by apply Hn).
  rewrite decide_False.
  2: { intros [H1 H2]. rewrite Hsh, <- Hs, H2 in H1. by destruct H1. }
  rewrite decide_False.
  2: { intros [H1 H2]. rewrite Hs, <- Hsh, H1 in H2. by destruct H2. }
  unfold maybe_finalize_funding_tx. destruct h as [sig'|]; cbn -[finalize]; [|done].
  by destruct (finalize _ _ _ _).
Qed.


(** *** The states of an exchange

    [pa], [pb]: the peer has provided its witnesses; [ga], [gb]: it has those of
    the other one *)

(** A peer has sent its witnesses once it has provided them and may send *)
Definition released (first p g : bool) : bool := p && (first || g).

Definition side_at (s : InteractiveTxSigningSession) (mine theirs : TxSignatures) (tx : Transaction)
    (p g incoming : bool) : Side :=
  {| sd_session := signed_with (if p then Some mine else None) (if g then Some theirs else None) s;
     sd_inbox := if incoming && negb g then [theirs] else [];
     sd_tx := if p && g then Some tx else None |}.

(** One step of a side moves one of its flags *)
Lemma side_step_at s t mine theirs tx p g p' g' a' b' :
  session_ready s -> acceptable s mine -> remote_inputs_count s = length (ts_witnesses theirs) ->
  is_Some (ts_shared_input_signature theirs) <-> is_Some (ct_shared_input_index (ss_unsigned_tx s)) ->
  finalize (ss_unsigned_tx s) mine theirs (ss_shared_input_signature s) = Ok tx ->
  let f := ss_holder_sends_tx_signatures_first s in
  (g = true -> released (negb f) p' g' = true) -> (g' = true -> released f p g = true) ->
  side_step mine (side_at s mine theirs tx p g (released (negb f) p' g'))
    (side_at t theirs mine tx p' g' (released f p g)) a' b' ->
  exists p1 g1,
    (p = false /\ p1 = true /\ g1 = g \/
     g = false /\ g1 = true /\ p1 = p /\ released (negb f) p' g' = true) /\
    a' = side_at s mine theirs tx p1 g1 (released (negb f) p' g') /\
    b' = side_at t theirs mine tx p' g' (released f p1 g1).
Proof.
  intros R A Hc Hs Hf f Hg Hg' Hstep. inversion Hstep as [s1 send tx1 E|m rest s1 send tx1 Ein E]; subst.
  - destruct p.
    { exfalso. cbn in E. unfold provide_holder_witnesses in E. cbn in E. done. }
    unfold side_at in E at 1. cbn [sd_session] in E. rewrite (provide_spec s mine _ A) in E.
    exists true, g. split; [by left|].
    destruct g; cbn [bool_decide] in E; rewrite ?Hf in E; cbn in E; injection E as <- <- <-.
    all: unfold side_at, released in *; fold f; destruct f, p', g'; cbn in *; try done; naive_solver.
  - unfold side_at in Ein. cbn [sd_inbox] in Ein.
    destruct (released (negb f) p' g') eqn:Er, g; cbn in Ein; try done. injection Ein as <- <-.
    unfold side_at in E at 1. cbn [sd_session] in E. rewrite (receive_spec s _ theirs Hc R Hs) in E.
    exists p, true. split; [naive_solver|].
    destruct p; rewrite ?Hf in E; cbn in E; injection E as <- <- <-.
    all: unfold side_at, released in *; fold f; destruct f, p', g'; cbn in *; try done; naive_solver.
Qed.

Lemma sessions_agree_sym s t : sessions_agree s t -> sessions_agree t s.
Proof.
  intros A. constructor; try (symmetry; apply A).
  - by rewrite (sa_role _ _ A), negb_involutive.
  - by rewrite (sa_first _ _ A), negb_involutive.
  - rewrite (sa_shared_signature _ _ A). destruct (ss_shared_input_signature s) as [[[] w]|]; done.
Qed.

Lemma remote_inputs_count_flip s t :
  sessions_agree s t -> remote_inputs_count s = local_inputs_count t.
Proof.
  intros A. unfold remote_inputs_count, local_inputs_count, side_count.
  rewrite (sa_input_metadata _ _ A). f_equal. apply list_filter_iff. intros [i m]. cbn.
  by rewrite (side_input_flip s t true i m A).
Qed.

Section exchange.
Context (s t : InteractiveTxSigningSession) (sig_a sig_b : TxSignatures) (tx : Transaction).
Context (A : sessions_agree s t) (Rs : session_ready s) (Rt : session_ready t).
Context (Ha : acceptable s sig_a) (Hb : acceptable t sig_b).
Context (Htx : finalize (ss_unsigned_tx s) sig_a sig_b (ss_shared_input_signature s) = Ok tx).

Let fa := ss_holder_sends_tx_signatures_first s.

Definition at_flags (pa ga pb gb : bool) : Side * Side :=
  (side_at s sig_a sig_b tx pa ga (released (negb fa) pb gb),
   side_at t sig_b sig_a tx pb gb (released fa pa ga)).

Definition consistent (pa ga pb gb : bool) : Prop :=
  (ga = true -> released (negb fa) pb gb = true) /\ (gb = true -> released fa pa ga = true).

Lemma shared_sides :
  (is_Some (ts_shared_input_signature sig_b) <-> is_Some (ct_shared_input_index (ss_unsigned_tx s))) /\
  (is_Some (ts_shared_input_signature sig_a) <-> is_Some (ct_shared_input_index (ss_unsigned_tx t))).
Proof. rewrite (ac_shared _ _ Ha), (ac_shared _ _ Hb), (sa_input_index _ _ A). done. Qed.

Lemma counts_sides :
  remote_inputs_count s = length (ts_witnesses sig_b) /\ remote_inputs_count t = length (ts_witnesses sig_a).
Proof.
  rewrite (remote_inputs_count_flip _ _ A), (remote_inputs_count_flip _ _ (sessions_agree_sym _ _ A)).
  split; symmetry; [apply (ac_count _ _ Hb)|apply (ac_count _ _ Ha)].
Qed.

Lemma first_t : ss_holder_sends_tx_signatures_first t = negb fa.
Proof. apply (sa_first _ _ A). Qed.

Lemma Htx_t : finalize (ss_unsigned_tx t) sig_b sig_a (ss_shared_input_signature t) = Ok tx.
Proof. rewrite <- Htx. by apply finalize_alike. Qed.

(** Every step sets exactly one flag *)
Lemma exchange_step_at pa ga pb gb e :
  consistent pa ga pb gb -> exchange_step sig_a sig_b (at_flags pa ga pb gb) e ->
  exists pa' ga' pb' gb', e = at_flags pa' ga' pb' gb' /\ consistent pa' ga' pb' gb' /\
    (Nat.b2n pa' + Nat.b2n ga' + Nat.b2n pb' + Nat.b2n gb' =
     S (Nat.b2n pa + Nat.b2n ga + Nat.b2n pb + Nat.b2n gb))%nat.
Proof.
  intros [C1 C2] Hstep. inversion Hstep as [a b a' b' Hs|a b a' b' Hs]; subst.
  - apply side_step_at in Hs as (p1 & g1 & Hc & -> & ->); try done;
      [|by apply counts_sides|by apply shared_sides].
    exists p1, g1, pb, gb. split; [done|]. unfold consistent, released in *. fold fa in Hc.
    destruct fa, pa, ga, pb, gb; naive_solver.
  - pose proof first_t as F. rewrite <- (negb_involutive fa), <- F in Hs at 1. rewrite <- F in Hs.
    apply side_step_at in Hs as (p1 & g1 & Hc & -> & ->); try done.
    2: by apply counts_sides.
    2: by apply shared_sides.
    2: exact Htx_t.
    2: by rewrite F, negb_involutive.
    2: by rewrite F.
    exists pa, ga, p1, g1. unfold at_flags. rewrite F, negb_involutive in Hc. rewrite F, negb_involutive.
    split; [done|]. unfold consistent, released in *.
    destruct fa, pa, ga, pb, gb; naive_solver.
Qed.

Lemma exchange_progress pa ga pb gb :
  consistent pa ga pb gb ->
  (exists e, exchange_step sig_a sig_b (at_flags pa ga pb gb) e) \/
  (pa = true /\ ga = true /\ pb = true /\ gb = true).
Proof.
  intros [C1 C2]. pose proof counts_sides as [N1 N2]. pose proof shared_sides as [S1 S2].
  assert (forall p g i q h j, p = false -> exists e, exchange_step sig_a sig_b
            (side_at s sig_a sig_b tx p g i, side_at t sig_b sig_a tx q h j) e) as PA.
  { intros p g i q h j ->. destruct g; eexists; constructor; apply side_provides;
      unfold side_at; cbn [sd_session]; rewrite (provide_spec s sig_a _ Ha); [by rewrite Htx|done]. }
  assert (forall p g i q h j, q = false -> exists e, exchange_step sig_a sig_b
            (side_at s sig_a sig_b tx p g i, side_at t sig_b sig_a tx q h j) e) as PB.
  { intros p g i q h j ->. destruct h; eexists; constructor 2; apply side_provides;
      unfold side_at; cbn [sd_session]; rewrite (provide_spec t sig_b _ Hb); [by rewrite Htx_t|done]. }
  destruct pa; [|left; by apply PA]. destruct pb; [|left; by apply PB].
  unfold at_flags, released in *. destruct ga, gb; [by right| | |]; left.
  - eexists. constructor 2. eapply side_receives; unfold side_at; [by destruct fa|]. cbn [sd_session].
    rewrite (receive_spec t _ sig_a N2 Rt S2), Htx_t. done.
  - eexists. constructor. eapply side_receives; unfold side_at; [by destruct fa|]. cbn [sd_session].
    rewrite (receive_spec s _ sig_b N1 Rs S1), Htx. done.
  - destruct fa eqn:F; eexists; [constructor 2|constructor]; (eapply side_receives; unfold side_at; [done|]);
      cbn [sd_session].
    + rewrite (receive_spec t _ sig_a N2 Rt S2), Htx_t. done.
    + rewrite (receive_spec s _ sig_b N1 Rs S1), Htx. done.
Qed.

Lemma exchange_at_flags n pa ga pb gb e :
  consistent pa ga pb gb -> nsteps (exchange_step sig_a sig_b) n (at_flags pa ga pb gb) e ->
  exists pa' ga' pb' gb', e = at_flags pa' ga' pb' gb' /\ consistent pa' ga' pb' gb' /\
    (Nat.b2n pa' + Nat.b2n ga' + Nat.b2n pb' + Nat.b2n gb' =
     n + (Nat.b2n pa + Nat.b2n ga + Nat.b2n pb + Nat.b2n gb))%nat.
Proof.
  revert pa ga pb gb. induction n as [|n IH]; intros pa ga pb gb C Hn; inversion Hn; subst.
  { eauto 10. }
  match goal with Hstep : exchange_step _ _ _ _ |- _ =>
    destruct (exchange_step_at _ _ _ _ _ C Hstep) as (p1 & g1 & p2 & g2 & -> & C' & E1) end.
  match goal with Hr : nsteps _ _ _ _ |- _ =>
    destruct (IH _ _ _ _ C' Hr) as (p3 & g3 & p4 & g4 & -> & C'' & E2) end.
  exists p3, g3, p4, g4. split_and!; [done..|lia].
Qed.

End exchange.

(** C15. Two sessions of one negotiation, each given acceptable witnesses by its
    holder, exchange [tx_signatures] in any order of steps.  The exchange takes at
    most four steps; in every state it reaches, either a step is possible or both
    peers hold the same, fully signed transaction (so neither waits for the other
    for ever); and the peer that sends second has not sent its signatures before
    it holds those of the first. *)
Theorem signing_completes (s t : InteractiveTxSigningSession) (sig_a sig_b : TxSignatures)
    (n : nat) (a b : Side) :
  sessions_agree s t -> session_ready s -> session_ready t ->
  acceptable s sig_a -> acceptable t sig_b ->
  nsteps (exchange_step sig_a sig_b) n (signing_side s, signing_side t) (a, b) ->
  (n <= 4)%nat /\
  ((exists e, exchange_step sig_a sig_b (a, b) e) \/
   exists tx, finalize (ss_unsigned_tx s) sig_a sig_b (ss_shared_input_signature s) = Ok tx /\
     sd_tx a = Some tx /\ sd_tx b = Some tx) /\
  (ss_holder_sends_tx_signatures_first s = false -> sd_inbox b <> [] ->
     has_received_tx_signatures (sd_session a) = true) /\
  (ss_holder_sends_tx_signatures_first t = false -> sd_inbox a <> [] ->
     has_received_tx_signatures (sd_session b) = true).
Proof.
  intros A Rs Rt Ha Hb Hn.
  assert (is_Some (ts_shared_input_signature sig_b) <-> is_Some (ct_shared_input_index (ss_unsigned_tx s))) as Sb.
  { rewrite (ac_shared _ _ Hb), (sa_input_index _ _ A). done. }
  destruct (finalize_total s sig_a sig_b Rs (ac_shared _ _ Ha) Sb) as [tx Htx].
  assert (signing_side s = side_at s sig_a sig_b tx false false false /\
          signing_side t = side_at t sig_b sig_a tx false false false) as [E1 E2].
  { unfold signing_side, side_at, signed_with, received_commitment_signed, ss_set_signatures. cbn.
    by rewrite (sr_holder _ Rs), (sr_counterparty _ Rs), (sr_holder _ Rt), (sr_counterparty _ Rt). }
  rewrite E1, E2 in Hn.
  destruct (exchange_at_flags s t sig_a sig_b tx A Rs Rt Ha Hb Htx n false false false false (a, b))
    as (pa & ga & pb & gb & [= -> ->] & C & Hc); [done|exact Hn|].
  split_and!.
  - destruct pa, ga, pb, gb; cbn in Hc; lia.
  - destruct (exchange_progress s t sig_a sig_b tx A Rs Rt Ha Hb Htx pa ga pb gb C) as [|(-> & -> & -> & ->)];
      [by left|right]. by exists tx.
  - intros F. unfold side_at, released. cbn. rewrite F. cbn. by destruct pa, ga.
  - intros F. rewrite (sa_first _ _ A) in F. unfold side_at, released. cbn. rewrite F. cbn. by destruct pb, gb.
Qed.

End sign.
