(* ===== verification/LnRun.v ===== *)
(** * Interactive transaction construction: runs of a constructor

    What an [InteractiveTxConstructor] does with the messages of an arbitrary
    peer: each message it accepts is one received change (or [tx_complete])
    followed by one answer.  The relation [answer] says which one. *)

From stdpp Require Import base gmap list sorting.
From Stdlib Require Import ZArith Lia.
From S2P Require Import Prelude LnTx LnSession LnMachine LnAgree.
Local Open Scope Z_scope.

(** The messages of the peer, and the handler of each *)
Inductive Incoming :=
| InAddInput (msg : TxAddInput)
| InAddOutput (msg : TxAddOutput)
| InRemoveInput (msg : TxRemoveInput)
| InRemoveOutput (msg : TxRemoveOutput)
| InComplete (msg : TxComplete).

Section run.
Context `{Bitcoin} `{HashOrder}.

Definition handle (m : Incoming) : SE InteractiveTxConstructor (Fault AbortReason) unit :=
  match m with
  | InAddInput msg => handle_tx_add_input msg;; mret tt
  | InAddOutput msg => handle_tx_add_output msg;; mret tt
  | InRemoveInput msg => handle_tx_remove_input msg;; mret tt
  | InRemoveOutput msg => handle_tx_remove_output msg;; mret tt
  | InComplete msg => handle_tx_complete msg;; mret tt
  end.

(** The constructors that [n] accepted messages lead to *)
Inductive reachable (args : InteractiveTxConstructorArgs) : nat -> InteractiveTxConstructor -> Prop :=
| reachable_new k : interactive_tx_constructor_new args = Ok k -> reachable args 0 k
| reachable_handle n k m k' :
  reachable args n k -> handle m k = (k', Ok tt) -> reachable args (S n) k'.

(** ** The answer to a message *)

(** [k] answers from the context [c]; [complete]: the peer has sent [tx_complete] *)
Inductive answer (k : InteractiveTxConstructor) (complete : bool) (c : NegotiationContext)
    : InteractiveTxConstructor -> Prop :=
| answer_input idx s i c' :
  ic_next_input_index k = Some idx -> ic_inputs_to_contribute k !! idx = Some (s, i) ->
  sent_tx_add_input c (tx_add_input_msg (ic_channel_id k) s i) (io_satisfaction_weight i) = Ok c' ->
  answer k complete c
    (ic_set_state (SentChangeMsg c')
      (ic_set_next (next_index (length (ic_inputs_to_contribute k)) idx) (ic_next_output_index k) k))
| answer_output idx s o :
  ic_next_input_index k = None ->
  ic_next_output_index k = Some idx -> ic_outputs_to_contribute k !! idx = Some (s, o) ->
  answer k complete c
    (ic_set_state
      (SentChangeMsg (put_output Local s (output_of c (tx_add_output_msg (ic_channel_id k) s o))
                        (nc_received_tx_add_output_count c) c))
      (ic_set_next (ic_next_input_index k) (next_index (length (ic_outputs_to_contribute k)) idx) k))
| answer_complete :
  ic_next_input_index k = None -> ic_next_output_index k = None -> complete = false ->
  answer k complete c (ic_set_state (SentTxComplete c) k)
| answer_done s :
  ic_next_input_index k = None -> ic_next_output_index k = None -> complete = true ->
  complete_negotiation c = Ok s ->
  answer k complete c (ic_set_state (NegotiationComplete s) k).

(** The indexes of the next contributions are within the lists *)
Definition indexes_ok (k : InteractiveTxConstructor) : Prop :=
  (forall i, ic_next_input_index k = Some i -> (i < length (ic_inputs_to_contribute k))%nat) /\
  (forall i, ic_next_output_index k = Some i -> (i < length (ic_outputs_to_contribute k))%nat).

Lemma do_state_transition_Ok tr k k' u :
  do_state_transition tr k = (k', Ok u) ->
  exists sm, tr (ic_state_machine k) = Ok sm /\ k' = ic_set_state sm k /\
    forall r, sm <> NegotiationAborted r.
Proof.
  unfold do_state_transition, get, put, fail, mret, mbind, SE_bind, SE_ret. cbn beta iota.
  destruct (tr (ic_state_machine k)) as [sm|e]; [|done].
  destruct sm; cbn; intros E; try done; injection E as <-; eauto 10.
Qed.

Lemma transit_Ok_state {A} (to_state : A -> StateMachine) r sm :
  transit to_state r = Ok sm -> (forall reason, sm <> NegotiationAborted reason) ->
  exists a, r = Ok a /\ sm = to_state a.
Proof. intros [|[reason ->]]%transit_Ok Ha; [done|]. by destruct (Ha reason). Qed.

Lemma next_index_lt len i j : next_index len i = Some j -> j = S i /\ (j < len)%nat.
Proof. unfold next_index. destruct (Nat.ltb_spec (S i) len); naive_solver. Qed.

(** It is our turn, and the peer has or has not just sent [tx_complete] *)
Definition our_turn (complete : bool) (c : NegotiationContext) : StateMachine :=
  if complete then ReceivedTxComplete c else ReceivedChangeMsg c.

Lemma maybe_send_message_Ok complete c k0 k k' r :
  indexes_ok k0 -> k = ic_set_state (our_turn complete c) k0 ->
  maybe_send_message k = (k', Ok r) -> answer k0 complete c k'.
Proof.
  intros [Hi Ho] ->. unfold maybe_send_message. rewrite SE_bind_Ok.
  intros (k1 & ch & Ek & E). unfold gets in Ek. injection Ek as <- <-. cbn [ic_channel_id ic_set_state] in E.
  rewrite SE_bind_Ok in E. destruct E as (k1 & next & En & E).
  unfold next_input_to_contribute, get, put, mret, mbind, SE_bind, SE_ret in En. cbn beta iota in En.
  destruct (ic_next_input_index k0) as [idx|] eqn:Ei; cbn in En; rewrite Ei in En; cbn in En; injection En as <- <-.
  - destruct (lookup_lt_is_Some_2 _ _ (Hi _ eq_refl)) as [[sid i] El]. rewrite El in E.
    apply SE_bind_Ok in E as (k2 & u & (sm & Esm & -> & Hna)%do_state_transition_Ok & [= <- <-]).
    cbn in Esm. unfold sm_sent_tx_add_input, our_turn in Esm.
    assert (exists c', sent_tx_add_input c (tx_add_input_msg (ic_channel_id k0) sid i) (io_satisfaction_weight i) = Ok c' /\
              sm = SentChangeMsg c') as (c' & Ec & ->)
      by (destruct complete; cbn in Esm; by apply transit_Ok_state in Esm).
    eapply (answer_input k0 complete c idx sid i c') in Ec; [exact Ec|done|done].
  - rewrite SE_bind_Ok in E. destruct E as (k1 & next & En & E).
    unfold next_output_to_contribute, get, put, mret, mbind, SE_bind, SE_ret in En. cbn beta iota in En.
    destruct (ic_next_output_index k0) as [idx|] eqn:Eo; cbn in En; rewrite Eo in En; cbn in En; injection En as <- <-.
    + destruct (lookup_lt_is_Some_2 _ _ (Ho _ eq_refl)) as [[sid o] El]. rewrite El in E.
      apply SE_bind_Ok in E as (k2 & u & (sm & Esm & -> & _)%do_state_transition_Ok & [= <- <-]).
      assert (sm = SentChangeMsg (put_output Local sid (output_of c (tx_add_output_msg (ic_channel_id k0) sid o))
                (nc_received_tx_add_output_count c) c)) as ->
        by (destruct complete; by injection Esm as <-).
      exact (answer_output k0 complete c idx sid o Ei Eo El).
    + apply SE_bind_Ok in E as (k2 & u & (sm & Esm & -> & Hna)%do_state_transition_Ok & [= <- <-]).
      destruct complete; cbn in Esm.
      * apply transit_Ok_state in Esm as (s & Es & ->); [|done]. by apply (answer_done k0 true c s).
      * injection Esm as <-. by apply (answer_complete k0 false c).
Qed.

(** ** A message that is accepted *)

Definition receive (c : NegotiationContext) (m : Incoming) : NR NegotiationContext :=
  match m with
  | InAddInput msg => received_tx_add_input c msg
  | InAddOutput msg => received_tx_add_output c msg
  | InRemoveInput msg => received_tx_remove_input c msg
  | InRemoveOutput msg => received_tx_remove_output c msg
  | InComplete _ => Ok c
  end.

(** It is the turn of the peer, and we have or have not just sent [tx_complete] *)
Definition peer_turn (complete : bool) (c : NegotiationContext) : StateMachine :=
  if complete then SentTxComplete c else SentChangeMsg c.

Inductive accepts (k : InteractiveTxConstructor) (m : Incoming) : InteractiveTxConstructor -> Prop :=
| accepts_change complete c c' k' :
  ic_state_machine k = peer_turn complete c -> (forall msg, m <> InComplete msg) ->
  receive c m = Ok c' -> answer k false c' k' -> accepts k m k'
| accepts_complete msg c k' :
  ic_state_machine k = SentChangeMsg c -> m = InComplete msg -> answer k true c k' -> accepts k m k'
| accepts_done msg c s :
  ic_state_machine k = SentTxComplete c -> m = InComplete msg -> complete_negotiation c = Ok s ->
  accepts k m (ic_set_state (NegotiationComplete s) k).

Lemma on_received_Ok h sm sm' :
  on_received h sm = Ok sm' -> (forall r, sm' <> NegotiationAborted r) ->
  exists complete c c', sm = peer_turn complete c /\ h c = Ok c' /\ sm' = ReceivedChangeMsg c'.
Proof.
  intros E Hna. destruct sm; cbn in E; unfold unexpected in E;
    try (injection E as <-; by destruct (Hna UnexpectedCounterpartyMessage)).
  - apply transit_Ok_state in E as (c' & ? & ->); [|done]. by exists false, c, c'.
  - apply transit_Ok_state in E as (c' & ? & ->); [|done]. by exists true, c, c'.
Qed.

Lemma handle_change_Ok h m k k' r :
  indexes_ok k -> (forall c, receive c m = h c) -> (forall msg, m <> InComplete msg) ->
  (do_state_transition (on_received h);; maybe_send_message) k = (k', Ok r) -> accepts k m k'.
Proof.
  intros Hk Hm Hnc E. apply SE_bind_Ok in E as (k1 & u & (sm & Esm & -> & Hna)%do_state_transition_Ok & E).
  apply on_received_Ok in Esm as (complete & c & c' & Ek & Ec & ->); [|done].
  eapply accepts_change; [done|done|by rewrite Hm|].
  by eapply (maybe_send_message_Ok false c' k).
Qed.

Lemma handle_Ok m k k' : indexes_ok k -> handle m k = (k', Ok tt) -> accepts k m k'.
Proof.
  intros Hk. destruct m as [msg|msg|msg|msg|msg]; cbn [handle].
  1-4: intros (k1 & r & E & [= <-])%SE_bind_Ok; by eapply handle_change_Ok in E.
  intros (k1 & r & E & [= <-])%SE_bind_Ok. unfold handle_tx_complete in E.
  apply SE_bind_Ok in E as (k2 & u & (sm & Esm & -> & Hna)%do_state_transition_Ok & E).
  apply SE_bind_Ok in E as (k2 & sm' & (-> & ->)%gets_Ok & E). cbn [ic_state_machine ic_set_state] in E.
  destruct (ic_state_machine k) as [|c|c|c|c|s|reason] eqn:Ek; cbn in Esm; unfold unexpected in Esm;
    try (injection Esm as <-; by destruct (Hna UnexpectedCounterpartyMessage)).
  - injection Esm as <-. apply SE_bind_Ok in E as (k2 & msg_send & Em & E).
    apply (maybe_send_message_Ok true c k) in Em; [|done..].
    apply SE_bind_Ok in E as (k3 & sm' & (-> & ->)%gets_Ok & E).
    assert (k1 = k2) as ->.
    { destruct (ic_state_machine k2); try done; [by injection E|].
      apply SE_bind_Ok in E as (k3 & v & (-> & _)%lift_Ok & E). by injection E. }
    by apply (accepts_complete k _ msg c).
  - apply transit_Ok_state in Esm as (s & Es & ->); [|done]. injection E as <- _.
    by apply (accepts_done k _ msg c).
Qed.

End run.
