(* ===== verification/LnSound.v ===== *)
(** * Interactive transaction construction: what a finished negotiation guarantees

    An invariant of the runs of a constructor ([LnRun]) against an arbitrary
    peer, and the two theorems that follow from it: the transaction a finished
    negotiation leaves to be signed is the one the holder may sign, and every
    negotiation ends after a bounded number of messages. *)

From stdpp Require Import base gmap list sorting.
From Stdlib Require Import ZArith Lia.
From S2P Require Import Prelude LnTx LnSession LnMachine LnAgree LnRun.
Local Open Scope Z_scope.

(** ** Serial ids of the holder *)

Lemma is_for_initiator_lxor x : is_for_initiator (Z.lxor x 1) = negb (is_for_initiator x).
Proof.
  unfold is_for_initiator. rewrite <- !Z.bit0_mod, Z.lxor_spec.
  by destruct (Z.testbit x 0).
Qed.

Lemma generate_holder_serial_id_role bytes is_initiator :
  is_for_initiator (generate_holder_serial_id bytes is_initiator) = is_initiator.
Proof.
  unfold generate_holder_serial_id. generalize (from_be_bytes (take 8 bytes)) as x. intros x.
  destruct (is_for_initiator x) eqn:E, is_initiator; cbn; rewrite ?is_for_initiator_lxor, E; done.
Qed.

(** An id the holder generates is not one of the peer's *)
Lemma generated_not_counterparty bytes role :
  is_serial_id_valid_for_counterparty role (generate_holder_serial_id bytes role) = false.
Proof.
  unfold is_serial_id_valid_for_counterparty, is_for_non_initiator.
  rewrite generate_holder_serial_id_role. by destruct role.
Qed.

(** ** The invariant of a context *)

Section sound.
Context `{Bitcoin} `{HashOrder} (args : InteractiveTxConstructorArgs).

(** The ids of the peer *)
Definition theirs (s : SerialId) : bool := is_serial_id_valid_for_counterparty (args_is_initiator args) s.

Record input_ok (c : NegotiationContext) (s : SerialId) (i : InteractiveTxInput) : Prop := {
  io_id : iti_serial_id i = s;
  io_side : iti_added_by i = Remote <-> theirs s = true;
  io_outpoint : previous_output (io_tx_in (iti_input i)) ∈ nc_prevtx_outpoints c;
  io_shared : forall sh, iti_input i = SharedInput sh -> args_shared_funding_input args = Some sh;
  io_single : forall so, iti_input i = SingleInput so -> iti_added_by i = Remote ->
    is_witness_program (script_pubkey (so_prev_output so)) = true /\ sequence (so_input so) < 0xFFFFFFFE;
}.

Record output_ok (s : SerialId) (o : InteractiveTxOutput) : Prop := {
  oo_id : ito_serial_id o = s;
  oo_side : ito_added_by o = Remote <-> theirs s = true;
  oo_shared : forall sh, ito_output o = SharedOutput sh -> sh = args_shared_funding_output args;
  oo_remote : ito_added_by o = Remote ->
    minimal_non_dust (script_pubkey (ito_tx_out o)) <= value (ito_tx_out o) /\
    output_script_allowed (script_pubkey (ito_tx_out o)) = true;
}.

Record nc_inv (c : NegotiationContext) : Prop := {
  ni_role : nc_holder_is_initiator c = args_is_initiator args;
  ni_shared_input : nc_shared_funding_input c = args_shared_funding_input args;
  ni_shared_output : nc_shared_funding_output c = args_shared_funding_output args;
  ni_locktime : nc_tx_locktime c = args_funding_tx_locktime args;
  ni_feerate : nc_feerate_sat_per_kw c = args_feerate_sat_per_kw args;
  ni_input_count : 0 <= nc_received_tx_add_input_count c <= MAX_RECEIVED_TX_ADD_INPUT_COUNT;
  ni_output_count : 0 <= nc_received_tx_add_output_count c <= MAX_RECEIVED_TX_ADD_OUTPUT_COUNT;
  ni_inputs : forall s i, nc_inputs c !! s = Some i -> input_ok c s i;
  ni_outputs : forall s o, nc_outputs c !! s = Some o -> output_ok s o;
  ni_distinct : forall s s' i i', nc_inputs c !! s = Some i -> nc_inputs c !! s' = Some i' ->
    previous_output (io_tx_in (iti_input i)) = previous_output (io_tx_in (iti_input i')) -> s = s';
}.

Lemma nc_inv_put_input c role s i o count :
  nc_inv c -> (role = Remote <-> theirs s = true) -> o ∉ nc_prevtx_outpoints c ->
  previous_output (io_tx_in i) = o ->
  (forall sh, i = SharedInput sh -> args_shared_funding_input args = Some sh) ->
  (forall so, i = SingleInput so -> role = Remote ->
     is_witness_program (script_pubkey (so_prev_output so)) = true /\ sequence (so_input so) < 0xFFFFFFFE) ->
  0 <= count <= MAX_RECEIVED_TX_ADD_INPUT_COUNT ->
  nc_inv (put_input role s i o count c).
Proof.
  intros [] Hrole Ho Hi Hsh Hso Hcount. constructor; cbn; try done.
  - intros t j [[<- <-]|[_ Hj]]%lookup_insert_Some.
    + constructor; cbn; try done. set_solver.
    + destruct (ni_inputs0 _ _ Hj). constructor; cbn; try done. set_solver.
  - intros t t' j j' [[<- <-]|[Hne Hj]]%lookup_insert_Some [[<- <-]|[Hne' Hj']]%lookup_insert_Some; cbn; [done|..].
    + rewrite Hi. intros ->. destruct Ho. apply (io_outpoint _ _ _ (ni_inputs0 _ _ Hj')).
    + rewrite Hi. intros <-. destruct Ho. apply (io_outpoint _ _ _ (ni_inputs0 _ _ Hj)).
    + eauto.
Qed.

Lemma nc_inv_put_output c role s o count :
  nc_inv c ->
  output_ok s {| ito_serial_id := s; ito_added_by := role; ito_output := o |} ->
  0 <= count <= MAX_RECEIVED_TX_ADD_OUTPUT_COUNT ->
  nc_inv (put_output role s o count c).
Proof.
  intros [] Ho Hcount. constructor; cbn; try done.
  - intros t j Hj. destruct (ni_inputs0 _ _ Hj). by constructor.
  - intros t p [[<- <-]|[_ Hp]]%lookup_insert_Some; [done|eauto].
Qed.

Lemma output_of_shared c msg sh :
  nc_inv c -> output_of c msg = SharedOutput sh -> sh = args_shared_funding_output args.
Proof.
  intros I. unfold output_of. case_decide; [|done]. intros [= <-]. apply (ni_shared_output _ I).
Qed.

Lemma theirs_valid c s : nc_inv c -> nc_is_serial_id_valid_for_counterparty c s = theirs s.
Proof. intros I. unfold nc_is_serial_id_valid_for_counterparty. by rewrite (ni_role _ I). Qed.

(** ** Messages keep the invariant *)

Lemma received_input_Ok c msg i o :
  nc_inv c -> received_input c msg = Ok (i, o) ->
  previous_output (io_tx_in i) = o /\
  (forall sh, i = SharedInput sh -> args_shared_funding_input args = Some sh) /\
  (forall so, i = SingleInput so -> is_witness_program (script_pubkey (so_prev_output so)) = true /\
     sequence (so_input so) = tai_sequence msg).
Proof.
  intros I. unfold received_input. intros E. accepted E; injection E as <- <-.
  all: split_and!; [done| |]; intros ? [= <-]; first [done|by rewrite <- (ni_shared_input _ I)].
Qed.

Lemma receive_keeps c m c' : nc_inv c -> receive c m = Ok c' -> nc_inv c'.
Proof.
  intros I. destruct m as [msg|msg|msg|msg|msg]; cbn [receive].
  - intros (Hv & Hc & Hseq & i & o & Ei & _ & Ho & ->)%received_tx_add_input_Ok.
    destruct (received_input_Ok _ _ _ _ I Ei) as (H1 & H2 & H3).
    rewrite (theirs_valid _ _ I) in Hv. pose proof (ni_input_count _ I).
    apply nc_inv_put_input; try done; [|lia].
    intros so Hso _. destruct (H3 _ Hso) as [? ->]. done.
  - intros (Hv & Hc & Hd & _ & Hs & _ & _ & ->)%received_tx_add_output_Ok.
    rewrite (theirs_valid _ _ I) in Hv. pose proof (ni_output_count _ I).
    apply nc_inv_put_output; [done| |lia].
    constructor; cbn; try done.
    + intros sh. by apply output_of_shared.
    + intros _. unfold ito_tx_out. cbn [ito_output]. by rewrite output_of_tx_out.
  - intros (_ & _ & ->)%received_tx_remove_input_Ok. destruct I. constructor; cbn; try done.
    + intros s i [_ Hi]%lookup_delete_Some. destruct (ni_inputs0 _ _ Hi). by constructor.
    + intros s s' i i' [_ Hi]%lookup_delete_Some [_ Hi']%lookup_delete_Some. eauto.
  - intros (_ & _ & ->)%received_tx_remove_output_Ok. destruct I. constructor; cbn; try done.
    + intros s i Hi. destruct (ni_inputs0 _ _ Hi). by constructor.
    + intros s i [_ Hi]%lookup_delete_Some. eauto.
  - by intros [= <-].
Qed.

(** What the holder contributes: ids of its own, and the shared input as agreed *)
Definition inputs_ok (l : list (SerialId * InputOwned)) : Prop :=
  forall s i, (s, i) ∈ l -> theirs s = false /\
    forall sh, i = SharedInput sh -> args_shared_funding_input args = Some sh.
Definition outputs_ok (l : list (SerialId * OutputOwned)) : Prop :=
  forall s o, (s, o) ∈ l -> theirs s = false.

Lemma sent_input_Ok c ch s i w o j :
  nc_inv c -> (forall sh, i = SharedInput sh -> args_shared_funding_input args = Some sh) ->
  sent_input c (tx_add_input_msg ch s i) w = Ok (o, j) ->
  previous_output (io_tx_in j) = o /\
  (forall sh, j = SharedInput sh -> args_shared_funding_input args = Some sh).
Proof.
  intros I Hsh E. unfold sent_input in E.
  destruct i as [so|sh]; cbn in E.
  - apply result_bind_Ok in E as (out & _ & [= <- <-]). done.
  - rewrite (ni_shared_input _ I), (Hsh _ eq_refl) in E. injection E as <- <-.
    split; [cbn; by destruct (previous_output (sh_input sh))|]. intros ? [= <-]. by apply Hsh.
Qed.

Lemma sent_input_keeps c ch s i w c' :
  nc_inv c -> theirs s = false ->
  (forall sh, i = SharedInput sh -> args_shared_funding_input args = Some sh) ->
  sent_tx_add_input c (tx_add_input_msg ch s i) w = Ok c' -> nc_inv c'.
Proof.
  intros I Hs Hsh (j & o & Ej & Ho & ->)%sent_tx_add_input_Ok.
  destruct (sent_input_Ok _ _ _ _ _ _ _ I Hsh Ej) as [Hp Hj].
  assert (tai_serial_id (tx_add_input_msg ch s i) = s) as -> by by destruct i.
  apply nc_inv_put_input; try done; [by rewrite Hs|apply (ni_input_count _ I)].
Qed.

Lemma sent_output_keeps c msg s :
  nc_inv c -> theirs s = false ->
  nc_inv (put_output Local s (output_of c msg) (nc_received_tx_add_output_count c) c).
Proof.
  intros I Hs. apply nc_inv_put_output; [done| |apply (ni_output_count _ I)].
  constructor; cbn; try done; [by rewrite Hs|]. intros sh. by apply output_of_shared.
Qed.

(** ** The number of messages left *)

Definition left_to_send {A} (next : option nat) (l : list A) : nat :=
  match next with Some i => length l - i | None => 0 end.

(** The entries of the peer *)
Definition remote_entries {A} (m : gmap SerialId A) : gmap SerialId A :=
  filter (fun p => theirs p.1 = true) m.

(** Each message the peer may still add counts twice: it may also be removed *)
Definition potential (k : InteractiveTxConstructor) (c : NegotiationContext) : Z :=
  2 * (MAX_RECEIVED_TX_ADD_INPUT_COUNT - nc_received_tx_add_input_count c) +
  Z.of_nat (base.size (remote_entries (nc_inputs c))) +
  2 * (MAX_RECEIVED_TX_ADD_OUTPUT_COUNT - nc_received_tx_add_output_count c) +
  Z.of_nat (base.size (remote_entries (nc_outputs c))) +
  Z.of_nat (left_to_send (ic_next_input_index k) (ic_inputs_to_contribute k)) +
  Z.of_nat (left_to_send (ic_next_output_index k) (ic_outputs_to_contribute k)) + 1.

Definition messages_bound : Z :=
  2 * MAX_RECEIVED_TX_ADD_INPUT_COUNT + 2 * MAX_RECEIVED_TX_ADD_OUTPUT_COUNT +
  Z.of_nat (length (owned_inputs args)) + Z.of_nat (length (owned_outputs args)) + 1.

Lemma remote_insert_local {A} (m : gmap SerialId A) s a :
  theirs s = false -> remote_entries (<[s := a]> m) = remote_entries m.
Proof.
  intros Hs. apply map_filter_insert_not'; cbn; [by rewrite Hs|]. intros ? _. by rewrite Hs.
Qed.

Lemma remote_insert_size {A} (m : gmap SerialId A) s a :
  theirs s = true -> m !! s = None ->
  base.size (remote_entries (<[s := a]> m)) = S (base.size (remote_entries m)).
Proof.
  intros Hs Hn. unfold remote_entries. rewrite map_filter_insert_True by done.
  apply map_size_insert_None. apply map_lookup_filter_None. by left.
Qed.

Lemma remote_delete_size {A} (m : gmap SerialId A) s :
  theirs s = true -> is_Some (m !! s) ->
  S (base.size (remote_entries (delete s m))) = base.size (remote_entries m).
Proof.
  intros Hs [a Ha]. unfold remote_entries. rewrite map_filter_delete.
  assert ((filter (fun p => theirs p.1 = true) m) !! s = Some a) as E by by apply map_lookup_filter_Some.
  rewrite (map_size_delete_Some _ _ (ex_intro _ a E)).
  assert (base.size (filter (fun p : SerialId * A => theirs p.1 = true) m) <> 0%nat); [|lia].
  intros E0%map_size_empty_inv. by rewrite E0 in E.
Qed.

(** A change the peer makes uses the potential up *)
Lemma receive_potential c m c' k :
  nc_inv c -> (forall msg, m <> InComplete msg) -> receive c m = Ok c' ->
  potential k c' + 1 <= potential k c.
Proof.
  intros I Hnc. unfold potential.
  destruct m as [msg|msg|msg|msg|msg]; cbn [receive]; [..|by destruct (Hnc msg)].
  - intros (Hv & _ & _ & i & o & _ & Hn & _ & ->)%received_tx_add_input_Ok.
    rewrite (theirs_valid _ _ I) in Hv. cbn. rewrite remote_insert_size by done. lia.
  - intros (Hv & _ & _ & _ & _ & Hn & _ & ->)%received_tx_add_output_Ok.
    rewrite (theirs_valid _ _ I) in Hv. cbn. rewrite remote_insert_size by done. lia.
  - intros (Hv & Hs & ->)%received_tx_remove_input_Ok.
    rewrite (theirs_valid _ _ I) in Hv. cbn. pose proof (remote_delete_size _ _ Hv Hs). lia.
  - intros (Hv & Hs & ->)%received_tx_remove_output_Ok.
    rewrite (theirs_valid _ _ I) in Hv. cbn. pose proof (remote_delete_size _ _ Hv Hs). lia.
Qed.

(** ** The invariant of a run *)

Definition contributed_inputs : list (SerialId * InputOwned) :=
  sort_by_key fst (with_serial_ids args 0 (owned_inputs args)).
Definition contributed_outputs : list (SerialId * OutputOwned) :=
  sort_by_key fst (with_serial_ids args (length (owned_inputs args)) (owned_outputs args)).

(** [k] after [n] messages *)
Record run_inv (n : nat) (k : InteractiveTxConstructor) : Prop := {
  ri_inputs : ic_inputs_to_contribute k = contributed_inputs;
  ri_outputs : ic_outputs_to_contribute k = contributed_outputs;
  ri_indexes : indexes_ok k;
  ri_state :
    match ic_state_machine k with
    | SentChangeMsg c | SentTxComplete c => nc_inv c /\ Z.of_nat n + potential k c <= messages_bound
    | NegotiationComplete s =>
      exists c, nc_inv c /\ complete_negotiation c = Ok s /\ Z.of_nat n <= messages_bound
    | _ => False
    end;
}.

Lemma with_serial_ids_elem {A} n (l : list A) s a :
  (s, a) ∈ sort_by_key fst (with_serial_ids args n l) -> theirs s = false /\ a ∈ l.
Proof.
  rewrite sort_by_key_perm. unfold with_serial_ids. rewrite elem_of_lookup_imap.
  intros (i & b & [= -> ->] & Hb). split; [apply generated_not_counterparty|].
  by eapply list_elem_of_lookup_2.
Qed.

Lemma contributed_inputs_ok : inputs_ok contributed_inputs.
Proof.
  intros s i [Hs Hi]%with_serial_ids_elem. split; [done|]. intros sh ->.
  unfold owned_inputs in Hi. apply elem_of_app in Hi as [Hi|Hi].
  - by apply list_elem_of_fmap in Hi as (f & [=] & _).
  - destruct (args_shared_funding_input args), (args_is_initiator args); try set_solver.
Qed.

Lemma contributed_outputs_ok : outputs_ok contributed_outputs.
Proof. by intros s o [Hs _]%with_serial_ids_elem. Qed.

Lemma length_contributed :
  length contributed_inputs = length (owned_inputs args) /\
  length contributed_outputs = length (owned_outputs args).
Proof.
  unfold contributed_inputs, contributed_outputs. rewrite !sort_by_key_perm.
  unfold with_serial_ids. by rewrite !length_imap.
Qed.

Lemma potential_pos k c : nc_inv c -> 1 <= potential k c.
Proof. intros I. pose proof (ni_input_count _ I). pose proof (ni_output_count _ I). unfold potential. lia. Qed.

Lemma left_to_send_next {A} (l : list A) i :
  (i < length l)%nat -> left_to_send (next_index (length l) i) l = (left_to_send (Some i) l - 1)%nat.
Proof. intros Hi. unfold next_index. destruct (Nat.ltb_spec (S i) (length l)); cbn; lia. Qed.

(** An answer takes one contribution off the list, or is [tx_complete] *)
Lemma answer_keeps n k (complete : bool) c k' :
  ic_inputs_to_contribute k = contributed_inputs -> ic_outputs_to_contribute k = contributed_outputs ->
  indexes_ok k -> nc_inv c ->
  Z.of_nat n + potential k c <= messages_bound + (if complete then 1 else 0) ->
  answer k complete c k' -> run_inv n k'.
Proof.
  intros Ei Eo Hx I Hp Ha. pose proof (potential_pos k c I) as Hpos.
  destruct Ha as [idx s i c' Hn Hl Hc|idx s o Hni Hn Hl|Hni Hno ->|ss Hni Hno -> Hc].
  - assert ((s, i) ∈ contributed_inputs) as [Hs Hsh]%contributed_inputs_ok
      by (rewrite <- Ei; by eapply list_elem_of_lookup_2).
    constructor; cbn; [done|done| |].
    { split; cbn; [by intros j [_ Hj]%next_index_lt|apply Hx]. }
    split; [by eapply sent_input_keeps|].
    revert Hp. apply sent_tx_add_input_Ok in Hc as (j & o & _ & _ & ->). unfold potential. cbn.
    assert (tai_serial_id (tx_add_input_msg (ic_channel_id k) s i) = s) as -> by by destruct i.
    rewrite remote_insert_local by done. rewrite left_to_send_next by by apply lookup_lt_Some in Hl.
    rewrite Hn. apply lookup_lt_Some in Hl. destruct complete; cbn; lia.
  - assert ((s, o) ∈ contributed_outputs) as Hs%contributed_outputs_ok
      by (rewrite <- Eo; by eapply list_elem_of_lookup_2).
    constructor; cbn; [done|done| |].
    { split; cbn; [apply Hx|by intros j [_ Hj]%next_index_lt]. }
    split; [by apply sent_output_keeps|].
    revert Hp. unfold potential. cbn.
    rewrite remote_insert_local by done. rewrite left_to_send_next by by apply lookup_lt_Some in Hl.
    rewrite Hn. apply lookup_lt_Some in Hl. destruct complete; cbn; lia.
  - constructor; cbn; [done|done|done|]. split; [done|]. unfold potential in *. cbn. lia.
  - constructor; cbn; [done|done|done|]. exists c. split_and!; [done|done|]. lia.
Qed.

Lemma handle_keeps n k m k' : run_inv n k -> handle m k = (k', Ok tt) -> run_inv (S n) k'.
Proof.
  intros [Ei Eo Hx Hs] [complete c c' k1 Ek Hnc Hr Ha|msg c k1 Ek Em Ha|msg c s Ek Em Hc]%handle_Ok; [..|done].
  - assert (nc_inv c /\ Z.of_nat n + potential k c <= messages_bound) as [I Hp]
      by (rewrite Ek in Hs; by destruct complete).
    pose proof (receive_potential _ _ _ k I Hnc Hr). pose proof (receive_keeps _ _ _ I Hr).
    by apply (answer_keeps (S n) k false c'); [..|lia|].
  - rewrite Ek in Hs. destruct Hs as [I Hp]. apply (answer_keeps (S n) k true c); [done..|lia|done].
  - rewrite Ek in Hs. destruct Hs as [I Hp]. pose proof (potential_pos k c I).
    constructor; cbn; [done|done|done|]. exists c. split_and!; [done|done|lia].
Qed.

Lemma initial_context_inv :
  nc_inv (negotiation_context_new (args_holder_node_id args) (args_counterparty_node_id args)
            (args_is_initiator args) (args_shared_funding_input args) (args_shared_funding_output args)
            (args_funding_tx_locktime args) (args_feerate_sat_per_kw args)).
Proof. constructor; cbn; done. Qed.

Lemma initial_indexes : indexes_ok (initial_constructor args).
Proof.
  split; cbn; intros i; [destruct (sort_by_key fst (with_serial_ids args 0 _))|
    destruct (sort_by_key fst (with_serial_ids args (length _) _))]; cbn; try done; intros [= <-]; lia.
Qed.

Lemma initial_potential c :
  nc_received_tx_add_input_count c = 0 -> nc_received_tx_add_output_count c = 0 ->
  nc_inputs c = ∅ -> nc_outputs c = ∅ -> potential (initial_constructor args) c = messages_bound.
Proof.
  intros E1 E2 E3 E4. unfold potential, messages_bound. rewrite E1, E2, E3, E4.
  assert (forall A (l : list A), left_to_send (match l with [] => None | _ => Some 0%nat end) l = length l) as Hl.
  { intros A l. destruct l; cbn; lia. }
  pose proof length_contributed as [<- <-].
  rewrite (Hl _ contributed_inputs : left_to_send (ic_next_input_index (initial_constructor args))
             (ic_inputs_to_contribute (initial_constructor args)) = _).
  rewrite (Hl _ contributed_outputs : left_to_send (ic_next_output_index (initial_constructor args))
             (ic_outputs_to_contribute (initial_constructor args)) = _).
  unfold remote_entries. rewrite !map_filter_empty, !map_size_empty. lia.
Qed.

Lemma negotiation_inv n k : reachable args n k -> run_inv n k.
Proof.
  induction 1 as [k Ek|n k m k' _ IH Hm]; [|by eapply handle_keeps].
  unfold interactive_tx_constructor_new in Ek. pose proof initial_context_inv as I0. revert I0.
  set (c0 := negotiation_context_new _ _ _ _ _ _ _). intros I0.
  assert (ic_state_machine (initial_constructor args) =
          if args_is_initiator args then ReceivedChangeMsg c0 else SentChangeMsg c0) as E0 by done.
  destruct (args_is_initiator args) eqn:Er.
  - destruct (maybe_send_message (initial_constructor args)) as [k1 [msg|[w|e]]] eqn:Em; try done.
    injection Ek as <-. apply (maybe_send_message_Ok false c0 (initial_constructor args)) in Em;
      [|apply initial_indexes|cbn [our_turn]; by rewrite <- E0].
    apply (answer_keeps 0) in Em; [|done|done|apply initial_indexes|done|].
    + destruct Em. by constructor.
    + rewrite initial_potential by done. lia.
  - injection Ek as <-. constructor; [done|done|apply initial_indexes|].
    rewrite E0. split; [done|]. rewrite initial_potential by done. lia.
Qed.

(** ** The transaction of a finished negotiation *)

(** Inputs and outputs in the order of their ids *)
Lemma sorted_keys_strict {A} (key : A -> Z) l :
  NoDup (map key l) -> StronglySorted Z.lt (map key (sort_by_key key l)).
Proof.
  intros Hd. assert (NoDup (map key (sort_by_key key l))) as Hd' by by rewrite sort_by_key_perm.
  revert Hd'. induction (sort_by_key_sorted key l) as [|a l' Hs IH Ha]; cbn; [by constructor|].
  intros [Hna Hd']%NoDup_cons. constructor; [by apply IH|].
  apply Forall_forall. intros x Hx. apply list_elem_of_fmap in Hx as (b & -> & Hb).
  rewrite Forall_forall in Ha. specialize (Ha _ Hb). unfold key_le in Ha.
  assert (key a <> key b); [|lia]. intros E. apply Hna. rewrite E. by apply list_elem_of_fmap_2.
Qed.

Lemma entries_keys {A B} (f : A -> B) (key : B -> Z) (m : gmap SerialId A) :
  (forall s a, m !! s = Some a -> key (f a) = s) ->
  NoDup (map key (map (fun p => f p.2) (hash_iter m))).
Proof.
  intros Hk. rewrite map_map, (hash_iter_perm _ m).
  assert (map (fun p : SerialId * A => key (f p.2)) (map_to_list m) = map fst (map_to_list m)) as ->.
  { apply map_ext_in. intros [s a]. rewrite <- list_elem_of_In, elem_of_map_to_list. apply Hk. }
  apply NoDup_fst_map_to_list.
Qed.

Lemma constructed_inputs_elem c p :
  p ∈ constructed_inputs c <-> exists s i, nc_inputs c !! s = Some i /\ p = into_txin_and_metadata i.
Proof.
  unfold constructed_inputs. rewrite sort_by_key_perm, (hash_iter_perm _ (nc_inputs c)), list_elem_of_fmap.
  split.
  - intros ([s i] & -> & Hi%elem_of_map_to_list). eauto.
  - intros (s & i & Hi%elem_of_map_to_list & ->). by exists (s, i).
Qed.

Lemma constructed_outputs_elem c p :
  p ∈ constructed_outputs c <-> exists s o, nc_outputs c !! s = Some o /\ p = into_txout_and_metadata o.
Proof.
  unfold constructed_outputs. rewrite sort_by_key_perm, (hash_iter_perm _ (nc_outputs c)), list_elem_of_fmap.
  split.
  - intros ([s i] & -> & Hi%elem_of_map_to_list). eauto.
  - intros (s & i & Hi%elem_of_map_to_list & ->). by exists (s, i).
Qed.

Lemma constructed_outpoints c : nc_inv c -> NoDup (map previous_output (map fst (constructed_inputs c))).
Proof.
  intros I. unfold constructed_inputs. rewrite sort_by_key_perm, (hash_iter_perm _ (nc_inputs c)), !map_map.
  apply (NoDup_fmap_2_strong (fun p => previous_output (into_txin_and_metadata p.2).1)).
  - intros [s i] [s' i'] Hi%elem_of_map_to_list Hi'%elem_of_map_to_list E. cbn in E.
    pose proof (ni_distinct _ I _ _ _ _ Hi Hi' E) as ->. by simplify_eq.
  - apply NoDup_map_to_list.
Qed.

Lemma constructed_ids c :
  nc_inv c -> StronglySorted Z.lt (map tim_serial_id (map snd (constructed_inputs c))) /\
    StronglySorted Z.lt (map tom_serial_id (map snd (constructed_outputs c))).
Proof.
  intros I. unfold constructed_inputs, constructed_outputs. rewrite !(map_map snd). split.
  - apply (sorted_keys_strict (fun p : TxIn * TxInMetadata => tim_serial_id p.2)).
    apply (entries_keys into_txin_and_metadata). intros s i Hi. apply (io_id _ _ _ (ni_inputs _ I _ _ Hi)).
  - apply (sorted_keys_strict (fun p : TxOut * TxOutMetadata => tom_serial_id p.2)).
    apply (entries_keys into_txout_and_metadata). intros s i Hi. apply (oo_id _ _ (ni_outputs _ I _ _ Hi)).
Qed.

(** The holder may sign [t]: it spends no output twice, its inputs and outputs
    are in the order of their ids, it has the funding output and the shared
    input where the session looks for them, and the peer's part obeys the rules
    of the protocol and pays for itself. *)
Record sound_tx (t : ConstructedTransaction) : Prop := {
  st_locktime : lock_time (ct_tx t) = args_funding_tx_locktime args;
  st_outpoints : NoDup (map previous_output (input (ct_tx t)));
  st_ids : StronglySorted Z.lt (map tim_serial_id (ct_input_metadata t)) /\
           StronglySorted Z.lt (map tom_serial_id (ct_output_metadata t));
  st_counts : (length (input (ct_tx t)) <= MAX_INPUTS_OUTPUTS_COUNT)%nat /\
              (length (output (ct_tx t)) <= MAX_INPUTS_OUTPUTS_COUNT)%nat;
  st_funding : 0 <= ct_shared_output_index t /\
    output (ct_tx t) !! Z.to_nat (ct_shared_output_index t) =
      Some (sho_tx_out (args_shared_funding_output args));
  st_shared : forall sh, args_shared_funding_input args = Some sh ->
    exists i txin, ct_shared_input_index t = Some i /\ 0 <= i /\ input (ct_tx t) !! Z.to_nat i = Some txin /\
      previous_output txin = previous_output (sh_input sh);
  st_inputs : forall i txin m, input (ct_tx t) !! i = Some txin -> ct_input_metadata t !! i = Some m ->
    tim_is_local (args_is_initiator args) m = false ->
    is_witness_program (script_pubkey (tim_prev_output m)) = true /\ sequence txin < 0xFFFFFFFE \/
    exists sh, args_shared_funding_input args = Some sh /\ txin = sh_input sh /\
      tim_prev_output m = sh_prev_output sh;
  st_outputs : forall i txout m, output (ct_tx t) !! i = Some txout -> ct_output_metadata t !! i = Some m ->
    tom_is_local (args_is_initiator args) m = false ->
    minimal_non_dust (script_pubkey txout) <= value txout /\ output_script_allowed (script_pubkey txout) = true;
  st_fees : exists c required, t = assemble_tx c /\
    fee_for_weight (E := AbortReason)
      ((args_feerate_sat_per_kw args * REMOTE_FEE_TOLERANCE_PERCENT / 100) `mod` 2 ^ 32)
      (remote_weight_contributed c) = Ok required /\
    remote_outputs_value c + required <= remote_inputs_value c;
}.

Lemma lookup_pair {A B} (l : list (A * B)) i a b :
  map fst l !! i = Some a -> map snd l !! i = Some b -> (a, b) ∈ l.
Proof.
  rewrite !list_lookup_fmap. destruct (l !! i) as [[x y]|] eqn:E; cbn; [|done].
  intros [= ->] [= ->]. by eapply list_elem_of_lookup_2.
Qed.

Lemma complete_sound c s : nc_inv c -> complete_negotiation c = Ok s -> sound_tx (ss_unsigned_tx s).
Proof.
  intros I [Hn ->]%complete_negotiation_Ok.
  apply constructed_transaction_new_Ok in Hn as (_ & Hv & (req & Ef & Hf) & Hi & Ho & Hsh & Hso & _).
  constructor; try done.
  - apply (ni_locktime _ I).
  - by apply constructed_outpoints.
  - by apply constructed_ids.
  - cbn in Ho, Hso |- *. rewrite <- (ni_shared_output _ I). revert Hso.
    destruct (position_u16 _ _) as [j|] eqn:E; cbn; [|done]. intros _.
    apply position_u16_Some in E as (a & Ha & Hd & Hj); [|unfold MAX_INPUTS_OUTPUTS_COUNT in Ho; lia].
    by apply bool_decide_eq_true in Hd as ->.
  - intros sh Es. rewrite (ni_shared_input _ I), Es in Hsh. destruct Hsh as [j Ej]; [done|].
    exists j. revert Ej. cbn. rewrite (ni_shared_input _ I), Es. cbn. intros Ej.
    destruct (position_u16_Some _ _ _ Ej) as (a & Ha & Hd & Hj);
      [cbn in Hi; unfold MAX_INPUTS_OUTPUTS_COUNT in Hi; lia|].
    apply bool_decide_eq_true in Hd. by exists a.
  - intros i txin m Hx Hm Hl. pose proof (lookup_pair _ _ _ _ Hx Hm) as Hp.
    apply constructed_inputs_elem in Hp as (sid & j & Hj & [= -> ->]).
    destruct (ni_inputs _ I _ _ Hj). unfold tim_is_local in Hl. cbn in Hl. rewrite io_id0 in Hl.
    apply negb_false_iff, io_side0 in Hl. cbn.
    destruct (iti_input j) as [so|sh] eqn:Ei; [left; by apply io_single0|].
    right. exists sh. split; [by apply io_shared0|]. done.
  - intros i txout m Hx Hm Hl. pose proof (lookup_pair _ _ _ _ Hx Hm) as Hp.
    apply constructed_outputs_elem in Hp as (sid & j & Hj & [= -> ->]).
    destruct (ni_outputs _ I _ _ Hj). unfold tom_is_local in Hl. cbn in Hl. rewrite oo_id0 in Hl.
    apply negb_false_iff, oo_side0 in Hl. by apply oo_remote0.
  - exists c, req. rewrite <- (ni_feerate _ I). split_and!; [done..|]. unfold saturating_sub in Hf. lia.
Qed.

End sound.

(** C35. A negotiation ends: against any peer, a constructor accepts at most
    4,096 added inputs and outputs each, as many removals, one [tx_complete] for
    each of its own contributions and the final one; any further message aborts
    the negotiation. *)
Theorem negotiation_ends `{Bitcoin} `{HashOrder} (args : InteractiveTxConstructorArgs) (n : nat)
    (k : InteractiveTxConstructor) :
  reachable args n k ->
  Z.of_nat n <= 4 * 4096 + Z.of_nat (length (owned_inputs args)) + Z.of_nat (length (owned_outputs args)) + 1.
Proof.
  intros R. destruct (negotiation_inv args n k R) as [_ _ _ Hs].
  assert (Z.of_nat n <= messages_bound args) as Hb.
  { destruct (ic_state_machine k); try done.
    - destruct Hs as [I Hs]. pose proof (potential_pos args k c I). lia.
    - destruct Hs as [I Hs]. pose proof (potential_pos args k c I). lia.
    - by destruct Hs as (c & _ & _ & ?). }
  unfold messages_bound, MAX_RECEIVED_TX_ADD_INPUT_COUNT, MAX_RECEIVED_TX_ADD_OUTPUT_COUNT in Hb. lia.
Qed.

