(* ===== verification/LnKept.v ===== *)
(** * Interactive transaction construction: the contributions of the holder

    The transaction of a finished negotiation contains what the holder
    contributed, all of it and nothing else on its behalf: the peer can neither
    drop nor replace an input or output of the holder.  The lists of
    contributions that [ConstructedTransaction] and [InteractiveTxConstructor]
    report (to give back what a failed negotiation had reserved) are the same. *)

From stdpp Require Import base gmap list sorting.
From Stdlib Require Import ZArith Lia.
From S2P Require Import Prelude LnTx LnSession LnMachine LnAgree LnRun LnSound.
Local Open Scope Z_scope.

(** ** Lists filtered by index *)

Lemma filter_enumerate_from {A} (P : nat -> A -> bool) (Q : A -> bool) (l : list A) n :
  (forall i a, l !! i = Some a -> P (n + i)%nat a = Q a) ->
  map snd (filter (fun p => P p.1 p.2 = true) (imap (fun i a => ((n + i)%nat, a)) l)) =
  filter (fun a => Q a = true) l.
Proof.
  revert n. induction l as [|a l IH]; intros n HP; [done|]. rewrite imap_cons.
  rewrite (imap_ext _ (fun i a => ((S n + i)%nat, a)) l) by (intros; cbn; f_equal; lia).
  pose proof (HP 0%nat a eq_refl) as Ha.
  rewrite !filter_cons. cbn [fst snd]. rewrite Ha.
  rewrite <- (IH (S n)) by (intros i b Hb; rewrite <- (HP (S i) b Hb); f_equal; lia).
  by case_decide.
Qed.

Lemma filter_enumerate {A} (P : nat -> A -> bool) (Q : A -> bool) (l : list A) :
  (forall i a, l !! i = Some a -> P i a = Q a) ->
  map snd (filter (fun p => P p.1 p.2 = true) (enumerate l)) = filter (fun a => Q a = true) l.
Proof. apply (filter_enumerate_from P Q l 0). Qed.

Lemma filter_sorted {A} (R : A -> A -> Prop) (P : A -> Prop) `{forall a, Decision (P a)} l :
  StronglySorted R l -> StronglySorted R (filter P l).
Proof.
  induction 1 as [|a l Hs IH Ha]; [constructor|]. rewrite filter_cons. case_decide; [|done].
  constructor; [done|]. rewrite Forall_forall in *. intros b [_ Hb]%list_elem_of_filter. by apply Ha.
Qed.

(** ** What has been sent is in the context *)

Section kept.
Context `{Bitcoin} `{HashOrder} (args : InteractiveTxConstructorArgs).

(** The inputs offered exist as described, and do not spend the shared outpoint;
    no output offered is the funding output; the random ids are distinct *)
Record args_ok : Prop := {
  ao_inputs : forall f, f ∈ args_inputs_to_contribute args ->
    op_txid (utxo_outpoint (fti_utxo f)) = compute_txid (fti_prevtx f) /\
    get_at (output (fti_prevtx f)) (op_vout (utxo_outpoint (fti_utxo f))) = Some (utxo_output (fti_utxo f));
  ao_not_shared : forall f sh, f ∈ args_inputs_to_contribute args ->
    args_shared_funding_input args = Some sh ->
    utxo_outpoint (fti_utxo f) <> previous_output (sh_input sh);
  ao_outputs : forall o, o ∈ args_outputs_to_contribute args ->
    o <> sho_tx_out (args_shared_funding_output args);
  ao_input_ids : NoDup (map fst (contributed_inputs args));
  ao_output_ids : NoDup (map fst (contributed_outputs args));
}.

(** The number of contributions sent *)
Definition sent_count {A} (next : option nat) (l : list A) : nat :=
  match next with Some i => i | None => length l end.

Definition local_input (p : SerialId * InputOwned) : SerialId * InteractiveTxInput :=
  (p.1, {| iti_serial_id := p.1; iti_added_by := Local; iti_input := p.2 |}).
Definition local_output (p : SerialId * OutputOwned) : SerialId * InteractiveTxOutput :=
  (p.1, {| ito_serial_id := p.1; ito_added_by := Local; ito_output := p.2 |}).

Definition mine {A} (m : gmap SerialId A) : gmap SerialId A := filter (fun p => theirs args p.1 = false) m.

Record sent_inv (k : InteractiveTxConstructor) (c : NegotiationContext) : Prop := {
  si_inputs : mine (nc_inputs c) =
    list_to_map (map local_input
      (take (sent_count (ic_next_input_index k) (contributed_inputs args)) (contributed_inputs args)));
  si_outputs : mine (nc_outputs c) =
    list_to_map (map local_output
      (take (sent_count (ic_next_output_index k) (contributed_outputs args)) (contributed_outputs args)));
  si_funding : args_is_initiator args = true ->
    forall s o, nc_outputs c !! s = Some o -> theirs args s = true ->
    ito_tx_out o <> sho_tx_out (args_shared_funding_output args);
}.

Lemma mine_insert_theirs {A} (m : gmap SerialId A) s a :
  theirs args s = true -> mine (<[s := a]> m) = mine m.
Proof.
  intros Hs. apply map_filter_insert_not'; cbn; [by rewrite Hs|]. intros ? _. by rewrite Hs.
Qed.

Lemma mine_delete_theirs {A} (m : gmap SerialId A) s :
  theirs args s = true -> mine (delete s m) = mine m.
Proof.
  intros Hs. apply map_filter_delete_not. intros ? _. cbn. by rewrite Hs.
Qed.

(** The peer cannot touch what the holder has sent *)
Lemma receive_sent k c m c' :
  nc_inv args c -> receive c m = Ok c' -> sent_inv k c -> sent_inv k c'.
Proof.
  intros I E [Si So Sf]. destruct m as [msg|msg|msg|msg|msg]; cbn [receive] in E.
  - apply received_tx_add_input_Ok in E as (Hv & _ & _ & i & o & _ & _ & _ & ->).
    rewrite (theirs_valid args _ _ I) in Hv. constructor; cbn; [by rewrite mine_insert_theirs|done|done].
  - apply received_tx_add_output_Ok in E as (Hv & _ & _ & _ & _ & _ & Hsh & ->).
    rewrite (theirs_valid args _ _ I) in Hv. constructor; cbn; [done|by rewrite mine_insert_theirs|].
    intros Hr s o [[<- <-]|[_ Ho]]%lookup_insert_Some; [|by eapply Sf].
    intros _ Eq. rewrite <- (ni_shared_output _ _ I) in Eq. unfold ito_tx_out in Eq. cbn in Eq.
    rewrite output_of_tx_out in Eq. rewrite (ni_role _ _ I), Hr in Hsh. unfold output_of in Hsh.
    rewrite decide_True in Hsh by done. by destruct (Hsh eq_refl).
  - apply received_tx_remove_input_Ok in E as (Hv & _ & ->).
    rewrite (theirs_valid args _ _ I) in Hv. constructor; cbn; [by rewrite mine_delete_theirs|done|done].
  - apply received_tx_remove_output_Ok in E as (Hv & _ & ->).
    rewrite (theirs_valid args _ _ I) in Hv. constructor; cbn; [done|by rewrite mine_delete_theirs|].
    intros Hr s o [_ Ho]%lookup_delete_Some. by apply Sf.
  - by injection E as <-.
Qed.

Lemma mine_insert_mine {A} (m : gmap SerialId A) s a :
  theirs args s = false -> mine (<[s := a]> m) = <[s := a]> (mine m).
Proof. intros Hs. by apply map_filter_insert_True. Qed.

Context (Hargs : args_ok).

(** The input and the output put down are the ones offered *)
Lemma sent_input_exact c ch s i c' :
  nc_inv args c -> (s, i) ∈ contributed_inputs args ->
  sent_tx_add_input c (tx_add_input_msg ch s i) (io_satisfaction_weight i) = Ok c' ->
  exists o, c' = put_input Local s i o (nc_received_tx_add_input_count c) c.
Proof.
  intros I Hin (j & o & Ej & _ & ->)%sent_tx_add_input_Ok. exists o.
  assert (tai_serial_id (tx_add_input_msg ch s i) = s) as -> by by destruct i.
  assert (j = i) as ->; [|done].
  pose proof (contributed_inputs_ok args _ _ Hin) as [_ Hsh].
  apply with_serial_ids_elem in Hin as [_ Hin]. unfold sent_input in Ej.
  destruct i as [so|sh]; cbn in Ej.
  - unfold owned_inputs in Hin. apply elem_of_app in Hin as [Hin|Hin].
    2: { by destruct (args_shared_funding_input args), (args_is_initiator args);
         rewrite ?list_elem_of_singleton, ?elem_of_nil in Hin. }
    apply list_elem_of_fmap in Hin as (f & [= ->] & Hf). destruct (ao_inputs Hargs f Hf) as [Et Eo].
    cbn in Ej. rewrite Eo in Ej. injection Ej as <- <-. cbn. rewrite <- Et.
    by destruct (utxo_outpoint (fti_utxo f)).
  - rewrite (ni_shared_input _ _ I), (Hsh _ eq_refl) in Ej. by injection Ej as _ <-.
Qed.

Lemma sent_output_exact c ch s o :
  nc_inv args c -> (s, o) ∈ contributed_outputs args -> output_of c (tx_add_output_msg ch s o) = o.
Proof.
  intros I [_ Hin]%with_serial_ids_elem. unfold owned_outputs in Hin. unfold output_of. cbn.
  rewrite (ni_shared_output _ _ I). apply elem_of_app in Hin as [Hin|Hin].
  - apply list_elem_of_fmap in Hin as (txo & -> & Ht). cbn.
    rewrite decide_False; [by destruct txo|]. intros E. apply (ao_outputs Hargs txo Ht). by destruct txo.
  - destruct (args_is_initiator args); rewrite ?list_elem_of_singleton, ?elem_of_nil in Hin; [|done].
    subst o. cbn. rewrite decide_True; [done|]. by destruct (sho_tx_out (args_shared_funding_output args)).
Qed.

Lemma sent_count_next {A} (l : list A) idx :
  (idx < length l)%nat -> sent_count (next_index (length l) idx) l = S idx.
Proof. intros Hl. unfold next_index. destruct (Nat.ltb_spec (S idx) (length l)); cbn; lia. Qed.

(** One more entry of a list with distinct ids *)
Lemma list_to_map_take {A B} (f : SerialId * A -> SerialId * B) (l : list (SerialId * A)) idx s a :
  (forall p, (f p).1 = p.1) -> NoDup (map fst l) -> l !! idx = Some (s, a) ->
  (list_to_map (map f (take (S idx) l)) : gmap SerialId B) =
  <[s := (f (s, a)).2]> (list_to_map (map f (take idx l))).
Proof.
  intros Hf Hd Hl. rewrite (take_S_r _ _ _ Hl), map_app. cbn [map].
  assert (f (s, a) = (s, (f (s, a)).2)) as E by (rewrite <- (Hf (s, a)) at 2; apply surjective_pairing).
  rewrite E. cbn [snd]. apply list_to_map_snoc.
  rewrite list_elem_of_fmap. intros (p & Es & Hp). apply list_elem_of_fmap in Hp as (q & -> & Hq).
  rewrite Hf in Es. apply list_elem_of_lookup in Hq as [j Hq]. apply lookup_take_Some in Hq as [Hq Hj].
  assert (j = idx); [|lia]. apply (NoDup_lookup (map fst l) j idx s Hd); rewrite list_lookup_fmap.
  - rewrite Hq. cbn. by rewrite Es.
  - by rewrite Hl.
Qed.

(** Everything has been sent *)
Definition all_sent (k : InteractiveTxConstructor) : Prop :=
  ic_next_input_index k = None /\ ic_next_output_index k = None.

Definition sent_state (k : InteractiveTxConstructor) : Prop :=
  match ic_state_machine k with
  | SentChangeMsg c => sent_inv k c
  | SentTxComplete c => sent_inv k c /\ all_sent k
  | NegotiationComplete s =>
    exists c, nc_inv args c /\ complete_negotiation c = Ok s /\ sent_inv k c /\ all_sent k
  | _ => True
  end.

Lemma answer_sent k complete c k' :
  ic_inputs_to_contribute k = contributed_inputs args ->
  ic_outputs_to_contribute k = contributed_outputs args ->
  nc_inv args c -> sent_inv k c -> answer k complete c k' -> sent_state k'.
Proof.
  intros Ei Eo I [Si So Sf] Ha. unfold sent_state.
  destruct Ha as [idx s i c' Hn Hl Hc|idx s o Hni Hn Hl|Hni Hno ->|ss Hni Hno -> Hc]; cbn.
  - rewrite Ei in Hl. pose proof (list_elem_of_lookup_2 _ _ _ Hl) as Hin.
    destruct (contributed_inputs_ok args _ _ Hin) as [Hs _].
    destruct (sent_input_exact _ _ _ _ _ I Hin Hc) as [o ->].
    constructor; cbn; [|done|done]. rewrite mine_insert_mine by done. rewrite Ei, Si, Hn.
    rewrite sent_count_next by by apply lookup_lt_Some in Hl.
    symmetry. by apply (list_to_map_take local_input); [|apply (ao_input_ids Hargs)|].
  - rewrite Eo in Hl. pose proof (list_elem_of_lookup_2 _ _ _ Hl) as Hin.
    pose proof (contributed_outputs_ok args _ _ Hin) as Hs.
    rewrite (sent_output_exact _ _ _ _ I Hin).
    constructor; cbn; [done| |].
    + rewrite mine_insert_mine by done. rewrite Eo, So, Hn.
      rewrite sent_count_next by by apply lookup_lt_Some in Hl.
      symmetry. by apply (list_to_map_take local_output); [|apply (ao_output_ids Hargs)|].
    + intros Hr t p [[<- <-]|[_ Hp]]%lookup_insert_Some Ht; [congruence|]. by eapply Sf.
  - split; [by constructor|done].
  - exists c. split_and!; [done|done|by constructor|done].
Qed.

Lemma reachable_sent n k : reachable args n k -> sent_state k.
Proof.
  induction 1 as [k Ek|n k m k' R IH Hm].
  - pose proof (initial_context_inv args) as I0. revert I0.
    set (c0 := negotiation_context_new _ _ _ _ _ _ _). intros I0.
    assert (ic_state_machine (initial_constructor args) =
            if args_is_initiator args then ReceivedChangeMsg c0 else SentChangeMsg c0) as E0 by done.
    assert (sent_inv (initial_constructor args) c0) as S0.
    { assert (forall A B (f : SerialId * A -> SerialId * B) (l : list (SerialId * A)),
        (∅ : gmap SerialId B) =
        list_to_map (map f (take (sent_count (match l with [] => None | _ => Some 0%nat end) l) l))) as Hl
        by by intros A B f [].
      constructor; cbn; [|..|done]; unfold mine; rewrite map_filter_empty; apply Hl. }
    unfold interactive_tx_constructor_new in Ek. destruct (args_is_initiator args) eqn:Er.
    + destruct (maybe_send_message (initial_constructor args)) as [k1 [msg|[w|e]]] eqn:Em; try done.
      injection Ek as <-. apply (maybe_send_message_Ok false c0 (initial_constructor args)) in Em;
        [|apply initial_indexes|cbn [our_turn]; by rewrite <- E0].
      apply answer_sent in Em; [|done..]. revert Em. unfold sent_state. cbn.
      destruct (ic_state_machine k1); try done.
      * intros []. by constructor.
      * intros [[] ?]. split; [by constructor|done].
      * intros (c & ? & ? & [] & ?). exists c. split_and!; [done|done|by constructor|done].
    + injection Ek as <-. unfold sent_state. by rewrite E0.
  - pose proof (negotiation_inv args n k R) as [Ei Eo Hx Hs]. unfold sent_state in IH.
    apply handle_Ok in Hm as [complete c c' k1 Ek Hnc Hr Ha|msg c k1 Ek Em Ha|msg c s Ek Em Hc]; [..|done];
      rewrite Ek in Hs, IH.
    + assert (nc_inv args c /\ sent_inv k c) as [I Si] by (destruct complete; naive_solver).
      eapply answer_sent; [done|done| | |exact Ha]; [by eapply receive_keeps|by eapply receive_sent].
    + eapply answer_sent; [done|done|by destruct Hs|done|exact Ha].
    + destruct IH as [[] ?]. exists c. split_and!; [by destruct Hs|done|by constructor|done].
Qed.

(** ** The holder's part of the transaction *)

Lemma NoDup_map_inv {A B} (f : A -> B) l : NoDup (map f l) -> NoDup l.
Proof. apply NoDup_fmap_1. Qed.

(** The entries of the holder, listed by id, are those of a sorted list they were
    all taken from *)
Lemma mine_listed {A B C} (f : A -> B) (key : B -> Z) (wrap : SerialId * C -> SerialId * A)
    (m : gmap SerialId A) (l : list (SerialId * C)) :
  (forall s a, m !! s = Some a -> key (f a) = s) -> (forall p, (wrap p).1 = p.1) ->
  (forall p, key (f (wrap p).2) = p.1) ->
  StronglySorted (key_le fst) l -> NoDup (map fst l) -> mine m = list_to_map (map wrap l) ->
  filter (fun b => theirs args (key b) = false) (sort_by_key key (map (fun p => f p.2) (hash_iter m))) =
  map (fun p => f (wrap p).2) (filter (fun p => theirs args p.1 = false) l).
Proof.
  intros Hk Hw Hkw Hs Hd Em.
  assert (map key (map (fun p => f (wrap p).2) (filter (fun p => theirs args p.1 = false) l)) =
          map fst (filter (fun p => theirs args p.1 = false) l)) as Ek.
  { rewrite map_map. apply map_ext. intros p. apply Hkw. }
  assert (NoDup (map key (filter (fun b => theirs args (key b) = false)
            (sort_by_key key (map (fun p => f p.2) (hash_iter m)))))) as Hd1.
  { apply NoDup_map_filter. rewrite sort_by_key_perm. by apply entries_keys. }
  assert (NoDup (map fst (filter (fun p : SerialId * C => theirs args p.1 = false) l))) as Hd2.
  { by apply NoDup_map_filter. }
  apply (sorted_keys_unique key); [apply filter_sorted, sort_by_key_sorted| |done|].
  - clear -Hs Hkw. induction Hs as [|a l Hs IH Ha]; [constructor|].
    rewrite filter_cons. case_decide; [|done]. cbn. constructor; [done|].
    apply List.Forall_forall. intros x Hx. apply list_elem_of_In, list_elem_of_fmap in Hx as (b & -> & Hb).
    apply list_elem_of_filter in Hb as [_ Hb]. rewrite Forall_forall in Ha. specialize (Ha _ Hb).
    unfold key_le in *. by rewrite !Hkw.
  - apply NoDup_Permutation.
    { by eapply NoDup_map_inv. }
    { apply (NoDup_map_inv key). by rewrite Ek. }
    assert (NoDup (map wrap l).*1) as Hdw.
    { assert ((map wrap l).*1 = map fst l) as ->; [|done]. rewrite map_map. by apply map_ext. }
    intros b. rewrite list_elem_of_filter, sort_by_key_perm, (hash_iter_perm _ m), !list_elem_of_fmap. split.
    + intros [Hb ([s a] & -> & Ha%elem_of_map_to_list)]. cbn in Hb |- *. rewrite (Hk _ _ Ha) in Hb.
      assert (mine m !! s = Some a) as Hm by by apply map_lookup_filter_Some.
      rewrite Em in Hm. apply elem_of_list_to_map in Hm; [|done].
      apply list_elem_of_fmap in Hm as (p & Ep & Hp). exists p. rewrite <- Ep. split; [done|].
      apply list_elem_of_filter. split; [|done]. by rewrite <- (Hw p), <- Ep.
    + intros (p & -> & [Hp Hin]%list_elem_of_filter). rewrite Hkw. split; [done|].
      assert (mine m !! (wrap p).1 = Some (wrap p).2) as Hm.
      { rewrite Em. apply elem_of_list_to_map; [done|]. rewrite <- surjective_pairing.
        by apply list_elem_of_fmap_2. }
      apply map_lookup_filter_Some in Hm as [Hm _]. exists (wrap p). split; [done|].
      destruct (wrap p) as [s a]. by apply elem_of_map_to_list.
Qed.

Lemma contributed_all_mine {A} n (l : list A) :
  filter (fun p => theirs args p.1 = false) (sort_by_key fst (with_serial_ids args n l)) =
  sort_by_key fst (with_serial_ids args n l).
Proof.
  assert (forall m : list (SerialId * A), (forall p, p ∈ m -> theirs args p.1 = false) ->
            filter (fun p => theirs args p.1 = false) m = m) as Hm.
  { induction m as [|p m IH]; intros Hp; [done|]. rewrite filter_cons, decide_True by (apply Hp; by left).
    rewrite IH; [done|]. intros q Hq. apply Hp. by right. }
  apply Hm. by intros [s a] [Hs _]%with_serial_ids_elem.
Qed.

Definition input_entry (p : SerialId * InputOwned) : TxIn * TxInMetadata :=
  (io_tx_in p.2, {| tim_serial_id := p.1; tim_prev_output := io_prev_output p.2 |}).
Definition output_entry (p : SerialId * OutputOwned) : TxOut * TxOutMetadata :=
  (oo_tx_out p.2, {| tom_serial_id := p.1 |}).

Lemma take_all_sent {A} (l : list A) : take (sent_count None l) l = l.
Proof. apply firstn_all. Qed.

Lemma my_inputs_constructed k c :
  nc_inv args c -> sent_inv k c -> all_sent k ->
  filter (fun p => theirs args (tim_serial_id p.2) = false) (constructed_inputs c) =
  map input_entry (contributed_inputs args).
Proof.
  intros I [Si _ _] [Hn _]. rewrite Hn, take_all_sent in Si. unfold constructed_inputs.
  rewrite (mine_listed into_txin_and_metadata (fun p => tim_serial_id p.2) local_input
             _ (contributed_inputs args)); try done.
  - unfold contributed_inputs. by rewrite contributed_all_mine.
  - intros s i Hi. apply (io_id _ _ _ _ (ni_inputs _ _ I _ _ Hi)).
  - apply sort_by_key_sorted.
  - apply (ao_input_ids Hargs).
Qed.

Lemma my_outputs_constructed k c :
  nc_inv args c -> sent_inv k c -> all_sent k ->
  filter (fun p => theirs args (tom_serial_id p.2) = false) (constructed_outputs c) =
  map output_entry (contributed_outputs args).
Proof.
  intros I [_ So _] [_ Hn]. rewrite Hn, take_all_sent in So. unfold constructed_outputs.
  rewrite (mine_listed into_txout_and_metadata (fun p => tom_serial_id p.2) local_output
             _ (contributed_outputs args)); try done.
  - unfold contributed_outputs. by rewrite contributed_all_mine.
  - intros s i Hi. apply (oo_id _ _ _ (ni_outputs _ _ I _ _ Hi)).
  - apply sort_by_key_sorted.
  - apply (ao_output_ids Hargs).
Qed.

(** The shared input is told by its outpoint *)
Definition spends_shared (txin : TxIn) : bool :=
  match args_shared_funding_input args with
  | Some sh => bool_decide (previous_output txin = previous_output (sh_input sh))
  | None => false
  end.

Lemma not_shared_index_spec c i txin :
  nc_inv args c -> sound_tx args (assemble_tx c) -> input (ct_tx (assemble_tx c)) !! i = Some txin ->
  not_shared_index (assemble_tx c) i = negb (spends_shared txin).
Proof.
  intros I S Hi. unfold not_shared_index, spends_shared.
  destruct (args_shared_funding_input args) as [sh|] eqn:Es.
  - destruct (st_shared _ _ S sh Es) as (j & txin' & -> & Hj & Hl & Hp). f_equal.
    destruct (Z.eqb_spec (Z.of_nat i) j) as [<-|Hne].
    + rewrite Nat2Z.id, Hi in Hl. injection Hl as <-. by rewrite bool_decide_eq_true_2.
    + rewrite bool_decide_eq_false_2; [done|]. intros E. apply Hne.
      assert (i = Z.to_nat j); [|lia].
      apply (NoDup_lookup _ _ _ (previous_output txin) (st_outpoints _ _ S)); rewrite list_lookup_fmap.
      * by rewrite Hi.
      * rewrite Hl. cbn. by rewrite Hp, E.
  - cbn. by rewrite (ni_shared_input _ _ I), Es.
Qed.

Lemma contributed_inputs_reported k c :
  nc_inv args c -> sound_tx args (assemble_tx c) -> sent_inv k c -> all_sent k ->
  (to_contributed_inputs_and_outputs (assemble_tx c)).1 =
  map (fun p => previous_output (io_tx_in p.2)) (filter (fun p => io_is_shared p.2 = false) (contributed_inputs args)).
Proof.
  intros I S Hs Ha. unfold to_contributed_inputs_and_outputs. cbn [fst].
  rewrite <- (map_map snd (fun p : TxIn * TxInMetadata => previous_output p.1)).
  rewrite (zip_fst_snd (constructed_inputs c) : zip (input (ct_tx (assemble_tx c))) (ct_input_metadata (assemble_tx c)) = _).
  rewrite (filter_enumerate (fun i p => side_input (assemble_tx c) true i p.2)
    (fun p => negb (theirs args (tim_serial_id p.2)) && negb (spends_shared p.1))).
  2: { intros i [txin m] Hi. cbn. unfold side_input.
       rewrite (not_shared_index_spec c i txin I S) by (cbn; by rewrite list_lookup_fmap, Hi).
       f_equal. unfold tim_is_local, theirs. cbn. rewrite (ni_role _ _ I). by destruct (is_serial_id_valid_for_counterparty _ _). }
  rewrite (filter_ext_in _ (fun p => spends_shared p.1 = false /\ theirs args (tim_serial_id p.2) = false))
    by (intros p _; rewrite andb_true_iff, !negb_true_iff; tauto).
  rewrite <- list_filter_filter, (my_inputs_constructed k c I Hs Ha).
  rewrite (filter_map input_entry), map_map. f_equal.
  apply filter_ext_in. intros [s i] Hin. cbn. unfold spends_shared.
  pose proof (contributed_inputs_ok args _ _ Hin) as [_ Hsh]. apply with_serial_ids_elem in Hin as [_ Hin].
  destruct i as [so|sh]; cbn.
  - unfold owned_inputs in Hin. apply elem_of_app in Hin as [Hin|Hin].
    + apply list_elem_of_fmap in Hin as (f & [= ->] & Hf). cbn.
      destruct (args_shared_funding_input args) as [sh|] eqn:Es; [|done].
      rewrite bool_decide_eq_false_2; [done|]. by apply (ao_not_shared Hargs).
    + destruct (args_shared_funding_input args), (args_is_initiator args); set_solver.
  - rewrite (Hsh _ eq_refl). by rewrite bool_decide_eq_true_2.
Qed.

(** Only the initiator contributes the funding output, once *)
Lemma contributed_funding s o :
  (s, o) ∈ contributed_outputs args -> oo_tx_out o = sho_tx_out (args_shared_funding_output args) ->
  args_is_initiator args = true /\ o = SharedOutput (args_shared_funding_output args) /\
  s = generate_holder_serial_id
        (args_entropy args (length (owned_inputs args) + length (args_outputs_to_contribute args))%nat) true.
Proof.
  unfold contributed_outputs. rewrite sort_by_key_perm. unfold with_serial_ids. rewrite elem_of_lookup_imap.
  intros (i & p & [= -> ->] & Hp) Ho. unfold owned_outputs in Hp. apply lookup_app_Some in Hp as [Hp|[Hi Hp]].
  - rewrite list_lookup_fmap in Hp. destruct (args_outputs_to_contribute args !! i) as [txo|] eqn:E; [|done].
    injection Hp as <-. apply list_elem_of_lookup_2 in E. by destruct (ao_outputs Hargs _ E).
  - rewrite length_map in Hi, Hp. destruct (args_is_initiator args) eqn:Er; [|done].
    apply list_lookup_singleton_Some in Hp as [Hi' <-]. split_and!; [done..|].
    do 3 f_equal. lia.
Qed.

Lemma side_output_spec k c i txout m :
  nc_inv args c -> sound_tx args (assemble_tx c) -> sent_inv k c -> all_sent k ->
  constructed_outputs c !! i = Some (txout, m) ->
  side_output (assemble_tx c) i m =
    negb (theirs args (tom_serial_id m)) &&
    negb (bool_decide (txout = sho_tx_out (args_shared_funding_output args))).
Proof.
  intros I S Hs Ha Hi. unfold side_output.
  assert (tom_is_local (ct_holder_is_initiator (assemble_tx c)) m = negb (theirs args (tom_serial_id m))) as ->.
  { unfold tom_is_local, theirs. cbn. by rewrite (ni_role _ _ I). }
  destruct (theirs args (tom_serial_id m)) eqn:Ht; [done|]. cbn [negb andb]. f_equal.
  destruct (st_funding _ _ S) as [Hj Hl].
  assert (exists m', constructed_outputs c !! Z.to_nat (ct_shared_output_index (assemble_tx c)) =
            Some (sho_tx_out (args_shared_funding_output args), m')) as [m' Hm'].
  { revert Hl. generalize (Z.to_nat (ct_shared_output_index (assemble_tx c))) as j. intros j Hl.
    change (output (ct_tx (assemble_tx c))) with (map fst (constructed_outputs c)) in Hl.
    rewrite list_lookup_fmap in Hl. destruct (constructed_outputs c !! j) as [[x m']|] eqn:E; [|done].
    injection Hl as ->. by exists m'. }
  destruct (Z.eqb_spec (Z.of_nat i) (ct_shared_output_index (assemble_tx c))) as [E|Hne].
  { rewrite <- E, Nat2Z.id, Hi in Hm'. injection Hm' as -> _. by rewrite bool_decide_eq_true_2. }
  rewrite bool_decide_eq_false_2; [done|]. intros ->. apply Hne.
  assert (forall m', (sho_tx_out (args_shared_funding_output args), m') ∈ constructed_outputs c ->
            theirs args (tom_serial_id m') = false -> args_is_initiator args = true /\
            tom_serial_id m' = generate_holder_serial_id (args_entropy args
              (length (owned_inputs args) + length (args_outputs_to_contribute args))%nat) true) as Hid.
  { intros m1 Hin Hm1.
    assert ((sho_tx_out (args_shared_funding_output args), m1) ∈ map output_entry (contributed_outputs args)) as Hc.
    { rewrite <- (my_outputs_constructed k c I Hs Ha). by apply list_elem_of_filter. }
    apply list_elem_of_fmap in Hc as ([s o] & [= Eo ->] & Hc).
    by destruct (contributed_funding s o Hc) as (? & _ & ?). }
  apply list_elem_of_lookup_2 in Hi as Hin. destruct (Hid m Hin Ht) as [Hr Em].
  assert (theirs args (tom_serial_id m') = false) as Ht'.
  { apply not_true_is_false. intros Ht'. apply list_elem_of_lookup_2 in Hm' as Hin'.
    apply constructed_outputs_elem in Hin' as (s & o & Ho & [= E1 ->]). cbn in Ht'.
    rewrite (oo_id _ _ _ (ni_outputs _ _ I _ _ Ho)) in Ht'.
    by apply (si_funding _ _ Hs Hr s o Ho Ht'). }
  destruct (Hid m' (list_elem_of_lookup_2 _ _ _ Hm') Ht') as [_ Em'].
  assert (i = Z.to_nat (ct_shared_output_index (assemble_tx c))); [|lia].
  assert (NoDup (map tom_serial_id (map snd (constructed_outputs c)))) as Hd.
  { rewrite map_map. unfold constructed_outputs. rewrite sort_by_key_perm.
    apply (entries_keys into_txout_and_metadata (fun p => tom_serial_id p.2)).
    intros s o Ho. apply (oo_id _ _ _ (ni_outputs _ _ I _ _ Ho)). }
  apply (NoDup_lookup _ _ _ (tom_serial_id m) Hd); rewrite !list_lookup_fmap.
  - by rewrite Hi.
  - rewrite Hm'. cbn. congruence.
Qed.

Lemma contributed_outputs_reported k c :
  nc_inv args c -> sound_tx args (assemble_tx c) -> sent_inv k c -> all_sent k ->
  (to_contributed_inputs_and_outputs (assemble_tx c)).2 =
  map (fun p => oo_tx_out p.2) (filter (fun p => oo_is_shared p.2 = false) (contributed_outputs args)).
Proof.
  intros I S Hs Ha. unfold to_contributed_inputs_and_outputs. cbn [snd].
  rewrite <- (map_map snd (fun p : TxOut * TxOutMetadata => p.1)).
  rewrite (zip_fst_snd (constructed_outputs c) : zip (output (ct_tx (assemble_tx c))) (ct_output_metadata (assemble_tx c)) = _).
  rewrite (filter_enumerate (fun i p => side_output (assemble_tx c) i p.2)
    (fun p => negb (theirs args (tom_serial_id p.2)) &&
              negb (bool_decide (p.1 = sho_tx_out (args_shared_funding_output args)))))
    by (intros i [txout m] Hi; by apply (side_output_spec k c i txout m)).
  rewrite (filter_ext_in _ (fun p => p.1 <> sho_tx_out (args_shared_funding_output args) /\
             theirs args (tom_serial_id p.2) = false))
    by (intros p _; rewrite andb_true_iff, !negb_true_iff, bool_decide_eq_false; tauto).
  rewrite <- list_filter_filter, (my_outputs_constructed k c I Hs Ha).
  rewrite (filter_map output_entry), map_map. f_equal.
  apply filter_ext_in. intros [s o] Hin. cbn. split.
  - destruct o as [txo|sh]; [done|]. intros Hne. destruct Hne.
    apply with_serial_ids_elem in Hin as [_ Hin]. unfold owned_outputs in Hin.
    apply elem_of_app in Hin as [Hin|Hin]; [by apply list_elem_of_fmap in Hin as (? & [=] & _)|].
    destruct (args_is_initiator args); rewrite ?list_elem_of_singleton, ?elem_of_nil in Hin; [|done].
    by injection Hin as ->.
  - intros Hsh E. by destruct (contributed_funding s o Hin E) as (_ & -> & _).
Qed.

End kept.

(** C17. When a negotiation completes, the inputs and outputs with the holder's
    serial ids are exactly those the holder offered, in their order and with
    their sequence numbers and spent outputs; and the contributions read off the
    constructed transaction (what has to be given back should it fail later) are
    those the constructor was created with.  The offered inputs are described
    truthfully, the random ids do not collide, and neither the shared outpoint
    nor the funding output is offered a second time. *)
Theorem contributions_kept `{Bitcoin} `{HashOrder} (args : InteractiveTxConstructorArgs) (n : nat)
    (k : InteractiveTxConstructor) (s : InteractiveTxSigningSession) :
  args_ok args -> reachable args n k -> ic_state_machine k = NegotiationComplete s ->
  let t := ss_unsigned_tx s in
  filter (fun p => tim_is_local (args_is_initiator args) p.2 = true)
    (zip (input (ct_tx t)) (ct_input_metadata t)) = map input_entry (ic_inputs_to_contribute k) /\
  filter (fun p => tom_is_local (args_is_initiator args) p.2 = true)
    (zip (output (ct_tx t)) (ct_output_metadata t)) = map output_entry (ic_outputs_to_contribute k) /\
  to_contributed_inputs_and_outputs t = ic_contributed_inputs_and_outputs k.
Proof.
  intros Hargs R E t. pose proof (negotiation_inv args n k R) as [Ei Eo _ _].
  pose proof (reachable_sent args Hargs n k R) as Hs. unfold sent_state in Hs. rewrite E in Hs.
  destruct Hs as (c & I & Hc & Hs & Ha). pose proof (complete_sound args c s I Hc) as S.
  unfold t. destruct (complete_negotiation_Ok _ _ Hc) as [_ Eu]. rewrite Eu in *. rewrite Ei, Eo.
  split_and!.
  - rewrite <- (my_inputs_constructed args Hargs k c I Hs Ha).
    rewrite (zip_fst_snd (constructed_inputs c) : zip (input (ct_tx (assemble_tx c))) (ct_input_metadata (assemble_tx c)) = _).
    apply filter_ext_in. intros p _. unfold tim_is_local, theirs. by rewrite negb_true_iff.
  - rewrite <- (my_outputs_constructed args Hargs k c I Hs Ha).
    rewrite (zip_fst_snd (constructed_outputs c) : zip (output (ct_tx (assemble_tx c))) (ct_output_metadata (assemble_tx c)) = _).
    apply filter_ext_in. intros p _. unfold tom_is_local, theirs. by rewrite negb_true_iff.
  - rewrite (surjective_pairing (to_contributed_inputs_and_outputs _)).
    rewrite (contributed_inputs_reported args Hargs k c I S Hs Ha), (contributed_outputs_reported args Hargs k c I S Hs Ha).
    unfold ic_contributed_inputs_and_outputs. by rewrite Ei, Eo.
Qed.
