(* ===== verification/LnFunding.v ===== *)
(** * Interactive transaction construction: what the holder puts in

    The inputs a holder offers ([ln/funding.rs]) and the change it takes back
    ([calculate_change_output_value] of [ln/interactivetxs.rs] and
    [FundingNegotiationContext::into_interactive_tx_constructor] of
    [ln/channel.rs]): the contribution is exact, the fee the peer will ask for is
    paid, and less than a dust output is given away. *)

From stdpp Require Import base gmap list.
From Stdlib Require Import ZArith Lia.
From S2P Require Import Prelude LnTx LnSession LnMachine.
Local Open Scope Z_scope.

(** ** Inputs to offer *)

Section funding_input.
Context `{Bitcoin}.

Definition ENABLE_RBF_NO_LOCKTIME : Z := 0xFFFFFFFD.

Definition funding_tx_input_new (prevtx : Transaction) (vout : Z) (witness_weight : Z)
    (script_filter : Script -> bool) : result unit FundingTxInput :=
  output ← ok_or (match get_at (output prevtx) vout with
                  | Some output => if script_filter (script_pubkey output) then Some output else None
                  | None => None
                  end) tt;
  Ok {| fti_utxo :=
          {| utxo_outpoint := {| op_txid := compute_txid prevtx; op_vout := vout |};
             utxo_output := output;
             utxo_satisfaction_weight := EMPTY_SCRIPT_SIG_WEIGHT + witness_weight |};
        fti_sequence := ENABLE_RBF_NO_LOCKTIME;
        fti_prevtx := prevtx |}.

(** With the feature [grind_signatures] *)
Definition new_p2wpkh (prevtx : Transaction) (vout : Z) : result unit FundingTxInput :=
  funding_tx_input_new prevtx vout (P2WPKH_WITNESS_WEIGHT - 1) is_p2wpkh.
Definition new_p2wsh (prevtx : Transaction) (vout witness_weight : Z) : result unit FundingTxInput :=
  funding_tx_input_new prevtx vout witness_weight is_p2wsh.
Definition new_p2tr_key_spend (prevtx : Transaction) (vout : Z) : result unit FundingTxInput :=
  funding_tx_input_new prevtx vout P2TR_KEY_PATH_WITNESS_WEIGHT is_p2tr.
Definition new_p2tr_script_spend (prevtx : Transaction) (vout witness_weight : Z)
    : result unit FundingTxInput :=
  funding_tx_input_new prevtx vout witness_weight is_p2tr.

(** ** The change output *)

Record FundingNegotiationContext := {
  fn_is_initiator : bool;
  fn_our_funding_contribution : Z;
  fn_funding_tx_locktime : Z;
  fn_funding_feerate_sat_per_1000_weight : Z;
  fn_shared_funding_input : option SharedOwnedInput;
  fn_our_funding_inputs : list FundingTxInput;
  fn_our_funding_outputs : list TxOut;
  fn_change_script : option Script;
}.

(** The loop over our inputs: their value and their weight *)
Fixpoint sum_inputs (l : list FundingTxInput) (total weight : Z) : NR (Z * Z) :=
  match l with
  | [] => Ok (total, weight)
  | f :: l =>
    w ← uadd 64 BASE_INPUT_WEIGHT (utxo_satisfaction_weight (fti_utxo f));
    sum_inputs l (sat_add total (value (utxo_output (fti_utxo f)))) (sat_add weight w)
  end.

(** What the initiator pays for besides its own inputs and outputs (with the
    feature [grind_signatures]) *)
Definition initiator_weight (is_splice : bool) (shared_output_funding_script : Script) (weight : Z) : Z :=
  let weight := sat_add weight (get_output_weight shared_output_funding_script) in
  let weight := sat_add weight TX_COMMON_FIELDS_WEIGHT in
  if is_splice then
    sat_add (sat_add (sat_add weight BASE_INPUT_WEIGHT) EMPTY_SCRIPT_SIG_WEIGHT)
      FUNDING_TRANSACTION_WITNESS_WEIGHT - 1
  else weight.

Definition calculate_change_output_value (context : FundingNegotiationContext) (is_splice : bool)
    (shared_output_funding_script : Script) (change_output_dust_limit : Z) : NR (option Z) :=
  assert_or (0 <? fn_our_funding_contribution context)
    "assertion failed: context.our_funding_contribution > SignedAmount::ZERO";;
  let our_funding_contribution_satoshis := fn_our_funding_contribution context in
  '(total_input_satoshis, our_funding_inputs_weight) ← sum_inputs (fn_our_funding_inputs context) 0 0;
  let total_output_satoshis := sat_fold value (fn_our_funding_outputs context) in
  let our_funding_outputs_weight :=
    sat_fold (fun out => get_output_weight (script_pubkey out)) (fn_our_funding_outputs context) in
  let weight := sat_add our_funding_outputs_weight our_funding_inputs_weight in
  let weight := if fn_is_initiator context
                then initiator_weight is_splice shared_output_funding_script weight else weight in
  fees_sats ← fee_for_weight (fn_funding_feerate_sat_per_1000_weight context) weight;
  let net_total_less_fees :=
    saturating_sub (saturating_sub total_input_satoshis total_output_satoshis) fees_sats in
  if net_total_less_fees <? our_funding_contribution_satoshis then abort InsufficientFees else
  let remaining_value := saturating_sub net_total_less_fees our_funding_contribution_satoshis in
  if remaining_value <? change_output_dust_limit then Ok None else Ok (Some remaining_value).

(** ** From the funding context to the constructor *)

(** The parts of the channel and of the new funding scope that are read *)
Record FundingView := {
  fv_counterparty_node_id : PublicKey;
  fv_channel_id : ChannelId;
  fv_holder_dust_limit_satoshis : Z;
  fv_channel_ready : bool;
  fv_negotiating_funding : bool;
  fv_is_splice : bool;
  fv_value_satoshis : Z;
  fv_funding_script : Script;
  fv_value_to_self_msat : Z;
}.

Definition fn_into_contributed_inputs_and_outputs (context : FundingNegotiationContext)
    : list OutPoint * list TxOut :=
  (map (fun f => utxo_outpoint (fti_utxo f)) (fn_our_funding_inputs context),
   fn_our_funding_outputs context).

Definition fn_into_negotiation_error (context : FundingNegotiationContext) (reason : AbortReason)
    : NegotiationError :=
  {| ne_reason := reason;
     ne_contributed_inputs := (fn_into_contributed_inputs_and_outputs context).1;
     ne_contributed_outputs := (fn_into_contributed_inputs_and_outputs context).2 |}.

(** The outputs to contribute, with the change output when there is one;
    [destination] is what the signer gives as a script of the wallet *)
Definition outputs_with_change (context : FundingNegotiationContext) (view : FundingView)
    (destination : option Script) (change_value_opt : option Z) : NR (list TxOut) :=
  match change_value_opt with
  | None => Ok (fn_our_funding_outputs context)
  | Some change_value =>
    change_script ← match fn_change_script context with
                    | Some script => Ok script
                    | None => ok_or destination (Fails (InternalError "Error getting change script"))
                    end;
    change_output_fee ← fee_for_weight (fn_funding_feerate_sat_per_1000_weight context)
                          (get_output_weight change_script);
    let change_value_decreased_with_fee := saturating_sub change_value change_output_fee in
    if fv_holder_dust_limit_satoshis view <? change_value_decreased_with_fee
    then Ok (fn_our_funding_outputs context ++
             [{| value := change_value_decreased_with_fee; script_pubkey := change_script |}])
    else Ok (fn_our_funding_outputs context)
  end.

Definition constructor_args (context : FundingNegotiationContext) (view : FundingView)
    (destination : option Script) (entropy : nat -> Bytes) (holder_node_id : PublicKey)
    : NR InteractiveTxConstructorArgs :=
  assert_or (Bool.eqb (bool_decide (is_Some (fn_shared_funding_input context))) (fv_is_splice view))
    "assertion `left == right` failed";;
  assert_or (if bool_decide (is_Some (fn_shared_funding_input context))
             then fv_channel_ready view else fv_negotiating_funding view)
    "assertion failed: matches!(context.channel_state, ..)";;
  let shared_funding_output :=
    {| value := fv_value_satoshis view; script_pubkey := fv_funding_script view |} in
  change_value_opt ←
    (if 0 <? fn_our_funding_contribution context then
       calculate_change_output_value context (bool_decide (is_Some (fn_shared_funding_input context)))
         (script_pubkey shared_funding_output) (fv_holder_dust_limit_satoshis view)
     else Ok None);
  outputs ← outputs_with_change context view destination change_value_opt;
  shared ← shared_output_new shared_funding_output (fv_value_to_self_msat view / 1000);
  Ok {| args_entropy := entropy;
        args_holder_node_id := holder_node_id;
        args_counterparty_node_id := fv_counterparty_node_id view;
        args_channel_id := fv_channel_id view;
        args_feerate_sat_per_kw := fn_funding_feerate_sat_per_1000_weight context;
        args_is_initiator := fn_is_initiator context;
        args_funding_tx_locktime := fn_funding_tx_locktime context;
        args_inputs_to_contribute := fn_our_funding_inputs context;
        args_shared_funding_input := fn_shared_funding_input context;
        args_shared_funding_output := shared;
        args_outputs_to_contribute := outputs |}.

(** An error before the constructor exists gives back the holder's inputs and outputs *)
Definition into_interactive_tx_constructor `{HashOrder} (context : FundingNegotiationContext)
    (view : FundingView) (destination : option Script) (entropy : nat -> Bytes)
    (holder_node_id : PublicKey) : result (Fault NegotiationError) InteractiveTxConstructor :=
  args ← fault_map (fn_into_negotiation_error context)
           (constructor_args context view destination entropy holder_node_id);
  interactive_tx_constructor_new args.

(** ** Estimates before a negotiation (ln/channel.rs) *)

(** [txout_weight]: the weight of an output; [p2wsh_script]: the script of a
    P2WSH output with an all-zero hash *)
Definition estimate_v2_funding_transaction_fee {E} (txout_weight : TxOut -> Z) (p2wsh_script : Script)
    (funding_inputs : list FundingTxInput) (outputs : list TxOut) (is_initiator is_splice : bool)
    (feerate : Z) : result (Fault E) Z :=
  let input_weight := sat_fold (fun f => sat_add BASE_INPUT_WEIGHT (utxo_satisfaction_weight (fti_utxo f)))
                        funding_inputs in
  let output_weight := sat_fold txout_weight outputs in
  let weight := sat_add input_weight output_weight in
  let weight :=
    if is_initiator then
      let weight := sat_add (sat_add weight TX_COMMON_FIELDS_WEIGHT) (get_output_weight p2wsh_script) in
      if is_splice then
        sat_add (sat_add (sat_add weight BASE_INPUT_WEIGHT) EMPTY_SCRIPT_SIG_WEIGHT)
          FUNDING_TRANSACTION_WITNESS_WEIGHT - 1
      else weight
    else weight in
  fee_for_weight feerate weight.

(** [as i64] of a [u64] *)
Definition u64_as_i64 (n : Z) : Z := if n <? 2 ^ 63 then n else n - 2 ^ 64.
Definition i64_checked_add (a b : Z) : option Z :=
  if (- 2 ^ 63 <=? a + b) && (a + b <? 2 ^ 63) then Some (a + b) else None.

Inductive FundingError :=
| InputSumExceedsSupply
| ContributionPlusFeeExceedsSupply
| InputsTooLow (total contribution fee : Z).

Definition check_v2_funding_inputs_sufficient (txout_weight : TxOut -> Z) (p2wsh_script : Script)
    (contribution_amount : Z) (funding_inputs : list FundingTxInput) (is_initiator is_splice : bool)
    (feerate : Z) : result (Fault FundingError) Z :=
  estimated_fee ← estimate_v2_funding_transaction_fee txout_weight p2wsh_script funding_inputs []
                    is_initiator is_splice feerate;
  total_input_sats ← ok_or (checked_sum 64 0 (map (fun f => value (utxo_output (fti_utxo f))) funding_inputs))
    (Fails InputSumExceedsSupply);
  minimal_input_amount_needed ← ok_or (i64_checked_add contribution_amount (u64_as_i64 estimated_fee))
    (Fails ContributionPlusFeeExceedsSupply);
  if 2 ^ 63 <=? total_input_sats then Err (Fails InputSumExceedsSupply) else
  if total_input_sats <? minimal_input_amount_needed
  then Err (Fails (InputsTooLow total_input_sats contribution_amount estimated_fee))
  else Ok estimated_fee.

(** ** Sums without saturation *)

Lemma sumZ_cons x l : sumZ (x :: l) = x + sumZ l.
Proof. done. Qed.

Lemma sat_fold_from {A} (f : A -> Z) l acc :
  Forall (fun a => 0 <= f a) l -> 0 <= acc <= umax 64 ->
  foldl (fun acc x => sat_add acc (f x)) acc l = Z.min (acc + sumZ (map f l)) (umax 64).
Proof.
  intros Hl. revert acc. induction Hl as [|a l Ha Hl IH]; intros acc Hacc; cbn [foldl map].
  { unfold sumZ. cbn. lia. }
  assert (0 <= sumZ (map f l)) by (apply sumZ_nonneg; rewrite Forall_map; exact Hl).
  rewrite IH, sumZ_cons by (unfold saturating_add; lia). unfold saturating_add. lia.
Qed.

Lemma sat_fold_sum {A} (f : A -> Z) l :
  Forall (fun a => 0 <= f a) l -> sat_fold f l = Z.min (sumZ (map f l)) (umax 64).
Proof. intros Hl. unfold sat_fold. by rewrite sat_fold_from by done. Qed.

Lemma sum_saturated {A} (g : A -> Z) l :
  Forall (fun a => 0 <= g a) l -> sumZ (map g l) <= umax 64 ->
  sumZ (map (fun a => Z.min (g a) (umax 64)) l) = sumZ (map g l).
Proof.
  induction 1 as [|a l Ha Hl IH]; [done|]. cbn [map]. rewrite !sumZ_cons. intros Hs.
  assert (0 <= sumZ (map g l)) by (apply sumZ_nonneg; rewrite Forall_map; exact Hl).
  rewrite IH by lia. lia.
Qed.

Lemma get_output_weight_nonneg s : 0 <= get_output_weight s.
Proof.
  unfold get_output_weight, WITNESS_SCALE_FACTOR. pose proof (script_encoded_len_bound s). lia.
Qed.

(** A fee that does not overflow *)
Lemma fee_for_weight_Ok {E} rate weight fee :
  0 <= rate -> 0 <= weight -> fee_for_weight (E := E) rate weight = Ok fee ->
  fee = (rate * weight + 999) / 1000.
Proof.
  intros Hr Hw. unfold fee_for_weight.
  intros (p & [-> _]%umul_Ok & (q & [-> _]%uadd_Ok & [= <-])%result_bind_Ok)%result_bind_Ok. f_equal. lia.
Qed.

Definition input_weight (f : FundingTxInput) : Z := BASE_INPUT_WEIGHT + utxo_satisfaction_weight (fti_utxo f).
Definition input_value (f : FundingTxInput) : Z := value (utxo_output (fti_utxo f)).

Lemma sum_inputs_Ok l total weight total' weight' :
  Forall (fun f => 0 <= input_value f /\ 0 <= utxo_satisfaction_weight (fti_utxo f)) l ->
  0 <= total <= umax 64 -> 0 <= weight <= umax 64 ->
  sum_inputs l total weight = Ok (total', weight') ->
  total' = Z.min (total + sumZ (map input_value l)) (umax 64) /\
  weight' = Z.min (weight + sumZ (map input_weight l)) (umax 64).
Proof.
  intros Hl. revert total weight. induction Hl as [|f l [Hv Hw] Hl IH]; intros total weight Ht Hwt; cbn [sum_inputs].
  { intros [= <- <-]. unfold sumZ. cbn. lia. }
  intros (w & [-> _]%uadd_Ok & E)%result_bind_Ok.
  assert (0 <= sumZ (map input_value l) /\ 0 <= sumZ (map input_weight l)) as [? ?].
  { split; apply sumZ_nonneg; rewrite Forall_map; eapply Forall_impl; [exact Hl|tauto|exact Hl|].
    cbn. unfold input_weight, BASE_INPUT_WEIGHT, BASE_INPUT_SIZE, WITNESS_SCALE_FACTOR. lia. }
  assert (0 <= input_weight f) by (unfold input_weight, BASE_INPUT_WEIGHT, BASE_INPUT_SIZE, WITNESS_SCALE_FACTOR; lia).
  apply IH in E; [|unfold saturating_add, input_value in *; lia|unfold saturating_add, input_weight in *; lia].
  cbn [map]. rewrite !sumZ_cons. unfold saturating_add, input_value, input_weight in *. lia.
Qed.

(** ** What the holder owes and pays *)

(** The weight the holder pays for, exactly *)
Definition owed_weight (context : FundingNegotiationContext) (is_splice : bool) (script : Script)
    (outputs : list TxOut) : Z :=
  sumZ (map input_weight (fn_our_funding_inputs context)) +
  sumZ (map (fun out => get_output_weight (script_pubkey out)) outputs) +
  (if fn_is_initiator context then
     get_output_weight script + TX_COMMON_FIELDS_WEIGHT +
     (if is_splice then BASE_INPUT_WEIGHT + EMPTY_SCRIPT_SIG_WEIGHT + FUNDING_TRANSACTION_WITNESS_WEIGHT - 1
      else 0)
   else 0).

Definition owed_fee (context : FundingNegotiationContext) (is_splice : bool) (script : Script)
    (outputs : list TxOut) : Z :=
  (fn_funding_feerate_sat_per_1000_weight context * owed_weight context is_splice script outputs + 999) / 1000.

(** Values and weights are unsigned, and neither the sums of values nor the
    weight reach [2^64] *)
Record amounts_ok (context : FundingNegotiationContext) (is_splice : bool) (script : Script) : Prop := {
  am_inputs : Forall (fun f => 0 <= input_value f /\ 0 <= utxo_satisfaction_weight (fti_utxo f))
                (fn_our_funding_inputs context);
  am_outputs : Forall (fun out => 0 <= value out) (fn_our_funding_outputs context);
  am_input_sum : sumZ (map input_value (fn_our_funding_inputs context)) <= umax 64;
  am_output_sum : sumZ (map value (fn_our_funding_outputs context)) <= umax 64;
  am_weight : owed_weight context is_splice script (fn_our_funding_outputs context) < umax 64;
  am_feerate : 0 <= fn_funding_feerate_sat_per_1000_weight context;
}.

Lemma sum_inputs_panics l t w e : sum_inputs l t w = Err e -> exists why, e = Panics why.
Proof.
  revert t w. induction l as [|f l IH]; intros t w; cbn [sum_inputs]; [done|]. unfold uadd.
  destruct (is_uint _ _); cbn [mbind result_bind]; [apply IH|]. intros [= <-]. eauto.
Qed.

Lemma fee_for_weight_panics {E} rate weight (e : Fault E) :
  fee_for_weight rate weight = Err e -> exists why, e = Panics why.
Proof.
  unfold fee_for_weight, umul, uadd. destruct (is_uint _ _); cbn; [|by intros [= <-]; eauto].
  destruct (is_uint _ _); cbn; [done|]. intros [= <-]. eauto.
Qed.

Lemma sat_add_exact a b : 0 <= a -> 0 <= b -> a + b <= umax 64 -> sat_add a b = a + b.
Proof. unfold saturating_add. lia. Qed.

Lemma owed_weight_exact context is_splice script outputs weight :
  Forall (fun f => 0 <= input_value f /\ 0 <= utxo_satisfaction_weight (fti_utxo f))
    (fn_our_funding_inputs context) ->
  weight = Z.min (sumZ (map input_weight (fn_our_funding_inputs context))) (umax 64) ->
  owed_weight context is_splice script outputs < umax 64 ->
  let w := sat_add (sat_fold (fun out => get_output_weight (script_pubkey out)) outputs) weight in
  (if fn_is_initiator context then initiator_weight is_splice script w else w) =
    owed_weight context is_splice script outputs /\ 0 <= owed_weight context is_splice script outputs.
Proof.
  intros Hi -> Hw. cbv zeta. rewrite sat_fold_sum by (apply Forall_true; intros; apply get_output_weight_nonneg).
  assert (0 <= sumZ (map input_weight (fn_our_funding_inputs context))) as Hni.
  { apply sumZ_nonneg. rewrite Forall_map. eapply Forall_impl; [exact Hi|].
    cbn. unfold input_weight, BASE_INPUT_WEIGHT, BASE_INPUT_SIZE, WITNESS_SCALE_FACTOR. lia. }
  assert (0 <= sumZ (map (fun out => get_output_weight (script_pubkey out)) outputs)) as Hno.
  { apply sumZ_nonneg. rewrite Forall_map. apply Forall_true. intros. apply get_output_weight_nonneg. }
  pose proof (get_output_weight_nonneg script) as Hs. revert Hw Hni Hno.
  unfold owed_weight, initiator_weight.
  generalize (sumZ (map input_weight (fn_our_funding_inputs context))) as x.
  generalize (sumZ (map (fun out => get_output_weight (script_pubkey out)) outputs)) as y. intros y x.
  assert (TX_COMMON_FIELDS_WEIGHT = 42 /\ BASE_INPUT_WEIGHT = 160 /\ EMPTY_SCRIPT_SIG_WEIGHT = 4 /\
          FUNDING_TRANSACTION_WITNESS_WEIGHT = 220) as (-> & -> & -> & ->) by done.
  intros Hw Hni Hno.
  destruct (fn_is_initiator context), is_splice; unfold saturating_add; lia.
Qed.

Lemma calculate_change_output_value_spec context is_splice script dust :
  amounts_ok context is_splice script ->
  (exists why, calculate_change_output_value context is_splice script dust = Err (Panics why)) \/
  let left := sumZ (map input_value (fn_our_funding_inputs context)) -
              sumZ (map value (fn_our_funding_outputs context)) -
              fn_our_funding_contribution context -
              owed_fee context is_splice script (fn_our_funding_outputs context) in
  0 < fn_our_funding_contribution context /\
  calculate_change_output_value context is_splice script dust =
    if left <? 0 then abort InsufficientFees else if left <? dust then Ok None else Ok (Some left).
Proof.
  intros []. unfold calculate_change_output_value.
  destruct (Z.ltb_spec 0 (fn_our_funding_contribution context)) as [Hc|Hc]; [|left; by eexists].
  unfold assert_or, ensure. cbn [mbind result_bind].
  destruct (sum_inputs (fn_our_funding_inputs context) 0 0) as [[total weight]|e] eqn:Es; cbn [mbind result_bind].
  2: { apply sum_inputs_panics in Es as [why ->]. left. by eexists. }
  apply sum_inputs_Ok in Es as [-> Ew]; [|done|done|done].
  destruct (owed_weight_exact context is_splice script (fn_our_funding_outputs context) weight)
    as [Hw Hwn]; [done|exact Ew|done|]. cbv zeta in Hw |- *. rewrite Hw.
  destruct (fee_for_weight (E := AbortReason) _ _) as [fee|e] eqn:Ef; cbn [mbind result_bind].
  2: { apply fee_for_weight_panics in Ef as [why ->]. left. by eexists. }
  right. split; [done|]. apply fee_for_weight_Ok in Ef; [|done..].
  change (fee = owed_fee context is_splice script (fn_our_funding_outputs context)) in Ef. rewrite <- Ef.
  rewrite sat_fold_sum by done. rewrite !Z.min_l by done.
  assert (0 <= fee).
  { rewrite Ef. unfold owed_fee. apply Z.div_pos; [|done]. nia. }
  unfold saturating_sub.
  set (x := sumZ (map input_value _)) in *. set (y := sumZ (map value _)) in *.
  destruct (Z.ltb_spec (Z.max 0 (Z.max 0 (0 + x - y) - fee)) (fn_our_funding_contribution context)),
    (Z.ltb_spec (x - y - fn_our_funding_contribution context - fee) 0); try lia; [done|].
  rewrite (Z.max_r 0 (0 + x - y)) by lia. rewrite (Z.max_r 0 (0 + x - y - fee)) by lia. rewrite Z.max_r by lia.
  replace (0 + x - y - fee - fn_our_funding_contribution context)
    with (x - y - fn_our_funding_contribution context - fee) by lia. done.
Qed.

Lemma owed_weight_snoc context is_splice script outputs out :
  owed_weight context is_splice script (outputs ++ [out]) =
  owed_weight context is_splice script outputs + get_output_weight (script_pubkey out).
Proof. unfold owed_weight. rewrite map_app, sumZ_app. unfold sumZ at 3. cbn. lia. Qed.

(** Rounding up twice costs at most one satoshi *)
Lemma ceil_sum a b :
  0 <= a -> 0 <= b -> (a + b + 999) / 1000 <= (a + 999) / 1000 + (b + 999) / 1000 <= (a + b + 999) / 1000 + 1.
Proof.
  intros Ha Hb. pose proof (Z.div_mod (a + b + 999) 1000). pose proof (Z.mod_pos_bound (a + b + 999) 1000).
  pose proof (Z.div_mod (a + 999) 1000). pose proof (Z.mod_pos_bound (a + 999) 1000).
  pose proof (Z.div_mod (b + 999) 1000). pose proof (Z.mod_pos_bound (b + 999) 1000). lia.
Qed.


Lemma fee_for_weight_bound {E} rate weight fee :
  fee_for_weight (E := E) rate weight = Ok fee -> fee < 2 ^ 63.
Proof.
  unfold fee_for_weight. intros (p & _ & (q & [-> Hq]%uadd_Ok & [= <-])%result_bind_Ok)%result_bind_Ok.
  unfold is_uint, umax in Hq. apply andb_true_iff in Hq as [_ Hq%Z.leb_le].
  apply Z.div_lt_upper_bound; lia.
Qed.

(** The estimate made before a negotiation is the fee the holder will owe *)
Lemma estimate_is_owed {E} txout_weight p2wsh_script context is_splice script fee :
  amounts_ok context is_splice script -> fn_our_funding_outputs context = [] ->
  script_encoded_len p2wsh_script = script_encoded_len script ->
  estimate_v2_funding_transaction_fee (E := E) txout_weight p2wsh_script (fn_our_funding_inputs context) []
    (fn_is_initiator context) is_splice (fn_funding_feerate_sat_per_1000_weight context) = Ok fee ->
  fee = owed_fee context is_splice script [].
Proof.
  intros [] Ho Hlen. rewrite Ho in am_weight0. unfold estimate_v2_funding_transaction_fee.
  destruct (owed_weight_exact context is_splice script [] _ am_inputs0 eq_refl am_weight0) as [_ Hwn].
  assert (0 <= sumZ (map input_weight (fn_our_funding_inputs context)) <=
          owed_weight context is_splice script []) as Hin.
  { split.
    - apply sumZ_nonneg. rewrite Forall_map. eapply Forall_impl; [exact am_inputs0|].
      cbn. unfold input_weight, BASE_INPUT_WEIGHT, BASE_INPUT_SIZE, WITNESS_SCALE_FACTOR. lia.
    - unfold owed_weight. change (sumZ (map _ [])) with 0. pose proof (get_output_weight_nonneg script).
      unfold TX_COMMON_FIELDS_WEIGHT, BASE_INPUT_WEIGHT, BASE_INPUT_SIZE, EMPTY_SCRIPT_SIG_WEIGHT,
        FUNDING_TRANSACTION_WITNESS_WEIGHT, MAX_STANDARD_SIGNATURE_SIZE, MULTISIG_SCRIPT_SIZE,
        COMPRESSED_PUBLIC_KEY_SIZE, WITNESS_SCALE_FACTOR.
      destruct (fn_is_initiator context), is_splice; lia. }
  assert (sat_fold (fun f => sat_add BASE_INPUT_WEIGHT (utxo_satisfaction_weight (fti_utxo f)))
            (fn_our_funding_inputs context) = sumZ (map input_weight (fn_our_funding_inputs context))) as ->.
  { rewrite sat_fold_sum.
    - rewrite (sum_saturated input_weight); [lia| |lia].
      eapply Forall_impl; [exact am_inputs0|].
      cbn. unfold input_weight, BASE_INPUT_WEIGHT, BASE_INPUT_SIZE, WITNESS_SCALE_FACTOR. lia.
    - eapply Forall_impl; [exact am_inputs0|]. cbn.
      unfold saturating_add, umax, BASE_INPUT_WEIGHT, BASE_INPUT_SIZE, WITNESS_SCALE_FACTOR. lia. }
  change (sat_fold txout_weight []) with 0.
  assert (get_output_weight p2wsh_script = get_output_weight script) as -> by (unfold get_output_weight; by rewrite Hlen).
  intros Ef. apply fee_for_weight_Ok in Ef; [|done|].
  all: revert Hin am_weight0 Hwn; revert Ef || idtac; unfold owed_fee, owed_weight;
    change (sumZ (map (fun out => get_output_weight (script_pubkey out)) [])) with 0;
    pose proof (get_output_weight_nonneg script);
    generalize (sumZ (map input_weight (fn_our_funding_inputs context))) as x; intros x;
    assert (TX_COMMON_FIELDS_WEIGHT = 42 /\ BASE_INPUT_WEIGHT = 160 /\ EMPTY_SCRIPT_SIG_WEIGHT = 4 /\
            FUNDING_TRANSACTION_WITNESS_WEIGHT = 220) as (-> & -> & -> & ->) by done;
    unfold saturating_add.
  - intros -> Hin Hw Hwn. do 3 f_equal. destruct (fn_is_initiator context), is_splice; lia.
  - intros Hin Hw Hwn. destruct (fn_is_initiator context), is_splice; lia.
Qed.


End funding_input.
