(* ===== verification/LnDemo.v ===== *)
(** * Interactive transaction construction: a worked negotiation

    A dual-funded channel between two peers, with a concrete instance of the
    classes: it shows that the hypotheses of the theorems can hold, and two
    behaviours of the protocol code that its comments do not promise. *)

From stdpp Require Import base gmap list relations.
From Stdlib Require Import ZArith Lia.
From S2P Require Import Prelude LnTx LnSession LnMachine LnAgree LnSign LnRun LnSound LnKept LnFunding.
Local Open Scope Z_scope.

(** ** The classes *)

(** Scripts [[0]], [[1]] and [[2]] stand for P2WPKH, P2WSH and P2TR ones; the
    lock time of a transaction serves as its id *)
Definition script_is (n : Z) (s : Script) : bool := bool_decide (s = [n]).

#[local, program] Instance demo_bitcoin : Bitcoin := {|
  compute_txid := lock_time;
  tx_weight t := 40 + 164 * Z.of_nat (length (input t)) + 136 * Z.of_nat (length (output t));
  is_p2wpkh := script_is 0;
  is_p2wsh := script_is 1;
  is_p2tr := script_is 2;
  is_witness_program s := script_is 0 s || script_is 1 s || script_is 2 s;
  witness_version s := if script_is 2 s then Some 1 else if script_is 0 s || script_is 1 s then Some 0 else None;
  minimal_non_dust _ := 294;
  script_encoded_len _ := 35;
  serialize k := k;
|}.
Next Obligation. lia. Qed.
Next Obligation. done. Qed.

#[local, program] Instance demo_order : HashOrder := {| hash_iter A m := map_to_list m |}.
Next Obligation. done. Qed.

(** The other peer iterates its maps backwards *)
#[local, program] Definition other_order : HashOrder := {| hash_iter A m := reverse (map_to_list m) |}.
Next Obligation. intros. apply reverse_Permutation. Qed.

(** A signature is valid for the key with the same bytes *)
#[local] Instance demo_signatures : Signatures := {|
  ecdsa_from_slice b := Some (b, SighashAll);
  public_key_from_slice b := Some b;
  p2wpkh_signature_hash _ _ _ _ := Some [];
  verify_ecdsa _ sig key := bool_decide (sig = key);
  push_bytes_at_1 s := Some s;
  x_only_from_slice b := Some b;
  taproot_from_slice b := Some (b, TapAll);
  taproot_key_spend_signature_hash _ _ _ _ := Some [];
  verify_schnorr _ sig key := bool_decide (sig = key);
  sighash_all_bytes sig := sig;
|}.

(** ** The peers *)

Definition prevtx (id sats : Z) : Transaction :=
  {| version := 2; lock_time := id; input := [];
     output := [{| value := sats; script_pubkey := [0] |}] |}.

Definition funding_txout : TxOut := {| value := 100000; script_pubkey := [1] |}.
Definition funding_for (local_owned : Z) : SharedOwnedOutput :=
  {| sho_tx_out := funding_txout; sho_local_owned := local_owned |}.

Definition offered (id sats : Z) : FundingTxInput :=
  {| fti_utxo := {| utxo_outpoint := {| op_txid := id; op_vout := 0 |};
                    utxo_output := {| value := sats; script_pubkey := [0] |};
                    utxo_satisfaction_weight := 111 |};
     fti_sequence := ENABLE_RBF_NO_LOCKTIME;
     fti_prevtx := prevtx id sats |}.

Definition alice : PublicKey := [2; 7].
Definition bob : PublicKey := [3; 1].

(** Bob, who accepts the channel, puts in 40,000 satoshis and takes change *)
Definition bob_args : InteractiveTxConstructorArgs :=
  {| args_entropy n := [0; 0; 0; 0; 0; 0; 0; 10 * Z.of_nat n];
     args_holder_node_id := bob;
     args_counterparty_node_id := alice;
     args_channel_id := 1;
     args_feerate_sat_per_kw := 1000;
     args_is_initiator := false;
     args_funding_tx_locktime := 500;
     args_inputs_to_contribute := [offered 8 50000];
     args_shared_funding_input := None;
     args_shared_funding_output := funding_for 40000;
     args_outputs_to_contribute := [{| value := 9000; script_pubkey := [0] |}] |}.

(** The messages of the negotiation; Alice's ids are even, Bob's odd *)
Definition add_input (serial id sats : Z) : TxAddInput :=
  {| tai_channel_id := 1; tai_serial_id := serial; tai_prevtx := Some (prevtx id sats);
     tai_prevtx_out := 0; tai_sequence := ENABLE_RBF_NO_LOCKTIME; tai_shared_input_txid := None |}.
Definition add_output (serial sats : Z) (script : Script) : TxAddOutput :=
  {| tao_channel_id := 1; tao_serial_id := serial; tao_sats := sats; tao_script := script |}.

Definition demo_messages : list TxMsg :=
  [ MsgAddInput (add_input 4 7 80000) 111;  MsgAddInput (add_input 1 8 50000) 111;
    MsgAddOutput (add_output 6 100000 [1]); MsgAddOutput (add_output 11 9000 [0]);
    MsgAddOutput (add_output 2 18000 [0]);  MsgComplete;
    MsgComplete ].

Definition demo_conversation : NR (StateMachine * StateMachine) :=
  converse demo_order other_order
    (state_machine_new alice bob 1000 true 500 None (funding_for 60000))
    (state_machine_new bob alice 1000 false 500 None (funding_for 40000))
    demo_messages.

Definition no_session : InteractiveTxSigningSession :=
  {| ss_unsigned_tx := assemble_tx (negotiation_context_new [] [] true None (funding_for 0) 0 0);
     ss_holder_sends_tx_signatures_first := false; ss_has_received_commitment_signed := false;
     ss_shared_input_signature := None; ss_holder_tx_signatures := None;
     ss_counterparty_tx_signatures := None |}.

Definition session_of (sm : StateMachine) : InteractiveTxSigningSession :=
  match sm with NegotiationComplete s => s | _ => no_session end.

(** After seven messages it would be Bob's turn *)
Definition bob_session : InteractiveTxSigningSession :=
  match demo_conversation with Ok (x, _) => session_of x | Err _ => no_session end.
Definition alice_session : InteractiveTxSigningSession :=
  match demo_conversation with Ok (_, y) => session_of y | Err _ => no_session end.

Lemma peers_agree_witness :
  sessions_agree bob_session alice_session /\ session_ready bob_session /\ session_ready alice_session.
Proof.
  apply (peers_agree alice bob 1000 1000 500 None None (funding_for 60000) (funding_for 40000)
           demo_order other_order demo_messages); [done|done|done|vm_compute; reflexivity].
Defined.

(** ** Signing: Bob has put in less, so he sends first *)

Definition demo_sigs (tx : Transaction) : TxSignatures :=
  {| ts_channel_id := 1; ts_tx_hash := lock_time tx; ts_witnesses := [[[9]; [9]]];
     ts_shared_input_signature := None |}.
Definition bob_sigs : TxSignatures := demo_sigs (ct_tx (ss_unsigned_tx bob_session)).
Definition alice_sigs : TxSignatures := demo_sigs (ct_tx (ss_unsigned_tx alice_session)).

(** The two sides after all four steps *)
Definition bob_side : Side :=
  side_at bob_session bob_sigs alice_sigs
    (match finalize (ss_unsigned_tx bob_session) bob_sigs alice_sigs None with Ok tx => tx | Err _ => prevtx 0 0 end)
    true true true.
Definition alice_side : Side :=
  side_at alice_session alice_sigs bob_sigs
    (match finalize (ss_unsigned_tx bob_session) bob_sigs alice_sigs None with Ok tx => tx | Err _ => prevtx 0 0 end)
    true true true.

Lemma demo_agree :
  sessions_agree bob_session alice_session /\ session_ready bob_session /\ session_ready alice_session.
Proof.
  split_and!; constructor; try (vm_compute; reflexivity); try (vm_compute; intros i [=]).
  all: vm_compute; split; intros [? E]; discriminate E.
Qed.

Lemma demo_acceptable : acceptable bob_session bob_sigs /\ acceptable alice_session alice_sigs.
Proof.
  split; (constructor; [vm_compute; reflexivity|vm_compute; reflexivity|]);
    vm_compute; split; intros [? E]; discriminate E.
Qed.

Lemma demo_exchange :
  nsteps (exchange_step bob_sigs alice_sigs) 4
    (signing_side bob_session, signing_side alice_session) (bob_side, alice_side).
Proof.
  eapply nsteps_l. { apply exchange_step_a. eapply side_provides. vm_compute. reflexivity. }
  eapply nsteps_l. { apply exchange_step_b. eapply side_receives; vm_compute; reflexivity. }
  eapply nsteps_l. { apply exchange_step_b. eapply side_provides. vm_compute. reflexivity. }
  eapply nsteps_l. { apply exchange_step_a. eapply side_receives; vm_compute; reflexivity. }
  vm_compute. apply nsteps_O.
Qed.

Lemma signing_completes_witness :
  (4 <= 4)%nat /\
  ((exists e, exchange_step bob_sigs alice_sigs (bob_side, alice_side) e) \/
   exists tx, finalize (ss_unsigned_tx bob_session) bob_sigs alice_sigs
                (ss_shared_input_signature bob_session) = Ok tx /\
     sd_tx bob_side = Some tx /\ sd_tx alice_side = Some tx) /\
  (ss_holder_sends_tx_signatures_first bob_session = false -> sd_inbox alice_side <> [] ->
     has_received_tx_signatures (sd_session bob_side) = true) /\
  (ss_holder_sends_tx_signatures_first alice_session = false -> sd_inbox bob_side <> [] ->
     has_received_tx_signatures (sd_session alice_side) = true).
Proof.
  destruct demo_agree as (A & Rb & Ra). destruct demo_acceptable as [Hb Ha].
  exact (signing_completes bob_session alice_session bob_sigs alice_sigs 4 bob_side alice_side
           A Rb Ra Hb Ha demo_exchange).
Defined.

(** ** Bob's constructor *)

Definition bob_start : InteractiveTxConstructor :=
  match interactive_tx_constructor_new bob_args with Ok k => k | Err _ => initial_constructor bob_args end.

Definition alice_messages : list Incoming :=
  [ InAddInput (add_input 4 7 80000); InAddOutput (add_output 6 100000 [1]);
    InAddOutput (add_output 2 18000 [0]); InComplete {| tc_channel_id := 1 |} ].

Definition bob_end : InteractiveTxConstructor := foldl (fun k m => (handle m k).1) bob_start alice_messages.

(** Every message is accepted on the way *)
Fixpoint all_accepted (ms : list Incoming) (k : InteractiveTxConstructor) : bool :=
  match ms with
  | [] => true
  | m :: ms => is_ok (handle m k).2 && all_accepted ms (handle m k).1
  end.

Lemma reachable_foldl (args : InteractiveTxConstructorArgs) ms n k :
  reachable args n k -> all_accepted ms k = true ->
  reachable args (length ms + n) (foldl (fun k m => (handle m k).1) k ms).
Proof.
  revert n k. induction ms as [|m ms IH]; intros n k R; [done|]. cbn [foldl length all_accepted].
  intros [Hm Hms]%andb_true_iff. replace (S (length ms) + n)%nat with (length ms + S n)%nat by lia.
  apply IH; [|done]. apply (reachable_handle _ _ k m); [exact R|].
  destruct (handle m k) as [k' [[]|e]]; done.
Qed.

Lemma bob_reachable : reachable bob_args 4 bob_end.
Proof.
  apply (reachable_foldl bob_args alice_messages 0 bob_start); [|vm_compute; reflexivity].
  constructor. vm_compute. reflexivity.
Qed.

Lemma negotiation_ends_witness :
  Z.of_nat 4 <= 4 * 4096 + Z.of_nat (length (owned_inputs bob_args)) + Z.of_nat (length (owned_outputs bob_args)) + 1.
Proof. exact (negotiation_ends bob_args 4 bob_end bob_reachable). Defined.


Lemma bob_args_ok : args_ok bob_args.
Proof.
  constructor.
  - intros f [->|[]%elem_of_nil]%elem_of_cons. done.
  - intros f sh _ [=].
  - intros o [->|[]%elem_of_nil]%elem_of_cons. done.
  - vm_compute. repeat constructor; intros []%elem_of_nil.
  - vm_compute. repeat constructor; intros []%elem_of_nil.
Qed.

Lemma contributions_kept_witness :
  let t := ss_unsigned_tx (session_of (ic_state_machine bob_end)) in
  filter (fun p => tim_is_local false p.2 = true) (zip (input (ct_tx t)) (ct_input_metadata t)) =
    map input_entry (ic_inputs_to_contribute bob_end) /\
  filter (fun p => tom_is_local false p.2 = true) (zip (output (ct_tx t)) (ct_output_metadata t)) =
    map output_entry (ic_outputs_to_contribute bob_end) /\
  to_contributed_inputs_and_outputs t = ic_contributed_inputs_and_outputs bob_end.
Proof.
  apply (contributions_kept bob_args 4 bob_end (session_of (ic_state_machine bob_end)) bob_args_ok bob_reachable).
  vm_compute. reflexivity.
Defined.

(** ** Alice's contribution *)

Definition alice_context : FundingNegotiationContext :=
  {| fn_is_initiator := true; fn_our_funding_contribution := 60000; fn_funding_tx_locktime := 500;
     fn_funding_feerate_sat_per_1000_weight := 1000; fn_shared_funding_input := None;
     fn_our_funding_inputs := [offered 7 80000]; fn_our_funding_outputs := [];
     fn_change_script := Some [0] |}.

Definition alice_view : FundingView :=
  {| fv_counterparty_node_id := bob; fv_channel_id := 1; fv_holder_dust_limit_satoshis := 354;
     fv_channel_ready := false; fv_negotiating_funding := true; fv_is_splice := false;
     fv_value_satoshis := 100000; fv_funding_script := [1]; fv_value_to_self_msat := 60000000 |}.

Definition alice_args : InteractiveTxConstructorArgs :=
  match constructor_args alice_context alice_view None (args_entropy bob_args) alice with
  | Ok args => args
  | Err _ => bob_args
  end.

Lemma alice_amounts : amounts_ok alice_context false [1].
Proof.
  constructor; [| |vm_compute; congruence|vm_compute; congruence|vm_compute; reflexivity|done].
  - repeat constructor; vm_compute; congruence.
  - constructor.
Qed.


Definition alice_fee : Z :=
  match check_v2_funding_inputs_sufficient (fun _ => 172) [1] 60000 [offered 7 80000] true false 1000 with
  | Ok fee => fee
  | Err _ => 0
  end.


(** ** Behaviours to know *)

(** An input that was removed cannot be added again: its outpoint stays in
    [prevtx_outpoints] *)
Example removed_input_stays_taken :
  let c0 := negotiation_context_new bob alice false None (funding_for 40000) 500 1000 in
  (c1 ← received_tx_add_input c0 (add_input 4 7 80000);
   c2 ← received_tx_remove_input c1 {| tri_channel_id := 1; tri_serial_id := 4 |};
   received_tx_add_input c2 (add_input 6 7 80000)) = abort PrevTxOutInvalid.
Proof. vm_compute. reflexivity. Qed.

(** The initiator of a splice may add the shared outpoint as an ordinary input.
    Its whole value then counts as the initiator's, and the acceptor completes a
    negotiation whose outputs are worth more than its inputs. *)
Definition spliced : SharedOwnedInput :=
  {| sh_input := unsigned_txin {| op_txid := 9; op_vout := 0 |} ENABLE_RBF_NO_LOCKTIME;
     sh_prev_output := {| value := 100000; script_pubkey := [0] |}; sh_local_owned := 50000;
     sh_holder_sig_first := true; sh_witness_script := [3] |}.

Example shared_outpoint_as_own_input :
  let c0 := negotiation_context_new bob alice false (Some spliced) (funding_for 50000) 500 253 in
  let r := (c1 ← received_tx_add_input c0 (add_input 4 9 100000);
            c2 ← received_tx_add_output c1 (add_output 6 100000 [1]);
            c3 ← received_tx_add_output c2 (add_output 8 49000 [0]);
            complete_negotiation c3) in
  match r with
  | Ok s => sumZ (map value (output (ct_tx (ss_unsigned_tx s)))) = 149000 /\
            map (fun m => value (tim_prev_output m)) (ct_input_metadata (ss_unsigned_tx s)) = [100000]
  | Err _ => False
  end.
Proof. vm_compute. done. Qed.

(** The values of the peer's inputs are not checked before they are summed *)
Example input_values_overflow :
  let c0 := negotiation_context_new bob alice false None (funding_for 40000) 500 253 in
  (c1 ← received_tx_add_input c0 (add_input 4 7 (2 ^ 63));
   c2 ← received_tx_add_input c1 (add_input 6 8 (2 ^ 63));
   c3 ← received_tx_add_output c2 (add_output 8 100000 [1]);
   complete_negotiation c3) = Err (Panics "attempt to add with overflow").
Proof. vm_compute. reflexivity. Qed.
