(* ===== verification/LnSecrets.v ===== *)
(** * Revocation secrets of the counterparty

    [ln/chan_utils.rs] of ln-rgb-lightning: a node derives the secret of each of
    its commitment transactions from a seed ([build_commitment_secret]) and keeps
    the secrets its peer has revealed in 49 slots
    ([CounterpartyCommitmentSecrets]), from which each of them can be derived
    again.  The theorems are about that storage: it accepts what an honest peer
    reveals, and every secret it has accepted can be recovered, whoever the peer
    is.  The hash function is a parameter. *)

From stdpp Require Import base list.
From Stdlib Require Import ZArith Lia.
From S2P Require Import Prelude.
Local Open Scope Z_scope.

Definition Secret : Type := list Z.

#[export] Instance Secret_eq_dec : EqDecision Secret.
Proof. unfold Secret. apply _. Defined.

(** The 49 slots: a secret and its index *)
Abbreviation CounterpartyCommitmentSecrets := (list (Secret * Z)).

Section secrets.
Context (sha256 : list Z -> Secret).

(** ** Deriving a secret *)

(** [idx & (1 << bitpos) == (1 << bitpos)] *)
Definition bit_set (idx : Z) (bitpos : nat) : bool :=
  Z.land idx (Z.shiftl 1 (Z.of_nat bitpos)) =? Z.shiftl 1 (Z.of_nat bitpos).

(** [res[bitpos / 8] ^= 1 << (bitpos & 7)] *)
Definition flip_bit (bitpos : nat) (res : Secret) : Secret :=
  alter (fun b => Z.lxor b (Z.shiftl 1 (Z.land (Z.of_nat bitpos) 7))) (bitpos / 8)%nat res.

(** The loop over the bits [bits - 1], ..., 0 *)
Fixpoint derive_secret (secret : Secret) (bits : nat) (idx : Z) : Secret :=
  match bits with
  | O => secret
  | S bitpos =>
    derive_secret (if bit_set idx bitpos then sha256 (flip_bit bitpos secret) else secret) bitpos idx
  end.

(** Its loop over [bitpos = 47 - i] is the one of [derive_secret] *)
Definition build_commitment_secret (commitment_seed : Secret) (idx : Z) : Secret :=
  derive_secret commitment_seed 48 idx.

(** ** The storage *)

Definition secrets_new : CounterpartyCommitmentSecrets := replicate 49 (replicate 32 0, Z.shiftl 1 48).

(** The first bit set, from the bit [i] on, of the [n] bits that remain *)
Fixpoint place_from (i n : nat) (idx : Z) : nat :=
  match n with
  | O => 48
  | S n => if bit_set idx i then i else place_from (S i) n idx
  end.
Definition place_secret (idx : Z) : nat := place_from 0 48 idx.

Definition get_min_seen_secret (c : CounterpartyCommitmentSecrets) : Z :=
  foldl (fun min '(_, idx) => if idx <? min then idx else min) (Z.shiftl 1 48) c.

(** The check against the slots below [pos] *)
Definition consistent_secret (c : CounterpartyCommitmentSecrets) (pos : nat) (secret : Secret) : bool :=
  forallb (fun '(old_secret, old_idx) => bool_decide (derive_secret secret pos old_idx = old_secret)) (take pos c).

Definition provide_secret (idx : Z) (secret : Secret) (c : CounterpartyCommitmentSecrets)
    : result unit CounterpartyCommitmentSecrets :=
  let pos := place_secret idx in
  if negb (consistent_secret c pos secret) then Err tt else
  if get_min_seen_secret c <=? idx then Ok c else
  Ok (<[pos := (secret, idx)]> c).

(** [idx & !((1 << i) - 1)] *)
Definition clear_low (i : nat) (idx : Z) : Z := Z.land idx (Z.lnot (Z.shiftl 1 (Z.of_nat i) - 1)).

Fixpoint get_from (i : nat) (l : CounterpartyCommitmentSecrets) (idx : Z) : option Secret :=
  match l with
  | [] => None
  | (secret, old_idx) :: l =>
    if clear_low i idx =? old_idx then Some (derive_secret secret i idx) else get_from (S i) l idx
  end.

(** An assertion that fails is a panic *)
Definition get_secret (c : CounterpartyCommitmentSecrets) (idx : Z) : result (Fault unit) (option Secret) :=
  match get_from 0 c idx with
  | Some secret => Ok (Some secret)
  | None =>
    if idx <? get_min_seen_secret c then Ok None
    else Err (Panics "assertion failed: idx < self.get_min_seen_secret()")
  end.

(** ** Bits *)

Lemma bit_set_testbit idx n : bit_set idx n = Z.testbit idx (Z.of_nat n).
Proof.
  unfold bit_set. rewrite Z.shiftl_1_l.
  assert (forall m, 0 <= m -> Z.testbit (Z.land idx (2 ^ Z.of_nat n)) m =
            Z.testbit idx m && (Z.of_nat n =? m)) as Hb.
  { intros m Hm. by rewrite Z.land_spec, Z.pow2_bits_eqb by lia. }
  destruct (Z.testbit idx (Z.of_nat n)) eqn:E.
  - apply Z.eqb_eq, Z.bits_inj'. intros m Hm. rewrite Hb, Z.pow2_bits_eqb by lia.
    destruct (Z.eqb_spec (Z.of_nat n) m) as [<-|]; [by rewrite E|]. by destruct (Z.testbit idx m).
  - apply Z.eqb_neq. intros Eq. assert (Z.testbit (2 ^ Z.of_nat n) (Z.of_nat n) = true) as H1.
    { rewrite Z.pow2_bits_eqb by lia. apply Z.eqb_refl. }
    rewrite <- Eq, Hb, E in H1 by lia. done.
Qed.

Lemma clear_low_eq i k : clear_low i k = 2 ^ Z.of_nat i * (k / 2 ^ Z.of_nat i).
Proof.
  unfold clear_low. rewrite Z.shiftl_1_l.
  replace (2 ^ Z.of_nat i - 1) with (Z.ones (Z.of_nat i)) by (rewrite Z.ones_equiv; lia).
  rewrite <- Z.ldiff_land, Z.ldiff_ones_r by lia. rewrite Z.shiftl_mul_pow2, Z.shiftr_div_pow2 by lia. lia.
Qed.

Lemma clear_low_testbit i k n :
  Z.testbit (clear_low i k) (Z.of_nat n) = (i <=? n)%nat && Z.testbit k (Z.of_nat n).
Proof.
  unfold clear_low. rewrite Z.shiftl_1_l.
  replace (2 ^ Z.of_nat i - 1) with (Z.ones (Z.of_nat i)) by (rewrite Z.ones_equiv; lia).
  rewrite <- Z.ldiff_land, Z.ldiff_spec. destruct (Nat.leb_spec i n).
  - rewrite Z.ones_spec_high by lia. by rewrite andb_true_r.
  - rewrite Z.ones_spec_low by lia. by rewrite andb_false_r.
Qed.

Lemma clear_low_le i k : 0 <= k -> 0 <= clear_low i k <= k.
Proof.
  intros Hk. rewrite clear_low_eq. assert (0 < 2 ^ Z.of_nat i) by lia.
  pose proof (Z.mul_div_le k (2 ^ Z.of_nat i)). pose proof (Z.div_pos k (2 ^ Z.of_nat i)). nia.
Qed.

(** ** Derivation bit by bit *)

(** Only the bits below [bits] matter *)
Lemma derive_secret_ext s bits k k' :
  (forall n, (n < bits)%nat -> Z.testbit k (Z.of_nat n) = Z.testbit k' (Z.of_nat n)) ->
  derive_secret s bits k = derive_secret s bits k'.
Proof.
  revert s. induction bits as [|b IH]; intros s Hk; [done|]. cbn [derive_secret].
  rewrite !bit_set_testbit, (Hk b) by lia. apply IH. intros n Hn. apply Hk. lia.
Qed.

(** Bits that are not set change nothing *)
Lemma derive_secret_zero s bits k :
  (forall n, (n < bits)%nat -> Z.testbit k (Z.of_nat n) = false) -> derive_secret s bits k = s.
Proof.
  revert s. induction bits as [|b IH]; intros s Hk; [done|]. cbn [derive_secret].
  rewrite bit_set_testbit, (Hk b) by lia. apply IH. intros n Hn. apply Hk. lia.
Qed.

(** The derivation of [k] passes through that of [k] without its low bits *)
Lemma derive_secret_split s bits i k :
  (i <= bits)%nat -> derive_secret s bits k = derive_secret (derive_secret s bits (clear_low i k)) i k.
Proof.
  revert s. induction bits as [|b IH]; intros s Hi.
  { assert (i = 0)%nat as -> by lia. done. }
  destruct (decide (i = S b)) as [->|Hne].
  { rewrite (derive_secret_zero s (S b) (clear_low (S b) k)); [done|]. intros n Hn. rewrite clear_low_testbit.
    destruct (Nat.leb_spec (S b) n); [lia|done]. }
  cbn [derive_secret]. rewrite !bit_set_testbit, clear_low_testbit.
  destruct (Nat.leb_spec i b); [|lia]. cbn [andb]. apply IH. lia.
Qed.

(** ** Places *)

Lemma place_from_spec i n k :
  (i + n = 48)%nat ->
  (i <= place_from i n k <= 48)%nat /\
  (forall m, (i <= m < place_from i n k)%nat -> Z.testbit k (Z.of_nat m) = false) /\
  ((place_from i n k < 48)%nat -> Z.testbit k (Z.of_nat (place_from i n k)) = true).
Proof.
  revert i. induction n as [|n IH]; intros i Hi; cbn [place_from].
  { split_and!; [lia|lia|intros m Hm; lia|lia]. }
  rewrite bit_set_testbit. destruct (Z.testbit k (Z.of_nat i)) eqn:E.
  { split_and!; [lia|lia|intros m Hm; lia|done]. }
  destruct (IH (S i)) as (H1 & H2 & H3); [lia|]. split_and!; [lia|lia| |done].
  intros m Hm. destruct (decide (m = i)) as [->|]; [done|]. apply H2. lia.
Qed.

Lemma place_secret_spec k :
  (place_secret k <= 48)%nat /\
  (forall m, (m < place_secret k)%nat -> Z.testbit k (Z.of_nat m) = false) /\
  ((place_secret k < 48)%nat -> Z.testbit k (Z.of_nat (place_secret k)) = true).
Proof.
  destruct (place_from_spec 0 48 k) as (H1 & H2 & H3); [done|].
  split_and!; [apply H1|intros m Hm; apply H2; split; [lia|done]|done].
Qed.

Lemma place_secret_unique k i :
  (i <= 48)%nat -> (forall m, (m < i)%nat -> Z.testbit k (Z.of_nat m) = false) ->
  ((i < 48)%nat -> Z.testbit k (Z.of_nat i) = true) -> place_secret k = i.
Proof.
  intros Hi Hlow Hbit. destruct (place_secret_spec k) as (P1 & P2 & P3).
  destruct (Nat.lt_trichotomy (place_secret k) i) as [Hl|[->|Hl]]; [|done|].
  - rewrite Hlow in P3 by done. by specialize (P3 ltac:(lia)).
  - rewrite P2 in Hbit by done. by specialize (Hbit ltac:(lia)).
Qed.

(** A number divides by the power of two of its place *)
Lemma low_bits_zero k i :
  (forall m, (m < i)%nat -> Z.testbit k (Z.of_nat m) = false) <-> k mod 2 ^ Z.of_nat i = 0.
Proof.
  split.
  - intros Hm. apply Z.bits_inj'. intros n Hn. rewrite Z.bits_0.
    destruct (Z.ltb_spec n (Z.of_nat i)).
    + rewrite Z.mod_pow2_bits_low by lia. rewrite <- (Z2Nat.id n) by lia. apply Hm. lia.
    + by rewrite Z.mod_pow2_bits_high by lia.
  - intros E m Hm. rewrite <- (Z.mod_pow2_bits_low k (Z.of_nat i)) by lia. by rewrite E, Z.bits_0.
Qed.

(** ** The invariant of the storage

    [secret k] is the secret that was provided for [k]; those from [n] up to
    [2^48 - 1] have been. *)

Context (secret : Z -> Secret).

Record stored (n : Z) (c : CounterpartyCommitmentSecrets) : Prop := {
  st_length : length c = 49%nat;
  st_slot : forall i s x, c !! i = Some (s, x) ->
    x = 2 ^ 48 \/ n <= x < 2 ^ 48 /\ place_secret x = i /\ s = secret x;
  st_latest : forall y, n <= y < 2 ^ 48 -> y - 2 ^ (Z.of_nat (place_secret y) + 1) < n ->
    c !! place_secret y = Some (secret y, y);
  st_derives : forall i s x k, c !! i = Some (s, x) -> n <= k < 2 ^ 48 -> clear_low i k = x ->
    derive_secret s i k = secret k;
}.

Lemma stored_new : stored (2 ^ 48) secrets_new.
Proof.
  constructor; [done| | |]; try (intros; lia).
  intros i s x [Hs _]%lookup_replicate. injection Hs as _ ->. by left.
Qed.

Lemma foldl_min_le (c : CounterpartyCommitmentSecrets) m :
  foldl (fun min '(_, idx) => if idx <? min then idx else min) m c <= m /\
  (forall s x, (s, x) ∈ c -> foldl (fun min '(_, idx) => if idx <? min then idx else min) m c <= x) /\
  (foldl (fun min '(_, idx) => if idx <? min then idx else min) m c = m \/
   exists s, (s, foldl (fun min '(_, idx) => if idx <? min then idx else min) m c) ∈ c).
Proof.
  revert m. induction c as [|[s x] c IH]; intros m; cbn [foldl].
  { split_and!; [lia|by intros ? ? ?%elem_of_nil|by left]. }
  destruct (IH (if x <? m then x else m)) as (H1 & H2 & H3). split_and!.
  - destruct (Z.ltb_spec x m); lia.
  - intros s' x' [[= -> ->]|Hin]%elem_of_cons; [|by apply (H2 s')]. destruct (Z.ltb_spec x m); lia.
  - destruct H3 as [->|[s' Hin]]; [|right; exists s'; by right].
    destruct (Z.ltb_spec x m); [right; exists s; by left|by left].
Qed.

Lemma stored_min n c : n <= 2 ^ 48 -> stored n c -> n <= get_min_seen_secret c.
Proof.
  intros Hn S. unfold get_min_seen_secret. rewrite Z.shiftl_1_l.
  destruct (foldl_min_le c (2 ^ 48)) as (_ & _ & [->|[s Hin]]); [done|].
  apply list_elem_of_lookup in Hin as [i Hi]. destruct (st_slot _ _ S _ _ _ Hi) as [->|[? _]]; lia.
Qed.

(** ** Providing the next secret *)

(** The number [idx + 2^i] has the place [i], for every [i] below the place of [idx] *)
Lemma place_above idx i :
  (i < place_secret idx)%nat -> place_secret (idx + 2 ^ Z.of_nat i) = i.
Proof.
  intros Hi. destruct (place_secret_spec idx) as (P1 & P2 & _).
  assert (idx mod 2 ^ (Z.of_nat i + 1) = 0) as E.
  { replace (Z.of_nat i + 1) with (Z.of_nat (S i)) by lia. apply low_bits_zero. intros m Hm. apply P2. lia. }
  rewrite Z.pow_add_r, Z.pow_1_r in E by lia.
  apply Z.mod_divide in E as [q ->]; [|lia].
  apply place_secret_unique; [lia| |].
  - apply low_bits_zero. apply Z.mod_divide; [lia|]. exists (q * 2 + 1). lia.
  - intros _. rewrite Z.testbit_odd, Z.shiftr_div_pow2 by lia.
    replace (q * (2 ^ Z.of_nat i * 2) + 2 ^ Z.of_nat i) with ((q * 2 + 1) * 2 ^ Z.of_nat i) by lia.
    rewrite Z.div_mul by lia. rewrite Z.mul_comm. apply Z.odd_spec. by exists q.
Qed.

(** A number above [idx] that [idx]'s slot covers is covered by a lower one *)
Lemma covered_below idx k :
  0 <= idx < k -> clear_low (place_secret idx) k = idx ->
  exists i, (i < place_secret idx)%nat /\ clear_low i k = idx + 2 ^ Z.of_nat i /\ idx + 2 ^ Z.of_nat i <= k.
Proof.
  intros Hk Hc. set (p := place_secret idx) in *. rewrite clear_low_eq in Hc.
  assert (0 < 2 ^ Z.of_nat p) as Hp by lia.
  pose proof (Z.div_mod k (2 ^ Z.of_nat p)) as Hd. pose proof (Z.mod_pos_bound k (2 ^ Z.of_nat p) Hp) as Hm.
  set (r := k - idx). assert (0 < r < 2 ^ Z.of_nat p) as Hr by lia.
  destruct (Z.log2_spec r) as [L1 L2]; [lia|]. pose proof (Z.log2_nonneg r) as L0.
  assert (Z.log2 r < Z.of_nat p) as Hl by (apply Z.log2_lt_pow2; lia).
  exists (Z.to_nat (Z.log2 r)). rewrite clear_low_eq, Z2Nat.id by done. split_and!; [lia| |lia].
  rewrite Z.pow_succ_r in L2 by done.
  assert (exists q, idx = q * 2 ^ Z.log2 r) as [q Hq].
  { exists (2 ^ (Z.of_nat p - Z.log2 r) * (k / 2 ^ Z.of_nat p)).
    rewrite <- Hc at 1. replace (Z.of_nat p) with ((Z.of_nat p - Z.log2 r) + Z.log2 r) at 1 by lia.
    rewrite Z.pow_add_r by lia. lia. }
  replace (k / 2 ^ Z.log2 r) with (q + 1); [lia|].
  apply (Z.div_unique_pos k (2 ^ Z.log2 r) (q + 1) (r - 2 ^ Z.log2 r)); lia.
Qed.

Lemma consistent_slot c pos s i old y :
  consistent_secret c pos s = true -> (i < pos)%nat -> c !! i = Some (old, y) ->
  derive_secret s pos y = old.
Proof.
  unfold consistent_secret. rewrite forallb_forall. intros Hf Hi Hc.
  assert ((old, y) ∈ take pos c) as Hin by (eapply list_elem_of_lookup_2; by rewrite lookup_take_lt).
  apply list_elem_of_In in Hin. apply Hf in Hin. by apply bool_decide_eq_true in Hin.
Qed.

(** Numbers of one place are far apart *)
Lemma same_place_far idx y :
  0 <= idx < y -> y < 2 ^ 48 -> place_secret y = place_secret idx ->
  y < idx + 2 ^ (Z.of_nat (place_secret idx) + 1) -> False.
Proof.
  intros Hy H48 Ep. destruct (place_secret_spec idx) as (P1 & P2 & P3).
  destruct (place_secret_spec y) as (_ & Q2 & Q3). rewrite Ep in Q2, Q3.
  set (p := place_secret idx) in *. rewrite Z.pow_add_r, Z.pow_1_r by lia.
  apply low_bits_zero, Z.mod_divide in P2 as [a Ha]; [|lia].
  apply low_bits_zero, Z.mod_divide in Q2 as [b Hb]; [|lia].
  assert (0 < 2 ^ Z.of_nat p) as Hp by lia. intros Hlt. assert (b = a + 1) as -> by nia.
  destruct (decide (p = 48)%nat) as [E|Hne].
  { rewrite E in Ha, Hb. nia. }
  specialize (P3 ltac:(lia)). specialize (Q3 ltac:(lia)).
  rewrite Z.testbit_odd, Z.shiftr_div_pow2 in P3, Q3 by lia.
  rewrite Ha, Z.div_mul in P3 by lia. rewrite Hb, Z.div_mul in Q3 by lia.
  rewrite Z.odd_add, P3 in Q3. done.
Qed.

Lemma provide_stored n c idx c' :
  stored n c -> n <= 2 ^ 48 -> 0 <= idx -> idx = n - 1 ->
  provide_secret idx (secret idx) c = Ok c' -> stored idx c'.
Proof.
  intros S Hn Hidx ->. unfold provide_secret. cbv zeta.
  destruct (consistent_secret c (place_secret (n - 1)) (secret (n - 1))) eqn:Hcs; [|done]. cbn [negb].
  pose proof (stored_min _ _ Hn S) as Hmin. destruct (Z.leb_spec (get_min_seen_secret c) (n - 1)); [lia|].
  intros [= <-]. set (idx := n - 1) in *. set (p := place_secret idx) in *.
  destruct (place_secret_spec idx) as (P1 & P2 & _). fold p in P1, P2.
  assert (p < length c)%nat as Hp by (rewrite (st_length _ _ S); lia).
  constructor.
  - by rewrite length_insert, (st_length _ _ S).
  - intros i s x [(<- & [= <- <-] & _)|(Hne & Hi)]%list_lookup_insert_Some.
    + right. split_and!; [lia|lia|done|done].
    + destruct (st_slot _ _ S _ _ _ Hi) as [->|(? & ? & ?)]; [by left|right; split_and!; [lia|lia|done|done]].
  - intros y Hy Hl. destruct (decide (y = idx)) as [->|Hne].
    { fold p. by rewrite list_lookup_insert_eq. }
    destruct (decide (place_secret y = p)) as [Ep|Hpy].
    + exfalso. destruct (place_secret_spec y) as (Q1 & Q2 & _). rewrite Ep in Q2, Hl.
      apply (same_place_far idx y); [lia|lia|by rewrite Ep|]. fold p. lia.
    + rewrite list_lookup_insert_ne by done. apply (st_latest _ _ S); [lia|lia].
  - intros i s x k [(<- & [= <- <-] & _)|(Hne & Hi)]%list_lookup_insert_Some Hk Hc.
    + destruct (decide (k = idx)) as [->|Hk'].
      { apply derive_secret_zero. exact P2. }
      destruct (covered_below idx k) as (i & Hi & Hy & Hyk); [lia|done|]. fold p in Hi.
      pose proof (place_above idx i Hi) as Hpl.
      assert (c !! i = Some (secret (idx + 2 ^ Z.of_nat i), idx + 2 ^ Z.of_nat i)) as Hs.
      { rewrite <- Hpl at 1. apply (st_latest _ _ S); [lia|]. rewrite Hpl, Z.pow_add_r by lia. lia. }
      rewrite (derive_secret_split _ p i k) by lia. rewrite Hy, (consistent_slot _ _ _ _ _ _ Hcs Hi Hs).
      apply (st_derives _ _ S i _ _ k Hs); [lia|done].
    + destruct (decide (k = idx)) as [->|]; [|apply (st_derives _ _ S i s x k Hi); [lia|done]].
      exfalso. pose proof (clear_low_le i idx Hidx). destruct (st_slot _ _ S _ _ _ Hi) as [->|[? _]]; lia.
Qed.

(** ** Reading a secret back *)

Lemma get_from_spec i l k :
  (exists j s x, l !! j = Some (s, x) /\ clear_low (i + j) k = x /\
     get_from i l k = Some (derive_secret s (i + j) k)) \/
  (get_from i l k = None /\ forall j s x, l !! j = Some (s, x) -> clear_low (i + j) k <> x).
Proof.
  revert i. induction l as [|[s x] l IH]; intros i; cbn [get_from]; [by right|].
  destruct (Z.eqb_spec (clear_low i k) x) as [E|Hne].
  { left. exists 0%nat, s, x. rewrite Nat.add_0_r. done. }
  destruct (IH (S i)) as [(j & s' & x' & Hj & Hx & Hg)|[Hg Hn]].
  - left. exists (S j), s', x'. rewrite <- Nat.add_succ_comm. done.
  - right. split; [done|]. intros [|j] s' x'; cbn.
    + intros [= <- <-]. by rewrite Nat.add_0_r.
    + intros Hj. rewrite <- Nat.add_succ_comm. by apply (Hn j s').
Qed.

Lemma clear_low_succ b k :
  clear_low b k = clear_low (S b) k + (if Z.testbit k (Z.of_nat b) then 2 ^ Z.of_nat b else 0).
Proof.
  rewrite !clear_low_eq, Z.testbit_odd, Z.shiftr_div_pow2 by lia.
  rewrite Nat2Z.inj_succ, Z.pow_succ_r by lia.
  rewrite (Z.mul_comm 2), <- Z.div_div by lia. set (q := k / 2 ^ Z.of_nat b).
  pose proof (Z.div2_odd q) as Hq. rewrite Z.div2_div in Hq. destruct (Z.odd q); cbn in Hq; nia.
Qed.

(** The slot that covers [k]: the largest number of cleared bits that leaves a
    number not below [n] *)
Lemma covering_slot n k :
  0 <= n <= k -> k < 2 ^ 48 ->
  exists i, n <= clear_low i k /\ place_secret (clear_low i k) = i /\
    clear_low i k - 2 ^ (Z.of_nat i + 1) < n.
Proof.
  intros Hn Hk.
  assert (forall b, (b <= 48)%nat -> clear_low b k < n \/
            (exists i, (b <= i)%nat /\ n <= clear_low i k /\ place_secret (clear_low i k) = i /\
               clear_low i k - 2 ^ (Z.of_nat i + 1) < n)) as Hb.
  { intros b Hb. replace b with (48 - (48 - b))%nat by lia. generalize (48 - b)%nat as d. clear b Hb.
    induction d as [|d IH].
    - rewrite Nat.sub_0_r. destruct (Z.ltb_spec (clear_low 48 k) n); [by left|right].
      assert (clear_low 48 k = 0) as E by (rewrite clear_low_eq, Z.div_small by (cbn; lia); lia).
      exists 48%nat. rewrite E in *. split_and!; [done|done|by vm_compute|cbn; lia].
    - destruct (decide (d < 48)%nat) as [Hd|Hd]; [|replace (48 - S d)%nat with (48 - d)%nat by lia; exact IH].
      set (b := (48 - S d)%nat). replace (48 - d)%nat with (S b) in IH by lia.
      destruct IH as [Hlt|(i & Hi & ?)]; [|right; exists i; split; [lia|done]].
      destruct (Z.ltb_spec (clear_low b k) n) as [|Hge]; [by left|right]. exists b.
      pose proof (clear_low_succ b k) as E. destruct (Z.testbit k (Z.of_nat b)) eqn:Eb; [|lia].
      split_and!; [done|done| |rewrite Z.pow_add_r by lia; lia].
      apply place_secret_unique; [lia| |].
      + intros m Hm. rewrite clear_low_testbit. destruct (Nat.leb_spec b m); [lia|done].
      + intros _. rewrite clear_low_testbit, Eb. by destruct (Nat.leb_spec b b); [|lia]. }
  destruct (Hb 0%nat) as [H0|(i & _ & Hi)]; [lia| |by exists i].
  exfalso. rewrite clear_low_eq in H0. cbn in H0. rewrite Z.div_1_r in H0. lia.
Qed.

Lemma get_secret_spec n c k :
  stored n c -> 0 <= n <= 2 ^ 48 -> 0 <= k < 2 ^ 48 ->
  get_secret c k = Ok (if n <=? k then Some (secret k) else None).
Proof.
  intros S Hn Hk. unfold get_secret.
  destruct (get_from_spec 0 c k) as [(j & s & x & Hj & Hx & ->)|[-> Hnone]]; cbn [Nat.add] in *.
  - pose proof (clear_low_le j k (proj1 Hk)).
    destruct (st_slot _ _ S _ _ _ Hj) as [->|(Hx' & _)]; [lia|].
    rewrite (proj2 (Z.leb_le n k)) by lia. do 2 f_equal. apply (st_derives _ _ S j s x k Hj); [lia|done].
  - destruct (Z.leb_spec n k) as [Hnk|Hnk].
    + exfalso. destruct (covering_slot n k) as (i & Hi & Hp & Hl); [lia|lia|].
      pose proof (clear_low_le i k (proj1 Hk)).
      apply (Hnone i (secret (clear_low i k)) (clear_low i k)); [|done].
      rewrite <- Hp at 1. apply (st_latest _ _ S); [lia|]. by rewrite Hp.
    + pose proof (stored_min n c (proj2 Hn) S). by rewrite (proj2 (Z.ltb_lt k _)) by lia.
Qed.

(** ** Secrets revealed one after the other *)

(** The peer reveals the secrets of [2^48 - 1], [2^48 - 2], ..., [m] of them *)
Fixpoint provide_down (m : nat) : result unit CounterpartyCommitmentSecrets :=
  match m with
  | O => Ok secrets_new
  | S m' => c ← provide_down m'; provide_secret (2 ^ 48 - Z.of_nat m) (secret (2 ^ 48 - Z.of_nat m)) c
  end.

Lemma provide_down_stored m c :
  Z.of_nat m <= 2 ^ 48 -> provide_down m = Ok c -> stored (2 ^ 48 - Z.of_nat m) c.
Proof.
  revert c. induction m as [|m IH]; intros c Hm.
  { intros [= <-]. rewrite Z.sub_0_r. apply stored_new. }
  cbn [provide_down]. intros (c0 & E & Hc)%result_bind_Ok.
  apply (provide_stored (2 ^ 48 - Z.of_nat m) c0); [apply IH; [lia|done]|lia|lia|lia|done].
Qed.

End secrets.

(** C18. Whatever the peer reveals: if the secrets of the commitments [2^48 - 1]
    down to [2^48 - m] were accepted one after the other, then [get_secret] gives
    back each of them as it was provided, though only 49 are kept; for an older
    index it returns [None], and its assertion does not fail. *)
Theorem secrets_recovered (sha256 : list Z -> Secret) (secret : Z -> Secret) (m : nat)
    (c : CounterpartyCommitmentSecrets) (k : Z) :
  Z.of_nat m <= 2 ^ 48 -> provide_down sha256 secret m = Ok c -> 0 <= k < 2 ^ 48 ->
  get_secret sha256 c k = Ok (if 2 ^ 48 - Z.of_nat m <=? k then Some (secret k) else None).
Proof.
  intros Hm E Hk. apply (get_secret_spec sha256 secret); [by apply provide_down_stored|lia|done].
Qed.

(** A secret gives all those its slot covers *)
Lemma build_covers sha256 seed p y :
  (p <= 48)%nat ->
  derive_secret sha256 (build_commitment_secret sha256 seed (clear_low p y)) p y =
  build_commitment_secret sha256 seed y.
Proof. intros Hp. unfold build_commitment_secret. symmetry. by apply derive_secret_split. Qed.

Section honest.
Context (sha256 : list Z -> Secret) (secret : Z -> Secret).
Context (Hcovers : forall p y, (p <= 48)%nat -> derive_secret sha256 (secret (clear_low p y)) p y = secret y).

Lemma multiple_below a b p m : 0 < p -> m = b * p -> a * p < m -> a * p + p <= m.
Proof. intros Hp -> Hlt. assert (a < b) by (by apply (Z.mul_lt_mono_pos_r p)). nia. Qed.

Lemma honest_consistent n c :
  stored sha256 secret n c -> 1 <= n <= 2 ^ 48 ->
  consistent_secret sha256 c (place_secret (n - 1)) (secret (n - 1)) = true.
Proof.
  intros S Hn. unfold consistent_secret. apply forallb_forall. intros [old y] Hin.
  apply list_elem_of_In, list_elem_of_lookup in Hin as [i Hi]. apply lookup_take_Some in Hi as [Hi Hlt].
  apply bool_decide_eq_true. set (idx := n - 1) in *. set (p := place_secret idx) in *.
  destruct (place_secret_spec idx) as (P1 & P2 & _). fold p in P1, P2.
  pose proof (place_above idx i Hlt) as Hpl.
  apply low_bits_zero, Z.mod_divide in P2 as [a Ha]; [|lia].
  assert (2 ^ Z.of_nat i < 2 ^ Z.of_nat p) as Hip by (apply Z.pow_lt_mono_r; lia).
  assert (0 < 2 ^ Z.of_nat i) as Hi0 by lia.
  assert (2 ^ 48 = 2 ^ (48 - Z.of_nat p) * 2 ^ Z.of_nat p) as H48 by (rewrite <- Z.pow_add_r by lia; f_equal; lia).
  assert (idx + 2 ^ Z.of_nat p <= 2 ^ 48) as Hb.
  { rewrite Ha at 1. apply (multiple_below a (2 ^ (48 - Z.of_nat p))); [lia|exact H48|]. rewrite <- Ha. lia. }
  assert (c !! i = Some (secret (idx + 2 ^ Z.of_nat i), idx + 2 ^ Z.of_nat i)) as Hs.
  { rewrite <- Hpl at 1. apply (st_latest _ _ _ _ S); [lia|]. rewrite Hpl, Z.pow_add_r by lia. lia. }
  rewrite Hi in Hs. injection Hs as -> ->.
  assert (clear_low p (idx + 2 ^ Z.of_nat i) = idx) as Hcl.
  { rewrite clear_low_eq. replace ((idx + 2 ^ Z.of_nat i) / 2 ^ Z.of_nat p) with a; [lia|].
    apply (Z.div_unique_pos _ _ a (2 ^ Z.of_nat i)); lia. }
  pose proof (Hcovers p (idx + 2 ^ Z.of_nat i) P1) as Hy. by rewrite Hcl in Hy.
Qed.

Lemma honest_accepted m :
  Z.of_nat m <= 2 ^ 48 -> exists c, provide_down sha256 secret m = Ok c.
Proof.
  induction m as [|m IH]; intros Hm; [by eexists|]. destruct IH as [c Hc]; [lia|]. cbn [provide_down].
  rewrite Hc. cbn [mbind result_bind].
  pose proof (provide_down_stored sha256 secret m c ltac:(lia) Hc) as S.
  replace (2 ^ 48 - Z.of_nat (Datatypes.S m)) with (2 ^ 48 - Z.of_nat m - 1) by lia.
  unfold provide_secret. cbv zeta. rewrite (honest_consistent _ _ S) by lia. cbn [negb].
  case_match; by eexists.
Qed.

End honest.

(** C38. A peer that derives its secrets from a seed and reveals them in order is
    never refused, and each of the secrets it has revealed can be recovered: the
    compact storage and [build_commitment_secret] fit together. *)
Theorem honest_secrets_recovered (sha256 : list Z -> Secret) (seed : Secret) (m : nat) :
  Z.of_nat m <= 2 ^ 48 ->
  exists c, provide_down sha256 (build_commitment_secret sha256 seed) m = Ok c /\
    forall k, 2 ^ 48 - Z.of_nat m <= k < 2 ^ 48 ->
      get_secret sha256 c k = Ok (Some (build_commitment_secret sha256 seed k)).
Proof.
  intros Hm. destruct (honest_accepted sha256 _ (build_covers sha256 seed) m Hm) as [c Hc]. exists c. split; [exact Hc|].
  intros k Hk. rewrite (get_secret_spec sha256 _ _ _ k (provide_down_stored _ _ _ _ Hm Hc)) by lia.
  by rewrite (proj2 (Z.leb_le _ k)) by lia.
Qed.

(** A hash for examples: the sum of the bytes in front *)
Definition demo_hash (l : list Z) : Secret := (foldr Z.add 0 l * 7 + 1) mod 256 :: take 31 l.

Definition demo_revealed : CounterpartyCommitmentSecrets :=
  match provide_down demo_hash (build_commitment_secret demo_hash (replicate 32 5)) 6 with
  | Ok c => c
  | Err _ => []
  end.

Lemma secrets_recovered_witness :
  get_secret demo_hash demo_revealed (2 ^ 48 - 3) =
    Ok (if 2 ^ 48 - Z.of_nat 6 <=? 2 ^ 48 - 3
        then Some (build_commitment_secret demo_hash (replicate 32 5) (2 ^ 48 - 3)) else None).
Proof.
  apply (secrets_recovered demo_hash (build_commitment_secret demo_hash (replicate 32 5)) 6 demo_revealed);
    [lia|vm_compute; reflexivity|lia].
Defined.

Lemma honest_secrets_recovered_witness :
  exists c, provide_down demo_hash (build_commitment_secret demo_hash (replicate 32 5)) 6 = Ok c /\
    forall k, 2 ^ 48 - Z.of_nat 6 <= k < 2 ^ 48 ->
      get_secret demo_hash c k = Ok (Some (build_commitment_secret demo_hash (replicate 32 5) k)).
Proof. apply (honest_secrets_recovered demo_hash (replicate 32 5) 6). lia. Defined.
